(** * ROM container and rebuild engine: a shallow embedding

    The Python sources [load/lz10util.py], [load/narcutil.py] and
    [load/saverom.py] are transcribed function by function.  Python
    integers are [Z], byte strings are lists of [Byte.byte], exceptions
    are values of an error monad, and every [while] loop carries an
    explicit iteration budget whose sufficiency is proved. *)

From Stdlib Require Import ZArith Lia.
From Stdlib.Strings Require Import Byte.
From stdpp Require Import base list strings gmap.

Local Open Scope Z_scope.

(** ** Python runtime fragment *)

Module Py.

Inductive exn : Set :=
| IndexError
| ValueError
| StructError
| OSError.

(** Outcome of running a piece of code: a value, a raised exception, or
    an exhausted loop budget. *)
Inductive result (A : Type) : Type :=
| Ok (a : A)
| Raise (e : exn)
| OutOfFuel.
Arguments Ok {A} a.
Arguments Raise {A} e.
Arguments OutOfFuel {A}.

Global Instance result_ret : MRet result := λ A a, Ok a.
Global Instance result_bind : MBind result := λ A B k m,
  match m with
  | Ok a => k a
  | Raise e => Raise e
  | OutOfFuel => OutOfFuel
  end.

(** Loop control: the body of a loop either falls through to the next
    iteration or executes [break]. *)
Inductive ctl (S : Type) : Type :=
| Continue (s : S)
| Break (s : S).
Arguments Continue {S} s.
Arguments Break {S} s.

Definition ctl_state {S} (c : ctl S) : S :=
  match c with Continue s => s | Break s => s end.

(** [for x in xs: body] *)
Fixpoint for_each {A S} (xs : list A) (body : A → S → result (ctl S)) (s : S)
  : result S :=
  match xs with
  | [] => Ok s
  | x :: xs' =>
      r ← body x s;
      match r with
      | Break s' => Ok s'
      | Continue s' => for_each xs' body s'
      end
  end.

(** [while cond: body], with at most [fuel] iterations. *)
Fixpoint while_loop {S} (fuel : nat) (cond : S → result bool)
    (body : S → result (ctl S)) (s : S) : result S :=
  cond s ≫= λ c : bool,
  if c then
    match fuel with
    | O => OutOfFuel
    | S fuel' =>
        r ← body s;
        match r with
        | Break s' => Ok s'
        | Continue s' => while_loop fuel' cond body s'
        end
    end
  else Ok s.

Abbreviation byte := Byte.byte.
Abbreviation bytes := (list Byte.byte).

Definition len {A} (l : list A) : Z := Z.of_nat (length l).

(** [range(k)] and [range(a, b)] *)
Definition range2 (a b : Z) : list Z :=
  (λ i, a + Z.of_nat i) <$> seq 0 (Z.to_nat (b - a)).
Definition range (k : Z) : list Z := range2 0 k.
Global Arguments range2 : simpl never.
Global Arguments range : simpl never.

(** The integer a byte string yields when indexed. *)
Definition b2z (b : byte) : Z := Z.of_N (Byte.to_N b).

(** Converting an integer to a byte, as [bytearray.append] and item
    assignment do: values outside [range(256)] raise [ValueError]. *)
Definition byte_of_int (z : Z) : result byte :=
  if (0 <=? z) && (z <? 256) then
    match Byte.of_N (Z.to_N z) with
    | Some b => Ok b
    | None => Raise ValueError
    end
  else Raise ValueError.

(** [l[i]], negative indices counting from the end. *)
Definition getitem {A} (l : list A) (i : Z) : result A :=
  let j := if i <? 0 then i + len l else i in
  if (j <? 0) || (len l <=? j) then Raise IndexError
  else match l !! Z.to_nat j with
       | Some x => Ok x
       | None => Raise IndexError
       end.

(** [l[i] = x] *)
Definition setitem {A} (l : list A) (i : Z) (x : A) : result (list A) :=
  let j := if i <? 0 then i + len l else i in
  if (j <? 0) || (len l <=? j) then Raise IndexError
  else Ok (<[Z.to_nat j := x]> l).

(** Slice bounds are clamped, never an error. *)
Definition clamp_index (n i : Z) : Z :=
  if i <? 0 then Z.max 0 (i + n) else Z.min i n.

(** [l[lo:hi]] *)
Definition slice {A} (l : list A) (lo hi : Z) : list A :=
  let lo' := clamp_index (len l) lo in
  let hi' := clamp_index (len l) hi in
  take (Z.to_nat (hi' - lo')) (drop (Z.to_nat lo') l).

(** [l[lo:hi] = v] on a bytearray. *)
Definition setslice {A} (l : list A) (lo hi : Z) (v : list A) : list A :=
  let lo' := clamp_index (len l) lo in
  let hi' := Z.max lo' (clamp_index (len l) hi) in
  take (Z.to_nat lo') l ++ v ++ drop (Z.to_nat hi') l.

(** [range(a, b, step)] for a positive [step]. *)
Definition range_step (a b step : Z) : list Z :=
  (λ i, a + step * Z.of_nat i) <$> seq 0 (Z.to_nat ((b - a + step - 1) / step)).

(** [for x in xs: body] inside a [try] whose handler needs the state:
    the state reached, and how the loop ended.  An iteration that raises
    leaves the state it started from. *)
Fixpoint for_each_try {A S} (xs : list A) (body : A → S → result (ctl S))
    (s : S) : S * result unit :=
  match xs with
  | [] => (s, Ok ())
  | x :: xs' =>
      match body x s with
      | Ok (Continue s') => for_each_try xs' body s'
      | Ok (Break s') => (s', Ok ())
      | Raise e => (s, Raise e)
      | OutOfFuel => (s, OutOfFuel)
      end
  end.

(** A [dict] with string keys: insertion ordered, assignment to a
    present key keeps its position. *)
Fixpoint dict_set {V} (d : list (string * V)) (k : string) (v : V)
  : list (string * V) :=
  match d with
  | [] => [(k, v)]
  | (k', v') :: d' =>
      if bool_decide (k' = k) then (k, v) :: d'
      else (k', v') :: dict_set d' k v
  end.

Fixpoint dict_get {V} (d : list (string * V)) (k : string) : option V :=
  match d with
  | [] => None
  | (k', v') :: d' => if bool_decide (k' = k) then Some v' else dict_get d' k
  end.

(** [bytes * k] *)
Definition zeros (k : Z) : bytes := replicate (Z.to_nat k) x00.

(** The byte holding the low eight bits of an integer. *)
Definition low_byte (z : Z) : byte :=
  match Byte.of_N (Z.to_N (Z.land z 255)) with
  | Some b => b
  | None => x00
  end.

(** Little-endian layout of the [struct] module: [k] bytes of [v], least
    significant first, and the integer a byte string denotes. *)
Fixpoint le_encode (k : nat) (v : Z) : bytes :=
  match k with
  | O => []
  | S k' => low_byte v :: le_encode k' (Z.shiftr v 8)
  end.

Fixpoint le_decode (bs : bytes) : Z :=
  match bs with
  | [] => 0
  | b :: bs' => Z.lor (b2z b) (Z.shiftl (le_decode bs') 8)
  end.

(** [struct.pack] of one unsigned little-endian field of [k] bytes
    (['<H'], ['<I'], ['<Q'] for 2, 4, 8): a value that does not fit
    raises [struct.error]. *)
Definition pack_le (k : nat) (v : Z) : result bytes :=
  if (0 <=? v) && (v <? 2 ^ (8 * Z.of_nat k)) then Ok (le_encode k v)
  else Raise StructError.

(** [struct.unpack_from] of one such field at offset [off]: a buffer
    that ends before [off + k] raises [struct.error]. *)
Definition unpack_from_le (k : nat) (data : bytes) (off : Z) : result Z :=
  if (0 <=? off) && (off + Z.of_nat k <=? len data)
  then Ok (le_decode (slice data off (off + Z.of_nat k)))
  else Raise StructError.

(** [struct.pack_into] of one such field into a bytearray. *)
Definition pack_into_le (k : nat) (data : bytes) (off v : Z) : result bytes :=
  field ← pack_le k v;
  if (0 <=? off) && (off + Z.of_nat k <=? len data)
  then Ok (setslice data off (off + Z.of_nat k) field)
  else Raise StructError.

End Py.
Import Py.

(** ** [load/lz10util.py] *)

Module LZ10.

(** One pass of the [for _ in range(length)] copy loop of a
    back-reference. *)
Definition copy_step (_ : Z) (s : bytes * Z) : result (ctl (bytes * Z)) :=
  let '(out, copy_pos) := s in
  if (copy_pos <? 0) || (len out <=? copy_pos) then Ok (Break s)
  else
    x ← getitem out copy_pos;
    Ok (Continue (out ++ [x], copy_pos + 1)).

(** One pass of [for bit in range(8)]; the state is [(src_i, out)]. *)
Definition decompress_op (data : bytes) (dst_size flags bit : Z)
    (s : Z * bytes) : result (ctl (Z * bytes)) :=
  let '(src_i, out) := s in
  if (dst_size <=? len out) || (len data <=? src_i) then Ok (Break s)
  else if Z.land flags (Z.shiftr 128 bit) =? 0 then
    x ← getitem data src_i;
    Ok (Continue (src_i + 1, out ++ [x]))
  else if len data <=? src_i + 1 then Ok (Break s)
  else
    b1 ← getitem data src_i;
    b2 ← getitem data (src_i + 1);
    let src_i := src_i + 2 in
    let disp := Z.lor (Z.shiftl (Z.land (b2z b1) 15) 8) (b2z b2) in
    let length := Z.shiftr (b2z b1) 4 + 3 in
    let copy_pos := len out - (disp + 1) in
    '(out, _) ← for_each (range length) copy_step (out, copy_pos);
    Ok (Continue (src_i, out)).

Definition decompress_cond (data : bytes) (dst_size : Z) (s : Z * bytes)
  : result bool :=
  let '(src_i, out) := s in
  Ok ((len out <? dst_size) && (src_i <? len data)).

Definition decompress_group (data : bytes) (dst_size : Z) (s : Z * bytes)
  : result (ctl (Z * bytes)) :=
  let '(src_i, out) := s in
  flags ← getitem data src_i;
  let src_i := src_i + 1 in
  s' ← for_each (range 8) (decompress_op data dst_size (b2z flags))
          (src_i, out);
  Ok (Continue s').

Definition decompress_loop (data : bytes) (dst_size : Z) (fuel : nat)
    (s : Z * bytes) : result (Z * bytes) :=
  while_loop fuel (decompress_cond data dst_size)
    (decompress_group data dst_size) s.

Definition decompress_lz10 (data : bytes) : result bytes :=
  match data with
  | [] => Ok data
  | d0 :: _ =>
      if negb (b2z d0 =? 16) then Ok data
      else
        d1 ← getitem data 1;
        d2 ← getitem data 2;
        d3 ← getitem data 3;
        let dst_size :=
          Z.lor (Z.lor (b2z d1) (Z.shiftl (b2z d2) 8)) (Z.shiftl (b2z d3) 16) in
        '(_, out) ← decompress_loop data dst_size (length data) (4, []);
        Ok (slice out 0 dst_size)
  end.

(** [bytearray.append(v)] *)
Definition append (out : bytes) (v : Z) : result bytes :=
  b ← byte_of_int v;
  Ok (out ++ [b]).

Definition HASH_SIZE : Z := Z.shiftl 1 15.

(** The closure [hash3]; [data] and [n] are its captured variables. *)
Definition hash3 (data : bytes) (n pos : Z) : result Z :=
  if n <=? pos + 2 then Ok 0
  else
    d0 ← getitem data pos;
    d1 ← getitem data (pos + 1);
    d2 ← getitem data (pos + 2);
    Ok (Z.land
          (Z.lor (Z.lor (Z.shiftl (b2z d0) 16) (Z.shiftl (b2z d1) 8)) (b2z d2))
          (HASH_SIZE - 1)).

(** The statement triple [h = hash3(i); lru[i & HASH_SIZE - 1] = head[h];
    head[h] = i], which the source repeats at each insertion point.  The
    pair is [(head, lru)]. *)
Definition hash_insert (data : bytes) (n : Z) (tabs : list Z * list Z) (i : Z)
  : result (list Z * list Z) :=
  let '(head, lru) := tabs in
  h ← hash3 data n i;
  prev ← getitem head h;
  lru ← setitem lru (Z.land i (HASH_SIZE - 1)) prev;
  head ← setitem head h i;
  Ok (head, lru).

Definition max_checks : Z := 64.

(** Condition of the inner [while] of [find_best_match]; [and] evaluates
    its right operand only when the left one holds. *)
Definition match_cond (data : bytes) (j pos limit match_len : Z)
  : result bool :=
  if match_len <? limit then
    a ← getitem data (j + match_len);
    b ← getitem data (pos + match_len);
    Ok (b2z a =? b2z b)
  else Ok false.

(** State of the candidate loop: [(j, checked, best_len, best_dist)]. *)
Definition probe_cond (s : Z * Z * Z * Z) : result bool :=
  let '(j, checked, _, _) := s in
  Ok ((0 <=? j) && (checked <? max_checks)).

Definition probe_body (data : bytes) (n : Z) (lru : list Z) (pos : Z)
    (s : Z * Z * Z * Z) : result (ctl (Z * Z * Z * Z)) :=
  let '(j, checked, best_len, best_dist) := s in
  if 4096 <? pos - j then Ok (Break s)
  else if pos <=? j then Ok (Break s)
  else
    let limit := Z.min 18 (n - pos) in
    match_len ← while_loop 18 (match_cond data j pos limit)
                   (λ m, Ok (Continue (m + 1))) 0;
    if (3 <=? match_len) && (best_len <? match_len) then
      let best_len := match_len in
      let best_dist := pos - j - 1 in
      if best_len =? 18 then Ok (Break (j, checked, best_len, best_dist))
      else
        j ← getitem lru (Z.land j (HASH_SIZE - 1));
        Ok (Continue (j, checked + 1, best_len, best_dist))
    else
      j ← getitem lru (Z.land j (HASH_SIZE - 1));
      Ok (Continue (j, checked + 1, best_len, best_dist)).

(** The closure [find_best_match]; it reads the captured [head] and
    [lru] tables. *)
Definition find_best_match (data : bytes) (n : Z) (head lru : list Z) (pos : Z)
  : result (Z * Z) :=
  if n <=? pos + 2 then Ok (0, 0)
  else
    h ← hash3 data n pos;
    j ← getitem head h;
    '(_, _, best_len, best_dist) ←
      while_loop (Z.to_nat max_checks) probe_cond (probe_body data n lru pos)
        (j, 0, 0, 0);
    Ok (best_len, best_dist).

Record cstate : Type := CState {
  output : bytes;
  head : list Z;
  lru : list Z;
  pos : Z;
  flags : Z
}.

Definition skip_step (data : bytes) (n pos skip : Z) (tabs : list Z * list Z)
  : result (ctl (list Z * list Z)) :=
  if pos + skip <? n - 2 then
    t ← hash_insert data n tabs (pos + skip);
    Ok (Continue t)
  else Ok (Continue tabs).

(** One pass of [for bit in range(8)] of the encoder. *)
Definition compress_op (data : bytes) (n bit : Z) (s : cstate)
  : result (ctl cstate) :=
  if n <=? pos s then Ok (Break s)
  else
    let look_ahead := pos s + 4096 in
    '(head, lru) ←
      (if look_ahead <? n - 2
       then hash_insert data n (head s, lru s) look_ahead
       else Ok (head s, lru s));
    '(best_match_len, best_match_dist) ←
      find_best_match data n head lru (pos s);
    if 3 <=? best_match_len then
      let flags := Z.lor (flags s) (Z.shiftl 1 (7 - bit)) in
      let length_part := Z.land (best_match_len - 3) 15 in
      let dist_high := Z.land (Z.shiftr best_match_dist 8) 15 in
      let dist_low := Z.land best_match_dist 255 in
      output ← append (output s) (Z.lor (Z.shiftl length_part 4) dist_high);
      output ← append output dist_low;
      '(head, lru) ←
        for_each (range2 1 best_match_len) (skip_step data n (pos s))
          (head, lru);
      Ok (Continue (CState output head lru (pos s + best_match_len) flags))
    else
      d ← getitem data (pos s);
      let output := output s ++ [d] in
      '(head, lru) ←
        (if pos s <? n - 2
         then hash_insert data n (head, lru) (pos s)
         else Ok (head, lru));
      Ok (Continue (CState output head lru (pos s + 1) (flags s))).

(** One pass of the outer [while pos < n]: a flag byte is reserved,
    up to eight operations follow, and the flag byte is patched. *)
Definition compress_group (data : bytes) (n : Z) (s : cstate)
  : result (ctl cstate) :=
  let block_header_pos := len (output s) in
  output ← append (output s) 0;
  s' ← for_each (range 8) (compress_op data n)
         (CState output (head s) (lru s) (pos s) 0);
  fb ← byte_of_int (flags s');
  output ← setitem (LZ10.output s') block_header_pos fb;
  Ok (Continue (CState output (head s') (lru s') (pos s') (flags s'))).

Definition prefill_step (data : bytes) (n i : Z) (tabs : list Z * list Z)
  : result (ctl (list Z * list Z)) :=
  t ← hash_insert data n tabs i;
  Ok (Continue t).

Definition compress_lz10 (data : bytes) : result bytes :=
  let n := len data in
  output ← append [] 16;
  output ← append output (Z.land n 255);
  output ← append output (Z.land (Z.shiftr n 8) 255);
  output ← append output (Z.land (Z.shiftr n 16) 255);
  if n =? 0 then Ok output
  else
    let head := replicate (Z.to_nat HASH_SIZE) (-1) in
    let lru := replicate (Z.to_nat HASH_SIZE) (-1) in
    '(head, lru) ←
      for_each (range (Z.min 4096 (n - 2))) (prefill_step data n) (head, lru);
    s ← while_loop (length data) (λ s, Ok (pos s <? n)) (compress_group data n)
          (CState output head lru 0 0);
    Ok (LZ10.output s).

End LZ10.

(** ** [load/narcutil.py] *)

Module NARC.

Definition u16 (b : bytes) (o : Z) : result Z :=
  b0 ← getitem b o;
  b1 ← getitem b (o + 1);
  Ok (Z.lor (b2z b0) (Z.shiftl (b2z b1) 8)).

Definition u32 (b : bytes) (o : Z) : result Z :=
  b0 ← getitem b o;
  b1 ← getitem b (o + 1);
  b2 ← getitem b (o + 2);
  b3 ← getitem b (o + 3);
  Ok (Z.lor (Z.lor (Z.lor (b2z b0) (Z.shiftl (b2z b1) 8))
                   (Z.shiftl (b2z b2) 16))
            (Z.shiftl (b2z b3) 24)).

Definition magic_NARC : bytes := ["N"; "A"; "R"; "C"]%byte.
Definition magic_BTAF : bytes := ["B"; "T"; "A"; "F"]%byte.
Definition magic_BTNF : bytes := ["B"; "T"; "N"; "F"]%byte.
Definition magic_GMIF : bytes := ["G"; "M"; "I"; "F"]%byte.

Definition bytes_eqb (a b : bytes) : bool :=
  bool_decide ((b2z <$> a) = (b2z <$> b)).

(** One pass of [for i in range(count)]. *)
Definition parse_entry_step (blob : bytes) (entries_off i : Z)
    (entries : list (Z * Z)) : result (ctl (list (Z * Z))) :=
  s ← u32 blob (entries_off + i * 8);
  e ← u32 blob (entries_off + i * 8 + 4);
  Ok (Continue (entries ++ [(s, e)])).

Definition parse_narc (blob : bytes) : result (list bytes) :=
  if negb (bytes_eqb (slice blob 0 4) magic_NARC) then Raise ValueError
  else
    let off := 16 in
    if negb (bytes_eqb (slice blob off (off + 4)) magic_BTAF)
    then Raise ValueError
    else
      btaf_size ← u32 blob (off + 4);
      count ← u32 blob (off + 8);
      let entries_off := off + 12 in
      for_each (range count) (parse_entry_step blob entries_off) []
        ≫= λ entries : list (Z * Z),
      let fntb_off := off + btaf_size in
      if negb (bytes_eqb (slice blob fntb_off (fntb_off + 4)) magic_BTNF)
      then Raise ValueError
      else
        fntb_size ← u32 blob (fntb_off + 4);
        let fimg_off := fntb_off + fntb_size in
        if negb (bytes_eqb (slice blob fimg_off (fimg_off + 4)) magic_GMIF)
        then Raise ValueError
        else
          let base := fimg_off + 8 in
          Ok ((λ '(s, e), slice blob (base + s) (base + e)) <$> entries).

(** The closures [align4] and [pad4] of [build_narc]. *)
Definition align4 (n : Z) : Z := Z.land (n + 3) (Z.lnot 3).

Definition pad4 (data : bytes) : bytes :=
  let padding := Z.land (- len data) 3 in
  data ++ zeros padding.

(** One pass of [for file_data in files]; the state is
    [(gmif_data, file_offsets)]. *)
Definition gmif_step (file_data : bytes) (s : bytes * list Z)
  : result (ctl (bytes * list Z)) :=
  let '(gmif_data, file_offsets) := s in
  let file_offsets := file_offsets ++ [len gmif_data] in
  let gmif_data := gmif_data ++ file_data in
  let padding := Z.land (- len gmif_data) 3 in
  let gmif_data :=
    if negb (padding =? 0) then gmif_data ++ zeros padding else gmif_data in
  Ok (Continue (gmif_data, file_offsets)).

(** One pass of [for i in range(file_count)]. *)
Definition btaf_step (file_offsets : list Z) (i : Z) (btaf_entries : bytes)
  : result (ctl bytes) :=
  start_offset ← getitem file_offsets i;
  end_offset ← getitem file_offsets (i + 1);
  p1 ← pack_le 4 start_offset;
  p2 ← pack_le 4 end_offset;
  Ok (Continue (btaf_entries ++ p1 ++ p2)).

Definition build_narc (files : list bytes) : result bytes :=
  '(gmif_data, file_offsets) ← for_each files gmif_step ([], []);
  let file_offsets := file_offsets ++ [len gmif_data] in
  let gmif_size := 8 + len gmif_data in
  gmif_size_b ← pack_le 4 gmif_size;
  let gmif_section := magic_GMIF ++ gmif_size_b ++ gmif_data in
  let file_count := len files in
  btaf_entries ← for_each (range file_count) (btaf_step file_offsets) [];
  let btaf_size := 12 + len btaf_entries in
  let btaf_size := align4 btaf_size in
  let btaf_padding := btaf_size - (12 + len btaf_entries) in
  btaf_size_b ← pack_le 4 btaf_size;
  file_count_b ← pack_le 4 file_count;
  let btaf_section :=
    magic_BTAF ++ (btaf_size_b ++ file_count_b) ++ btaf_entries
    ++ zeros btaf_padding in
  let btnf_size := 16 in
  btnf_size_b ← pack_le 4 btnf_size;
  let btnf_section := magic_BTNF ++ btnf_size_b ++ zeros 8 in
  let total_size :=
    16 + len btaf_section + len btnf_section + len gmif_section in
  let header := magic_NARC in
  let header := header ++ [xfe; xff] in
  let header := header ++ [x00; x01] in
  total_size_b ← pack_le 4 total_size;
  let header := header ++ total_size_b in
  h16 ← pack_le 2 16;
  let header := header ++ h16 in
  h3 ← pack_le 2 3;
  let header := header ++ h3 in
  let narc := header ++ btaf_section ++ btnf_section ++ gmif_section in
  Ok narc.

End NARC.

(** ** [load/saverom.py] *)

Module Saver.

Definition CRC16_TABLE : list Z :=
  [0; 49345; 49537; 320; 49921; 960; 640; 49729; 50689; 1728; 1920; 51009;
   1280; 50625; 50305; 1088; 52225; 3264; 3456; 52545; 3840; 53185; 52865;
   3648; 2560; 51905; 52097; 2880; 51457; 2496; 2176; 51265; 55297; 6336;
   6528; 55617; 6912; 56257; 55937; 6720; 7680; 57025; 57217; 8000; 56577;
   7616; 7296; 56385; 5120; 54465; 54657; 5440; 55041; 6080; 5760; 54849;
   53761; 4800; 4992; 54081; 4352; 53697; 53377; 4160; 61441; 12480; 12672;
   61761; 13056; 62401; 62081; 12864; 13824; 63169; 63361; 14144; 62721;
   13760; 13440; 62529; 15360; 64705; 64897; 15680; 65281; 16320; 16000;
   65089; 64001; 15040; 15232; 64321; 14592; 63937; 63617; 14400; 10240;
   59585; 59777; 10560; 60161; 11200; 10880; 59969; 60929; 11968; 12160;
   61249; 11520; 60865; 60545; 11328; 58369; 9408; 9600; 58689; 9984;
   59329; 59009; 9792; 8704; 58049; 58241; 9024; 57601; 8640; 8320; 57409;
   40961; 24768; 24960; 41281; 25344; 41921; 41601; 25152; 26112; 42689;
   42881; 26432; 42241; 26048; 25728; 42049; 27648; 44225; 44417; 27968;
   44801; 28608; 28288; 44609; 43521; 27328; 27520; 43841; 26880; 43457;
   43137; 26688; 30720; 47297; 47489; 31040; 47873; 31680; 31360; 47681;
   48641; 32448; 32640; 48961; 32000; 48577; 48257; 31808; 46081; 29888;
   30080; 46401; 30464; 47041; 46721; 30272; 29184; 45761; 45953; 29504;
   45313; 29120; 28800; 45121; 20480; 37057; 37249; 20800; 37633; 21440;
   21120; 37441; 38401; 22208; 22400; 38721; 21760; 38337; 38017; 21568;
   39937; 23744; 23936; 40257; 24320; 40897; 40577; 24128; 23040; 39617;
   39809; 23360; 39169; 22976; 22656; 38977; 34817; 18624; 18816; 35137;
   19200; 35777; 35457; 19008; 19968; 36545; 36737; 20288; 36097; 19904;
   19584; 35905; 17408; 33985; 34177; 17728; 34561; 18368; 18048; 34369;
   33281; 17088; 17280; 33601; 16640; 33217; 32897; 16448].

(** One pass of [for byte in data]. *)
Definition crc_step (byte : Byte.byte) (crc : Z) : result (ctl Z) :=
  t ← getitem CRC16_TABLE (Z.land (Z.lxor crc (b2z byte)) 255);
  Ok (Continue (Z.lxor (Z.land (Z.shiftr crc 8) 255) t)).

Definition calculate_crc16 (data : bytes) : result Z :=
  crc ← for_each data crc_step 65535;
  Ok (Z.land crc 65535).

(** The dataclass [NDSHeader]: byte-string fields keep their slice of
    the header, integer fields the value [struct] decodes. *)
Module NDSHeader.

Record t : Type := Make {
  game_title : bytes;
  game_code : bytes;
  maker_code : bytes;
  unit_code : Z;
  device_type : Z;
  device_size : Z;
  reserved1 : bytes;
  rom_version : Z;
  flags : Z;
  arm9_rom_addr : Z;
  arm9_entry_addr : Z;
  arm9_ram_addr : Z;
  arm9_size : Z;
  arm7_rom_addr : Z;
  arm7_entry_addr : Z;
  arm7_ram_addr : Z;
  arm7_size : Z;
  filename_table_addr : Z;
  filename_size : Z;
  fat_addr : Z;
  fat_size : Z;
  arm9_overlay_addr : Z;
  arm9_overlay_size : Z;
  arm7_overlay_addr : Z;
  arm7_overlay_size : Z;
  normal_commands_settings : Z;
  key1_commands_settings : Z;
  icon_title_addr : Z;
  secure_area_crc16 : Z;
  secure_area_loading_timeout : Z;
  arm9_autoload_list_ram_addr : Z;
  arm7_autoload_list_ram_addr : Z;
  secure_area_disable : Z;
  rom_size : Z;
  header_size : Z;
  reserved2 : bytes;
  nintendo_logo : bytes;
  nintendo_logo_crc : Z;
  header_crc16 : Z;
  debug_rom_addr : Z;
  debug_size : Z;
  debug_ram_addr : Z;
  reserved3 : bytes;
  reserved4 : bytes
}.

(** The classmethod [from_bytes]. *)
Definition from_bytes (data : bytes) : result t :=
  if len data <? 512 then Raise ValueError
  else
    let game_title := slice data 0 12 in
    let game_code := slice data 12 16 in
    let maker_code := slice data 16 18 in
    unit_code ← getitem data 18;
    device_type ← getitem data 19;
    device_size ← getitem data 20;
    let reserved1 := slice data 21 30 in
    rom_version ← getitem data 30;
    flags ← getitem data 31;
    arm9_rom_addr ← unpack_from_le 4 data 32;
    arm9_entry_addr ← unpack_from_le 4 data 36;
    arm9_ram_addr ← unpack_from_le 4 data 40;
    arm9_size ← unpack_from_le 4 data 44;
    arm7_rom_addr ← unpack_from_le 4 data 48;
    arm7_entry_addr ← unpack_from_le 4 data 52;
    arm7_ram_addr ← unpack_from_le 4 data 56;
    arm7_size ← unpack_from_le 4 data 60;
    filename_table_addr ← unpack_from_le 4 data 64;
    filename_size ← unpack_from_le 4 data 68;
    fat_addr ← unpack_from_le 4 data 72;
    fat_size ← unpack_from_le 4 data 76;
    arm9_overlay_addr ← unpack_from_le 4 data 80;
    arm9_overlay_size ← unpack_from_le 4 data 84;
    arm7_overlay_addr ← unpack_from_le 4 data 88;
    arm7_overlay_size ← unpack_from_le 4 data 92;
    normal_commands_settings ← unpack_from_le 4 data 96;
    key1_commands_settings ← unpack_from_le 4 data 100;
    icon_title_addr ← unpack_from_le 4 data 104;
    secure_area_crc16 ← unpack_from_le 2 data 108;
    secure_area_loading_timeout ← unpack_from_le 2 data 110;
    arm9_autoload_list_ram_addr ← unpack_from_le 4 data 112;
    arm7_autoload_list_ram_addr ← unpack_from_le 4 data 116;
    secure_area_disable ← unpack_from_le 8 data 120;
    rom_size ← unpack_from_le 4 data 128;
    header_size ← unpack_from_le 4 data 132;
    let reserved2 := slice data 136 192 in
    let nintendo_logo := slice data 192 348 in
    nintendo_logo_crc ← unpack_from_le 2 data 348;
    header_crc16 ← unpack_from_le 2 data 350;
    debug_rom_addr ← unpack_from_le 4 data 352;
    debug_size ← unpack_from_le 4 data 356;
    debug_ram_addr ← unpack_from_le 4 data 360;
    let reserved3 := slice data 364 368 in
    let reserved4 := slice data 368 512 in
    Ok (Make game_title game_code maker_code (b2z unit_code)
          (b2z device_type) (b2z device_size) reserved1 (b2z rom_version)
          (b2z flags) arm9_rom_addr arm9_entry_addr arm9_ram_addr arm9_size
          arm7_rom_addr arm7_entry_addr arm7_ram_addr arm7_size
          filename_table_addr filename_size fat_addr fat_size
          arm9_overlay_addr arm9_overlay_size arm7_overlay_addr
          arm7_overlay_size normal_commands_settings key1_commands_settings
          icon_title_addr secure_area_crc16 secure_area_loading_timeout
          arm9_autoload_list_ram_addr arm7_autoload_list_ram_addr
          secure_area_disable rom_size header_size reserved2 nintendo_logo
          nintendo_logo_crc header_crc16 debug_rom_addr debug_size
          debug_ram_addr reserved3 reserved4).

(** [data[i] = v] with an integer [v]. *)
Definition setitem_int (data : bytes) (i v : Z) : result bytes :=
  b ← byte_of_int v;
  setitem data i b.

(** The method [to_bytes]; [bytearray(512)] is 512 zero bytes. *)
Definition to_bytes (self : t) : result bytes :=
  let data := zeros 512 in
  let data := setslice data 0 12 (game_title self) in
  let data := setslice data 12 16 (game_code self) in
  let data := setslice data 16 18 (maker_code self) in
  data ← setitem_int data 18 (unit_code self);
  data ← setitem_int data 19 (device_type self);
  data ← setitem_int data 20 (device_size self);
  let data := setslice data 21 30 (reserved1 self) in
  data ← setitem_int data 30 (rom_version self);
  data ← setitem_int data 31 (flags self);
  data ← pack_into_le 4 data 32 (arm9_rom_addr self);
  data ← pack_into_le 4 data 36 (arm9_entry_addr self);
  data ← pack_into_le 4 data 40 (arm9_ram_addr self);
  data ← pack_into_le 4 data 44 (arm9_size self);
  data ← pack_into_le 4 data 48 (arm7_rom_addr self);
  data ← pack_into_le 4 data 52 (arm7_entry_addr self);
  data ← pack_into_le 4 data 56 (arm7_ram_addr self);
  data ← pack_into_le 4 data 60 (arm7_size self);
  data ← pack_into_le 4 data 64 (filename_table_addr self);
  data ← pack_into_le 4 data 68 (filename_size self);
  data ← pack_into_le 4 data 72 (fat_addr self);
  data ← pack_into_le 4 data 76 (fat_size self);
  data ← pack_into_le 4 data 80 (arm9_overlay_addr self);
  data ← pack_into_le 4 data 84 (arm9_overlay_size self);
  data ← pack_into_le 4 data 88 (arm7_overlay_addr self);
  data ← pack_into_le 4 data 92 (arm7_overlay_size self);
  data ← pack_into_le 4 data 96 (normal_commands_settings self);
  data ← pack_into_le 4 data 100 (key1_commands_settings self);
  data ← pack_into_le 4 data 104 (icon_title_addr self);
  data ← pack_into_le 2 data 108 (secure_area_crc16 self);
  data ← pack_into_le 2 data 110 (secure_area_loading_timeout self);
  data ← pack_into_le 4 data 112 (arm9_autoload_list_ram_addr self);
  data ← pack_into_le 4 data 116 (arm7_autoload_list_ram_addr self);
  data ← pack_into_le 8 data 120 (secure_area_disable self);
  data ← pack_into_le 4 data 128 (rom_size self);
  data ← pack_into_le 4 data 132 (header_size self);
  let data := setslice data 136 192 (reserved2 self) in
  let data := setslice data 192 348 (nintendo_logo self) in
  data ← pack_into_le 2 data 348 (nintendo_logo_crc self);
  data ← pack_into_le 2 data 350 (header_crc16 self);
  data ← pack_into_le 4 data 352 (debug_rom_addr self);
  data ← pack_into_le 4 data 356 (debug_size self);
  data ← pack_into_le 4 data 360 (debug_ram_addr self);
  let data := setslice data 364 368 (reserved3 self) in
  let data := setslice data 368 512 (reserved4 self) in
  Ok data.

End NDSHeader.

(** [NDSHeader.update_crc], returning the updated header. *)
Definition update_crc (self : NDSHeader.t) : result NDSHeader.t :=
  raw ← NDSHeader.to_bytes self;
  crc ← calculate_crc16 (slice raw 0 350);
  Ok (NDSHeader.Make
        (NDSHeader.game_title self) (NDSHeader.game_code self)
        (NDSHeader.maker_code self) (NDSHeader.unit_code self)
        (NDSHeader.device_type self) (NDSHeader.device_size self)
        (NDSHeader.reserved1 self) (NDSHeader.rom_version self)
        (NDSHeader.flags self) (NDSHeader.arm9_rom_addr self)
        (NDSHeader.arm9_entry_addr self) (NDSHeader.arm9_ram_addr self)
        (NDSHeader.arm9_size self) (NDSHeader.arm7_rom_addr self)
        (NDSHeader.arm7_entry_addr self) (NDSHeader.arm7_ram_addr self)
        (NDSHeader.arm7_size self) (NDSHeader.filename_table_addr self)
        (NDSHeader.filename_size self) (NDSHeader.fat_addr self)
        (NDSHeader.fat_size self) (NDSHeader.arm9_overlay_addr self)
        (NDSHeader.arm9_overlay_size self) (NDSHeader.arm7_overlay_addr self)
        (NDSHeader.arm7_overlay_size self)
        (NDSHeader.normal_commands_settings self)
        (NDSHeader.key1_commands_settings self)
        (NDSHeader.icon_title_addr self) (NDSHeader.secure_area_crc16 self)
        (NDSHeader.secure_area_loading_timeout self)
        (NDSHeader.arm9_autoload_list_ram_addr self)
        (NDSHeader.arm7_autoload_list_ram_addr self)
        (NDSHeader.secure_area_disable self) (NDSHeader.rom_size self)
        (NDSHeader.header_size self) (NDSHeader.reserved2 self)
        (NDSHeader.nintendo_logo self) (NDSHeader.nintendo_logo_crc self)
        crc
        (NDSHeader.debug_rom_addr self) (NDSHeader.debug_size self)
        (NDSHeader.debug_ram_addr self) (NDSHeader.reserved3 self)
        (NDSHeader.reserved4 self)).

(** The assignment [header.rom_size = v]. *)
Definition set_rom_size (self : NDSHeader.t) (v : Z) : NDSHeader.t :=
  NDSHeader.Make
    (NDSHeader.game_title self) (NDSHeader.game_code self)
    (NDSHeader.maker_code self) (NDSHeader.unit_code self)
    (NDSHeader.device_type self) (NDSHeader.device_size self)
    (NDSHeader.reserved1 self) (NDSHeader.rom_version self)
    (NDSHeader.flags self) (NDSHeader.arm9_rom_addr self)
    (NDSHeader.arm9_entry_addr self) (NDSHeader.arm9_ram_addr self)
    (NDSHeader.arm9_size self) (NDSHeader.arm7_rom_addr self)
    (NDSHeader.arm7_entry_addr self) (NDSHeader.arm7_ram_addr self)
    (NDSHeader.arm7_size self) (NDSHeader.filename_table_addr self)
    (NDSHeader.filename_size self) (NDSHeader.fat_addr self)
    (NDSHeader.fat_size self) (NDSHeader.arm9_overlay_addr self)
    (NDSHeader.arm9_overlay_size self) (NDSHeader.arm7_overlay_addr self)
    (NDSHeader.arm7_overlay_size self)
    (NDSHeader.normal_commands_settings self)
    (NDSHeader.key1_commands_settings self)
    (NDSHeader.icon_title_addr self) (NDSHeader.secure_area_crc16 self)
    (NDSHeader.secure_area_loading_timeout self)
    (NDSHeader.arm9_autoload_list_ram_addr self)
    (NDSHeader.arm7_autoload_list_ram_addr self)
    (NDSHeader.secure_area_disable self) v
    (NDSHeader.header_size self) (NDSHeader.reserved2 self)
    (NDSHeader.nintendo_logo self) (NDSHeader.nintendo_logo_crc self)
    (NDSHeader.header_crc16 self)
    (NDSHeader.debug_rom_addr self) (NDSHeader.debug_size self)
    (NDSHeader.debug_ram_addr self) (NDSHeader.reserved3 self)
    (NDSHeader.reserved4 self).

(** The dataclass [FATEntry]. *)
Module FATEntry.

Record t : Type := Make { start_addr : Z; end_addr : Z }.

(** The property [size]. *)
Definition size (self : t) : Z := end_addr self - start_addr self.

(** [struct.unpack('<II', data[0:8])]: a buffer that is not exactly
    eight bytes long raises [struct.error]. *)
Definition from_bytes (data : bytes) : result t :=
  let d := slice data 0 8 in
  if negb (len d =? 8) then Raise StructError
  else Ok (Make (le_decode (slice d 0 4)) (le_decode (slice d 4 8))).

(** [struct.pack('<II', self.start_addr, self.end_addr)] *)
Definition to_bytes (self : t) : result bytes :=
  p1 ← pack_le 4 (start_addr self);
  p2 ← pack_le 4 (end_addr self);
  Ok (p1 ++ p2).

End FATEntry.

(** The dataclass [ModificationRecord]; paths are strings and the
    timestamp is the clock reading taken at registration. *)
Module ModificationRecord.

Record t : Type := Make {
  file_path : string;
  new_data : bytes;
  mod_type : string;
  timestamp : Z;
  fat_index : Z
}.

Definition size (self : t) : Z := len (new_data self).

Definition resolved (self : t) : bool := 0 <=? fat_index self.


End ModificationRecord.




(** A file opened in binary mode: [seek(pos)] followed by [read(size)]
    or [write(data)] on its contents.  Seeking to a negative offset
    raises [OSError]; a negative [size] reads to the end; writing
    nothing changes nothing; writing past the end fills the gap with
    zero bytes. *)
Definition file_read (content : bytes) (pos size : Z) : result bytes :=
  if pos <? 0 then Raise OSError
  else if size <? 0 then Ok (drop (Z.to_nat pos) content)
  else Ok (slice content pos (pos + size)).

Definition file_write (content : bytes) (pos : Z) (data : bytes)
  : result bytes :=
  if pos <? 0 then Raise OSError
  else if bool_decide (data = []) then Ok content
  else
    Ok (take (Z.to_nat pos) (content ++ zeros (pos - len content))
        ++ data ++ drop (Z.to_nat (pos + len data)) content).

Definition _align4 (value : Z) : Z := Z.land (value + 3) (Z.lnot 3).

(** The session: the files on disk by path, and the fields of
    [ROMModificationCache] with its tracker's dictionary. *)
Record world : Type := World {
  files : gmap string bytes;
  _mods : list (string * ModificationRecord.t);
  original_rom_path : option string;
  header : option NDSHeader.t;
  _fat_index_map : list (string * Z);
  _fat_index_map_built : bool
}.

Section Session.

(** Collaborators that are not modelled: path canonicalisation
    ([str(Path.resolve())]), the final path component ([Path.name]),
    the directory walk [FNTParser.parse], which catches its own errors
    and always returns a dictionary, and the lookup of
    [ROMModificationCache.resolve_fat_index] given the index map, the ROM
    path and a file path. *)
Variable resolve_path : string → string.
Variable path_name : string → string.
Variable fnt_parse : bytes → Z → Z → list (string * Z).
Variable resolve_fat_index : list (string * Z) → option string → string → Z.

(** The permissions of the file system, which the session does not
    record: whether a file can be created or replaced at a path (its
    directory exists and may be written), and whether the file copied to
    a path can be opened with mode ['r+b']. *)
Variable creatable : string → bool.
Variable updatable : string → bool.

(** [ModificationTracker.register]: the result and the new dictionary;
    [now] is the reading of [datetime.now]. *)
Definition register (mods : list (string * ModificationRecord.t))
    (file_path : string) (new_data : bytes) (mod_type : string) (now : Z)
  : bool * list (string * ModificationRecord.t) :=
  if bool_decide (new_data = []) then (false, mods)
  else
    let key := resolve_path file_path in
    let record :=
      ModificationRecord.Make (resolve_path file_path) new_data mod_type
        now (-1) in
    (true, dict_set mods key record).

(** [ROMModificationCache.build_file_index] *)
Definition build_file_index (w : world) (rom_path : string) : bool * world :=
  match header w with
  | None => (false, w)
  | Some h =>
      match files w !! rom_path with
      | None => (false, w)
      | Some rom_data =>
          let index :=
            fnt_parse rom_data (NDSHeader.filename_table_addr h)
              (NDSHeader.filename_size h) in
          (true, World (files w) (_mods w) (original_rom_path w) (header w)
                   index true)
      end
  end.

(** One pass of [for i in range(0, len(fat_raw), 8)]. *)
Definition load_fat_step (fat_raw : bytes) (i : Z) (entries : list FATEntry.t)
  : result (ctl (list FATEntry.t)) :=
  if i + 8 <=? len fat_raw then
    e ← FATEntry.from_bytes (slice fat_raw i (i + 8));
    Ok (Continue (entries ++ [e]))
  else Ok (Continue entries).

(** [ROMBuilder._load_fat], given the contents of the original ROM;
    any exception gives [None]. *)
Definition _load_fat (rom : bytes) (h : NDSHeader.t)
  : option (list FATEntry.t) :=
  match
    fat_raw ← file_read rom (NDSHeader.fat_addr h) (NDSHeader.fat_size h);
    for_each (range_step 0 (len fat_raw) 8) (load_fat_step fat_raw) []
  with
  | Ok entries => Some entries
  | _ => None
  end.

(** State of the patch loop: the working table, the end-of-file cursor
    and the contents of the output file. *)
Record astate : Type := AState {
  modified_fat : list FATEntry.t;
  current_rom_end : Z;
  rom_file : bytes
}.

(** One pass of [for i, mod in enumerate(mods)], without a progress
    callback. *)
Definition apply_step (mod_ : ModificationRecord.t) (s : astate)
  : result (ctl astate) :=
  let idx := ModificationRecord.fat_index mod_ in
  if (idx <? 0) || (len (modified_fat s) <=? idx) then Ok (Continue s)
  else
    old_entry ← getitem (modified_fat s) idx;
    let old_size := FATEntry.size old_entry in
    let new_size := ModificationRecord.size mod_ in
    if new_size <=? old_size then
      rom ← file_write (rom_file s) (FATEntry.start_addr old_entry)
              (ModificationRecord.new_data mod_);
      fat ← setitem (modified_fat s) idx
              (FATEntry.Make (FATEntry.start_addr old_entry)
                 (FATEntry.start_addr old_entry + new_size));
      Ok (Continue (AState fat (current_rom_end s) rom))
    else
      let aligned_end := _align4 (current_rom_end s) in
      rom ← (if current_rom_end s <? aligned_end
             then file_write (rom_file s) (current_rom_end s)
                    (replicate (Z.to_nat (aligned_end - current_rom_end s))
                       xff)
             else Ok (rom_file s));
      rom ← file_write rom aligned_end (ModificationRecord.new_data mod_);
      fat ← setitem (modified_fat s) idx
              (FATEntry.Make aligned_end (aligned_end + new_size));
      Ok (Continue (AState fat (aligned_end + new_size) rom)).

(** [ROMBuilder._apply_modifications], given the contents of the output
    file: the returned table, [None] after an exception, and the
    contents the file is left with. *)
Definition _apply_modifications (rom : bytes) (fat_entries : list FATEntry.t)
    (mods : list ModificationRecord.t)
  : option (list FATEntry.t) * bytes :=
  let '(s, status) :=
    for_each_try mods apply_step (AState fat_entries (len rom) rom) in
  match status with
  | Ok _ => (Some (modified_fat s), rom_file s)
  | _ => (None, rom_file s)
  end.



Definition fat_raw_step (entry : FATEntry.t) (fat_raw : bytes)
  : result (ctl bytes) :=
  b ← FATEntry.to_bytes entry;
  Ok (Continue (fat_raw ++ b)).

(** [ROMBuilder._write_fat], given the contents of the output file. *)
Definition _write_fat (rom : bytes) (h : NDSHeader.t)
    (fat_entries : list FATEntry.t) : bool * bytes :=
  match
    fat_raw ← for_each fat_entries fat_raw_step [];
    file_write rom (NDSHeader.fat_addr h) fat_raw
  with
  | Ok rom' => (true, rom')
  | _ => (false, rom)
  end.

(** [ROMBuilder._update_header]: the header object is mutated step by
    step, so an exception leaves the assignments made before it. *)
Definition _update_header (rom : bytes) (h : NDSHeader.t)
  : bool * NDSHeader.t * bytes :=
  let rom_size := len rom in
  let h1 := set_rom_size h rom_size in
  match update_crc h1 with
  | Ok h2 =>
      match
        header_bytes ← NDSHeader.to_bytes h2;
        file_write rom 0 header_bytes
      with
      | Ok rom' => (true, h2, rom')
      | _ => (false, h2, rom)
      end
  | _ => (false, h1, rom)
  end.





Definition with_header (w : world) (h : NDSHeader.t) : world :=
  World (files w) (_mods w) (original_rom_path w) (Some h)
    (_fat_index_map w) (_fat_index_map_built w).



End Session.

End Saver.

(** ** [load/saverom.py]: further methods *)

Module SaverMore.
Import Saver.

(** The property [NDSHeader.fat_entry_count]. *)
Definition fat_entry_count (self : NDSHeader.t) : Z :=
  NDSHeader.fat_size self / 8.

End SaverMore.

(** The rest of [ModificationTracker] and of the session classes. *)
Module Tracker.
Import Saver.

(** [del d[k]]; keys of a dictionary are unique. *)
Fixpoint dict_del {V} (d : list (string * V)) (k : string)
  : list (string * V) :=
  match d with
  | [] => []
  | (k', v') :: d' =>
      if bool_decide (k' = k) then dict_del d' k
      else (k', v') :: dict_del d' k
  end.

Definition MOD_TYPE_LABELS : list (string * string) :=
  [("layer_swap", "Layer Swap"); ("import_tileset", "Import Tileset");
   ("png_transfer", "PNG Transfer"); ("map_modification", "Map Modification");
   ("direct", "Direct Replace")]%string.

(** The property [ModificationRecord.label]. *)
Definition label (m : ModificationRecord.t) : string :=
  default (ModificationRecord.mod_type m)
    (dict_get MOD_TYPE_LABELS (ModificationRecord.mod_type m)).

Definition has_modifications (mods : list (string * ModificationRecord.t))
  : bool :=
  negb (bool_decide (mods = [])).

Definition count (mods : list (string * ModificationRecord.t)) : Z :=
  len mods.

Definition get_all (mods : list (string * ModificationRecord.t))
  : list ModificationRecord.t :=
  mods.*2.

Definition get_by_type (mods : list (string * ModificationRecord.t))
    (mod_type : string) : list ModificationRecord.t :=
  filter (λ m, ModificationRecord.mod_type m = mod_type) (get_all mods).

(** [sum(1 for m in self._mods.values() if m.mod_type == mod_type)] *)
Definition count_by_type (mods : list (string * ModificationRecord.t))
    (mod_type : string) : Z :=
  foldl Z.add 0
    ((λ _, 1)
     <$> filter (λ m, ModificationRecord.mod_type m = mod_type)
           (get_all mods)).

Definition clear (mods : list (string * ModificationRecord.t))
  : list (string * ModificationRecord.t) :=
  [].

(** One entry of the ['files'] list of [get_summary]. *)
Record file_info : Type := FileInfo {
  fi_name : string;
  fi_path : string;
  fi_type : string;
  fi_label : string;
  fi_size : Z;
  fi_timestamp : string;
  fi_resolved : bool;
  fi_fat_index : Z
}.

(** The dictionary [get_summary] returns. *)
Record summary : Type := Summary {
  total_count : Z;
  by_type : list (string * Z);
  total_size : Z;
  summary_files : list file_info
}.

Section Methods.

(** Collaborators that are not modelled: path canonicalisation, the
    final path component, and the clock format [strftime('%H:%M:%S')]. *)
Variable resolve_path : string → string.
Variable path_name : string → string.
Variable strftime : Z → string.

(** [ModificationTracker.remove]: the result and the new dictionary. *)
Definition remove (mods : list (string * ModificationRecord.t))
    (file_path : string) : bool * list (string * ModificationRecord.t) :=
  let key := resolve_path file_path in
  match dict_get mods key with
  | Some _ => (true, dict_del mods key)
  | None => (false, mods)
  end.

(** One pass of [for m in mods] of [get_summary]; the state is
    [(by_type, total_size, files)]. *)
Definition summary_step (s : list (string * Z) * Z * list file_info)
    (m : ModificationRecord.t) : list (string * Z) * Z * list file_info :=
  let '(by_type, total_size, files) := s in
  let t := ModificationRecord.mod_type m in
  (dict_set by_type t (default 0 (dict_get by_type t) + 1),
   total_size + ModificationRecord.size m,
   files
   ++ [FileInfo (path_name (ModificationRecord.file_path m))
         (ModificationRecord.file_path m) t (label m)
         (ModificationRecord.size m)
         (strftime (ModificationRecord.timestamp m))
         (ModificationRecord.resolved m) (ModificationRecord.fat_index m)]).

Definition get_summary (mods : list (string * ModificationRecord.t))
  : summary :=
  let ms := get_all mods in
  let '(by_type, total_size, files) := foldl summary_step ([], 0, []) ms in
  Summary (len ms) by_type total_size files.

(** [register_from_disk]: a file that cannot be read gives [False];
    [now] is the clock reading of the registration. *)
Definition register_from_disk (fs : gmap string bytes)
    (mods : list (string * ModificationRecord.t)) (file_path : string)
    (mod_type : string) (now : Z)
  : bool * list (string * ModificationRecord.t) :=
  match fs !! file_path with
  | None => (false, mods)
  | Some data => register resolve_path mods file_path data mod_type now
  end.

Definition register_map_files (fs : gmap string bytes)
    (mods : list (string * ModificationRecord.t)) (dat_path tex_path : string)
    (mod_type : string) (now1 now2 : Z)
  : bool * list (string * ModificationRecord.t) :=
  let '(ok1, mods) := register_from_disk fs mods dat_path mod_type now1 in
  let '(ok2, mods) := register_from_disk fs mods tex_path mod_type now2 in
  (ok1 && ok2, mods).

End Methods.

End Tracker.

(** [ROMModificationCache] and [ROMSaver]: the session's life cycle. *)
Module ROMSaver.
Import Saver.

(** [ROMModificationCache.set_rom_path] *)
Definition set_rom_path (w : world) (rom_path : string) : world :=
  World (files w) (_mods w) (Some rom_path) (header w) (_fat_index_map w)
    false.

(** [ROMModificationCache.load_header]: the first 512 bytes of the file
    are parsed; a missing file or a short one gives [False] and leaves
    the header as it was. *)
Definition load_header (w : world) (rom_path : string) : bool * world :=
  match files w !! rom_path with
  | None => (false, w)
  | Some content =>
      match raw ← file_read content 0 512; NDSHeader.from_bytes raw with
      | Ok h => (true, with_header w h)
      | _ => (false, w)
      end
  end.

(** [ROMSaver.is_initialized] *)
Definition is_initialized (w : world) : bool :=
  bool_decide (is_Some (original_rom_path w))
  && bool_decide (is_Some (header w)).

(** [ROMModificationCache.clear] *)
Definition clear (w : world) : world :=
  World (files w) [] (original_rom_path w) (header w) [] false.

(** [ROMSaver.reset] *)
Definition reset (w : world) : world :=
  let w := clear w in
  World (files w) (_mods w) None None (_fat_index_map w) false.

Section Methods.

Variable fnt_parse : bytes → Z → Z → list (string * Z).

(** [ROMSaver.initialize] *)
Definition initialize (w : world) (rom_path : string) : bool * world :=
  let w := set_rom_path w rom_path in
  let '(ok, w) := load_header w rom_path in
  if negb ok then (false, w)
  else
    let '(_, w) := build_file_index fnt_parse w rom_path in
    (true, w).

End Methods.

End ROMSaver.

(** ** [load/texparser.py] *)

Module TexParser.
Import LZ10 NARC.

(** Truth value of an [Optional[bytes]]: [None] and [b''] are false. *)
Definition truthy (o : option bytes) : bool :=
  match o with
  | Some (_ :: _) => true
  | _ => false
  end.

(** [for x in xs: if p(x): return x]: the first element satisfying [p]. *)
Fixpoint first_match {A} (p : A → bool) (xs : list A) : option A :=
  match xs with
  | [] => None
  | x :: xs' => if p x then Some x else first_match p xs'
  end.

Definition graphics_magics : list (bytes * string) :=
  [(["R"; "G"; "C"; "N"]%byte, "RGCN"%string);
   (["N"; "C"; "G"; "R"]%byte, "NCGR"%string);
   (["N"; "C"; "B"; "R"]%byte, "NCBR"%string);
   (["N"; "C"; "E"; "R"]%byte, "NCER"%string);
   (["R"; "N"; "A"; "N"]%byte, "RNAN"%string)].

Definition palette_magics : list (bytes * string) :=
  [(["R"; "L"; "C"; "N"]%byte, "RLCN"%string);
   (["N"; "C"; "L"; "R"]%byte, "NCLR"%string);
   (["R"; "T"; "F"; "N"]%byte, "RTFN"%string)].

(** The body shared by [detect_graphics_magic] and
    [detect_palette_magic], which differ in their list of magics only:
    an exact match, then a reversed one, then three bytes in a row. *)
Definition detect_magic (magics : list (bytes * string)) (data : bytes)
  : bool * string :=
  if bool_decide (data = []) || (len data <? 4) then (false, ""%string)
  else
    let magic := slice data 0 4 in
    match first_match (λ m, bytes_eqb magic m.1) magics with
    | Some (_, name) => (true, name)
    | None =>
        let magic_reversed := reverse magic in
        match first_match (λ m, bytes_eqb magic_reversed m.1) magics with
        | Some (_, name) => (true, (name ++ "_REVERSED")%string)
        | None =>
            match
              first_match
                (λ m, bytes_eqb (slice magic 0 3) (slice m.1 0 3)
                      || bytes_eqb (slice magic 1 4) (slice m.1 1 4))
                magics
            with
            | Some (_, name) => (true, (name ++ "_PARTIAL")%string)
            | None => (false, ""%string)
            end
        end
    end.

Definition detect_graphics_magic : bytes → bool * string :=
  detect_magic graphics_magics.

Definition detect_palette_magic : bytes → bool * string :=
  detect_magic palette_magics.

Definition graphics_sections : list bytes :=
  [["R"; "A"; "H"; "C"]%byte; ["C"; "H"; "A"; "R"]%byte;
   ["C"; "R"; "A"; "H"]%byte; reverse ["R"; "A"; "H"; "C"]%byte].

Definition palette_sections : list bytes :=
  [["T"; "T"; "L"; "P"]%byte; ["P"; "L"; "T"; "T"]%byte;
   ["P"; "L"; "T"; "L"]%byte; reverse ["T"; "T"; "L"; "P"]%byte].

(** The body shared by [try_parse_as_graphics] and
    [try_parse_as_palette]. *)
Definition try_parse (magics : list (bytes * string)) (sections : list bytes)
    (data : bytes) : option bytes :=
  if bool_decide (data = []) || (len data <? 32) then None
  else if (detect_magic magics data).1 then Some data
  else if
    existsb
      (λ offset,
         existsb (bytes_eqb (slice data offset (offset + 4))) sections)
      (range2 0 (Z.min (len data - 4) 64))
  then Some data
  else None.

Definition try_parse_as_graphics : bytes → option bytes :=
  try_parse graphics_magics graphics_sections.

Definition try_parse_as_palette : bytes → option bytes :=
  try_parse palette_magics palette_sections.

(** One pass of the first loop of [classify_tileset_data]; the state is
    [(rgcn, rlcn)]. *)
Definition classify_step (bf : bytes) (s : option bytes * option bytes)
  : result (ctl (option bytes * option bytes)) :=
  let '(rgcn, rlcn) := s in
  if bool_decide (bf = []) || (len bf <? 4) then Ok (Continue s)
  else
    let graphics_data :=
      if negb (truthy rgcn) then try_parse_as_graphics bf else None in
    if negb (truthy rgcn) && truthy graphics_data
    then Ok (Continue (graphics_data, rlcn))
    else
      let palette_data :=
        if negb (truthy rlcn) then try_parse_as_palette bf else None in
      if negb (truthy rlcn) && truthy palette_data
      then Ok (Continue (rgcn, palette_data))
      else if truthy rgcn && truthy rlcn then Ok (Break s)
      else Ok (Continue s).

(** One pass of the fallback loop, which goes by size. *)
Definition fallback_step (bf : bytes) (s : option bytes * option bytes)
  : result (ctl (option bytes * option bytes)) :=
  let '(rgcn, rlcn) := s in
  if bool_decide (bf = []) then Ok (Continue s)
  else if negb (truthy rgcn) && (1024 <=? len bf)
  then Ok (Continue (Some bf, rlcn))
  else if negb (truthy rlcn) && (len bf <? 1024)
  then Ok (Continue (rgcn, Some bf))
  else Ok (Continue s).

Definition classify_tileset_data (inner_files : list bytes)
  : result (option bytes * option bytes) :=
  s ← for_each inner_files classify_step (None, None);
  if negb (truthy s.1) || negb (truthy s.2)
  then for_each inner_files fallback_step s
  else Ok s.

(** One entry of the ['tilesets'] list; [error] and [warning] are the
    optional keys. *)
Record tileset : Type := Tileset {
  index : Z;
  RGCN : option bytes;
  RLCN : option bytes;
  NCGR : option bytes;
  NCLR : option bytes;
  error : option string;
  warning : option string
}.

(** The dictionary [parse_tex_map] returns; [failure] is the exception
    behind its ['error'] key. *)
Record tex_result : Type := TexResult {
  tilesets : list tileset;
  tileset_count : Z;
  failure : option exn
}.

Definition tex_prefixes : list bytes :=
  [["T"; "E"; "X"; x00]%byte; ["T"; "E"; "X"; "."]%byte;
   ["T"; "E"; "X"; xff]%byte; ["T"; "E"; "X"; " "]%byte;
   [x00; "X"; "E"; "T"]%byte].

(** [try: parse_narc(blob) except ValueError: [blob]] *)
Definition parse_narc_or_single (blob : bytes) : result (list bytes) :=
  match parse_narc blob with
  | Raise ValueError => Ok [blob]
  | r => r
  end.

(** One pass of [for offset in range(4, len(ts_blob) - 4)]; the state is
    [(parts, current_start)]. *)
Definition split_step (ts_blob : bytes) (offset : Z) (s : list bytes * Z)
  : result (ctl (list bytes * Z)) :=
  let '(parts, current_start) := s in
  let magic := slice ts_blob offset (offset + 4) in
  let is_gfx := (detect_graphics_magic magic).1 in
  let is_pal := (detect_palette_magic magic).1 in
  if is_gfx || is_pal then
    let parts :=
      if current_start <? offset
      then parts ++ [slice ts_blob current_start offset]
      else parts in
    Ok (Continue (parts, offset))
  else Ok (Continue s).

(** The files of one tileset blob. *)
Definition inner_files_of (ts_blob : bytes) : result (list bytes) :=
  if bytes_eqb (slice ts_blob 0 4) magic_NARC then parse_narc_or_single ts_blob
  else if 8 <? len ts_blob then
    '(parts, current_start) ←
      for_each (range2 4 (len ts_blob - 4)) (split_step ts_blob) ([], 0);
    let parts :=
      if current_start <? len ts_blob
      then parts ++ [drop (Z.to_nat current_start) ts_blob]
      else parts in
    if 1 <? len parts then Ok parts else Ok [ts_blob]
  else Ok [ts_blob].

(** One pass of [for i, ts_blob in enumerate(outer_files)]. *)
Definition tileset_step (item : Z * bytes) (tilesets : list tileset)
  : result (ctl (list tileset)) :=
  let '(i, ts_blob) := item in
  if bool_decide (ts_blob = []) then
    Ok (Continue
          (tilesets
           ++ [Tileset i None None None None
                 (Some "Empty tileset data"%string) None]))
  else
    inner_files ← inner_files_of ts_blob;
    '(rgcn, rlcn) ← classify_tileset_data inner_files;
    let entry :=
      if negb (truthy rgcn) && negb (truthy rlcn) then
        Tileset i rgcn rlcn rgcn rlcn
          (Some "No valid graphics or palette data found"%string) None
      else if negb (truthy rgcn) then
        Tileset i rgcn rlcn rgcn rlcn None
          (Some "Graphics data (RGCN) missing"%string)
      else if negb (truthy rlcn) then
        Tileset i rgcn rlcn rgcn rlcn None
          (Some "Palette data (RLCN) missing"%string)
      else Tileset i rgcn rlcn rgcn rlcn None None in
    Ok (Continue (tilesets ++ [entry])).

(** The body of the outer [try] of [parse_tex_map], given the contents
    of the file. *)
Definition parse_tex_body (raw : bytes) : result (list tileset) :=
  dec ← decompress_lz10 raw;
  let dec :=
    if existsb (bytes_eqb (slice dec 0 4)) tex_prefixes then drop 4 dec
    else if bytes_eqb (slice dec 0 3) ["T"; "E"; "X"]%byte then drop 4 dec
    else dec in
  outer_files ← parse_narc_or_single dec;
  for_each (zip (range (len outer_files)) outer_files) tileset_step [].

(** [parse_tex_map]: a file that cannot be read, and any exception of
    the body, give the dictionary with the ['error'] key. *)
Definition parse_tex_map (fs : gmap string bytes) (tex_path : string)
  : tex_result :=
  match fs !! tex_path with
  | None => TexResult [] 0 (Some OSError)
  | Some raw =>
      match parse_tex_body raw with
      | Ok tilesets => TexResult tilesets (len tilesets) None
      | Raise e => TexResult [] 0 (Some e)
      | OutOfFuel => TexResult [] 0 (Some IndexError)
      end
  end.

End TexParser.

(** ** [load/datparser.py] *)

Module DatParser.
Import LZ10 NARC.

Definition LAYER_NAMES : list (Z * string) :=
  [(1, "0X01 LAYER"); (2, "0X02 LAYER"); (3, "0X03 LAYER");
   (4, "0X04 LAYER"); (5, "0X05 LAYER"); (6, "0X06 LAYER");
   (7, "0X07 LAYER"); (8, "0X08 LAYER"); (9, "0X09 LAYER");
   (10, "0X0A LAYER"); (13, "0X0D LAYER"); (14, "0X0E LAYER")]%string.

Definition magic_MPIF : bytes := ["M"; "P"; "I"; "F"]%byte.
Definition magic_TXIF : bytes := ["T"; "X"; "I"; "F"]%byte.
Definition magic_LYR : bytes := ["L"; "Y"; "R"; x00]%byte.
Definition magic_CTA : bytes := ["C"; "T"; "A"; x00]%byte.

(** One entry of the ['layers'] list. *)
Record layer : Type := Layer {
  layer_type : Z;
  layer_name : string;
  layer_data : bytes
}.

(** The dictionary [parse_dat_map] returns. *)
Record dat_result : Type := DatResult {
  mpif : option bytes;
  txif : option bytes;
  layers : list layer;
  cta : option bytes
}.

(** [with open(path, 'rb') as f: raw = f.read()] *)
Definition open_read (fs : gmap string bytes) (path : string) : result bytes :=
  match fs !! path with
  | Some raw => Ok raw
  | None => Raise OSError
  end.

(** One pass of [for bf in outer_files]; the state is
    [(mpif, txif, lyr, cta)]. *)
Definition section_step
    (s : option bytes * option bytes * option bytes * option bytes)
    (bf : bytes)
  : option bytes * option bytes * option bytes * option bytes :=
  let '(mpif, txif, lyr, cta) := s in
  let sig := slice bf 0 4 in
  if bytes_eqb sig magic_MPIF then (Some bf, txif, lyr, cta)
  else if bytes_eqb sig magic_TXIF then (mpif, Some bf, lyr, cta)
  else if bytes_eqb sig magic_LYR then (mpif, txif, Some bf, cta)
  else if bytes_eqb sig magic_CTA then (mpif, txif, lyr, Some bf)
  else s.

(** One pass of [for blob in lyr_stage1]. *)
Definition candidate_step (blob : bytes) (final_candidates : list bytes)
  : result (ctl (list bytes)) :=
  if bytes_eqb (slice blob 0 4) magic_NARC then
    inner ← parse_narc blob;
    Ok (Continue (final_candidates ++ inner))
  else Ok (Continue (final_candidates ++ [blob])).

Section Parse.

(** [format(ltype, '02X')] *)
Variable format_02X : Z → string.

(** The body of [for lb in final_candidates]: the entry appended. *)
Definition layer_of (lb : bytes) : layer :=
  let ltype := if 4 <=? len lb then le_decode (slice lb 0 4) else -1 in
  let name :=
    match list_find (λ kv, kv.1 = ltype) LAYER_NAMES with
    | Some (_, (_, n)) => n
    | None => ("UNKNOWN_" ++ format_02X ltype)%string
    end in
  Layer ltype name lb.

(** The [if lyr:] block: the layers of the [LYR] section. *)
Definition layers_of (lyr : option bytes) : result (list layer) :=
  if TexParser.truthy lyr then
    let lyr := default [] lyr in
    let lyr :=
      if bytes_eqb (slice lyr 0 4) magic_LYR then drop 4 lyr else lyr in
    (lyr_stage1 ← parse_narc lyr;
     final_candidates ← for_each lyr_stage1 candidate_step [];
     Ok (layer_of <$> final_candidates) : result (list layer))
  else Ok [].

Definition parse_dat_map (fs : gmap string bytes) (dat_path : string)
  : result dat_result :=
  raw ← open_read fs dat_path;
  dec ← decompress_lz10 raw;
  outer_files ← parse_narc dec;
  match foldl section_step (None, None, None, None) outer_files with
  | (mpif, txif, lyr, cta) =>
      layers ← layers_of lyr;
      Ok (DatResult mpif txif layers cta)
  end.

End Parse.

End DatParser.

(** ** [load/importtileset.py] *)

Module ImportTileset.
Import TexParser.

Definition magic_TXIF : bytes := ["T"; "X"; "I"; "F"]%byte.

(** [struct.unpack('<H', data)[0]]: the buffer must be exactly two bytes
    long. *)
Definition unpack_u16 (data : bytes) : result Z :=
  if len data =? 2 then Ok (le_decode data) else Raise StructError.

Definition create_txif_rule (texture_id rule_type unknown1 unknown2 : Z)
  : result bytes :=
  let rule := zeros 8 in
  rule ← pack_into_le 2 rule 0 rule_type;
  rule ← pack_into_le 2 rule 2 texture_id;
  rule ← pack_into_le 2 rule 4 unknown1;
  rule ← pack_into_le 2 rule 6 unknown2;
  Ok rule.

Definition add_txif_rule (existing_txif : bytes) (new_texture_id rule_type : Z)
  : result bytes :=
  if bool_decide (existing_txif = []) || (len existing_txif <? 8)
  then Raise ValueError
  else
    let magic := slice existing_txif 0 4 in
    if negb (NARC.bytes_eqb magic magic_TXIF) then Raise ValueError
    else
      rule_count ← unpack_u16 (slice existing_txif 4 6);
      override_flag ← unpack_u16 (slice existing_txif 6 8);
      new_rule ← create_txif_rule new_texture_id rule_type 0 0;
      let new_txif := [] in
      let new_txif := new_txif ++ magic_TXIF in
      count_b ← pack_le 2 (rule_count + 1);
      let new_txif := new_txif ++ count_b in
      flag_b ← pack_le 2 override_flag;
      let new_txif := new_txif ++ flag_b in
      let new_txif := new_txif ++ drop 8 existing_txif in
      let new_txif := new_txif ++ new_rule in
      Ok new_txif.

(** [determine_next_texture_id]; its [dat_result] argument is not used. *)
Definition determine_next_texture_id (tex_result : tex_result) : Z :=
  tileset_count tex_result.

(** [add_tileset_to_tex]: the dictionary after the call. *)
Definition add_tileset_to_tex (tex_result : tex_result)
    (rgcn_data rlcn_data : bytes) : TexParser.tex_result :=
  let new_index := len (tilesets tex_result) in
  let new_tileset :=
    Tileset new_index (Some rgcn_data) (Some rlcn_data)
      (Some rgcn_data) (Some rlcn_data) None None in
  let tilesets := tilesets tex_result ++ [new_tileset] in
  TexResult tilesets (len tilesets) (failure tex_result).

(** One pass of [for ts in tilesets] of [build_tex_file]. *)
Definition build_tex_step (ts : tileset) (tileset_narcs : list bytes)
  : result (ctl (list bytes)) :=
  let rgcn := RGCN ts in
  let rlcn := RLCN ts in
  if negb (truthy rgcn) || negb (truthy rlcn) then Ok (Continue tileset_narcs)
  else
    inner_narc ← NARC.build_narc [default [] rgcn; default [] rlcn];
    Ok (Continue (tileset_narcs ++ [inner_narc])).

Definition build_tex_file (tex_result : tex_result) : result bytes :=
  let tilesets := tilesets tex_result in
  tileset_narcs ← for_each tilesets build_tex_step [];
  outer_narc ← NARC.build_narc tileset_narcs;
  let tex_file := ["T"; "E"; "X"; x00]%byte ++ outer_narc in
  Ok tex_file.

Definition build_dat_file (dat_result : DatParser.dat_result)
  : result bytes :=
  let sections := [] in
  let sections :=
    if truthy (DatParser.mpif dat_result)
    then sections ++ [default [] (DatParser.mpif dat_result)]
    else sections in
  let sections :=
    if truthy (DatParser.txif dat_result)
    then sections ++ [default [] (DatParser.txif dat_result)]
    else sections in
  let layers := DatParser.layers dat_result in
  sections ←
    (if bool_decide (layers = []) then Ok sections
     else
       let layer_data_list := DatParser.layer_data <$> layers in
       inner_layer_narc ← NARC.build_narc layer_data_list;
       let lyr_section := ["L"; "Y"; "R"; x00]%byte ++ inner_layer_narc in
       Ok (sections ++ [lyr_section]));
  let sections :=
    if truthy (DatParser.cta dat_result)
    then sections ++ [default [] (DatParser.cta dat_result)]
    else sections in
  main_narc ← NARC.build_narc sections;
  Ok main_narc.

(** [range(a, b, step)] for a positive step. *)
Definition range_step (a b step : Z) : list Z :=
  (λ i, a + step * i) <$> range ((b - a + step - 1) / step).

Definition graphics_magics : list (bytes * string) :=
  [(["R"; "G"; "C"; "N"]%byte, "RGCN"%string);
   (["N"; "C"; "G"; "R"]%byte, "NCGR"%string);
   (["N"; "C"; "B"; "R"]%byte, "NCBR"%string);
   (["N"; "C"; "E"; "R"]%byte, "NCER"%string)].

Definition palette_magics : list (bytes * string) :=
  [(["R"; "L"; "C"; "N"]%byte, "RLCN"%string);
   (["N"; "C"; "L"; "R"]%byte, "NCLR"%string);
   (["R"; "T"; "F"; "N"]%byte, "RTFN"%string)].

(** The last loop of [detect_file_type], over the offsets it visits. *)
Fixpoint scan_sections (file_data : bytes) (offsets : list Z)
  : option (string * string) :=
  match offsets with
  | [] => None
  | offset :: offsets' =>
      let section_magic := slice file_data offset (offset + 4) in
      if existsb (NARC.bytes_eqb section_magic)
           [["R"; "A"; "H"; "C"]%byte; ["C"; "H"; "A"; "R"]%byte]
      then Some ("RGCN", "RGCN_BY_SECTION")%string
      else if existsb (NARC.bytes_eqb section_magic)
                [["T"; "T"; "L"; "P"]%byte; ["P"; "L"; "T"; "T"]%byte]
      then Some ("RLCN", "RLCN_BY_SECTION")%string
      else scan_sections file_data offsets'
  end.

Section Validate.

(** [magic.hex().upper()] and [str] of an integer, used in messages. *)
Variable hex_upper : bytes → string.
Variable str_int : Z → string.

Definition detect_file_type (file_data : bytes) : string * string :=
  if bool_decide (file_data = []) || (len file_data <? 4)
  then ("UNKNOWN", "Too small")%string
  else
    let magic := slice file_data 0 4 in
    match first_match (λ m, NARC.bytes_eqb magic m.1) graphics_magics with
    | Some (_, name) => ("RGCN"%string, name)
    | None =>
    match first_match (λ m, NARC.bytes_eqb magic m.1) palette_magics with
    | Some (_, name) => ("RLCN"%string, name)
    | None =>
    let magic_reversed := reverse magic in
    match
      first_match (λ m, NARC.bytes_eqb magic_reversed m.1) graphics_magics
    with
    | Some (_, name) => ("RGCN", name ++ "_REVERSED")%string
    | None =>
    match
      first_match (λ m, NARC.bytes_eqb magic_reversed m.1) palette_magics
    with
    | Some (_, name) => ("RLCN", name ++ "_REVERSED")%string
    | None =>
    match
      first_match (λ m, NARC.bytes_eqb (slice magic 0 3) (slice m.1 0 3))
        graphics_magics
    with
    | Some (_, name) => ("RGCN", name ++ "_PARTIAL")%string
    | None =>
    match
      first_match (λ m, NARC.bytes_eqb (slice magic 0 3) (slice m.1 0 3))
        palette_magics
    with
    | Some (_, name) => ("RLCN", name ++ "_PARTIAL")%string
    | None =>
    match
      scan_sections file_data
        (range_step 0 (Z.min (len file_data - 4) 128) 4)
    with
    | Some r => r
    | None => ("UNKNOWN", "Magic: " ++ hex_upper magic)%string
    end end end end end end end.

Definition validate_tileset_files (rgcn_data rlcn_data : bytes)
  : bool * string :=
  let errors : list string := [] in
  let '(rgcn_type, rgcn_format) := detect_file_type rgcn_data in
  let errors :=
    if negb (String.eqb rgcn_type "RGCN")
    then errors ++ ["RGCN file invalid: detected as " ++ rgcn_type ++ " ("
                    ++ rgcn_format ++ ")"]%string
    else errors in
  let errors :=
    if len rgcn_data <? 32
    then errors ++ ["RGCN file too small: " ++ str_int (len rgcn_data)
                    ++ " bytes"]%string
    else errors in
  let '(rlcn_type, rlcn_format) := detect_file_type rlcn_data in
  let errors :=
    if negb (String.eqb rlcn_type "RLCN")
    then errors ++ ["RLCN file invalid: detected as " ++ rlcn_type ++ " ("
                    ++ rlcn_format ++ ")"]%string
    else errors in
  let errors :=
    if len rlcn_data <? 32
    then errors ++ ["RLCN file too small: " ++ str_int (len rlcn_data)
                    ++ " bytes"]%string
    else errors in
  if negb (bool_decide (errors = [])) then (false, String.concat "; " errors)
  else (true, "Valid"%string).

End Validate.

End ImportTileset.

(** * Verification *)

(** ** Facts about the runtime fragment *)

Section PyFacts.

Lemma bind_Ok {A B} (m : result A) (k : A → result B) (b : B) :
  m ≫= k = Ok b → ∃ a, m = Ok a ∧ k a = Ok b.
Proof. destruct m as [a| |]; simpl; [eauto | discriminate..]. Qed.

Lemma bind_ret {A B} (a : A) (k : A → result B) : Ok a ≫= k = k a.
Proof. reflexivity. Qed.

Lemma len_nonneg {A} (l : list A) : 0 ≤ len l.
Proof. unfold len. lia. Qed.

Lemma len_app {A} (l k : list A) : len (l ++ k) = len l + len k.
Proof. unfold len. rewrite length_app. lia. Qed.

Lemma len_cons {A} (x : A) (l : list A) : len (x :: l) = 1 + len l.
Proof. unfold len. simpl. lia. Qed.

Lemma len_nil {A} : len (@nil A) = 0.
Proof. reflexivity. Qed.

Lemma len_singleton {A} (x : A) : len [x] = 1.
Proof. reflexivity. Qed.

Lemma len_take {A} (l : list A) (k : Z) :
  0 ≤ k ≤ len l → len (take (Z.to_nat k) l) = k.
Proof. unfold len. intros H. rewrite length_take. lia. Qed.

Lemma getitem_lookup {A} (l : list A) (i : Z) (x : A) :
  0 ≤ i → l !! Z.to_nat i = Some x → getitem l i = Ok x.
Proof.
  intros Hi Hl. unfold getitem.
  apply lookup_lt_Some in Hl as Hlt.
  destruct (Z.ltb_spec i 0); [lia|].
  destruct (Z.ltb_spec i 0); [lia|].
  destruct (Z.leb_spec (len l) i); [unfold len in *; lia|].
  simpl. by rewrite Hl.
Qed.

Lemma getitem_inrange {A} (l : list A) (i : Z) :
  0 ≤ i < len l → ∃ x, getitem l i = Ok x ∧ l !! Z.to_nat i = Some x.
Proof.
  intros Hi. destruct (lookup_lt_is_Some_2 l (Z.to_nat i)) as [x Hx].
  { unfold len in Hi. lia. }
  exists x. split; [|done]. apply getitem_lookup; [lia|done].
Qed.

Lemma getitem_app_mid {A} (pre post : list A) (x : A) :
  getitem (pre ++ x :: post) (len pre) = Ok x.
Proof.
  apply getitem_lookup; [apply len_nonneg|].
  unfold len. rewrite Nat2Z.id. by rewrite list_lookup_middle.
Qed.

Lemma setitem_inrange {A} (l : list A) (i : Z) (x : A) :
  0 ≤ i < len l → setitem l i x = Ok (<[Z.to_nat i := x]> l).
Proof.
  intros Hi. unfold setitem.
  destruct (Z.ltb_spec i 0); [lia|].
  destruct (Z.ltb_spec i 0); [lia|].
  destruct (Z.leb_spec (len l) i); [lia|]. done.
Qed.

Lemma b2z_range (b : byte) : 0 ≤ b2z b < 256.
Proof.
  unfold b2z. pose proof (Byte.to_N_bounded b) as H.
  apply N.lt_succ_r in H. lia.
Qed.

Lemma b2z_inj (a b : byte) : b2z a = b2z b → a = b.
Proof.
  unfold b2z. intros H. apply N2Z.inj in H.
  assert (Some a = Some b) as [= ->]; [|done].
  by rewrite <- !Byte.of_to_N, H.
Qed.

Lemma byte_of_int_inrange (z : Z) :
  0 ≤ z < 256 → ∃ b, byte_of_int z = Ok b ∧ b2z b = z.
Proof.
  intros Hz. unfold byte_of_int.
  destruct (Z.leb_spec 0 z); [|lia]. destruct (Z.ltb_spec z 256); [|lia]. simpl.
  destruct (Byte.of_N (Z.to_N z)) as [b|] eqn:Hb.
  - exists b. split; [done|]. unfold b2z.
    apply Byte.to_of_N in Hb. rewrite Hb. lia.
  - apply Byte.of_N_None_iff in Hb. lia.
Qed.

Lemma byte_of_int_b2z (b : byte) : byte_of_int (b2z b) = Ok b.
Proof.
  destruct (byte_of_int_inrange (b2z b) (b2z_range b)) as (b' & -> & Hb).
  by apply b2z_inj in Hb as ->.
Qed.

Lemma elem_of_range2 (a b x : Z) : x ∈ range2 a b ↔ a ≤ x < b.
Proof.
  unfold range2. rewrite list_elem_of_fmap. split.
  - intros (i & -> & Hi). apply elem_of_seq in Hi. lia.
  - intros H. exists (Z.to_nat (x - a)). split; [lia|].
    apply elem_of_seq. lia.
Qed.

Lemma elem_of_range (k x : Z) : x ∈ range k ↔ 0 ≤ x < k.
Proof. apply elem_of_range2. Qed.

Lemma length_range2 (a b : Z) : length (range2 a b) = Z.to_nat (b - a).
Proof. unfold range2. by rewrite length_fmap, length_seq. Qed.

Lemma NoDup_range2 (a b : Z) : NoDup (range2 a b).
Proof.
  unfold range2. apply NoDup_fmap_2; [|apply NoDup_seq].
  intros i j. lia.
Qed.

(** Invariant rule for [for] loops. *)
Lemma for_each_inv {A S} (I : S → Prop) (xs : list A)
    (body : A → S → result (ctl S)) (s : S) :
  I s →
  (∀ x s, x ∈ xs → I s → ∃ r, body x s = Ok r ∧ I (ctl_state r)) →
  ∃ s', for_each xs body s = Ok s' ∧ I s'.
Proof.
  revert s. induction xs as [|x xs IH]; intros s Hs Hbody; simpl.
  - eauto.
  - destruct (Hbody x s) as (r & -> & Hr); [left|done|]. simpl.
    destruct r as [s'|s']; simpl in *; [|eauto].
    apply IH; [done|]. intros y t Hy. apply Hbody. by right.
Qed.

(** Invariant and variant rule for [while] loops: a budget at least the
    variant is enough. *)
Lemma while_loop_inv {S} (I Q : S → Prop) (m : S → nat) (fuel : nat)
    (cond : S → result bool) (body : S → result (ctl S)) (s : S) :
  I s → (m s ≤ fuel)%nat →
  (∀ s, I s → ∃ c, cond s = Ok c ∧
     if c then (0 < m s)%nat ∧ ∃ r, body s = Ok r ∧
               match r with
               | Continue s' => I s' ∧ (m s' < m s)%nat
               | Break s' => Q s'
               end
     else Q s) →
  ∃ s', while_loop fuel cond body s = Ok s' ∧ Q s'.
Proof.
  intros Hs Hm Hstep. revert s Hs Hm.
  induction fuel as [|fuel IH]; intros s Hs Hm; simpl;
    destruct (Hstep s Hs) as (c & -> & Hc); simpl; destruct c.
  - lia.
  - eauto.
  - destruct Hc as (_ & r & -> & Hr). simpl. destruct r as [s'|s'].
    + destruct Hr. apply IH; [done|lia].
    + eauto.
  - eauto.
Qed.

End PyFacts.

(** ** Bit-level facts

    Facts over small finite ranges are checked by enumeration. *)

Section BitFacts.

Lemma range_forallb (P : Z → bool) (k : Z) :
  forallb P (range k) = true → ∀ z, 0 ≤ z < k → P z = true.
Proof.
  intros H z Hz. rewrite forallb_forall in H. apply H.
  apply list_elem_of_In, elem_of_range, Hz.
Qed.

Lemma land_255_range (x : Z) : 0 ≤ Z.land x 255 < 256.
Proof.
  change 255 with (Z.ones 8). rewrite Z.land_ones by lia.
  apply Z.mod_pos_bound. lia.
Qed.

Lemma land_mask15_range (x : Z) : 0 ≤ Z.land x (Z.shiftl 1 15 - 1) < Z.shiftl 1 15.
Proof.
  change (Z.shiftl 1 15 - 1) with (Z.ones 15). rewrite Z.land_ones by lia.
  apply Z.mod_pos_bound. reflexivity.
Qed.

Lemma land_15_small (x : Z) : 0 ≤ x < 16 → Z.land x 15 = x.
Proof.
  intros H. change 15 with (Z.ones 4). rewrite Z.land_ones by lia.
  apply Z.mod_small. lia.
Qed.

(** The first byte of a back-reference: length code in the high nibble,
    high distance bits in the low nibble. *)
Definition nibble_check (lp dh : Z) : bool :=
  let b1 := Z.lor (Z.shiftl lp 4) dh in
  (0 <=? b1) && (b1 <? 256) && (Z.shiftr b1 4 =? lp) && (Z.land b1 15 =? dh).

Lemma nibble_pack (lp dh : Z) :
  0 ≤ lp < 16 → 0 ≤ dh < 16 →
  let b1 := Z.lor (Z.shiftl lp 4) dh in
  0 ≤ b1 < 256 ∧ Z.shiftr b1 4 = lp ∧ Z.land b1 15 = dh.
Proof.
  intros Hlp Hdh.
  assert (forallb (λ lp, forallb (nibble_check lp) (range 16)) (range 16)
          = true) as H by (vm_compute; reflexivity).
  pose proof (range_forallb _ _ (range_forallb _ _ H lp Hlp) dh Hdh) as Hc.
  unfold nibble_check in Hc. simpl. lia.
Qed.

Definition dist_check (bd : Z) : bool :=
  let dh := Z.land (Z.shiftr bd 8) 15 in
  let dl := Z.land bd 255 in
  (0 <=? dh) && (dh <? 16) && (Z.lor (Z.shiftl dh 8) dl =? bd).

Lemma dist_split (bd : Z) :
  0 ≤ bd < 4096 →
  let dh := Z.land (Z.shiftr bd 8) 15 in
  let dl := Z.land bd 255 in
  0 ≤ dh < 16 ∧ Z.lor (Z.shiftl dh 8) dl = bd.
Proof.
  intros Hbd.
  assert (forallb dist_check (range 4096) = true) as H
    by (vm_compute; reflexivity).
  pose proof (range_forallb _ _ H bd Hbd) as Hc.
  unfold dist_check in Hc. simpl. lia.
Qed.

(** The flag byte: operation [bit] of a group owns mask [128 >> bit],
    which the encoder sets as [1 << 7 - bit]. *)
Definition flag_check (f b b' : Z) : bool :=
  let f' := Z.lor f (Z.shiftl 1 (7 - b)) in
  (0 <=? f') && (f' <? 256)
  && negb (Z.land f' (Z.shiftr 128 b) =? 0)
  && ((b =? b') ||
      Bool.eqb (Z.land f' (Z.shiftr 128 b') =? 0)
               (Z.land f (Z.shiftr 128 b') =? 0)).

Lemma flag_set (f b b' : Z) :
  0 ≤ f < 256 → 0 ≤ b < 8 → 0 ≤ b' < 8 →
  let f' := Z.lor f (Z.shiftl 1 (7 - b)) in
  0 ≤ f' < 256 ∧
  (Z.land f' (Z.shiftr 128 b) =? 0) = false ∧
  (b ≠ b' →
   (Z.land f' (Z.shiftr 128 b') =? 0) = (Z.land f (Z.shiftr 128 b') =? 0)).
Proof.
  intros Hf Hb Hb'.
  assert (forallb (λ f, forallb (λ b, forallb (flag_check f b) (range 8))
                          (range 8)) (range 256) = true) as H
    by (vm_compute; reflexivity).
  pose proof (range_forallb _ _
                (range_forallb _ _ (range_forallb _ _ H f Hf) b Hb) b' Hb')
    as Hc.
  unfold flag_check in Hc. simpl.
  apply andb_true_iff in Hc as [Hc Hother].
  apply andb_true_iff in Hc as [Hc Hset].
  split; [lia|]. split; [by apply negb_true_iff in Hset|].
  intros Hne. apply orb_true_iff in Hother as [Heq|Heq]; [lia|].
  by apply Bool.eqb_prop in Heq.
Qed.

(** The 24-bit length header reassembles to the length it was split
    from. *)
Lemma header_length_roundtrip (n : Z) :
  0 ≤ n < 2 ^ 24 →
  Z.lor (Z.lor (Z.land n 255) (Z.shiftl (Z.land (Z.shiftr n 8) 255) 8))
        (Z.shiftl (Z.land (Z.shiftr n 16) 255) 16) = n.
Proof.
  intros Hn. apply Z.bits_inj'. intros i Hi.
  rewrite !Z.lor_spec, !Z.shiftl_spec, !Z.land_spec by lia.
  change 255 with (Z.ones 8).
  destruct (Z.lt_ge_cases i 8) as [H8|H8].
  - rewrite Z.testbit_ones_nonneg by lia.
    rewrite (Z.testbit_neg_r _ (i - 8)), (Z.testbit_neg_r _ (i - 16)) by lia.
    destruct (Z.ltb_spec i 8); [|lia].
    simpl. by rewrite andb_true_r, !orb_false_r.
  - rewrite (Z.testbit_ones_nonneg 8 i) by lia.
    destruct (Z.ltb_spec i 8); [lia|]. rewrite andb_false_r. simpl.
    destruct (Z.lt_ge_cases i 16) as [H16|H16].
    + rewrite (Z.testbit_neg_r _ (i - 16)) by lia.
      rewrite Z.shiftr_spec, Z.testbit_ones_nonneg by lia.
      destruct (Z.ltb_spec (i - 8) 8); [|lia].
      rewrite andb_true_r, orb_false_r. f_equal. lia.
    + rewrite !Z.shiftr_spec, !Z.testbit_ones_nonneg by lia.
      destruct (Z.ltb_spec (i - 8) 8); [lia|]. rewrite andb_false_r. simpl.
      replace (i - 16 + 16) with i by lia.
      destruct (Z.ltb_spec (i - 16) 8).
      * by rewrite andb_true_r.
      * rewrite andb_false_r. symmetry.
        destruct (Z.eq_dec n 0) as [->|Hn0]; [apply Z.bits_0|].
        apply Z.bits_above_log2; [lia|].
        assert (Z.log2 n < 24); [|lia].
        apply Z.log2_lt_pow2; lia.
Qed.

End BitFacts.

(** Reduce the binds whose first computation has returned. *)
Ltac rsimpl :=
  repeat match goal with
         | |- context [Ok ?a ≫= ?k] =>
             change (Ok a ≫= k) with (k a); cbv beta iota
         end.

(** ** The decoder *)

Module LZ10Facts.
Import LZ10.

(** The declared length read from bytes 1..3 of the header. *)
Definition declared_size (d1 d2 d3 : byte) : Z :=
  Z.lor (Z.lor (b2z d1) (Z.shiftl (b2z d2) 8)) (Z.shiftl (b2z d3) 16).


Lemma copy_step_total (i : Z) (s : bytes * Z) :
  ∃ r, copy_step i s = Ok r.
Proof.
  destruct s as [out cp]. unfold copy_step.
  destruct (Z.ltb_spec cp 0); simpl; [eauto|].
  destruct (Z.leb_spec (len out) cp); simpl; [eauto|].
  destruct (getitem_inrange out cp) as (x & -> & _); [lia|]. simpl. eauto.
Qed.

Lemma copy_loop_total (xs : list Z) (s : bytes * Z) :
  ∃ s', for_each xs copy_step s = Ok s'.
Proof.
  destruct (for_each_inv (λ _, True) xs copy_step s) as (s' & Hs' & _);
    [done| |eauto].
  intros x t _ _. destruct (copy_step_total x t) as [r Hr]. eauto.
Qed.

(** Every read of one decoder operation is guarded: it cannot fault,
    and the read cursor stays inside the input. *)
Lemma decompress_op_total (data : bytes) (dst_size flags bit lo : Z)
    (s : Z * bytes) :
  0 ≤ lo → lo ≤ s.1 ≤ len data →
  ∃ r, decompress_op data dst_size flags bit s = Ok r ∧
       lo ≤ (ctl_state r).1 ≤ len data.
Proof.
  destruct s as [src_i out]. simpl. intros Hlo Hs. unfold decompress_op.
  destruct (_ || _) eqn:Hbrk; [eauto|].
  apply orb_false_iff in Hbrk as [_ Hsrc]. apply Z.leb_gt in Hsrc.
  destruct (_ =? 0).
  - destruct (getitem_inrange data src_i) as (x & -> & _); [lia|].
    simpl. eexists. split; [done|]. simpl. lia.
  - destruct (Z.leb_spec (len data) (src_i + 1)); [eauto|].
    destruct (getitem_inrange data src_i) as (b1 & -> & _); [lia|].
    destruct (getitem_inrange data (src_i + 1)) as (b2 & -> & _); [lia|].
    simpl.
    match goal with |- context [for_each ?xs copy_step ?s] =>
      destruct (copy_loop_total xs s) as [[out' cp'] ->] end.
    simpl. eexists. split; [done|]. simpl. lia.
Qed.

Lemma decompress_loop_total (data : bytes) (dst_size : Z) (fuel : nat)
    (s : Z * bytes) :
  0 ≤ s.1 ≤ len data → (length data ≤ fuel)%nat →
  ∃ s', decompress_loop data dst_size fuel s = Ok s'.
Proof.
  intros Hs Hfuel.
  destruct (while_loop_inv (λ s, 0 ≤ s.1 ≤ len data) (λ _, True)
              (λ s, Z.to_nat (len data - s.1)) fuel
              (decompress_cond data dst_size)
              (decompress_group data dst_size) s) as (s' & Hs' & _);
    [done|unfold len in *; lia| |by exists s'].
  clear s Hs. intros [src_i out] Hs. simpl in Hs.
  unfold decompress_cond. eexists. split; [done|].
  destruct (_ && _) eqn:Hc; [|done].
  apply andb_true_iff in Hc as [_ Hc]. apply Z.ltb_lt in Hc.
  split; [simpl; lia|]. unfold decompress_group.
  destruct (getitem_inrange data src_i) as (fb & -> & _); [lia|]. rsimpl.
  destruct (for_each_inv (λ s, src_i + 1 ≤ s.1 ≤ len data) (range 8)
              (decompress_op data dst_size (b2z fb)) (src_i + 1, out))
    as (s' & -> & Hs'); [simpl; lia| |].
  - intros x t _ Ht. apply decompress_op_total; [lia|done].
  - rsimpl. eexists. split; [done|]. simpl. lia.
Qed.

(** ** The encoder *)

Definition tabs_ok (t : list Z * list Z) : Prop :=
  len t.1 = HASH_SIZE ∧ len t.2 = HASH_SIZE.

(** A back-reference of length [bl] and encoded distance [bd] is sound
    at [pos]: it stays inside the window and the data, and the bytes it
    names repeat at [pos]. *)
Definition good_match (data : bytes) (pos bl bd : Z) : Prop :=
  3 ≤ bl ≤ 18 ∧ pos + bl ≤ len data ∧ 0 ≤ bd < 4096 ∧ bd < pos ∧
  ∀ k, 0 ≤ k < bl →
       data !! Z.to_nat (pos - bd - 1 + k) = data !! Z.to_nat (pos + k).

Definition sinv (data : bytes) (s : cstate) : Prop :=
  tabs_ok (head s, lru s) ∧ 0 ≤ pos s ≤ len data ∧ 0 ≤ flags s < 256.

Lemma HASH_SIZE_eq : HASH_SIZE = 32768.
Proof. reflexivity. Qed.

Lemma hash3_ok (data : bytes) (pos : Z) :
  0 ≤ pos → ∃ h, hash3 data (len data) pos = Ok h ∧ 0 ≤ h < HASH_SIZE.
Proof.
  intros Hpos. unfold hash3.
  destruct (Z.leb_spec (len data) (pos + 2)).
  - exists 0. rewrite HASH_SIZE_eq. split; [done|lia].
  - destruct (getitem_inrange data pos) as (d0 & -> & _); [lia|].
    destruct (getitem_inrange data (pos + 1)) as (d1 & -> & _); [lia|].
    destruct (getitem_inrange data (pos + 2)) as (d2 & -> & _); [lia|].
    rsimpl. eexists. split; [done|]. apply land_mask15_range.
Qed.

Lemma hash_insert_ok (data : bytes) (t : list Z * list Z) (i : Z) :
  0 ≤ i → tabs_ok t →
  ∃ t', hash_insert data (len data) t i = Ok t' ∧ tabs_ok t'.
Proof.
  intros Hi [Hh Hl]. destruct t as [hd lr]. simpl in Hh, Hl.
  unfold hash_insert.
  destruct (hash3_ok data i Hi) as (h & -> & Hh3). rsimpl.
  destruct (getitem_inrange hd h) as (prev & -> & _); [lia|]. rsimpl.
  pose proof (land_mask15_range i) as Hidx. fold HASH_SIZE in Hidx.
  rewrite setitem_inrange by lia. rsimpl.
  rewrite setitem_inrange by lia. rsimpl.
  eexists. split; [done|].
  unfold tabs_ok, len in *. simpl. by rewrite !length_insert.
Qed.

Lemma match_loop_spec (data : bytes) (j pos limit : Z) :
  0 ≤ j < pos → 0 ≤ limit ≤ 18 → pos + limit ≤ len data →
  ∃ m, while_loop 18 (match_cond data j pos limit)
         (λ m, Ok (Continue (m + 1))) 0 = Ok m ∧
       0 ≤ m ≤ limit ∧
       ∀ k, 0 ≤ k < m →
            data !! Z.to_nat (j + k) = data !! Z.to_nat (pos + k).
Proof.
  intros Hj Hlim Hend.
  set (I := λ m : Z, 0 ≤ m ≤ limit ∧
              ∀ k, 0 ≤ k < m →
                   data !! Z.to_nat (j + k) = data !! Z.to_nat (pos + k)).
  apply (while_loop_inv I I (λ m, Z.to_nat (limit - m))).
  - split; [lia|]. intros k Hk. lia.
  - lia.
  - intros m [Hm Heq]. unfold match_cond.
    destruct (Z.ltb_spec m limit); [|eexists; split; [done|by split]].
    destruct (getitem_inrange data (j + m)) as (a & -> & Ha); [lia|].
    destruct (getitem_inrange data (pos + m)) as (b & -> & Hb); [lia|].
    rsimpl. eexists. split; [done|].
    destruct (Z.eqb_spec (b2z a) (b2z b)) as [Hab|_]; [|by split].
    apply b2z_inj in Hab as ->.
    split; [lia|]. eexists. split; [done|]. split; [|lia].
    split; [lia|]. intros k Hk.
    destruct (Z.eq_dec k m) as [->|]; [congruence|]. apply Heq. lia.
Qed.

Lemma probe_loop_spec (data : bytes) (lru : list Z) (pos j : Z) :
  0 ≤ pos → pos + 2 < len data → len lru = HASH_SIZE →
  ∃ j' checked bl bd,
    while_loop (Z.to_nat max_checks) probe_cond
      (probe_body data (len data) lru pos) (j, 0, 0, 0)
    = Ok (j', checked, bl, bd) ∧
    (bl = 0 ∨ good_match data pos bl bd).
Proof.
  intros Hpos Hn Hlru.
  set (Q := λ s : Z * Z * Z * Z,
              s.1.2 = 0 ∨ good_match data pos s.1.2 s.2).
  set (I := λ s : Z * Z * Z * Z, 0 ≤ s.1.1.2 ≤ max_checks ∧ Q s).
  destruct (while_loop_inv I Q (λ s, Z.to_nat (max_checks - s.1.1.2))
              (Z.to_nat max_checks) probe_cond
              (probe_body data (len data) lru pos) (j, 0, 0, 0))
    as ([[[j' checked] bl] bd] & Hrun & HQ).
  - split; [unfold max_checks; simpl; lia|]. by left.
  - simpl. lia.
  - intros [[[j0 checked] bl] bd] [Hchk HQ]. simpl in Hchk.
    unfold probe_cond. eexists. split; [done|].
    destruct (_ && _) eqn:Hc; [|done].
    apply andb_true_iff in Hc as [Hj0 Hlt].
    apply Z.leb_le in Hj0. apply Z.ltb_lt in Hlt.
    split; [simpl; lia|]. unfold probe_body.
    destruct (Z.ltb_spec 4096 (pos - j0)); [by eexists|].
    destruct (Z.leb_spec pos j0); [by eexists|].
    destruct (match_loop_spec data j0 pos (Z.min 18 (len data - pos)))
      as (m & -> & Hm & Heq); [lia..|]. rsimpl.
    pose proof (land_mask15_range j0) as Hidx. fold HASH_SIZE in Hidx.
    destruct (getitem_inrange lru (Z.land j0 (HASH_SIZE - 1)))
      as (jn & Hjn & _); [lia|].
    assert (3 ≤ m → good_match data pos m (pos - j0 - 1)) as Hgood.
    { intros H3. repeat split; try lia.
      intros k Hk. rewrite <- Heq by lia. f_equal. lia. }
    destruct (_ && _) eqn:Hbetter.
    + apply andb_true_iff in Hbetter as [H3 _]. apply Z.leb_le in H3.
      destruct (m =? 18).
      * eexists. split; [done|]. right. by apply Hgood.
      * rewrite Hjn. rsimpl. eexists. split; [done|].
        split; [|simpl; lia]. split; [simpl; lia|]. right. by apply Hgood.
    + rewrite Hjn. rsimpl. eexists. split; [done|].
      split; [|simpl; lia]. split; [simpl; lia|]. done.
  - exists j', checked, bl, bd. by split.
Qed.

Lemma find_best_match_spec (data : bytes) (hd lr : list Z) (pos : Z) :
  0 ≤ pos → tabs_ok (hd, lr) →
  ∃ bl bd, find_best_match data (len data) hd lr pos = Ok (bl, bd) ∧
           (bl = 0 ∨ good_match data pos bl bd).
Proof.
  intros Hpos [Hh Hl]. simpl in Hh, Hl. unfold find_best_match.
  destruct (Z.leb_spec (len data) (pos + 2)).
  { exists 0, 0. split; [done|by left]. }
  destruct (hash3_ok data pos Hpos) as (h & -> & Hh3). rsimpl.
  destruct (getitem_inrange hd h) as (j & -> & _); [lia|]. rsimpl.
  destruct (probe_loop_spec data lr pos j) as (j' & c & bl & bd & -> & Hm);
    [lia..|done|].
  rsimpl. by exists bl, bd.
Qed.

(** What one encoder operation does: it appends the bytes [tb] of a
    literal or of a sound back-reference and advances [pos] past the
    bytes they stand for. *)
Definition op_step (data : bytes) (bit : Z) (s s' : cstate) (tb : bytes)
  : Prop :=
  output s' = output s ++ tb ∧ sinv data s' ∧ pos s < pos s' ∧
  ((∃ d, tb = [d] ∧ data !! Z.to_nat (pos s) = Some d ∧
         pos s' = pos s + 1 ∧ flags s' = flags s)
   ∨
   (∃ bl bd b1 b2,
       tb = [b1; b2] ∧ good_match data (pos s) bl bd ∧
       pos s' = pos s + bl ∧
       flags s' = Z.lor (flags s) (Z.shiftl 1 (7 - bit)) ∧
       Z.shiftr (b2z b1) 4 + 3 = bl ∧
       Z.lor (Z.shiftl (Z.land (b2z b1) 15) 8) (b2z b2) = bd)).

Lemma append_ok (out : bytes) (v : Z) :
  0 ≤ v < 256 → ∃ b, append out v = Ok (out ++ [b]) ∧ b2z b = v.
Proof.
  intros Hv. unfold append.
  destruct (byte_of_int_inrange v Hv) as (b & -> & Hb). by exists b.
Qed.

Lemma cond_insert_ok (c : bool) (data : bytes) (t : list Z * list Z) (i : Z) :
  0 ≤ i → tabs_ok t →
  ∃ t', (if c then hash_insert data (len data) t i else Ok t) = Ok t' ∧
        tabs_ok t'.
Proof.
  intros Hi Ht. destruct c; [by apply hash_insert_ok|by exists t].
Qed.

Lemma skip_loop_ok (data : bytes) (pos bl : Z) (t : list Z * list Z) :
  0 ≤ pos → tabs_ok t →
  ∃ t', for_each (range2 1 bl) (skip_step data (len data) pos) t = Ok t' ∧
        tabs_ok t'.
Proof.
  intros Hpos Ht. apply (for_each_inv tabs_ok); [done|].
  intros skip t0 Hskip Ht0. apply elem_of_range2 in Hskip.
  unfold skip_step.
  destruct (cond_insert_ok (pos + skip <? len data - 2) data t0 (pos + skip))
    as (t' & Ht' & Hok); [lia|done|].
  destruct (_ <? _); [rewrite Ht'; rsimpl|injection Ht' as <-]; eauto.
Qed.

Lemma compress_op_spec (data : bytes) (bit : Z) (s : cstate) :
  sinv data s → 0 ≤ bit < 8 →
  (pos s = len data ∧ compress_op data (len data) bit s = Ok (Break s))
  ∨
  (pos s < len data ∧
   ∃ s' tb, compress_op data (len data) bit s = Ok (Continue s') ∧
            op_step data bit s s' tb).
Proof.
  intros (Htabs & Hpos & Hflags) Hbit. unfold compress_op.
  destruct (Z.leb_spec (len data) (pos s)); [left; split; [lia|done]|].
  right. split; [done|].
  destruct (cond_insert_ok (pos s + 4096 <? len data - 2) data
              (head s, lru s) (pos s + 4096)) as ([hd lr] & -> & Ht1);
    [lia|done|]. rsimpl.
  destruct (find_best_match_spec data hd lr (pos s))
    as (bl & bd & -> & Hm); [lia|done|]. rsimpl.
  destruct (Z.leb_spec 3 bl) as [H3|H3].
  - destruct Hm as [->|Hm]; [lia|].
    pose proof Hm as (Hbl & Hend & Hbd & Hback & _).
    rewrite (land_15_small (bl - 3)) by lia.
    destruct (dist_split bd Hbd) as [Hdh Hdist].
    destruct (nibble_pack (bl - 3) (Z.land (Z.shiftr bd 8) 15))
      as (Hb1 & Hhi & Hlo); [lia|done|].
    destruct (append_ok (output s)
                (Z.lor (Z.shiftl (bl - 3) 4) (Z.land (Z.shiftr bd 8) 15)))
      as (b1 & -> & Hb1v); [done|]. rsimpl.
    destruct (append_ok (output s ++ [b1]) (Z.land bd 255))
      as (b2 & -> & Hb2v); [apply land_255_range|]. rsimpl.
    destruct (skip_loop_ok data (pos s) bl (hd, lr))
      as ([hd' lr'] & -> & Ht2); [lia|done|]. rsimpl.
    destruct (flag_set (flags s) bit bit) as (Hf' & _); [done..|].
    eexists _, [b1; b2]. split; [done|].
    split; [simpl; by rewrite <- app_assoc|].
    split; [repeat split; simpl; try apply Ht2; lia|].
    split; [simpl; lia|].
    right. exists bl, bd, b1, b2. simpl. rewrite Hb1v, Hb2v.
    do 4 (split; [done|]). split; [lia|]. by rewrite Hlo.
  - destruct (getitem_inrange data (pos s)) as (d & -> & Hd); [lia|]. rsimpl.
    destruct (cond_insert_ok (pos s <? len data - 2) data (hd, lr) (pos s))
      as ([hd' lr'] & -> & Ht2); [lia|done|]. rsimpl.
    eexists _, [d]. split; [done|].
    split; [done|].
    split; [repeat split; simpl; try apply Ht2; lia|].
    split; [simpl; lia|].
    left. by exists d.
Qed.

(** ** The decoder run on the encoder's output *)

(** A prefix of the data, by Python length. *)
Definition prefix_of (data : bytes) (p : Z) : bytes := take (Z.to_nat p) data.

Lemma len_prefix_of (data : bytes) (p : Z) :
  0 ≤ p ≤ len data → len (prefix_of data p) = p.
Proof. apply len_take. Qed.

Lemma prefix_of_snoc (data : bytes) (p : Z) (x : byte) :
  0 ≤ p → data !! Z.to_nat p = Some x →
  prefix_of data p ++ [x] = prefix_of data (p + 1).
Proof.
  intros Hp Hx. unfold prefix_of.
  replace (Z.to_nat (p + 1)) with (S (Z.to_nat p)) by lia.
  by rewrite (take_S_r _ _ x).
Qed.

Lemma copy_step_eval (i : Z) (out : bytes) (cp : Z) (x : byte) :
  0 ≤ cp < len out → out !! Z.to_nat cp = Some x →
  copy_step i (out, cp) = Ok (Continue (out ++ [x], cp + 1)).
Proof.
  intros Hcp Hx. unfold copy_step.
  destruct (Z.ltb_spec cp 0); [lia|].
  destruct (Z.leb_spec (len out) cp); [lia|]. cbn [orb].
  by rewrite (getitem_lookup _ _ x) by (done || lia).
Qed.

(** Equalities between results that differ in integer arithmetic only. *)
Ltac zeq :=
  lazymatch goal with
  | |- Ok _ = Ok _ => f_equal; zeq
  | |- Continue _ = Continue _ => f_equal; zeq
  | |- (_, _) = (_, _) => f_equal; zeq
  | |- prefix_of _ _ = prefix_of _ _ => f_equal; lia
  | |- _ => first [done | lia]
  end.

(** Replaying a sound back-reference on the prefix decoded so far
    extends the prefix by the referenced bytes, also when source and
    destination overlap. *)
Lemma copy_loop_exact (data : bytes) (xs : list Z) (p bd : Z) :
  0 ≤ bd < p → p + len xs ≤ len data →
  (∀ k, 0 ≤ k < len xs →
        data !! Z.to_nat (p - bd - 1 + k) = data !! Z.to_nat (p + k)) →
  ∃ cp, for_each xs copy_step (prefix_of data p, p - bd - 1)
        = Ok (prefix_of data (p + len xs), cp).
Proof.
  revert p. induction xs as [|x xs IH]; intros p Hbd Hend Heq.
  - exists (p - bd - 1). rewrite len_nil, Z.add_0_r. done.
  - rewrite len_cons in *. pose proof (len_nonneg xs) as Hxs.
    cbn [for_each].
    destruct (lookup_lt_is_Some_2 data (Z.to_nat p)) as [d Hd].
    { unfold len in *. lia. }
    rewrite (copy_step_eval _ _ _ d); [|rewrite len_prefix_of; lia|].
    2:{ unfold prefix_of. rewrite lookup_take_lt by lia.
        specialize (Heq 0). rewrite !Z.add_0_r in Heq.
        rewrite Heq by lia. done. }
    rsimpl. rewrite prefix_of_snoc by (done || lia).
    destruct (IH (p + 1)) as (cp & Hcp); [lia|lia| |].
    { intros k Hk. specialize (Heq (k + 1)).
      replace (p + 1 - bd - 1 + k) with (p - bd - 1 + (k + 1)) by lia.
      replace (p + 1 + k) with (p + (k + 1)) by lia. apply Heq. lia. }
    replace (p + 1 - bd - 1) with (p - bd - 1 + 1) in Hcp by lia.
    rewrite Hcp. exists cp. zeq.
Qed.

Lemma len_range (k : Z) : 0 ≤ k → len (range k) = k.
Proof. intros Hk. unfold len, range. rewrite length_range2. lia. Qed.

(** The decoder undoes one encoder operation.  [c] is any input that
    carries the operation's bytes [tb] at the read cursor, and [f] any
    flag byte that agrees with the encoder's on this operation's bit. *)
Lemma decompress_op_step (data : bytes) (bit : Z) (s s' : cstate)
    (tb pre rest : bytes) (f : Z) :
  sinv data s → 0 ≤ bit < 8 → pos s < len data →
  (Z.land (flags s) (Z.shiftr 128 bit) =? 0) = true →
  op_step data bit s s' tb →
  (Z.land f (Z.shiftr 128 bit) =? 0)
  = (Z.land (flags s') (Z.shiftr 128 bit) =? 0) →
  decompress_op (pre ++ tb ++ rest) (len data) f bit
    (len pre, prefix_of data (pos s))
  = Ok (Continue (len pre + len tb, prefix_of data (pos s'))).
Proof.
  intros (_ & Hpos & Hflags) Hbit Hlt Hclear (Hout & Hinv' & Hadv & Hop) Hf.
  unfold decompress_op. rewrite len_prefix_of by lia.
  rewrite !len_app. pose proof (len_nonneg pre). pose proof (len_nonneg rest).
  destruct (Z.leb_spec (len data) (pos s)); [lia|].
  destruct Hop as [(d & -> & Hd & Hpos' & Hfl')
                  |(bl & bd & b1 & b2 & -> & Hm & Hpos' & Hfl' & Hlen & Hdisp)].
  - rewrite !len_cons, len_nil.
    destruct (Z.leb_spec (len pre + (1 + 0 + len rest)) (len pre)); [lia|].
    cbn [orb]. rewrite Hf, Hfl', Hclear.
    rewrite <- app_comm_cons, getitem_app_mid. rsimpl.
    rewrite prefix_of_snoc by (done || lia). rewrite Hpos'.
    zeq.
  - rewrite !len_cons, len_nil.
    destruct (Z.leb_spec (len pre + (1 + (1 + 0) + len rest)) (len pre));
      [lia|].
    cbn [orb]. rewrite Hf, Hfl'.
    destruct (flag_set (flags s) bit bit) as (_ & -> & _); [done..|].
    destruct (Z.leb_spec (len pre + (1 + (1 + 0) + len rest)) (len pre + 1));
      [lia|].
    rewrite <- !app_comm_cons, getitem_app_mid. rsimpl.
    replace (pre ++ b1 :: b2 :: [] ++ rest) with ((pre ++ [b1]) ++ b2 :: rest)
      by (by rewrite <- app_assoc).
    replace (len pre + 1) with (len (pre ++ [b1]))
      by (rewrite len_app, len_cons, len_nil; lia).
    rewrite getitem_app_mid. rsimpl.
    rewrite Hlen, Hdisp.
    destruct Hm as (Hbl & Hend & Hbd & Hback & Heq).
    replace (pos s - (bd + 1)) with (pos s - bd - 1) by lia.
    destruct (copy_loop_exact data (range bl) (pos s) bd) as (cp & ->);
      [lia|rewrite len_range; lia| |].
    { intros k. rewrite len_range by lia. apply Heq. }
    rsimpl. rewrite len_range, Hpos' by lia. zeq.
Qed.

Lemma decompress_op_full (c : bytes) (dst_size f bit src_i : Z) (out : bytes) :
  dst_size ≤ len out →
  decompress_op c dst_size f bit (src_i, out) = Ok (Break (src_i, out)).
Proof.
  intros H. unfold decompress_op.
  by destruct (Z.leb_spec dst_size (len out)); [|lia].
Qed.

Lemma op_step_other_flags (data : bytes) (bit b : Z) (s s' : cstate)
    (tb : bytes) :
  sinv data s → 0 ≤ bit < 8 → 0 ≤ b < 8 → bit ≠ b →
  op_step data bit s s' tb →
  (Z.land (flags s') (Z.shiftr 128 b) =? 0)
  = (Z.land (flags s) (Z.shiftr 128 b) =? 0).
Proof.
  intros (_ & _ & Hflags) Hbit Hb Hne (_ & _ & _ & Hop).
  destruct Hop as [(d & _ & _ & _ & ->)
                  |(bl & bd & b1 & b2 & _ & _ & _ & -> & _)]; [done|].
  destruct (flag_set (flags s) bit b) as (_ & _ & Hother); [done..|].
  by apply Hother.
Qed.

(** A run of encoder operations over the flag bits [bits], and the
    decoder's run over the same bits on any input carrying the bytes
    produced. *)
Lemma compress_bits_spec (data : bytes) (bits : list Z) (s : cstate) :
  (∀ b, b ∈ bits → 0 ≤ b < 8) → NoDup bits → sinv data s →
  (∀ b, b ∈ bits → (Z.land (flags s) (Z.shiftr 128 b) =? 0) = true) →
  ∃ s' body,
    for_each bits (compress_op data (len data)) s = Ok s' ∧
    sinv data s' ∧ output s' = output s ++ body ∧
    pos s ≤ pos s' ∧
    (bits ≠ [] → pos s < len data → pos s < pos s') ∧
    (∀ b, 0 ≤ b < 8 → b ∉ bits →
          (Z.land (flags s') (Z.shiftr 128 b) =? 0)
          = (Z.land (flags s) (Z.shiftr 128 b) =? 0)) ∧
    (∀ pre rest f,
        (∀ b, b ∈ bits →
              (Z.land f (Z.shiftr 128 b) =? 0)
              = (Z.land (flags s') (Z.shiftr 128 b) =? 0)) →
        for_each bits (decompress_op (pre ++ body ++ rest) (len data) f)
          (len pre, prefix_of data (pos s))
        = Ok (len pre + len body, prefix_of data (pos s'))).
Proof.
  revert s. induction bits as [|bit bits IH];
    intros s Hrange Hnodup Hinv Hclear.
  { exists s, []. rewrite app_nil_r.
    split; [done|]. split; [done|]. split; [done|]. split; [lia|].
    split; [done|]. split; [done|].
    intros pre rest f _. cbn [for_each]. rewrite len_nil. zeq. }
  apply NoDup_cons in Hnodup as [Hfresh Hnodup].
  assert (0 ≤ bit < 8) as Hbit by (apply Hrange; left).
  pose proof Hinv as (_ & Hpos & _).
  cbn [for_each].
  destruct (compress_op_spec data bit s Hinv Hbit)
    as [[Hend ->]|(Hlt & s1 & tb & -> & Hop)]; rsimpl.
  { exists s, []. rewrite app_nil_r.
    split; [done|]. split; [done|]. split; [done|]. split; [lia|].
    split; [lia|]. split; [done|].
    intros pre rest f _. cbn [for_each].
    rewrite decompress_op_full by (rewrite len_prefix_of; lia).
    rsimpl. rewrite len_nil. zeq. }
  pose proof Hop as (Hout1 & Hinv1 & Hadv1 & _).
  destruct (IH s1)
    as (s' & body & -> & Hinv' & Hout' & Hmono & _ & Hfl' & Hdec);
    [intros b Hb; apply Hrange; by right|done|done| |].
  { intros b Hb.
    rewrite (op_step_other_flags data bit b s s1 tb); try done.
    - apply Hclear. by right.
    - apply Hrange. by right.
    - intros ->. done. }
  exists s', (tb ++ body). split; [done|]. split; [done|].
  split; [by rewrite Hout', Hout1, <- app_assoc|].
  split; [lia|]. split; [intros _ _; lia|].
  split.
  { intros b Hb Hnotin. rewrite Hfl'.
    - apply (op_step_other_flags data bit b s s1 tb); try done.
      intros ->. apply Hnotin. by left.
    - done.
    - intros Hin. apply Hnotin. by right. }
  intros pre rest f Hf. cbn [for_each].
  rewrite <- (app_assoc tb body rest).
  rewrite (decompress_op_step data bit s s1 tb pre (body ++ rest) f);
    try done.
  - rsimpl.
    replace (pre ++ tb ++ body ++ rest) with ((pre ++ tb) ++ body ++ rest)
      by (by rewrite <- app_assoc).
    replace (len pre + len tb) with (len (pre ++ tb)) by apply len_app.
    rewrite Hdec; [rewrite !len_app; zeq|].
    intros b Hb. apply Hf. by right.
  - apply Hclear. by left.
  - rewrite Hf by (by left). apply Hfl'; done.
Qed.

Lemma insert_placeholder {A} (l r : list A) (x y : A) :
  <[Z.to_nat (len l) := x]> ((l ++ [y]) ++ r) = l ++ x :: r.
Proof.
  unfold len. rewrite Nat2Z.id, <- app_assoc.
  rewrite insert_app_r_alt by lia. by rewrite Nat.sub_diag.
Qed.

(** One group of the encoder: the patched flag byte followed by the
    bytes of up to eight operations; the decoder's group undoes it. *)
Lemma compress_group_spec (data : bytes) (s : cstate) :
  sinv data s → pos s < len data →
  ∃ s' body,
    compress_group data (len data) s = Ok (Continue s') ∧
    sinv data s' ∧ output s' = output s ++ body ∧ 1 ≤ len body ∧
    pos s < pos s' ∧
    (∀ pre rest,
        decompress_group (pre ++ body ++ rest) (len data)
          (len pre, prefix_of data (pos s))
        = Ok (Continue (len pre + len body, prefix_of data (pos s')))).
Proof.
  intros (Htabs & Hpos & _) Hlt. unfold compress_group.
  destruct (append_ok (output s) 0) as (b0 & -> & _); [lia|]. rsimpl.
  destruct (compress_bits_spec data (range 8)
              (CState (output s ++ [b0]) (head s) (lru s) (pos s) 0))
    as (s1 & body & -> & Hinv1 & Hout1 & _ & Hadv & _ & Hdec).
  - intros b Hb. by apply elem_of_range in Hb.
  - apply NoDup_range2.
  - repeat split; simpl; try apply Htabs; lia.
  - intros b _. done.
  - rsimpl. cbn [output pos] in *.
    pose proof Hinv1 as (Htabs1 & Hpos1 & Hfl1).
    destruct (byte_of_int_inrange (flags s1) Hfl1) as (fb & -> & Hfb). rsimpl.
    assert (setitem (output s1) (len (output s)) fb
            = Ok (output s ++ fb :: body)) as ->.
    { rewrite setitem_inrange; [by rewrite Hout1, insert_placeholder|].
      rewrite Hout1, !len_app, len_singleton.
      pose proof (len_nonneg (output s)). pose proof (len_nonneg body).
      lia. }
    rsimpl.
    exists (CState (output s ++ fb :: body) (head s1) (lru s1) (pos s1)
              (flags s1)), (fb :: body).
    split; [done|]. split; [done|]. split; [done|].
    split; [rewrite len_cons; pose proof (len_nonneg body); lia|].
    split; [apply Hadv; [by vm_compute|done]|].
    intros pre rest. unfold decompress_group. cbn [pos].
    rewrite <- app_comm_cons, getitem_app_mid. rsimpl.
    replace (pre ++ fb :: body ++ rest) with ((pre ++ [fb]) ++ body ++ rest)
      by (by rewrite <- app_assoc).
    replace (len pre + 1) with (len (pre ++ [fb]))
      by (by rewrite len_app, len_singleton).
    rewrite Hdec; [|intros b _; by rewrite Hfb].
    rsimpl. rewrite !len_app, len_singleton, len_cons. zeq.
Qed.

Lemma prefix_of_all (data : bytes) : prefix_of data (len data) = data.
Proof. unfold prefix_of, len. rewrite Nat2Z.id. by apply take_ge. Qed.

Lemma decompress_loop_step (c : bytes) (dst_size : Z) (fd : nat)
    (src_i : Z) (out : bytes) :
  len out < dst_size → src_i < len c →
  decompress_loop c dst_size (S fd) (src_i, out)
  = decompress_group c dst_size (src_i, out) ≫= λ r,
      match r with
      | Break s' => Ok s'
      | Continue s' => decompress_loop c dst_size fd s'
      end.
Proof.
  intros Hout Hsrc. unfold decompress_loop. cbn [while_loop].
  change (decompress_cond c dst_size (src_i, out))
    with (Ok (A:=bool) ((len out <? dst_size) && (src_i <? len c))).
  rsimpl.
  destruct (Z.ltb_spec (len out) dst_size); [|lia].
  by destruct (Z.ltb_spec src_i (len c)); [|lia].
Qed.

Lemma decompress_loop_done (c : bytes) (dst_size : Z) (fd : nat)
    (src_i : Z) (out : bytes) :
  dst_size ≤ len out →
  decompress_loop c dst_size fd (src_i, out) = Ok (src_i, out).
Proof.
  intros Hout. unfold decompress_loop.
  destruct fd; cbn [while_loop]; unfold decompress_cond; rsimpl;
    by destruct (Z.ltb_spec (len out) dst_size); [lia|].
Qed.

(** The encoder's main loop terminates within its budget, and the
    decoder's main loop, started where the encoder started, rebuilds the
    data from the bytes the encoder appended. *)
Lemma compress_loop_spec (data : bytes) (fuel : nat) (s : cstate) :
  sinv data s → len data - pos s ≤ Z.of_nat fuel →
  ∃ s' body,
    while_loop fuel (λ s, Ok (pos s <? len data))
      (compress_group data (len data)) s = Ok s' ∧
    output s' = output s ++ body ∧
    ∀ pre (fd : nat),
      len body ≤ Z.of_nat fd →
      decompress_loop (pre ++ body) (len data) fd
        (len pre, prefix_of data (pos s))
      = Ok (len pre + len body, data).
Proof.
  revert s. induction fuel as [|fuel IH]; intros s Hinv Hfuel;
    pose proof Hinv as (_ & Hpos & _);
    cbn [while_loop]; rsimpl;
    destruct (Z.ltb_spec (pos s) (len data)) as [Hlt|Hge]; try lia.
  1,3: exists s, []; rewrite app_nil_r; split; [done|]; split; [done|];
    intros pre fd _; replace (pos s) with (len data) by lia;
    rewrite prefix_of_all, decompress_loop_done by lia;
    rewrite len_nil; zeq.
  destruct (compress_group_spec data s Hinv Hlt)
    as (s1 & gbody & -> & Hinv1 & Hout1 & Hlen1 & Hadv & Hdec1). rsimpl.
  destruct (IH s1 Hinv1) as (s' & body & -> & Hout' & Hdec); [lia|].
  exists s', (gbody ++ body). split; [done|].
  split; [by rewrite Hout', Hout1, <- app_assoc|].
  intros pre fd Hfd. rewrite len_app in Hfd.
  pose proof (len_nonneg body). pose proof (len_nonneg pre).
  destruct fd as [|fd]; [lia|].
  rewrite decompress_loop_step.
  2:{ rewrite len_prefix_of; lia. }
  2:{ rewrite !len_app. lia. }
  rewrite Hdec1. rsimpl.
  replace (pre ++ gbody ++ body) with ((pre ++ gbody) ++ body)
    by (by rewrite <- app_assoc).
  replace (len pre + len gbody) with (len (pre ++ gbody)) by apply len_app.
  rewrite Hdec by lia. rewrite !len_app. zeq.
Qed.

Lemma slice_prefix {A} (l : list A) (k : Z) :
  0 ≤ k → slice l 0 k = take (Z.to_nat k) l.
Proof.
  intros Hk. unfold slice, clamp_index. pose proof (len_nonneg l).
  change (0 <? 0) with false. cbv iota.
  destruct (Z.ltb_spec k 0); [lia|].
  rewrite (Z.min_l 0), Z.sub_0_r by lia. change (Z.to_nat 0) with 0%nat.
  rewrite drop_0. unfold len.
  destruct (Z.le_ge_cases k (Z.of_nat (length l))).
  - by rewrite Z.min_l by lia.
  - rewrite Z.min_r, Nat2Z.id by lia. rewrite !take_ge; [done|lia..].
Qed.


Lemma tabs_ok_init :
  tabs_ok (replicate (Z.to_nat HASH_SIZE) (-1),
           replicate (Z.to_nat HASH_SIZE) (-1)).
Proof.
  unfold tabs_ok, len. cbn [fst snd]. rewrite length_replicate.
  rewrite Z2Nat.id; [done|]. by rewrite HASH_SIZE_eq.
Qed.

Lemma prefill_ok (data : bytes) (k : Z) (t : list Z * list Z) :
  tabs_ok t →
  ∃ t', for_each (range k) (prefill_step data (len data)) t = Ok t' ∧
        tabs_ok t'.
Proof.
  intros Ht. apply (for_each_inv tabs_ok); [done|].
  intros i t0 Hi Ht0. apply elem_of_range in Hi. unfold prefill_step.
  destruct (hash_insert_ok data t0 i) as (t' & -> & Hok); [lia|done|].
  rsimpl. eauto.
Qed.

(** The encoder never faults and never exhausts its budget.  Its output
    is the tag, the three low bytes of the length, and a body from which
    the decoder's main loop, told the true length, rebuilds the data. *)
Lemma compress_lz10_shape (data : bytes) :
  ∃ h1 h2 h3 body,
    compress_lz10 data = Ok (x10 :: h1 :: h2 :: h3 :: body) ∧
    b2z h1 = Z.land (len data) 255 ∧
    b2z h2 = Z.land (Z.shiftr (len data) 8) 255 ∧
    b2z h3 = Z.land (Z.shiftr (len data) 16) 255 ∧
    ∀ fd : nat,
      len body ≤ Z.of_nat fd →
      decompress_loop (x10 :: h1 :: h2 :: h3 :: body) (len data) fd (4, [])
      = Ok (4 + len body, data).
Proof.
  unfold compress_lz10.
  destruct (append_ok [] 16) as (t & -> & Ht); [lia|]. rsimpl.
  assert (t = x10) as ->.
  { apply b2z_inj. by rewrite Ht. }
  destruct (append_ok ([] ++ [x10]) (Z.land (len data) 255))
    as (h1 & -> & Hh1); [apply land_255_range|]. rsimpl.
  destruct (append_ok (([] ++ [x10]) ++ [h1])
              (Z.land (Z.shiftr (len data) 8) 255))
    as (h2 & -> & Hh2); [apply land_255_range|]. rsimpl.
  destruct (append_ok ((([] ++ [x10]) ++ [h1]) ++ [h2])
              (Z.land (Z.shiftr (len data) 16) 255))
    as (h3 & -> & Hh3); [apply land_255_range|]. rsimpl.
  change (((([] ++ [x10]) ++ [h1]) ++ [h2]) ++ [h3]) with [x10; h1; h2; h3].
  exists h1, h2, h3.
  destruct (Z.eqb_spec (len data) 0) as [H0|H0].
  - exists []. do 4 (split; [done|]). intros fd _.
    rewrite decompress_loop_done by (rewrite H0; apply len_nonneg).
    assert (data = []) as ->; [|done].
    destruct data; [done|]. rewrite len_cons in H0.
    pose proof (len_nonneg data). lia.
  - destruct (prefill_ok data (Z.min 4096 (len data - 2)) _ tabs_ok_init)
      as ([hd lr] & -> & Htabs). rsimpl.
    destruct (compress_loop_spec data (length data)
                (CState [x10; h1; h2; h3] hd lr 0 0))
      as (s' & body & -> & Hout & Hdec).
    { repeat split; simpl; try apply Htabs; try lia; apply len_nonneg. }
    { simpl. unfold len. lia. }
    rsimpl. cbn [output pos] in *. rewrite Hout.
    exists body. do 4 (split; [done|]). intros fd Hfd.
    by apply (Hdec [x10; h1; h2; h3] fd).
Qed.

Lemma decompress_lz10_tagged (d1 d2 d3 : byte) (rest : bytes) :
  decompress_lz10 (x10 :: d1 :: d2 :: d3 :: rest)
  = decompress_loop (x10 :: d1 :: d2 :: d3 :: rest) (declared_size d1 d2 d3)
      (length (x10 :: d1 :: d2 :: d3 :: rest)) (4, []) ≫= λ '(_, out),
    Ok (slice out 0 (declared_size d1 d2 d3)).
Proof.
  unfold decompress_lz10. change (b2z x10 =? 16) with true. cbn [negb].
  rewrite (getitem_lookup _ 1 d1), (getitem_lookup _ 2 d2),
    (getitem_lookup _ 3 d3) by (done || lia).
  by rsimpl.
Qed.

(** *** Results on the codec *)

(** C9.  An input that is empty, or whose first byte is not the tag
    [0x10], is returned unchanged; it is not an error. *)
Theorem decompress_passthrough (data : bytes) :
  b2z <$> data !! 0%nat ≠ Some 16 → decompress_lz10 data = Ok data.
Proof.
  intros Htag. destruct data as [|d0 rest]; [done|].
  unfold decompress_lz10. destruct (Z.eqb_spec (b2z d0) 16) as [H16|]; [|done].
  exfalso. apply Htag. simpl. by rewrite H16.
Qed.

Lemma decompress_passthrough_witness :
  b2z <$> ["A"%byte; "B"%byte] !! 0%nat ≠ Some 16 ∧
  decompress_lz10 ["A"%byte; "B"%byte] = Ok ["A"%byte; "B"%byte].
Proof.
  split; [vm_compute; discriminate|].
  apply decompress_passthrough. vm_compute. discriminate.
Defined.

(** A tagged input with a complete four-byte header always decodes:
    every later read is guarded, back-references included. *)
Lemma decompress_tagged_total (d1 d2 d3 : byte) (rest : bytes) :
  let data := x10 :: d1 :: d2 :: d3 :: rest in
  ∃ src_i raw,
    decompress_loop data (declared_size d1 d2 d3) (length data) (4, [])
    = Ok (src_i, raw) ∧
    decompress_lz10 data = Ok (slice raw 0 (declared_size d1 d2 d3)).
Proof.
  intros data.
  destruct (decompress_loop_total data (declared_size d1 d2 d3)
              (length data) (4, [])) as ([src_i raw] & Hrun); [|done|].
  { unfold data. rewrite !len_cons. pose proof (len_nonneg rest).
    simpl. lia. }
  exists src_i, raw. split; [done|].
  unfold data in *. rewrite decompress_lz10_tagged, Hrun. by rsimpl.
Qed.



(** C7.  On a tagged input shorter than its four-byte header the decoder
    reads past the end of the input and raises [IndexError]. *)
Theorem decompress_short_header_raises :
  decompress_lz10 [x10] = Raise IndexError ∧
  decompress_lz10 [x10; x05] = Raise IndexError ∧
  decompress_lz10 [x10; x05; x00] = Raise IndexError.
Proof. repeat split; by vm_compute. Qed.

(** A back-reference that points before the start of the output copies
    nothing, and decoding goes on with the next operation. *)
Lemma decompress_bad_reference_skipped :
  decompress_lz10 [x10; x03; x00; x00; x60; "A"%byte; x72; x00; x30; x00;
                   "B"%byte]
  = Ok ["A"%byte; "A"%byte; "A"%byte].
Proof. by vm_compute. Qed.

(** C2, as amended.  Below the 16 MiB limit of the 24-bit length field,
    compression succeeds, is a function of its input, and decompression
    restores the input. *)
Theorem lz10_roundtrip_below_16MiB (b : bytes) :
  len b < 2 ^ 24 →
  ∃ c, compress_lz10 b = Ok c ∧
       (∀ c', compress_lz10 b = Ok c' → c' = c) ∧
       decompress_lz10 c = Ok b.
Proof.
  intros Hlen.
  destruct (compress_lz10_shape b)
    as (h1 & h2 & h3 & body & Hc & Hh1 & Hh2 & Hh3 & Hdec).
  exists (x10 :: h1 :: h2 :: h3 :: body). split; [done|].
  split; [intros c' Hc'; congruence|].
  rewrite decompress_lz10_tagged.
  assert (declared_size h1 h2 h3 = len b) as ->.
  { unfold declared_size. rewrite Hh1, Hh2, Hh3.
    apply header_length_roundtrip. pose proof (len_nonneg b). lia. }
  rewrite Hdec.
  - rsimpl. rewrite slice_prefix by apply len_nonneg.
    f_equal. apply prefix_of_all.
  - unfold len. simpl. lia.
Qed.

Lemma lz10_roundtrip_witness :
  len ["a"%byte; "b"%byte; "a"%byte; "b"%byte; "a"%byte; "b"%byte] < 2 ^ 24 ∧
  ∃ c, compress_lz10
         ["a"%byte; "b"%byte; "a"%byte; "b"%byte; "a"%byte; "b"%byte] = Ok c ∧
       (∀ c', compress_lz10
                ["a"%byte; "b"%byte; "a"%byte; "b"%byte; "a"%byte; "b"%byte]
              = Ok c' → c' = c) ∧
       decompress_lz10 c
       = Ok ["a"%byte; "b"%byte; "a"%byte; "b"%byte; "a"%byte; "b"%byte].
Proof.
  split; [reflexivity|]. apply lz10_roundtrip_below_16MiB. reflexivity.
Defined.

(** At exactly [2 ^ 24] bytes the three header bytes are all zero, so
    the decoder is told to produce nothing. *)
Lemma lz10_wraps_at_16MiB (b : bytes) :
  len b = 2 ^ 24 →
  ∃ c, compress_lz10 b = Ok c ∧ decompress_lz10 c = Ok [].
Proof.
  intros Hlen.
  destruct (compress_lz10_shape b)
    as (h1 & h2 & h3 & body & Hc & Hh1 & Hh2 & Hh3 & _).
  rewrite Hlen in Hh1, Hh2, Hh3.
  change (b2z h1 = b2z x00) in Hh1. change (b2z h2 = b2z x00) in Hh2.
  change (b2z h3 = b2z x00) in Hh3.
  apply b2z_inj in Hh1 as ->. apply b2z_inj in Hh2 as ->.
  apply b2z_inj in Hh3 as ->.
  eexists. split; [done|].
  rewrite decompress_lz10_tagged.
  change (declared_size x00 x00 x00) with 0.
  rewrite decompress_loop_done by done. by rsimpl.
Qed.

(** The input of [2 ^ 24] zero bytes. *)
Definition zeros_16MiB : bytes := replicate (Z.to_nat (2 ^ 24)) x00.

(** C2, as stated, fails: the [2 ^ 24] zero bytes compress, and the
    result decompresses to the empty string. *)
Lemma lz10_roundtrip_fails_at_16MiB :
  ∃ c, compress_lz10 zeros_16MiB = Ok c ∧
       decompress_lz10 c = Ok [] ∧
       len zeros_16MiB = 2 ^ 24 ∧
       decompress_lz10 c ≠ Ok zeros_16MiB.
Proof.
  assert (len zeros_16MiB = 2 ^ 24) as Hlen.
  { unfold len, zeros_16MiB. rewrite length_replicate. apply Z2Nat.id. lia. }
  destruct (lz10_wraps_at_16MiB zeros_16MiB Hlen) as (c & Hc & Hd).
  exists c. split; [done|]. split; [done|]. split; [done|].
  rewrite Hd. intros Heq.
  apply (f_equal (λ r : result bytes,
                    match r with Ok l => len l | _ => 0 end)) in Heq.
  cbv beta iota in Heq. rewrite Hlen in Heq. discriminate Heq.
Qed.

End LZ10Facts.

(** ** Little-endian fields *)

Section StructFacts.

Lemma b2z_low_byte (z : Z) : b2z (low_byte z) = Z.land z 255.
Proof.
  unfold low_byte. pose proof (land_255_range z) as Hr.
  destruct (byte_of_int_inrange _ Hr) as (b & Hb & Hv).
  unfold byte_of_int in Hb.
  destruct (Z.leb_spec 0 (Z.land z 255)); [|lia].
  destruct (Z.ltb_spec (Z.land z 255) 256); [|lia]. cbn [andb] in Hb.
  destruct (Byte.of_N _); [|done]. by injection Hb as ->.
Qed.

Lemma length_le_encode (k : nat) (v : Z) : length (le_encode k v) = k.
Proof. revert v. induction k as [|k IH]; intros v; simpl; [done|]. by rewrite IH. Qed.

Lemma len_le_encode (k : nat) (v : Z) : len (le_encode k v) = Z.of_nat k.
Proof. unfold len. by rewrite length_le_encode. Qed.

Lemma lor_low_high (v : Z) :
  Z.lor (Z.land v 255) (Z.shiftl (Z.shiftr v 8) 8) = v.
Proof.
  apply Z.bits_inj'. intros i Hi.
  rewrite Z.lor_spec, Z.land_spec, Z.shiftl_spec by lia.
  change 255 with (Z.ones 8). rewrite Z.testbit_ones_nonneg by lia.
  destruct (Z.ltb_spec i 8).
  - rewrite (Z.testbit_neg_r _ (i - 8)) by lia.
    by rewrite andb_true_r, orb_false_r.
  - rewrite Z.shiftr_spec by lia. rewrite andb_false_r. simpl.
    f_equal. lia.
Qed.

Lemma shiftr8_bound (k : nat) (v : Z) :
  0 ≤ v < 2 ^ (8 * Z.of_nat (S k)) → 0 ≤ Z.shiftr v 8 < 2 ^ (8 * Z.of_nat k).
Proof.
  intros Hv. rewrite Z.shiftr_div_pow2 by lia. split.
  - apply Z.div_pos; lia.
  - apply Z.div_lt_upper_bound; [lia|].
    rewrite <- Z.pow_add_r by lia.
    replace (8 + 8 * Z.of_nat k) with (8 * Z.of_nat (S k)) by lia. lia.
Qed.

Lemma le_decode_encode (k : nat) (v : Z) :
  0 ≤ v < 2 ^ (8 * Z.of_nat k) → le_decode (le_encode k v) = v.
Proof.
  revert v. induction k as [|k IH]; intros v Hv.
  - simpl in *. lia.
  - cbn [le_encode le_decode]. rewrite b2z_low_byte.
    rewrite IH by by apply shiftr8_bound. apply lor_low_high.
Qed.

Lemma land_lor_low (b x : Z) :
  0 ≤ b < 256 → Z.land (Z.lor b (Z.shiftl x 8)) 255 = b.
Proof.
  intros Hb. apply Z.bits_inj'. intros i Hi.
  rewrite Z.land_spec, Z.lor_spec, Z.shiftl_spec by lia.
  change 255 with (Z.ones 8). rewrite Z.testbit_ones_nonneg by lia.
  destruct (Z.ltb_spec i 8).
  - rewrite (Z.testbit_neg_r _ (i - 8)) by lia.
    by rewrite andb_true_r, orb_false_r.
  - rewrite andb_false_r. symmetry.
    destruct (Z.eq_dec b 0) as [->|]; [apply Z.bits_0|].
    apply Z.bits_above_log2; [lia|].
    assert (Z.log2 b < 8); [|lia]. apply Z.log2_lt_pow2; lia.
Qed.

Lemma shiftr_lor_high (b x : Z) :
  0 ≤ b < 256 → Z.shiftr (Z.lor b (Z.shiftl x 8)) 8 = x.
Proof.
  intros Hb. apply Z.bits_inj'. intros i Hi.
  rewrite Z.shiftr_spec, Z.lor_spec, Z.shiftl_spec by lia.
  replace (i + 8 - 8) with i by lia.
  replace (Z.testbit b (i + 8)) with false; [done|]. symmetry.
  destruct (Z.eq_dec b 0) as [->|]; [apply Z.bits_0|].
  apply Z.bits_above_log2; [lia|].
  assert (Z.log2 b < 8); [|lia]. apply Z.log2_lt_pow2; lia.
Qed.

Lemma low_byte_b2z (b : byte) : low_byte (b2z b) = b.
Proof.
  apply b2z_inj. rewrite b2z_low_byte. pose proof (b2z_range b).
  change 255 with (Z.ones 8). rewrite Z.land_ones by lia.
  apply Z.mod_small. lia.
Qed.

Lemma le_encode_decode (bs : bytes) :
  le_encode (length bs) (le_decode bs) = bs.
Proof.
  induction bs as [|b bs IH]; [done|].
  cbn [length le_encode le_decode]. pose proof (b2z_range b).
  rewrite shiftr_lor_high, IH by done. f_equal.
  apply b2z_inj. rewrite b2z_low_byte. by apply land_lor_low.
Qed.

Lemma le_decode_range (bs : bytes) :
  0 ≤ le_decode bs < 2 ^ (8 * len bs).
Proof.
  induction bs as [|b bs IH]; [by vm_compute|].
  cbn [le_decode]. rewrite len_cons. pose proof (b2z_range b).
  pose proof (len_nonneg bs).
  assert (0 ≤ Z.lor (b2z b) (Z.shiftl (le_decode bs) 8)) as Hnn.
  { apply Z.lor_nonneg. split; [lia|]. apply Z.shiftl_nonneg. lia. }
  split; [done|].
  destruct (Z.eq_dec (Z.lor (b2z b) (Z.shiftl (le_decode bs) 8)) 0)
    as [->|Hne]; [apply Z.pow_pos_nonneg; lia|].
  apply Z.log2_lt_pow2; [lia|].
  rewrite Z.log2_lor by (try apply Z.shiftl_nonneg; lia).
  apply Z.max_lub_lt.
  - destruct (Z.eq_dec (b2z b) 0) as [->|]; [simpl; lia|].
    assert (Z.log2 (b2z b) < 8); [apply Z.log2_lt_pow2; lia|lia].
  - destruct (Z.eq_dec (le_decode bs) 0) as [->|].
    + rewrite Z.shiftl_0_l. simpl. lia.
    + rewrite Z.log2_shiftl by lia.
      assert (Z.log2 (le_decode bs) < 8 * len bs);
        [apply Z.log2_lt_pow2; lia|lia].
Qed.

Lemma pack_le_ok (k : nat) (v : Z) :
  0 ≤ v < 2 ^ (8 * Z.of_nat k) → pack_le k v = Ok (le_encode k v).
Proof.
  intros Hv. unfold pack_le.
  destruct (Z.leb_spec 0 v); [|lia].
  by destruct (Z.ltb_spec v (2 ^ (8 * Z.of_nat k))); [|lia].
Qed.

End StructFacts.

(** ** The archive codec *)

Module NARCFacts.
Import NARC.

Lemma slice_mid {A} (l a m b : list A) (lo hi : Z) :
  l = a ++ m ++ b → lo = len a → hi = lo + len m → slice l lo hi = m.
Proof.
  intros -> -> ->. unfold slice, clamp_index.
  pose proof (len_nonneg a). pose proof (len_nonneg m).
  pose proof (len_nonneg b). rewrite !len_app.
  destruct (Z.ltb_spec (len a) 0); [lia|].
  destruct (Z.ltb_spec (len a + len m) 0); [lia|].
  rewrite !Z.min_l by lia.
  replace (len a + len m - len a) with (len m) by lia.
  unfold len. rewrite !Nat2Z.id.
  by rewrite drop_app_length, take_app_length.
Qed.

Lemma getitem_app_r {A} (pre l : list A) (o i : Z) :
  o = len pre + i → 0 ≤ i → getitem (pre ++ l) o = getitem l i.
Proof.
  intros -> Hi. unfold getitem. pose proof (len_nonneg pre).
  destruct (Z.ltb_spec (len pre + i) 0); [lia|].
  destruct (Z.ltb_spec i 0); [lia|].
  rewrite len_app.
  destruct (Z.ltb_spec (len pre + i) 0); [lia|].
  destruct (Z.ltb_spec i 0); [lia|]. cbn [orb].
  destruct (Z.leb_spec (len pre + len l) (len pre + i)),
    (Z.leb_spec (len l) i); try lia; [done|].
  rewrite lookup_app_r by (unfold len in *; lia).
  replace (Z.to_nat (len pre + i) - length pre)%nat with (Z.to_nat i)
    by (unfold len; lia).
  done.
Qed.

Lemma u32_value (a b c d : Z) :
  Z.lor (Z.lor (Z.lor a (Z.shiftl b 8)) (Z.shiftl c 16)) (Z.shiftl d 24)
  = Z.lor a (Z.shiftl (Z.lor b (Z.shiftl (Z.lor c (Z.shiftl
      (Z.lor d (Z.shiftl 0 8)) 8)) 8)) 8).
Proof.
  rewrite Z.shiftl_0_l, Z.lor_0_r.
  rewrite !Z.shiftl_lor, !Z.shiftl_shiftl by lia.
  by rewrite !Z.lor_assoc.
Qed.

(** Reading with [u32] a field written by [struct.pack('<I', v)]. *)
Lemma u32_at (blob pre post : bytes) (o v : Z) :
  blob = pre ++ le_encode 4 v ++ post → o = len pre → 0 ≤ v < 2 ^ 32 →
  u32 blob o = Ok v.
Proof.
  intros -> -> Hv. unfold u32.
  rewrite (getitem_app_r pre _ (len pre) 0) by lia.
  rewrite (getitem_app_r pre _ (len pre + 1) 1) by lia.
  rewrite (getitem_app_r pre _ (len pre + 2) 2) by lia.
  rewrite (getitem_app_r pre _ (len pre + 3) 3) by lia.
  cbn [le_encode app].
  rewrite (getitem_lookup _ 0 (low_byte v)) by (done || lia).
  rewrite (getitem_lookup _ 1 (low_byte (Z.shiftr v 8))) by (done || lia).
  rewrite (getitem_lookup _ 2 (low_byte (Z.shiftr (Z.shiftr v 8) 8)))
    by (done || lia).
  rewrite (getitem_lookup _ 3
             (low_byte (Z.shiftr (Z.shiftr (Z.shiftr v 8) 8) 8)))
    by (done || lia).
  rsimpl. f_equal. rewrite u32_value.
  by apply (le_decode_encode 4 v).
Qed.

Lemma land3_mod (x : Z) : Z.land x 3 = x mod 4.
Proof. change 3 with (Z.ones 2). by rewrite Z.land_ones by lia. Qed.

Lemma align4_eq (n : Z) : align4 n = 4 * ((n + 3) / 4).
Proof.
  unfold align4. rewrite <- Z.ldiff_land. change 3 with (Z.ones 2) at 2.
  rewrite Z.ldiff_ones_r by lia.
  rewrite Z.shiftl_mul_pow2, Z.shiftr_div_pow2 by lia.
  change (2 ^ 2) with 4. lia.
Qed.

Lemma align4_aligned (n : Z) : n mod 4 = 0 → align4 n = n.
Proof.
  intros Hn. rewrite align4_eq.
  pose proof (Z.div_mod n 4). pose proof (Z.div_mod (n + 3) 4).
  pose proof (Z.mod_pos_bound (n + 3) 4). lia.
Qed.

Lemma len_zeros (k : Z) : 0 ≤ k → len (zeros k) = k.
Proof. intros Hk. unfold len, zeros. rewrite length_replicate. lia. Qed.

Lemma len_pad4_mod (f : bytes) : len (pad4 f) mod 4 = 0.
Proof.
  unfold pad4. rewrite land3_mod.
  pose proof (Z.mod_pos_bound (- len f) 4).
  rewrite len_app, len_zeros by lia.
  rewrite Z.add_mod_idemp_r by lia.
  replace (len f + - len f) with 0 by lia. done.
Qed.

(** The data pool: every blob followed by its padding. *)
Definition pool (files : list bytes) : bytes := concat (pad4 <$> files).

(** The offsets the first loop records, closed by the final length:
    each entry ends where the next one starts. *)
Fixpoint full_offsets (o : Z) (files : list bytes) : list Z :=
  match files with
  | [] => [o]
  | f :: fs => o :: full_offsets (o + len (pad4 f)) fs
  end.

Fixpoint entries_of (o : Z) (files : list bytes) : list (Z * Z) :=
  match files with
  | [] => []
  | f :: fs => (o, o + len (pad4 f)) :: entries_of (o + len (pad4 f)) fs
  end.

Definition pack_pair (p : Z * Z) : bytes :=
  le_encode 4 p.1 ++ le_encode 4 p.2.

Lemma len_pool_mod (files : list bytes) : len (pool files) mod 4 = 0.
Proof.
  induction files as [|f fs IH]; [done|].
  unfold pool in *. cbn [fmap list_fmap concat]. rewrite len_app.
  rewrite Z.add_mod, len_pad4_mod, IH by lia. done.
Qed.

Lemma gmif_step_eq (f g : bytes) (offs : list Z) :
  len g mod 4 = 0 →
  gmif_step f (g, offs) = Ok (Continue (g ++ pad4 f, offs ++ [len g])).
Proof.
  intros Hg. unfold gmif_step, pad4. rewrite len_app, !land3_mod.
  assert ((- (len g + len f)) mod 4 = (- len f) mod 4) as ->.
  { replace (- (len g + len f)) with (- len f + (- (len g / 4)) * 4).
    - by rewrite Z.mod_add by lia.
    - pose proof (Z.div_mod (len g) 4). lia. }
  destruct (Z.eqb_spec ((- len f) mod 4) 0) as [->|_]; cbn [negb].
  - change (zeros 0) with (@nil byte). by rewrite !app_nil_r.
  - by rewrite <- app_assoc.
Qed.

Lemma gmif_loop (files : list bytes) (g : bytes) (offs : list Z) :
  len g mod 4 = 0 →
  ∃ offs',
    for_each files gmif_step (g, offs) = Ok (g ++ pool files, offs') ∧
    offs' ++ [len (g ++ pool files)] = offs ++ full_offsets (len g) files.
Proof.
  revert g offs. induction files as [|f fs IH]; intros g offs Hg.
  - exists offs. unfold pool. simpl. by rewrite app_nil_r.
  - cbn [for_each]. rewrite gmif_step_eq by done. rsimpl.
    destruct (IH (g ++ pad4 f) (offs ++ [len g])) as (offs' & -> & Hoffs).
    { rewrite len_app, Z.add_mod, Hg, len_pad4_mod by lia. done. }
    exists offs'. unfold pool in *. cbn [fmap list_fmap concat].
    rewrite <- !app_assoc in *. split; [done|].
    rewrite Hoffs. cbn [full_offsets]. by rewrite len_app.
Qed.

Lemma full_offsets_head (o : Z) (files : list bytes) :
  ∃ tl, full_offsets o files = o :: tl.
Proof. destruct files; simpl; eauto. Qed.

Lemma full_offsets_bound (o : Z) (files : list bytes) (x : Z) :
  0 ≤ o → x ∈ full_offsets o files → 0 ≤ x ≤ o + len (pool files).
Proof.
  revert o. induction files as [|f fs IH]; intros o Ho Hx.
  - apply list_elem_of_singleton in Hx as ->. unfold pool. simpl.
    change (len []) with 0. lia.
  - cbn [full_offsets] in Hx. unfold pool in *.
    cbn [fmap list_fmap concat]. rewrite len_app.
    pose proof (len_nonneg (pad4 f)).
    pose proof (len_nonneg (concat (pad4 <$> fs))).
    apply elem_of_cons in Hx as [->|Hx]; [lia|].
    apply IH in Hx; lia.
Qed.

Lemma range2_cons (a b : Z) : a < b → range2 a b = a :: range2 (a + 1) b.
Proof.
  intros Hab. unfold range2.
  replace (Z.to_nat (b - a)) with (S (Z.to_nat (b - (a + 1)))) by lia.
  cbn [seq fmap list_fmap]. f_equal; [lia|].
  rewrite <- fmap_S_seq, <- list_fmap_compose.
  apply list_fmap_ext. intros _ i _. simpl. lia.
Qed.

Lemma range2_nil (a : Z) : range2 a a = [].
Proof. unfold range2. by rewrite Z.sub_diag. Qed.

Lemma btaf_step_eq (offs : list Z) (i a b : Z) (acc : bytes) :
  getitem offs i = Ok a → getitem offs (i + 1) = Ok b →
  0 ≤ a < 2 ^ 32 → 0 ≤ b < 2 ^ 32 →
  btaf_step offs i acc = Ok (Continue (acc ++ le_encode 4 a ++ le_encode 4 b)).
Proof.
  intros Ha Hb Hra Hrb. unfold btaf_step. rewrite Ha, Hb. rsimpl.
  rewrite !pack_le_ok by done. by rsimpl.
Qed.

Lemma parse_entry_step_eq (blob : bytes) (eo i s e : Z) (acc : list (Z * Z)) :
  u32 blob (eo + i * 8) = Ok s → u32 blob (eo + i * 8 + 4) = Ok e →
  parse_entry_step blob eo i acc = Ok (Continue (acc ++ [(s, e)])).
Proof. intros Hs He. unfold parse_entry_step. rewrite Hs, He. by rsimpl. Qed.

(** The second loop writes one [(start, end)] pair per blob. *)
Lemma btaf_loop (files : list bytes) (offs pre : list Z) (o k : Z)
    (acc : bytes) :
  offs = pre ++ full_offsets o files → k = len pre → 0 ≤ o →
  o + len (pool files) < 2 ^ 32 →
  for_each (range2 k (k + len files)) (btaf_step offs) acc
  = Ok (acc ++ concat (pack_pair <$> entries_of o files)).
Proof.
  revert pre o k acc. induction files as [|f fs IH];
    intros pre o k acc Hoffs Hk Ho Hbound.
  - change (len []) with 0. rewrite Z.add_0_r, range2_nil. simpl.
    by rewrite app_nil_r.
  - rewrite len_cons. pose proof (len_nonneg fs).
    replace (k + (1 + len fs)) with (k + 1 + len fs) by lia.
    rewrite range2_cons by lia. cbn [for_each].
    cbn [full_offsets] in Hoffs.
    destruct (full_offsets_head (o + len (pad4 f)) fs) as [tl Htl].
    unfold pool in Hbound. cbn [fmap list_fmap concat] in Hbound.
    rewrite len_app in Hbound. fold (pool fs) in Hbound.
    pose proof (len_nonneg (pad4 f)). pose proof (len_nonneg (pool fs)).
    pose proof (len_nonneg pre).
    rewrite (btaf_step_eq offs k o (o + len (pad4 f))); [|..|lia|lia].
    2:{ apply getitem_lookup; [lia|].
        subst. unfold len. rewrite Nat2Z.id. by apply list_lookup_middle. }
    2:{ apply getitem_lookup; [lia|].
        subst. rewrite Htl.
        replace (pre ++ o :: (o + len (pad4 f)) :: tl)
          with ((pre ++ [o]) ++ (o + len (pad4 f)) :: tl)
          by (by rewrite <- app_assoc).
        apply list_lookup_middle. unfold len.
        rewrite length_app. simpl. lia. }
    rsimpl.
    rewrite (IH (pre ++ [o]) (o + len (pad4 f)) (k + 1)); try lia.
    + cbn [entries_of fmap list_fmap concat]. unfold pack_pair at 2.
      cbn [fst snd]. by rewrite <- !app_assoc.
    + by rewrite Hoffs, <- app_assoc.
    + rewrite len_app. subst. done.
Qed.

Lemma len_pack_pair (p : Z * Z) : len (pack_pair p) = 8.
Proof. unfold pack_pair. by rewrite len_app, !len_le_encode. Qed.

Lemma len_entries (o : Z) (files : list bytes) :
  len (concat (pack_pair <$> entries_of o files)) = 8 * len files.
Proof.
  revert o. induction files as [|f fs IH]; intros o; [done|].
  cbn [entries_of fmap list_fmap concat].
  rewrite len_app, len_pack_pair, IH, len_cons. lia.
Qed.

(** The parser's entry loop reads the pairs back. *)
Lemma read_entries (files : list bytes) (blob pre post : bytes)
    (eo o k : Z) (acc : list (Z * Z)) :
  blob = pre ++ concat (pack_pair <$> entries_of o files) ++ post →
  len pre = eo + k * 8 → 0 ≤ o → o + len (pool files) < 2 ^ 32 →
  for_each (range2 k (k + len files)) (parse_entry_step blob eo) acc
  = Ok (acc ++ entries_of o files).
Proof.
  revert pre o k acc. induction files as [|f fs IH];
    intros pre o k acc Hblob Hpre Ho Hbound.
  - change (len []) with 0. rewrite Z.add_0_r, range2_nil. simpl.
    by rewrite app_nil_r.
  - rewrite len_cons. pose proof (len_nonneg fs).
    replace (k + (1 + len fs)) with (k + 1 + len fs) by lia.
    rewrite range2_cons by lia. cbn [for_each].
    unfold pool in Hbound. cbn [fmap list_fmap concat] in Hbound.
    rewrite len_app in Hbound. fold (pool fs) in Hbound.
    pose proof (len_nonneg (pad4 f)). pose proof (len_nonneg (pool fs)).
    cbn [entries_of fmap list_fmap concat] in Hblob.
    unfold pack_pair at 1 in Hblob. cbn [fst snd] in Hblob.
    rewrite <- !app_assoc in Hblob.
    rewrite (parse_entry_step_eq blob eo k o (o + len (pad4 f))).
    2:{ apply (u32_at blob pre _ _ o Hblob); lia. }
    2:{ eapply (u32_at blob (pre ++ le_encode 4 o));
          [by rewrite Hblob, <- app_assoc
          |rewrite len_app, len_le_encode; lia|lia]. }
    rsimpl.
    rewrite (IH (pre ++ le_encode 4 o ++ le_encode 4 (o + len (pad4 f)))
                (o + len (pad4 f)) (k + 1)); try lia.
    + cbn [entries_of]. by rewrite <- app_assoc.
    + by rewrite Hblob, <- !app_assoc.
    + rewrite !len_app, !len_le_encode. lia.
Qed.

(** Slicing the data pool by the recorded pairs yields the padded
    blobs. *)
Lemma slice_entries (files : list bytes) (blob front post : bytes)
    (base o : Z) :
  blob = front ++ pool files ++ post → len front = base + o →
  (λ '(s, e), slice blob (base + s) (base + e)) <$> entries_of o files
  = pad4 <$> files.
Proof.
  revert front o. induction files as [|f fs IH]; intros front o Hblob Hfront;
    [done|].
  cbn [entries_of fmap list_fmap]. f_equal.
  - apply (slice_mid _ front (pad4 f) (pool fs ++ post)); [|lia..].
    rewrite Hblob. unfold pool. cbn [fmap list_fmap concat].
    by rewrite <- app_assoc.
  - apply (IH (front ++ pad4 f)).
    + rewrite Hblob. unfold pool. cbn [fmap list_fmap concat].
      by rewrite <- !app_assoc.
    + rewrite len_app. lia.
Qed.

(** The size and the byte layout of an archive of [files]. *)
Definition narc_size (files : list bytes) : Z :=
  52 + 8 * len files + len (pool files).

Definition narc_header (files : list bytes) : bytes :=
  ((((magic_NARC ++ [xfe; xff]) ++ [x00; x01])
      ++ le_encode 4 (narc_size files)) ++ le_encode 2 16) ++ le_encode 2 3.

Definition narc_layout (files : list bytes) : bytes :=
  narc_header files
  ++ (magic_BTAF
      ++ (le_encode 4 (12 + 8 * len files) ++ le_encode 4 (len files))
      ++ concat (pack_pair <$> entries_of 0 files) ++ zeros 0)
  ++ (magic_BTNF ++ le_encode 4 16 ++ zeros 8)
  ++ (magic_GMIF ++ le_encode 4 (8 + len (pool files)) ++ pool files).

Lemma len_narc_header (files : list bytes) : len (narc_header files) = 16.
Proof. unfold narc_header. by rewrite !len_app, !len_le_encode. Qed.

Lemma build_narc_layout (files : list bytes) :
  narc_size files < 2 ^ 32 → build_narc files = Ok (narc_layout files).
Proof.
  intros Hsize. unfold narc_size in Hsize.
  pose proof (len_nonneg files). pose proof (len_nonneg (pool files)).
  unfold build_narc.
  destruct (gmif_loop files [] []) as (offs & -> & Hoffs); [done|].
  rsimpl. change ([] ++ pool files) with (pool files) in *.
  change ([] ++ full_offsets (len []) files) with (full_offsets 0 files)
    in Hoffs.
  rewrite Hoffs.
  rewrite (pack_le_ok 4 (8 + len (pool files))) by lia. rsimpl.
  unfold range.
  change (range2 0 (len files)) with (range2 0 (0 + len files)).
  rewrite (btaf_loop files (full_offsets 0 files) [] 0 0 []);
    [|done|done|lia|lia].
  rsimpl.
  change ([] ++ concat (pack_pair <$> entries_of 0 files))
    with (concat (pack_pair <$> entries_of 0 files)).
  rewrite len_entries.
  rewrite align4_aligned.
  2:{ replace (12 + 8 * len files) with (0 + (3 + 2 * len files) * 4) by lia.
      by rewrite Z.mod_add by lia. }
  rewrite (pack_le_ok 4 (12 + 8 * len files)) by lia. rsimpl.
  rewrite (pack_le_ok 4 (len files)) by lia. rsimpl.
  replace (12 + 8 * len files - (12 + 8 * len files)) with 0 by lia.
  rewrite (pack_le_ok 4 16) by lia. rsimpl.
  rewrite !len_app, !len_le_encode, len_entries.
  change (len magic_BTAF) with 4. change (len magic_BTNF) with 4.
  change (len magic_GMIF) with 4. change (len (zeros 0)) with 0.
  change (len (zeros 8)) with 8.
  replace (16 + (4 + (Z.of_nat 4 + Z.of_nat 4 + (8 * len files + 0)))
           + (4 + (Z.of_nat 4 + 8)) + (4 + (Z.of_nat 4 + len (pool files))))
    with (narc_size files) by (unfold narc_size; lia).
  rewrite (pack_le_ok 4 (narc_size files)) by (unfold narc_size; lia). rsimpl.
  rewrite (pack_le_ok 2 16) by lia. rsimpl.
  rewrite (pack_le_ok 2 3) by lia. by rsimpl.
Qed.

Lemma bytes_eqb_refl (a : bytes) : bytes_eqb a a = true.
Proof. unfold bytes_eqb. by apply bool_decide_eq_true. Qed.

Lemma parse_narc_layout (files : list bytes) :
  narc_size files < 2 ^ 32 →
  parse_narc (narc_layout files) = Ok (pad4 <$> files).
Proof.
  intros Hsize. unfold narc_size in Hsize.
  pose proof (len_nonneg files). pose proof (len_nonneg (pool files)).
  set (E := concat (pack_pair <$> entries_of 0 files)).
  assert (len E = 8 * len files) as HE by apply len_entries.
  set (hdr := narc_header files).
  assert (len hdr = 16) as Hhdr by apply len_narc_header.
  set (btnf := magic_BTNF ++ le_encode 4 16 ++ zeros 8).
  set (gmif := magic_GMIF ++ le_encode 4 (8 + len (pool files)) ++ pool files).
  set (blob := narc_layout files).
  assert (blob = hdr ++ magic_BTAF ++ le_encode 4 (12 + 8 * len files)
                 ++ le_encode 4 (len files) ++ E ++ btnf ++ gmif) as Hblob.
  { unfold blob, narc_layout. fold hdr E btnf gmif.
    change (zeros 0) with (@nil byte). by rewrite app_nil_r, <- !app_assoc. }
  unfold parse_narc.
  assert (slice blob 0 4 = magic_NARC) as ->.
  { apply (slice_mid blob [] magic_NARC
             (drop 4 hdr ++ magic_BTAF ++ le_encode 4 (12 + 8 * len files)
              ++ le_encode 4 (len files) ++ E ++ btnf ++ gmif));
      [by rewrite Hblob|done|done]. }
  rewrite bytes_eqb_refl. cbn [negb]. cbv zeta.
  assert (slice blob 16 (16 + 4) = magic_BTAF) as ->.
  { eapply (slice_mid blob hdr magic_BTAF); [exact Hblob|lia|done]. }
  rewrite bytes_eqb_refl. cbn [negb].
  assert (u32 blob (16 + 4) = Ok (12 + 8 * len files)) as ->.
  { eapply (u32_at blob (hdr ++ magic_BTAF));
      [by rewrite Hblob, <- app_assoc|by rewrite len_app, Hhdr|lia]. }
  rsimpl.
  assert (u32 blob (16 + 8) = Ok (len files)) as ->.
  { eapply (u32_at blob
              ((hdr ++ magic_BTAF) ++ le_encode 4 (12 + 8 * len files)));
      [by rewrite Hblob, <- !app_assoc
      |by rewrite !len_app, len_le_encode, Hhdr|lia]. }
  rsimpl. unfold range.
  change (range2 0 (len files)) with (range2 0 (0 + len files)).
  rewrite (read_entries files blob
             (((hdr ++ magic_BTAF) ++ le_encode 4 (12 + 8 * len files))
              ++ le_encode 4 (len files)) (btnf ++ gmif) (16 + 12) 0 0 []);
    [|by rewrite Hblob, <- !app_assoc
     |by rewrite !len_app, !len_le_encode, Hhdr|lia|lia].
  rsimpl. change ([] ++ entries_of 0 files) with (entries_of 0 files).
  set (front := (((hdr ++ magic_BTAF) ++ le_encode 4 (12 + 8 * len files))
                 ++ le_encode 4 (len files)) ++ E).
  assert (len front = 16 + (12 + 8 * len files)) as Hfront.
  { unfold front. rewrite !len_app, !len_le_encode, Hhdr, HE.
    change (len magic_BTAF) with 4. lia. }
  assert (blob = front ++ btnf ++ gmif) as Hblob2.
  { unfold front. by rewrite Hblob, <- !app_assoc. }
  assert (slice blob (16 + (12 + 8 * len files))
            (16 + (12 + 8 * len files) + 4) = magic_BTNF) as ->.
  { apply (slice_mid blob front magic_BTNF
             (le_encode 4 16 ++ zeros 8 ++ gmif));
      [by rewrite Hblob2; unfold btnf; rewrite <- !app_assoc|lia|done]. }
  rewrite bytes_eqb_refl. cbn [negb].
  assert (u32 blob (16 + (12 + 8 * len files) + 4) = Ok 16) as ->.
  { apply (u32_at blob (front ++ magic_BTNF) (zeros 8 ++ gmif));
      [by rewrite Hblob2; unfold btnf; rewrite <- !app_assoc
      |rewrite len_app, Hfront; change (len magic_BTNF) with 4; lia|lia]. }
  rsimpl.
  assert (len (front ++ btnf) = 16 + (12 + 8 * len files) + 16) as Hfront2.
  { unfold btnf. rewrite !len_app, Hfront, len_le_encode.
    change (len magic_BTNF) with 4. change (len (zeros 8)) with 8. lia. }
  assert (slice blob (16 + (12 + 8 * len files) + 16)
            (16 + (12 + 8 * len files) + 16 + 4) = magic_GMIF) as ->.
  { apply (slice_mid blob (front ++ btnf) magic_GMIF
             (le_encode 4 (8 + len (pool files)) ++ pool files));
      [by rewrite Hblob2; unfold gmif; rewrite <- !app_assoc|lia|done]. }
  rewrite bytes_eqb_refl. cbn [negb]. f_equal.
  apply (slice_entries files blob
           (((front ++ btnf) ++ magic_GMIF)
            ++ le_encode 4 (8 + len (pool files))) []).
  - rewrite Hblob2. unfold gmif. by rewrite app_nil_r, <- !app_assoc.
  - rewrite (len_app _ (le_encode 4 _)), (len_app _ magic_GMIF), Hfront2.
    rewrite len_le_encode. change (len magic_GMIF) with 4. lia.
Qed.

(** *** Results on the archive codec *)

Lemma len_pad4_bounds (f : bytes) :
  len f ≤ len (pad4 f) < len f + 4.
Proof.
  unfold pad4. cbv zeta. rewrite land3_mod.
  pose proof (Z.mod_pos_bound (- len f) 4).
  rewrite len_app, len_zeros by lia. lia.
Qed.

Lemma pool_cons (f : bytes) (fs : list bytes) :
  pool (f :: fs) = pad4 f ++ pool fs.
Proof. done. Qed.

Lemma pad4_fixed_iff (f : bytes) : pad4 f = f ↔ len f mod 4 = 0.
Proof.
  split.
  - intros <-. apply len_pad4_mod.
  - intros Hf. unfold pad4. cbv zeta. rewrite land3_mod.
    replace ((- len f) mod 4) with 0; [apply app_nil_r|].
    symmetry. apply Z.mod_divide; [lia|]. apply Z.divide_opp_r.
    apply Z.mod_divide; [lia|done].
Qed.

Lemma pad4_all_fixed_iff (files : list bytes) :
  pad4 <$> files = files ↔ Forall (λ f, len f mod 4 = 0) files.
Proof.
  induction files as [|f fs IH]; [by split; [constructor|]|].
  cbn [fmap list_fmap]. split.
  - intros [= Hf Hfs]. constructor; [by apply pad4_fixed_iff|by apply IH].
  - intros [Hf Hfs]%Forall_cons. f_equal; [by apply pad4_fixed_iff|by apply IH].
Qed.

(** The two words of entry [i] as [build_narc] lays them out. *)
Lemma entry_reads (files : list bytes) (blob pre post : bytes) (o : Z)
    (i : nat) (f : bytes) :
  blob = pre ++ concat (pack_pair <$> entries_of o files) ++ post →
  0 ≤ o → o + len (pool files) < 2 ^ 32 →
  files !! i = Some f →
  u32 blob (len pre + 8 * Z.of_nat i)
  = Ok (o + len (pool (take i files))) ∧
  u32 blob (len pre + 8 * Z.of_nat i + 4)
  = Ok (o + len (pool (take (S i) files))).
Proof.
  revert pre o i. induction files as [|f0 fs IH]; intros pre o i Hblob Ho Hb Hi;
    [done|].
  rewrite pool_cons, len_app in Hb.
  pose proof (len_nonneg (pad4 f0)). pose proof (len_nonneg (pool fs)).
  cbn [entries_of fmap list_fmap concat] in Hblob.
  unfold pack_pair at 1 in Hblob. cbn [fst snd] in Hblob.
  rewrite <- !app_assoc in Hblob.
  destruct i as [|i].
  - cbn [take]. injection Hi as ->.
    rewrite pool_cons, len_app. change (pool []) with (@nil byte).
    change (len []) with 0. rewrite !Z.add_0_r. split.
    + apply (u32_at blob pre _ _ o Hblob); lia.
    + eapply (u32_at blob (pre ++ le_encode 4 o)).
      * rewrite Hblob, <- !app_assoc. reflexivity.
      * rewrite len_app, len_le_encode. lia.
      * lia.
  - cbn [lookup list_lookup] in Hi. cbn [take]. rewrite !pool_cons, !len_app.
    destruct (IH ((pre ++ le_encode 4 o) ++ le_encode 4 (o + len (pad4 f0)))
                (o + len (pad4 f0)) i) as [Hs He].
    + rewrite Hblob, <- !app_assoc. reflexivity.
    + lia.
    + lia.
    + exact Hi.
    + rewrite !len_app, !len_le_encode in Hs, He.
      replace (len pre + 8 * Z.of_nat (S i))
        with (len pre + Z.of_nat 4 + Z.of_nat 4 + 8 * Z.of_nat i) by lia.
      rewrite Hs, He. split; f_equal; lia.
Qed.

(** C1, as amended.  For a list of blobs whose archive fits the 32-bit
    size fields, [build_narc] succeeds and [parse_narc] returns every
    blob followed by the zero padding that brings its length to a
    multiple of four.  The allocation entry of blob [i], at offset
    [28 + 8 * i] of the archive, records as start the total padded length
    of the blobs before it and as end the total padded length up to and
    including it, which is the start of entry [i + 1]: end minus start
    is the length of the blob rounded up to a multiple of four.  The
    blobs come back unchanged exactly when every length is a multiple of
    four. *)
Theorem narc_roundtrip_padded (files : list bytes) :
  narc_size files < 2 ^ 32 →
  ∃ blob, build_narc files = Ok blob ∧ len blob = narc_size files ∧
          parse_narc blob = Ok (pad4 <$> files) ∧
          (parse_narc blob = Ok files
           ↔ Forall (λ f, len f mod 4 = 0) files) ∧
          ∀ (i : nat) (f : bytes),
            files !! i = Some f →
            u32 blob (28 + 8 * Z.of_nat i)
            = Ok (len (concat (pad4 <$> take i files))) ∧
            u32 blob (28 + 8 * Z.of_nat i + 4)
            = Ok (len (concat (pad4 <$> take (S i) files))) ∧
            len (concat (pad4 <$> take (S i) files))
            - len (concat (pad4 <$> take i files)) = len (pad4 f) ∧
            len f ≤ len (pad4 f) < len f + 4 ∧
            len (pad4 f) mod 4 = 0.
Proof.
  intros Hsize. exists (narc_layout files).
  split; [by apply build_narc_layout|].
  split; [|split; [by apply parse_narc_layout|split]].
  2:{ rewrite parse_narc_layout by done. rewrite <- pad4_all_fixed_iff.
      split; [by intros [= ?]|by intros ->]. }
  { unfold narc_layout, narc_size.
    rewrite !len_app, len_narc_header, !len_le_encode, len_entries.
    change (len magic_BTAF) with 4. change (len magic_BTNF) with 4.
    change (len magic_GMIF) with 4. change (len (zeros 0)) with 0.
    change (len (zeros 8)) with 8. lia. }
  intros i f Hi.
  unfold narc_size in Hsize.
  pose proof (len_nonneg files). pose proof (len_nonneg (pool files)).
  set (pre := ((narc_header files ++ magic_BTAF)
               ++ le_encode 4 (12 + 8 * len files))
              ++ le_encode 4 (len files)).
  assert (len pre = 28) as Hpre.
  { unfold pre. rewrite !len_app, len_narc_header, !len_le_encode. done. }
  destruct (entry_reads files (narc_layout files) pre
              (zeros 0 ++ (magic_BTNF ++ le_encode 4 16 ++ zeros 8)
               ++ (magic_GMIF ++ le_encode 4 (8 + len (pool files))
                   ++ pool files)) 0 i f) as [Hs He].
  { unfold narc_layout, pre. by rewrite <- !app_assoc. }
  { lia. }
  { lia. }
  { exact Hi. }
  rewrite Hpre, Z.add_0_l in Hs, He.
  fold (pool (take i files)). fold (pool (take (S i) files)).
  split; [exact Hs|]. split; [exact He|].
  split; [|split; [apply len_pad4_bounds|apply len_pad4_mod]].
  rewrite (take_S_r files i f Hi). unfold pool.
  rewrite fmap_app, concat_app, len_app. cbn [fmap list_fmap concat].
  rewrite app_nil_r. lia.
Qed.

Lemma narc_roundtrip_padded_witness :
  narc_size [["a"%byte; "b"%byte; "c"%byte; "d"%byte]; []; ["e"%byte]]
  < 2 ^ 32 ∧
  ∃ blob,
    build_narc [["a"%byte; "b"%byte; "c"%byte; "d"%byte]; []; ["e"%byte]]
    = Ok blob ∧
    len blob
    = narc_size [["a"%byte; "b"%byte; "c"%byte; "d"%byte]; []; ["e"%byte]] ∧
    parse_narc blob
    = Ok (pad4 <$> [["a"%byte; "b"%byte; "c"%byte; "d"%byte]; []; ["e"%byte]]) ∧
    u32 blob 28 = Ok 0 ∧ u32 blob 32 = Ok 4 ∧
    u32 blob 36 = Ok 4 ∧ u32 blob 40 = Ok 4 ∧
    u32 blob 44 = Ok 4 ∧ u32 blob 48 = Ok 8.
Proof.
  split; [reflexivity|].
  destruct (narc_roundtrip_padded
              [["a"%byte; "b"%byte; "c"%byte; "d"%byte]; []; ["e"%byte]])
    as (blob & Hb & Hl & Hp & _ & He); [reflexivity|].
  exists blob. split; [exact Hb|]. split; [exact Hl|]. split; [exact Hp|].
  destruct (He 0%nat _ eq_refl) as (H0 & H0' & _).
  destruct (He 1%nat _ eq_refl) as (H1 & H1' & _).
  destruct (He 2%nat _ eq_refl) as (H2 & H2' & _).
  split; [exact H0|]. split; [exact H0'|]. split; [exact H1|].
  split; [exact H1'|]. split; [exact H2|exact H2'].
Defined.

(** C1, as stated, fails: a one-byte blob comes back as four bytes, and
    its entry spans four bytes, not one. *)
Lemma narc_roundtrip_pads_blob :
  ∃ blob, build_narc [["a"%byte]] = Ok blob ∧
          parse_narc blob = Ok [["a"%byte; x00; x00; x00]] ∧
          parse_narc blob ≠ Ok [["a"%byte]] ∧
          u32 blob 28 = Ok 0 ∧ u32 blob 32 = Ok 4.
Proof.
  eexists. split; [by vm_compute|].
  split; [by vm_compute|]. split; [|split; by vm_compute].
  vm_compute. discriminate.
Qed.

End NARCFacts.

(** ** The ROM header *)

Module HeaderFacts.
Import Saver.

(** The buffer of [to_bytes] once the fields below offset [o] are
    written: the first [o] bytes of the parsed input, then zeros. *)
Definition partial (b : bytes) (o : Z) : bytes :=
  take (Z.to_nat o) b ++ zeros (512 - o).

Lemma len_partial (b : bytes) (o : Z) :
  0 ≤ o ≤ 512 → 512 ≤ len b → len (partial b o) = 512.
Proof.
  intros Ho Hb. unfold partial, zeros, len in *.
  rewrite length_app, length_take, length_replicate. lia.
Qed.

Lemma slice_inrange {A} (l : list A) (lo hi : Z) :
  0 ≤ lo ≤ hi → hi ≤ len l →
  slice l lo hi = take (Z.to_nat (hi - lo)) (drop (Z.to_nat lo) l).
Proof.
  intros Hlo Hhi. unfold slice, clamp_index.
  destruct (Z.ltb_spec lo 0); [lia|]. destruct (Z.ltb_spec hi 0); [lia|].
  by rewrite !Z.min_l by lia.
Qed.

Lemma len_slice_inrange {A} (l : list A) (lo hi : Z) :
  0 ≤ lo ≤ hi → hi ≤ len l → len (slice l lo hi) = hi - lo.
Proof.
  intros Hlo Hhi. rewrite slice_inrange by done. unfold len in *.
  rewrite length_take, length_drop. lia.
Qed.

Lemma setslice_partial (b : bytes) (o o' : Z) :
  0 ≤ o ≤ o' → o' ≤ 512 → 512 ≤ len b →
  setslice (partial b o) o o' (slice b o o') = partial b o'.
Proof.
  intros Ho Ho' Hb. unfold setslice, clamp_index.
  rewrite len_partial by lia.
  destruct (Z.ltb_spec o 0); [lia|]. destruct (Z.ltb_spec o' 0); [lia|].
  rewrite (Z.min_l o), (Z.min_l o'), (Z.max_r o) by lia.
  rewrite slice_inrange by lia. unfold partial.
  assert (length (take (Z.to_nat o) b) = Z.to_nat o) as Hlen.
  { rewrite length_take. unfold len in Hb. lia. }
  rewrite take_app_length' by done.
  rewrite drop_app_ge by lia. rewrite Hlen.
  unfold zeros. rewrite drop_replicate.
  replace (Z.to_nat (512 - o) - (Z.to_nat o' - Z.to_nat o))%nat
    with (Z.to_nat (512 - o')) by lia.
  rewrite app_assoc. f_equal.
  rewrite take_take_drop. f_equal. lia.
Qed.

Lemma pack_into_partial (k : nat) (b : bytes) (o o' : Z) :
  o' = o + Z.of_nat k → 0 ≤ o → o' ≤ 512 → 512 ≤ len b →
  pack_into_le k (partial b o) o (le_decode (slice b o o')) = Ok (partial b o').
Proof.
  intros -> Ho Ho' Hb. unfold pack_into_le.
  assert (len (slice b o (o + Z.of_nat k)) = Z.of_nat k) as Hlen.
  { rewrite len_slice_inrange by lia. lia. }
  rewrite pack_le_ok.
  2:{ pose proof (le_decode_range (slice b o (o + Z.of_nat k))) as Hr.
      by rewrite Hlen in Hr. }
  rsimpl. rewrite len_partial by lia.
  destruct (Z.leb_spec 0 o); [|lia].
  destruct (Z.leb_spec (o + Z.of_nat k) 512); [|lia]. cbn [andb].
  pose proof (le_encode_decode (slice b o (o + Z.of_nat k))) as He.
  replace (length (slice b o (o + Z.of_nat k))) with k in He
    by (unfold len in Hlen; lia).
  rewrite He. f_equal. apply setslice_partial; lia.
Qed.

Lemma setitem_int_partial (b : bytes) (o o' : Z) (x : byte) :
  o' = o + 1 → 0 ≤ o → o' ≤ 512 → 512 ≤ len b → getitem b o = Ok x →
  NDSHeader.setitem_int (partial b o) o (b2z x) = Ok (partial b o').
Proof.
  intros -> Ho Ho' Hb Hx. unfold NDSHeader.setitem_int.
  rewrite byte_of_int_b2z. rsimpl.
  rewrite setitem_inrange by (rewrite len_partial; lia). f_equal.
  destruct (getitem_inrange b o) as (x' & Hx' & Hlook); [lia|].
  assert (x' = x) as -> by congruence.
  unfold partial. 
  replace (Z.to_nat (o + 1)) with (S (Z.to_nat o)) by lia.
  rewrite (take_S_r _ _ x) by done.
  assert (length (take (Z.to_nat o) b) = Z.to_nat o) as Hlen.
  { rewrite length_take. unfold len in Hb. lia. }
  rewrite insert_app_r_alt by lia. rewrite Hlen, Nat.sub_diag.
  unfold zeros.
  replace (Z.to_nat (512 - o)) with (S (Z.to_nat (512 - (o + 1)))) by lia.
  cbn [replicate]. by rewrite <- app_assoc.
Qed.

Lemma unpack_from_ok (k : nat) (data : bytes) (off : Z) :
  0 ≤ off → off + Z.of_nat k ≤ len data →
  unpack_from_le k data off
  = Ok (le_decode (slice data off (off + Z.of_nat k))).
Proof.
  intros Hoff Hlen. unfold unpack_from_le.
  destruct (Z.leb_spec 0 off); [|lia].
  by destruct (Z.leb_spec (off + Z.of_nat k) (len data)); [|lia].
Qed.

(** The header value [from_bytes] builds from an input [b] of at least
    512 bytes, the single-byte fields being [x18] .. [x31]. *)
Definition parsed (b : bytes) (x18 x19 x20 x30 x31 : byte) : NDSHeader.t :=
  NDSHeader.Make (slice b 0 12) (slice b 12 16) (slice b 16 18) (b2z x18) (b2z x19) (b2z x20) (slice b 21 30) (b2z x30) (b2z x31) (le_decode (slice b 32 36)) (le_decode (slice b 36 40)) (le_decode (slice b 40 44)) (le_decode (slice b 44 48)) (le_decode (slice b 48 52)) (le_decode (slice b 52 56)) (le_decode (slice b 56 60)) (le_decode (slice b 60 64)) (le_decode (slice b 64 68)) (le_decode (slice b 68 72)) (le_decode (slice b 72 76)) (le_decode (slice b 76 80)) (le_decode (slice b 80 84)) (le_decode (slice b 84 88)) (le_decode (slice b 88 92)) (le_decode (slice b 92 96)) (le_decode (slice b 96 100)) (le_decode (slice b 100 104)) (le_decode (slice b 104 108)) (le_decode (slice b 108 110)) (le_decode (slice b 110 112)) (le_decode (slice b 112 116)) (le_decode (slice b 116 120)) (le_decode (slice b 120 128)) (le_decode (slice b 128 132)) (le_decode (slice b 132 136)) (slice b 136 192) (slice b 192 348) (le_decode (slice b 348 350)) (le_decode (slice b 350 352)) (le_decode (slice b 352 356)) (le_decode (slice b 356 360)) (le_decode (slice b 360 364)) (slice b 364 368) (slice b 368 512).

Lemma from_bytes_parsed (b : bytes) :
  512 ≤ len b →
  ∃ x18 x19 x20 x30 x31,
    getitem b 18 = Ok x18 ∧ getitem b 19 = Ok x19 ∧ getitem b 20 = Ok x20 ∧
    getitem b 30 = Ok x30 ∧ getitem b 31 = Ok x31 ∧
    NDSHeader.from_bytes b = Ok (parsed b x18 x19 x20 x30 x31).
Proof.
  intros Hb.
  destruct (getitem_inrange b 18) as (x18 & H18 & _); [lia|].
  destruct (getitem_inrange b 19) as (x19 & H19 & _); [lia|].
  destruct (getitem_inrange b 20) as (x20 & H20 & _); [lia|].
  destruct (getitem_inrange b 30) as (x30 & H30 & _); [lia|].
  destruct (getitem_inrange b 31) as (x31 & H31 & _); [lia|].
  exists x18, x19, x20, x30, x31. do 5 (split; [done|]).
  unfold NDSHeader.from_bytes.
  destruct (Z.ltb_spec (len b) 512); [lia|].
  rewrite H18, H19, H20, H30, H31.
  rewrite !unpack_from_ok by lia. by rsimpl.
Qed.

(** One step of [to_bytes] on the parsed header advances the filled
    prefix of the buffer. *)
Ltac to_bytes_step b Hb :=
  lazymatch goal with
  | |- context [setslice (partial b ?o) ?o ?o' (slice b ?o ?o')] =>
      rewrite (setslice_partial b o o') by (done || lia)
  | |- context [pack_into_le ?k (partial b ?o) ?o
                  (le_decode (slice b ?o ?o'))] =>
      rewrite (pack_into_partial k b o o') by (done || lia); rsimpl
  | |- context [NDSHeader.setitem_int (partial b ?o) ?o (b2z ?x)] =>
      let o' := eval compute in (o + 1) in
      rewrite (setitem_int_partial b o o' x) by (done || lia); rsimpl
  end.

Lemma to_bytes_parsed (b : bytes) (x18 x19 x20 x30 x31 : byte) :
  512 ≤ len b →
  getitem b 18 = Ok x18 → getitem b 19 = Ok x19 → getitem b 20 = Ok x20 →
  getitem b 30 = Ok x30 → getitem b 31 = Ok x31 →
  NDSHeader.to_bytes (parsed b x18 x19 x20 x30 x31) = Ok (slice b 0 512).
Proof.
  intros Hb H18 H19 H20 H30 H31.
  unfold NDSHeader.to_bytes, parsed. cbv zeta.
  cbn [NDSHeader.game_title NDSHeader.game_code NDSHeader.maker_code
       NDSHeader.unit_code NDSHeader.device_type NDSHeader.device_size
       NDSHeader.reserved1 NDSHeader.rom_version NDSHeader.flags
       NDSHeader.arm9_rom_addr NDSHeader.arm9_entry_addr
       NDSHeader.arm9_ram_addr NDSHeader.arm9_size NDSHeader.arm7_rom_addr
       NDSHeader.arm7_entry_addr NDSHeader.arm7_ram_addr NDSHeader.arm7_size
       NDSHeader.filename_table_addr NDSHeader.filename_size
       NDSHeader.fat_addr NDSHeader.fat_size NDSHeader.arm9_overlay_addr
       NDSHeader.arm9_overlay_size NDSHeader.arm7_overlay_addr
       NDSHeader.arm7_overlay_size NDSHeader.normal_commands_settings
       NDSHeader.key1_commands_settings NDSHeader.icon_title_addr
       NDSHeader.secure_area_crc16 NDSHeader.secure_area_loading_timeout
       NDSHeader.arm9_autoload_list_ram_addr
       NDSHeader.arm7_autoload_list_ram_addr NDSHeader.secure_area_disable
       NDSHeader.rom_size NDSHeader.header_size NDSHeader.reserved2
       NDSHeader.nintendo_logo NDSHeader.nintendo_logo_crc
       NDSHeader.header_crc16 NDSHeader.debug_rom_addr NDSHeader.debug_size
       NDSHeader.debug_ram_addr NDSHeader.reserved3 NDSHeader.reserved4].
  change (zeros 512) with (partial b 0).
  repeat to_bytes_step b Hb.
  f_equal. unfold partial. change (zeros (512 - 512)) with (@nil byte).
  rewrite app_nil_r. symmetry. by apply LZ10Facts.slice_prefix.
Qed.

(** *** Result on the header *)

(** C10.  On at least 512 bytes [from_bytes] succeeds and [to_bytes]
    gives back the first 512 bytes exactly, reserved regions included;
    on fewer than 512 bytes [from_bytes] raises [ValueError]. *)
Theorem header_roundtrip (b : bytes) :
  (512 ≤ len b →
   ∃ h, NDSHeader.from_bytes b = Ok h ∧
        NDSHeader.to_bytes h = Ok (slice b 0 512)) ∧
  (len b < 512 → NDSHeader.from_bytes b = Raise ValueError).
Proof.
  split.
  - intros Hb.
    destruct (from_bytes_parsed b Hb)
      as (x18 & x19 & x20 & x30 & x31 & H18 & H19 & H20 & H30 & H31 & Hp).
    eexists. split; [exact Hp|]. by apply to_bytes_parsed.
  - intros Hb. unfold NDSHeader.from_bytes.
    by destruct (Z.ltb_spec (len b) 512); [|lia].
Qed.

(** A 600-byte input whose bytes run through all values, and a
    three-byte input. *)
Definition sample_rom_head : bytes := low_byte <$> range 600.

Lemma header_roundtrip_witness :
  (512 ≤ len sample_rom_head ∧
   ∃ h, NDSHeader.from_bytes sample_rom_head = Ok h ∧
        NDSHeader.to_bytes h = Ok (slice sample_rom_head 0 512)) ∧
  (len [x01; x02; x03] < 512 ∧
   NDSHeader.from_bytes [x01; x02; x03] = Raise ValueError).
Proof.
  split.
  - split; [by vm_compute|].
    apply (proj1 (header_roundtrip sample_rom_head)). by vm_compute.
  - split; [reflexivity|].
    apply (proj2 (header_roundtrip [x01; x02; x03])). reflexivity.
Defined.

End HeaderFacts.

(** ** The modification tracker *)

Module TrackerFacts.
Import Saver.

Section Dict.
Context {V : Type}.
Implicit Types (d : list (string * V)) (k : string) (v : V).

Lemma dict_get_set_eq d k v : dict_get (dict_set d k v) k = Some v.
Proof.
  induction d as [|[k' v'] d IH]; simpl.
  - by rewrite bool_decide_eq_true_2.
  - case_bool_decide as Hk; simpl.
    + by rewrite bool_decide_eq_true_2.
    + by rewrite bool_decide_eq_false_2.
Qed.

Lemma dict_get_set_ne d k k' v :
  k' ≠ k → dict_get (dict_set d k v) k' = dict_get d k'.
Proof.
  intros Hne. induction d as [|[k0 v0] d IH]; simpl.
  - by rewrite bool_decide_eq_false_2.
  - case_bool_decide as Hk; simpl.
    + subst k0. by rewrite !bool_decide_eq_false_2.
    + case_bool_decide; [done|apply IH].
Qed.

(** Assignment to a present key keeps the number of items; a new key
    adds one. *)
Lemma length_dict_set d k v :
  length (dict_set d k v)
  = match dict_get d k with
    | Some _ => length d
    | None => S (length d)
    end.
Proof.
  induction d as [|[k' v'] d IH]; simpl; [done|].
  case_bool_decide; simpl; [done|]. rewrite IH. by destruct (dict_get d k).
Qed.

End Dict.

(** C8.  With an empty payload [register] returns [False] and leaves the
    records as they were.  With a non-empty payload it returns [True],
    the record stored under the canonical path is the one just
    registered, records under other keys are untouched, and the number of
    records stays the same when the path was present and grows by one
    otherwise; a second registration for the path replaces the first. *)
Theorem register_upsert (resolve_path : string → string)
    (mods : list (string * ModificationRecord.t)) (file_path : string)
    (new_data : bytes) (mod_type : string) (now : Z) :
  new_data ≠ [] →
  register resolve_path mods file_path [] mod_type now = (false, mods) ∧
  let r := register resolve_path mods file_path new_data mod_type now in
  let key := resolve_path file_path in
  r.1 = true ∧
  dict_get r.2 key
  = Some (ModificationRecord.Make key new_data mod_type now (-1)) ∧
  (∀ k, k ≠ key → dict_get r.2 k = dict_get mods k) ∧
  length r.2 = match dict_get mods key with
             | Some _ => length mods
             | None => S (length mods)
             end ∧
  (length mods ≤ length r.2 ≤ S (length mods))%nat ∧
  (∀ data' type' now',
      data' ≠ [] →
      let r' := register resolve_path r.2 file_path data' type' now' in
      dict_get r'.2 key
      = Some (ModificationRecord.Make key data' type' now' (-1)) ∧
      length r'.2 = length r.2).
Proof.
  intros Hdata. split; [done|]. unfold register.
  rewrite bool_decide_eq_false_2 by done. cbn [fst snd].
  split; [done|]. split; [apply dict_get_set_eq|].
  split; [intros k Hk; by apply dict_get_set_ne|].
  split; [apply length_dict_set|].
  split; [rewrite length_dict_set; destruct (dict_get mods _); lia|].
  intros data' type' now' Hdata'.
  rewrite bool_decide_eq_false_2 by done. cbn [fst snd].
  split; [apply dict_get_set_eq|].
  by rewrite length_dict_set, dict_get_set_eq.
Qed.

(** A canonicalisation that prefixes the working directory, and a
    tracker holding one record. *)
Definition sample_resolve : string → string := String.append "/roms/".

Definition sample_mods : list (string * ModificationRecord.t) :=
  [("/roms/a.bin"%string,
    ModificationRecord.Make "/roms/a.bin" [x01] "direct" 5 (-1))].

Lemma register_upsert_witness :
  [x02; x03] ≠ ([] : bytes) ∧
  register sample_resolve sample_mods "a.bin" [] "layer_swap" 7
  = (false, sample_mods) ∧
  let r :=
    register sample_resolve sample_mods "a.bin" [x02; x03] "layer_swap" 7 in
  let key := sample_resolve "a.bin"%string in
  r.1 = true ∧
  dict_get r.2 key
  = Some (ModificationRecord.Make key [x02; x03] "layer_swap" 7 (-1)) ∧
  (∀ k, k ≠ key → dict_get r.2 k = dict_get sample_mods k) ∧
  length r.2 = match dict_get sample_mods key with
             | Some _ => length sample_mods
             | None => S (length sample_mods)
             end ∧
  (length sample_mods ≤ length r.2 ≤ S (length sample_mods))%nat ∧
  (∀ data' type' now',
      data' ≠ [] →
      let r' := register sample_resolve r.2 "a.bin" data' type' now' in
      dict_get r'.2 key
      = Some (ModificationRecord.Make key data' type' now' (-1)) ∧
      length r'.2 = length r.2).
Proof.
  split; [discriminate|].
  apply (register_upsert sample_resolve sample_mods "a.bin" [x02; x03]
           "layer_swap" 7).
  discriminate.
Defined.

End TrackerFacts.

(** ** The patch loop *)

Module ApplyFacts.
Import Saver.

Lemma _align4_eq (v : Z) : _align4 v = 4 * ((v + 3) / 4).
Proof. apply NARCFacts.align4_eq. Qed.

(** [_align4 v] is the least multiple of four that is at least [v]. *)
Lemma _align4_spec (v : Z) :
  v ≤ _align4 v < v + 4 ∧ _align4 v mod 4 = 0 ∧
  ∀ a, a mod 4 = 0 → v ≤ a → _align4 v ≤ a.
Proof.
  rewrite _align4_eq.
  pose proof (Z.div_mod (v + 3) 4). pose proof (Z.mod_pos_bound (v + 3) 4).
  split; [lia|]. split.
  - rewrite Z.mul_comm. by apply Z.mod_mul.
  - intros a Ha Hva. pose proof (Z.div_mod a 4).
    assert ((v + 3) / 4 ≤ a / 4); [|lia].
    apply Z.div_le_lower_bound; [lia|].
    assert ((v + 3) / 4 * 4 ≤ a / 4 * 4 + 3) by lia.
    assert ((v + 3) / 4 < a / 4 + 1) by lia. lia.
Qed.

Lemma file_write_ok (content : bytes) (pos : Z) (data : bytes) :
  0 ≤ pos →
  ∃ c, file_write content pos data = Ok c ∧
       len content ≤ len c ≤ Z.max (len content) (pos + len data).
Proof.
  intros Hpos. unfold file_write.
  destruct (Z.ltb_spec pos 0); [lia|].
  pose proof (len_nonneg content). pose proof (len_nonneg data).
  case_bool_decide; [eexists; split; [done|lia]|].
  eexists. split; [done|].
  unfold len, zeros in *.
  rewrite !length_app, length_take, length_app, length_replicate, length_drop.
  lia.
Qed.

(** One pass of the patch loop on an index inside the table: the
    entry it rewrites, the cursor, and how far the file can grow. *)
Lemma apply_step_spec (m : ModificationRecord.t) (s : astate)
    (old : FATEntry.t) :
  let idx := ModificationRecord.fat_index m in
  let new_size := ModificationRecord.size m in
  0 ≤ idx → modified_fat s !! Z.to_nat idx = Some old →
  0 ≤ FATEntry.start_addr old → 0 ≤ current_rom_end s →
  ∃ s',
    apply_step m s = Ok (Continue s') ∧
    length (modified_fat s') = length (modified_fat s) ∧
    (∀ i, i ≠ Z.to_nat idx → modified_fat s' !! i = modified_fat s !! i) ∧
    len (rom_file s) ≤ len (rom_file s') ∧
    if new_size <=? FATEntry.size old then
      modified_fat s' !! Z.to_nat idx
      = Some (FATEntry.Make (FATEntry.start_addr old)
                (FATEntry.start_addr old + new_size)) ∧
      current_rom_end s' = current_rom_end s ∧
      len (rom_file s')
      ≤ Z.max (len (rom_file s)) (FATEntry.start_addr old + new_size)
    else
      let A := _align4 (current_rom_end s) in
      modified_fat s' !! Z.to_nat idx = Some (FATEntry.Make A (A + new_size)) ∧
      current_rom_end s' = A + new_size ∧
      len (rom_file s') ≤ Z.max (len (rom_file s)) (A + new_size).
Proof.
  intros idx new_size Hidx Hold Hstart Hcur.
  apply lookup_lt_Some in Hold as Hlt.
  unfold apply_step. fold idx new_size.
  destruct (Z.ltb_spec idx 0); [lia|].
  destruct (Z.leb_spec (len (modified_fat s)) idx);
    [unfold len in *; lia|]. cbn [orb].
  rewrite (getitem_lookup _ _ old) by done. rsimpl.
  destruct (_align4_spec (current_rom_end s)) as (Hal & Hmod & Hleast).
  pose proof (len_nonneg (ModificationRecord.new_data m)) as Hsz.
  fold (ModificationRecord.size m) in Hsz. fold new_size in Hsz.
  destruct (Z.leb_spec new_size (FATEntry.size old)).
  - destruct (file_write_ok (rom_file s) (FATEntry.start_addr old)
                (ModificationRecord.new_data m)) as (c & -> & Hc); [done|].
    rsimpl. rewrite setitem_inrange by lia. rsimpl.
    eexists. split; [done|]. cbn [modified_fat current_rom_end rom_file].
    split; [by rewrite length_insert|].
    split; [intros i Hi; by rewrite list_lookup_insert_ne|].
    split; [lia|].
    split; [by rewrite list_lookup_insert_eq|]. split; [done|].
    fold (ModificationRecord.size m) in Hc. fold new_size in Hc. lia.
  - assert (∃ c, (if current_rom_end s <? _align4 (current_rom_end s)
                  then file_write (rom_file s) (current_rom_end s)
                         (replicate (Z.to_nat (_align4 (current_rom_end s)
                                               - current_rom_end s)) xff)
                  else Ok (rom_file s)) = Ok c ∧
                 len (rom_file s) ≤ len c
                 ≤ Z.max (len (rom_file s)) (_align4 (current_rom_end s)))
      as (c & -> & Hc).
    { destruct (_ <? _); [|eexists; split; [done|lia]].
      destruct (file_write_ok (rom_file s) (current_rom_end s)
                  (replicate (Z.to_nat (_align4 (current_rom_end s)
                                        - current_rom_end s)) xff))
        as (c & -> & Hc); [done|].
      exists c. split; [done|].
      assert (len (replicate (Z.to_nat (_align4 (current_rom_end s)
                                        - current_rom_end s)) xff)
              = _align4 (current_rom_end s) - current_rom_end s) as Hpad.
      { unfold len. rewrite length_replicate. lia. }
      rewrite Hpad in Hc. lia. }
    rsimpl.
    destruct (file_write_ok c (_align4 (current_rom_end s))
                (ModificationRecord.new_data m)) as (c' & -> & Hc'); [lia|].
    rsimpl. rewrite setitem_inrange by lia. rsimpl.
    eexists. split; [done|]. cbn [modified_fat current_rom_end rom_file].
    split; [by rewrite length_insert|].
    split; [intros i Hi; by rewrite list_lookup_insert_ne|].
    split; [lia|].
    split; [by rewrite list_lookup_insert_eq|]. split; [done|].
    fold (ModificationRecord.size m) in Hc'. fold new_size in Hc'. lia.
Qed.

(** C3.  An applied modification whose payload is no larger than its
    table entry rewrites the entry as [(start, start + new_size)] and
    leaves the end-of-file cursor alone; a larger payload moves the entry
    to [(A, A + new_size)] for [A] the least multiple of four at or after
    the cursor, and the cursor becomes [A + new_size].  No other entry
    changes. *)
Theorem apply_step_entry (m : ModificationRecord.t) (s : astate)
    (old : FATEntry.t) :
  let idx := ModificationRecord.fat_index m in
  let new_size := ModificationRecord.size m in
  0 ≤ idx → modified_fat s !! Z.to_nat idx = Some old →
  0 ≤ FATEntry.start_addr old → 0 ≤ current_rom_end s →
  ∃ s',
    apply_step m s = Ok (Continue s') ∧
    length (modified_fat s') = length (modified_fat s) ∧
    (∀ i, i ≠ Z.to_nat idx → modified_fat s' !! i = modified_fat s !! i) ∧
    if new_size <=? FATEntry.size old then
      modified_fat s' !! Z.to_nat idx
      = Some (FATEntry.Make (FATEntry.start_addr old)
                (FATEntry.start_addr old + new_size)) ∧
      current_rom_end s' = current_rom_end s
    else
      let A := _align4 (current_rom_end s) in
      modified_fat s' !! Z.to_nat idx = Some (FATEntry.Make A (A + new_size)) ∧
      current_rom_end s' = A + new_size ∧
      A mod 4 = 0 ∧ current_rom_end s ≤ A ∧
      ∀ a, a mod 4 = 0 → current_rom_end s ≤ a → A ≤ a.
Proof.
  intros idx new_size Hidx Hold Hstart Hcur.
  destruct (apply_step_spec m s old Hidx Hold Hstart Hcur)
    as (s' & Hs' & Hlen & Hother & _ & Hentry).
  exists s'. split; [done|]. split; [done|]. split; [done|].
  fold idx new_size in Hentry.
  destruct (_align4_spec (current_rom_end s)) as (Hal & Hmod & Hleast).
  destruct (new_size <=? FATEntry.size old).
  - by destruct Hentry as (? & ? & _).
  - destruct Hentry as (? & ? & _). cbv zeta.
    split; [done|]. split; [done|]. split; [done|]. split; [lia|done].
Qed.

(** The two examples of the specification: entry [(100, 250)] with an
    80-byte payload, and with a 300-byte payload when the file ends at
    byte 1000. *)
Definition sample_state : astate :=
  AState [FATEntry.Make 0 100; FATEntry.Make 100 250] 1000 (zeros 1000).

Definition sample_shrink : ModificationRecord.t :=
  ModificationRecord.Make "b.bin" (replicate 80 x41) "direct" 0 1.

Definition sample_grow : ModificationRecord.t :=
  ModificationRecord.Make "b.bin" (replicate 300 x42) "direct" 0 1.

Lemma apply_step_entry_witness :
  (0 ≤ ModificationRecord.fat_index sample_shrink ∧
   modified_fat sample_state
     !! Z.to_nat (ModificationRecord.fat_index sample_shrink)
   = Some (FATEntry.Make 100 250) ∧
   0 ≤ FATEntry.start_addr (FATEntry.Make 100 250) ∧
   0 ≤ current_rom_end sample_state) ∧
  (∃ s', apply_step sample_shrink sample_state = Ok (Continue s') ∧
         modified_fat s' = [FATEntry.Make 0 100; FATEntry.Make 100 180] ∧
         current_rom_end s' = 1000) ∧
  (∃ s', apply_step sample_grow sample_state = Ok (Continue s') ∧
         modified_fat s' = [FATEntry.Make 0 100; FATEntry.Make 1000 1300] ∧
         current_rom_end s' = 1300).
Proof.
  split; [repeat split; try reflexivity; by vm_compute|].
  split.
  - destruct (apply_step_entry sample_shrink sample_state
                (FATEntry.Make 100 250))
      as (s' & Hs' & Hlen & Hother & Hentry); [by vm_compute|reflexivity
                                       |by vm_compute|by vm_compute|].
    exists s'. split; [exact Hs'|].
    vm_compute in Hs'. injection Hs' as <-. by vm_compute.
  - destruct (apply_step_entry sample_grow sample_state
                (FATEntry.Make 100 250))
      as (s' & Hs' & Hlen & Hother & Hentry); [by vm_compute|reflexivity
                                       |by vm_compute|by vm_compute|].
    exists s'. split; [exact Hs'|].
    vm_compute in Hs'. injection Hs' as <-. by vm_compute.
Defined.

(** *** The table as a whole *)

Lemma for_each_try_inv {A S} (I : S → Prop) (xs : list A)
    (body : A → S → result (ctl S)) (s : S) :
  I s →
  (∀ x s, x ∈ xs → I s → ∃ s', body x s = Ok (Continue s') ∧ I s') →
  ∃ s', for_each_try xs body s = (s', Ok ()) ∧ I s'.
Proof.
  revert s. induction xs as [|x xs IH]; intros s Hs Hbody; simpl; [eauto|].
  destruct (Hbody x s) as (s' & -> & Hs'); [left|done|].
  apply IH; [done|]. intros y t Hy. apply Hbody. by right.
Qed.

Definition starts_nonneg (fat : list FATEntry.t) : Prop :=
  Forall (λ e, 0 ≤ FATEntry.start_addr e) fat.

(** Any modification, applied or skipped, keeps the table's length and
    every entry but the one it names. *)
Lemma apply_step_total (m : ModificationRecord.t) (s : astate) :
  starts_nonneg (modified_fat s) → 0 ≤ current_rom_end s →
  ∃ s', apply_step m s = Ok (Continue s') ∧
        starts_nonneg (modified_fat s') ∧ 0 ≤ current_rom_end s' ∧
        length (modified_fat s') = length (modified_fat s) ∧
        ∀ i, Z.of_nat i ≠ ModificationRecord.fat_index m →
             modified_fat s' !! i = modified_fat s !! i.
Proof.
  intros Hfat Hcur.
  destruct (decide (0 ≤ ModificationRecord.fat_index m
                    < len (modified_fat s))) as [Hidx|Hidx].
  - destruct (lookup_lt_is_Some_2 (modified_fat s)
                (Z.to_nat (ModificationRecord.fat_index m))) as [old Hold].
    { unfold len in Hidx. lia. }
    pose proof Hfat as Hfat0. unfold starts_nonneg in Hfat0.
    rewrite Forall_lookup in Hfat0.
    destruct (apply_step_spec m s old)
      as (s' & Hs' & Hlen & Hother & _ & Hentry);
      [lia|done|by eapply Hfat0|done|].
    exists s'. split; [done|].
    destruct (_align4_spec (current_rom_end s)) as (Hal & _).
    pose proof (len_nonneg (ModificationRecord.new_data m)) as Hsz.
    fold (ModificationRecord.size m) in Hsz.
    assert (∃ e, modified_fat s' !! Z.to_nat (ModificationRecord.fat_index m)
                 = Some e ∧ 0 ≤ FATEntry.start_addr e ∧
                 0 ≤ current_rom_end s') as (e & He & Hes & Hcur').
    { destruct (_ <=? _).
      - destruct Hentry as (-> & -> & _). eexists. split; [done|]. simpl.
        split; [by eapply Hfat0|done].
      - destruct Hentry as (-> & -> & _). eexists. split; [done|]. simpl.
        lia. }
    split.
    { unfold starts_nonneg. rewrite Forall_lookup. intros i x Hx.
      destruct (decide (i = Z.to_nat (ModificationRecord.fat_index m)))
        as [->|Hne].
      - by assert (x = e) as -> by congruence.
      - rewrite Hother in Hx by done. by eapply Hfat0. }
    split; [done|]. split; [done|].
    intros i Hi. apply Hother. lia.
  - exists s. unfold apply_step.
    destruct (Z.ltb_spec (ModificationRecord.fat_index m) 0); [done|].
    destruct (Z.leb_spec (len (modified_fat s))
                (ModificationRecord.fat_index m)); [done|lia].
Qed.

(** The bytes of one table entry. *)
Definition entry_bytes (e : FATEntry.t) : bytes :=
  le_encode 4 (FATEntry.start_addr e) ++ le_encode 4 (FATEntry.end_addr e).

Definition entry_u32 (e : FATEntry.t) : Prop :=
  0 ≤ FATEntry.start_addr e < 2 ^ 32 ∧ 0 ≤ FATEntry.end_addr e < 2 ^ 32.

Lemma pack_le_inv (k : nat) (v : Z) (b : bytes) :
  pack_le k v = Ok b → b = le_encode k v ∧ 0 ≤ v < 2 ^ (8 * Z.of_nat k).
Proof.
  unfold pack_le. destruct (Z.leb_spec 0 v); [|done].
  destruct (Z.ltb_spec v (2 ^ (8 * Z.of_nat k))); [|done].
  intros [= <-]. split; [done|lia].
Qed.

Lemma to_bytes_inv (e : FATEntry.t) (b : bytes) :
  FATEntry.to_bytes e = Ok b → b = entry_bytes e ∧ entry_u32 e.
Proof.
  unfold FATEntry.to_bytes. intros H.
  apply bind_Ok in H as (p1 & H1 & H).
  apply bind_Ok in H as (p2 & H2 & [= <-]).
  apply pack_le_inv in H1 as [-> ?]. apply pack_le_inv in H2 as [-> ?].
  done.
Qed.

Lemma fat_raw_loop_inv (fat : list FATEntry.t) (acc raw : bytes) :
  for_each fat fat_raw_step acc = Ok raw →
  raw = acc ++ concat (entry_bytes <$> fat) ∧ Forall entry_u32 fat.
Proof.
  revert acc. induction fat as [|e fat IH]; intros acc; simpl.
  - intros [= <-]. by rewrite app_nil_r.
  - intros H. apply bind_Ok in H as (r & Hr & H).
    unfold fat_raw_step in Hr. apply bind_Ok in Hr as (b & Hb & [= <-]).
    apply to_bytes_inv in Hb as [-> Hu]. apply IH in H as [-> Hfat].
    split; [by rewrite <- app_assoc|by constructor].
Qed.

Lemma len_entry_bytes (e : FATEntry.t) : len (entry_bytes e) = 8.
Proof. unfold entry_bytes. by rewrite len_app, !len_le_encode. Qed.

Lemma len_fat_raw (fat : list FATEntry.t) :
  len (concat (entry_bytes <$> fat)) = 8 * len fat.
Proof.
  induction fat as [|e fat IH]; [done|].
  cbn [fmap list_fmap concat]. rewrite len_app, len_entry_bytes, IH, len_cons.
  lia.
Qed.

Lemma from_bytes_entry (e : FATEntry.t) :
  entry_u32 e → FATEntry.from_bytes (entry_bytes e) = Ok e.
Proof.
  intros [Hs He]. unfold FATEntry.from_bytes. cbv zeta.
  assert (slice (entry_bytes e) 0 8 = entry_bytes e) as ->.
  { rewrite LZ10Facts.slice_prefix by lia. apply take_ge.
    pose proof (len_entry_bytes e). unfold len in *. lia. }
  rewrite len_entry_bytes. cbn [Z.eqb Pos.eqb negb].
  unfold entry_bytes.
  rewrite (NARCFacts.slice_mid _ [] (le_encode 4 (FATEntry.start_addr e))
             (le_encode 4 (FATEntry.end_addr e)) 0 4); [|done..].
  rewrite (NARCFacts.slice_mid _ (le_encode 4 (FATEntry.start_addr e))
             (le_encode 4 (FATEntry.end_addr e)) [] 4 8);
    [|by rewrite app_nil_r|done..].
  rewrite !le_decode_encode by done. by destruct e.
Qed.

Lemma range_step_8 (n : nat) :
  range_step 0 (8 * Z.of_nat n) 8 = (λ i, 0 + 8 * Z.of_nat i) <$> seq 0 n.
Proof.
  unfold range_step. do 2 f_equal.
  replace (8 * Z.of_nat n - 0 + 8 - 1) with (7 + Z.of_nat n * 8) by lia.
  rewrite Z.div_add by lia. change (7 / 8) with 0. lia.
Qed.

Lemma load_fat_step_eq (raw : bytes) (i : Z) (e : FATEntry.t)
    (acc : list FATEntry.t) :
  i + 8 ≤ len raw → FATEntry.from_bytes (slice raw i (i + 8)) = Ok e →
  load_fat_step raw i acc = Ok (Continue (acc ++ [e])).
Proof.
  intros Hi He. unfold load_fat_step.
  destruct (Z.leb_spec (i + 8) (len raw)); [|lia]. rewrite He. by rsimpl.
Qed.

(** Loading a table from the bytes it was written as. *)
Lemma load_loop (fat : list FATEntry.t) (raw pre : bytes) (k : nat)
    (acc : list FATEntry.t) :
  raw = pre ++ concat (entry_bytes <$> fat) → len pre = 8 * Z.of_nat k →
  Forall entry_u32 fat →
  for_each ((λ i, 0 + 8 * Z.of_nat i) <$> seq k (length fat))
    (load_fat_step raw) acc
  = Ok (acc ++ fat).
Proof.
  revert pre k acc. induction fat as [|e fat IH]; intros pre k acc Hraw Hpre Hu.
  - simpl. by rewrite app_nil_r.
  - apply Forall_cons in Hu as [He Hu].
    cbn [length seq fmap list_fmap for_each].
    cbn [fmap list_fmap concat] in Hraw.
    pose proof (len_fat_raw fat) as Hfat. pose proof (len_nonneg fat).
    assert (len raw = 8 * Z.of_nat k + 8 + 8 * len fat) as Hlen.
    { rewrite Hraw, !len_app, len_entry_bytes, Hfat. lia. }
    rewrite (load_fat_step_eq raw _ e); [|lia|].
    2:{ rewrite (NARCFacts.slice_mid raw pre (entry_bytes e)
                   (concat (entry_bytes <$> fat)));
          [by apply from_bytes_entry|done|lia|rewrite len_entry_bytes; lia]. }
    rsimpl.
    rewrite (IH (pre ++ entry_bytes e) (S k) (acc ++ [e])); [|..|done].
    + by rewrite <- app_assoc.
    + by rewrite Hraw, <- app_assoc.
    + rewrite len_app, len_entry_bytes. lia.
Qed.

Lemma file_write_inv (c : bytes) (pos : Z) (data c2 : bytes) :
  file_write c pos data = Ok c2 →
  0 ≤ pos ∧ file_read c2 pos (len data) = Ok data.
Proof.
  unfold file_write, file_read. intros H.
  destruct (Z.ltb_spec pos 0); [done|]. split; [done|].
  pose proof (len_nonneg data).
  destruct (Z.ltb_spec (len data) 0); [lia|]. f_equal.
  case_bool_decide as Hd.
  - injection H as <-. subst data. change (len []) with 0.
    rewrite Z.add_0_r. unfold slice.
    by rewrite Z.sub_diag.
  - injection H as <-.
    apply (NARCFacts.slice_mid _
             (take (Z.to_nat pos) (c ++ zeros (pos - len c))) data
             (drop (Z.to_nat (pos + len data)) c)); [done| |done].
    unfold len, zeros. rewrite length_take, length_app, length_replicate.
    lia.
Qed.

(** C6.  The patch loop returns a table of the same length in which
    every index that no modification names keeps its entry, whether the
    named indices are in range (applied) or not (skipped); and what
    [_write_fat] then stores is that table, entry for entry. *)
Theorem apply_modifications_preserves_table (rom : bytes)
    (fat : list FATEntry.t) (mods : list ModificationRecord.t) :
  starts_nonneg fat →
  ∃ fat' rom',
    _apply_modifications rom fat mods = (Some fat', rom') ∧
    length fat' = length fat ∧
    (∀ i, (∀ m, m ∈ mods → ModificationRecord.fat_index m ≠ Z.of_nat i) →
          fat' !! i = fat !! i) ∧
    (∀ h rom2,
        NDSHeader.fat_size h = 8 * len fat →
        _write_fat rom' h fat' = (true, rom2) →
        _load_fat rom2 h = Some fat').
Proof.
  intros Hfat. unfold _apply_modifications.
  destruct (for_each_try_inv
              (λ s, starts_nonneg (modified_fat s) ∧ 0 ≤ current_rom_end s ∧
                    length (modified_fat s) = length fat ∧
                    ∀ i, (∀ m, m ∈ mods →
                               ModificationRecord.fat_index m ≠ Z.of_nat i) →
                         modified_fat s !! i = fat !! i)
              mods apply_step (AState fat (len rom) rom))
    as (s' & -> & _ & _ & Hlen & Hkeep).
  { cbn [modified_fat current_rom_end]. split; [done|].
    split; [apply len_nonneg|]. by split. }
  { intros m s Hm (Hs & Hcur & Hlen & Hkeep).
    destruct (apply_step_total m s Hs Hcur)
      as (s' & -> & Hs' & Hcur' & Hlen' & Hother).
    exists s'. split; [done|]. split; [done|]. split; [done|].
    split; [congruence|]. intros i Hi.
    rewrite Hother; [by apply Hkeep|]. intros Heq. by apply (Hi m). }
  exists (modified_fat s'), (rom_file s'). split; [done|].
  split; [done|]. split; [done|].
  intros h rom2 Hsize. unfold _write_fat.
  destruct (for_each (modified_fat s') fat_raw_step []) as [raw| |] eqn:Hraw;
    cbn [mbind result_bind]; [|done..].
  apply fat_raw_loop_inv in Hraw as [Hraw Hu]. rewrite app_nil_l in Hraw.
  destruct (file_write (rom_file s') (NDSHeader.fat_addr h) raw)
    as [c2| |] eqn:Hw; [|done..].
  intros [= <-]. apply file_write_inv in Hw as [Haddr Hread].
  assert (len raw = 8 * len fat) as Hrawlen.
  { rewrite Hraw, len_fat_raw. unfold len. by rewrite Hlen. }
  unfold _load_fat. rewrite Hsize, <- Hrawlen, Hread. rsimpl.
  rewrite Hrawlen. unfold len at 1. rewrite range_step_8, <- Hlen.
  by rewrite (load_loop (modified_fat s') raw [] 0 []).
Qed.

(** A two-entry table, a payload for entry 1, one for an index outside
    the table, and a header that places the table at offset 512. *)
Definition sample_fat : list FATEntry.t :=
  [FATEntry.Make 528 628; FATEntry.Make 628 778].

Definition sample_mods : list ModificationRecord.t :=
  [ModificationRecord.Make "b.bin" (replicate 300 x42) "direct" 0 1;
   ModificationRecord.Make "c.bin" [x01] "direct" 0 7].

Lemma apply_modifications_preserves_table_witness :
  starts_nonneg sample_fat ∧
  ∃ fat' rom',
    _apply_modifications (zeros 778) sample_fat sample_mods
    = (Some fat', rom') ∧
    length fat' = length sample_fat ∧
    (∀ i, (∀ m, m ∈ sample_mods →
                ModificationRecord.fat_index m ≠ Z.of_nat i) →
          fat' !! i = sample_fat !! i) ∧
    (∀ h rom2,
        NDSHeader.fat_size h = 8 * len sample_fat →
        _write_fat rom' h fat' = (true, rom2) →
        _load_fat rom2 h = Some fat').
Proof.
  assert (starts_nonneg sample_fat) as H.
  { unfold starts_nonneg, sample_fat. repeat constructor; by vm_compute. }
  split; [exact H|].
  exact (apply_modifications_preserves_table (zeros 778) sample_fat
           sample_mods H).
Defined.

End ApplyFacts.


(** ** The save operation *)

Module SaveFacts.
Import Saver.

(** The header's byte-string fields have their lengths and its integer
    fields fit their widths. *)
Definition header_wf (h : NDSHeader.t) : bool :=
  (len (NDSHeader.game_title h) =? 12)
  && (len (NDSHeader.game_code h) =? 4)
  && (len (NDSHeader.maker_code h) =? 2)
  && (0 <=? NDSHeader.unit_code h) && (NDSHeader.unit_code h <? 256)
  && (0 <=? NDSHeader.device_type h) && (NDSHeader.device_type h <? 256)
  && (0 <=? NDSHeader.device_size h) && (NDSHeader.device_size h <? 256)
  && (len (NDSHeader.reserved1 h) =? 9)
  && (0 <=? NDSHeader.rom_version h) && (NDSHeader.rom_version h <? 256)
  && (0 <=? NDSHeader.flags h) && (NDSHeader.flags h <? 256)
  && (0 <=? NDSHeader.arm9_rom_addr h) && (NDSHeader.arm9_rom_addr h <? 2 ^ 32)
  && (0 <=? NDSHeader.arm9_entry_addr h) && (NDSHeader.arm9_entry_addr h <? 2 ^ 32)
  && (0 <=? NDSHeader.arm9_ram_addr h) && (NDSHeader.arm9_ram_addr h <? 2 ^ 32)
  && (0 <=? NDSHeader.arm9_size h) && (NDSHeader.arm9_size h <? 2 ^ 32)
  && (0 <=? NDSHeader.arm7_rom_addr h) && (NDSHeader.arm7_rom_addr h <? 2 ^ 32)
  && (0 <=? NDSHeader.arm7_entry_addr h) && (NDSHeader.arm7_entry_addr h <? 2 ^ 32)
  && (0 <=? NDSHeader.arm7_ram_addr h) && (NDSHeader.arm7_ram_addr h <? 2 ^ 32)
  && (0 <=? NDSHeader.arm7_size h) && (NDSHeader.arm7_size h <? 2 ^ 32)
  && (0 <=? NDSHeader.filename_table_addr h) && (NDSHeader.filename_table_addr h <? 2 ^ 32)
  && (0 <=? NDSHeader.filename_size h) && (NDSHeader.filename_size h <? 2 ^ 32)
  && (0 <=? NDSHeader.fat_addr h) && (NDSHeader.fat_addr h <? 2 ^ 32)
  && (0 <=? NDSHeader.fat_size h) && (NDSHeader.fat_size h <? 2 ^ 32)
  && (0 <=? NDSHeader.arm9_overlay_addr h) && (NDSHeader.arm9_overlay_addr h <? 2 ^ 32)
  && (0 <=? NDSHeader.arm9_overlay_size h) && (NDSHeader.arm9_overlay_size h <? 2 ^ 32)
  && (0 <=? NDSHeader.arm7_overlay_addr h) && (NDSHeader.arm7_overlay_addr h <? 2 ^ 32)
  && (0 <=? NDSHeader.arm7_overlay_size h) && (NDSHeader.arm7_overlay_size h <? 2 ^ 32)
  && (0 <=? NDSHeader.normal_commands_settings h) && (NDSHeader.normal_commands_settings h <? 2 ^ 32)
  && (0 <=? NDSHeader.key1_commands_settings h) && (NDSHeader.key1_commands_settings h <? 2 ^ 32)
  && (0 <=? NDSHeader.icon_title_addr h) && (NDSHeader.icon_title_addr h <? 2 ^ 32)
  && (0 <=? NDSHeader.secure_area_crc16 h) && (NDSHeader.secure_area_crc16 h <? 2 ^ 16)
  && (0 <=? NDSHeader.secure_area_loading_timeout h) && (NDSHeader.secure_area_loading_timeout h <? 2 ^ 16)
  && (0 <=? NDSHeader.arm9_autoload_list_ram_addr h) && (NDSHeader.arm9_autoload_list_ram_addr h <? 2 ^ 32)
  && (0 <=? NDSHeader.arm7_autoload_list_ram_addr h) && (NDSHeader.arm7_autoload_list_ram_addr h <? 2 ^ 32)
  && (0 <=? NDSHeader.secure_area_disable h) && (NDSHeader.secure_area_disable h <? 2 ^ 64)
  && (0 <=? NDSHeader.rom_size h) && (NDSHeader.rom_size h <? 2 ^ 32)
  && (0 <=? NDSHeader.header_size h) && (NDSHeader.header_size h <? 2 ^ 32)
  && (len (NDSHeader.reserved2 h) =? 56)
  && (len (NDSHeader.nintendo_logo h) =? 156)
  && (0 <=? NDSHeader.nintendo_logo_crc h) && (NDSHeader.nintendo_logo_crc h <? 2 ^ 16)
  && (0 <=? NDSHeader.header_crc16 h) && (NDSHeader.header_crc16 h <? 2 ^ 16)
  && (0 <=? NDSHeader.debug_rom_addr h) && (NDSHeader.debug_rom_addr h <? 2 ^ 32)
  && (0 <=? NDSHeader.debug_size h) && (NDSHeader.debug_size h <? 2 ^ 32)
  && (0 <=? NDSHeader.debug_ram_addr h) && (NDSHeader.debug_ram_addr h <? 2 ^ 32)
  && (len (NDSHeader.reserved3 h) =? 4)
  && (len (NDSHeader.reserved4 h) =? 144).
Ltac header_projections :=
  cbn [NDSHeader.game_title NDSHeader.game_code NDSHeader.maker_code NDSHeader.unit_code NDSHeader.device_type NDSHeader.device_size NDSHeader.reserved1 NDSHeader.rom_version NDSHeader.flags NDSHeader.arm9_rom_addr NDSHeader.arm9_entry_addr NDSHeader.arm9_ram_addr NDSHeader.arm9_size NDSHeader.arm7_rom_addr NDSHeader.arm7_entry_addr NDSHeader.arm7_ram_addr NDSHeader.arm7_size NDSHeader.filename_table_addr NDSHeader.filename_size NDSHeader.fat_addr NDSHeader.fat_size NDSHeader.arm9_overlay_addr NDSHeader.arm9_overlay_size NDSHeader.arm7_overlay_addr NDSHeader.arm7_overlay_size NDSHeader.normal_commands_settings NDSHeader.key1_commands_settings NDSHeader.icon_title_addr NDSHeader.secure_area_crc16 NDSHeader.secure_area_loading_timeout NDSHeader.arm9_autoload_list_ram_addr NDSHeader.arm7_autoload_list_ram_addr NDSHeader.secure_area_disable NDSHeader.rom_size NDSHeader.header_size NDSHeader.reserved2 NDSHeader.nintendo_logo NDSHeader.nintendo_logo_crc NDSHeader.header_crc16 NDSHeader.debug_rom_addr NDSHeader.debug_size NDSHeader.debug_ram_addr NDSHeader.reserved3 NDSHeader.reserved4].

(** Split a conjunction of comparisons into arithmetic facts. *)
Ltac bool_facts :=
  repeat match goal with
         | H : _ && _ = true |- _ => apply andb_true_iff in H as [? ?]
         end;
  repeat match goal with
         | H : (_ =? _) = true |- _ => apply Z.eqb_eq in H
         | H : (_ <=? _) = true |- _ => apply Z.leb_le in H
         | H : (_ <? _) = true |- _ => apply Z.ltb_lt in H
         end.

Lemma setslice_len (data v : bytes) (a b : Z) :
  len data = 512 → 0 ≤ a ≤ b → b ≤ 512 → len v = b - a →
  len (setslice data a b v) = 512.
Proof.
  intros Hd Ha Hb Hv. unfold setslice, clamp_index. rewrite Hd.
  destruct (Z.ltb_spec a 0); [lia|]. destruct (Z.ltb_spec b 0); [lia|].
  rewrite (Z.min_l a), (Z.min_l b), (Z.max_r a) by lia.
  unfold len in *. rewrite !length_app, length_take, length_drop. lia.
Qed.

Lemma pack_into_ok (k : nat) (data : bytes) (off v : Z) :
  len data = 512 → 0 ≤ off → off + Z.of_nat k ≤ 512 →
  0 ≤ v < 2 ^ (8 * Z.of_nat k) →
  ∃ d, pack_into_le k data off v = Ok d ∧ len d = 512.
Proof.
  intros Hd Hoff Hk Hv. unfold pack_into_le.
  rewrite pack_le_ok by done. rsimpl. rewrite Hd.
  destruct (Z.leb_spec 0 off); [|lia].
  destruct (Z.leb_spec (off + Z.of_nat k) 512); [|lia]. cbn [andb].
  eexists. split; [done|].
  apply setslice_len; [done|lia|lia|]. rewrite len_le_encode. lia.
Qed.

Lemma setitem_int_ok (data : bytes) (i v : Z) :
  len data = 512 → 0 ≤ i < 512 → 0 ≤ v < 256 →
  ∃ d, NDSHeader.setitem_int data i v = Ok d ∧ len d = 512.
Proof.
  intros Hd Hi Hv. unfold NDSHeader.setitem_int.
  destruct (byte_of_int_inrange v Hv) as (b & -> & _). rsimpl.
  rewrite setitem_inrange by lia. eexists. split; [done|].
  unfold len in *. by rewrite length_insert.
Qed.

Ltac buffer_len :=
  repeat (apply setslice_len; [|lia|lia|lia]);
  first [assumption | reflexivity].

Ltac to_bytes_ok_step :=
  lazymatch goal with
  | |- context [pack_into_le ?k ?D ?off ?v ≫= _] =>
      let d := fresh "d" in
      let Hd := fresh "Hd" in
      destruct (pack_into_ok k D off v) as (d & -> & Hd);
      [buffer_len|lia|lia|simpl; lia|]; rsimpl
  | |- context [NDSHeader.setitem_int ?D ?i ?v ≫= _] =>
      let d := fresh "d" in
      let Hd := fresh "Hd" in
      destruct (setitem_int_ok D i v) as (d & -> & Hd);
      [buffer_len|lia|lia|]; rsimpl
  end.

(** A well-formed header serialises, to 512 bytes. *)
Lemma to_bytes_ok (h : NDSHeader.t) :
  header_wf h = true → ∃ out, NDSHeader.to_bytes h = Ok out ∧ len out = 512.
Proof.
  intros Hwf. unfold header_wf in Hwf. bool_facts.
  unfold NDSHeader.to_bytes. cbv zeta.
  repeat to_bytes_ok_step.
  eexists. split; [done|]. buffer_len.
Qed.

Ltac bool_goal :=
  repeat (apply andb_true_intro; split);
  first [apply Z.eqb_eq | apply Z.leb_le | apply Z.ltb_lt];
  first [assumption | lia].

Lemma set_rom_size_wf (h : NDSHeader.t) (n : Z) :
  header_wf h = true → 0 ≤ n < 2 ^ 32 → header_wf (set_rom_size h n) = true.
Proof.
  intros Hwf Hn. unfold header_wf in *. unfold set_rom_size.
  header_projections. bool_facts. bool_goal.
Qed.

Lemma len_CRC16_TABLE : len CRC16_TABLE = 256.
Proof. reflexivity. Qed.

Lemma calculate_crc16_ok (data : bytes) :
  ∃ c, calculate_crc16 data = Ok c ∧ 0 ≤ c < 2 ^ 16.
Proof.
  unfold calculate_crc16.
  destruct (for_each_inv (λ _, True) data crc_step 65535) as (crc & -> & _);
    [done| |].
  - intros b crc _ _. unfold crc_step.
    destruct (getitem_inrange CRC16_TABLE
                (Z.land (Z.lxor crc (b2z b)) 255)) as (t & -> & _).
    { rewrite len_CRC16_TABLE. apply land_255_range. }
    rsimpl. eauto.
  - rsimpl. eexists. split; [done|].
    change 65535 with (Z.ones 16). rewrite Z.land_ones by lia.
    apply Z.mod_pos_bound. lia.
Qed.

Lemma update_crc_ok (h : NDSHeader.t) :
  header_wf h = true →
  ∃ h', update_crc h = Ok h' ∧ header_wf h' = true ∧
        NDSHeader.fat_addr h' = NDSHeader.fat_addr h.
Proof.
  intros Hwf. unfold update_crc.
  destruct (to_bytes_ok h Hwf) as (raw & -> & _). rsimpl.
  destruct (calculate_crc16_ok (slice raw 0 350)) as (c & -> & Hc). rsimpl.
  eexists. split; [done|]. split; [|done].
  unfold header_wf in *. header_projections. bool_facts. bool_goal.
Qed.













Section Save.

Variable path_name : string → string.
Variable fnt_parse : bytes → Z → Z → list (string * Z).
Variable resolve_fat_index : list (string * Z) → option string → string → Z.
Variable creatable : string → bool.
Variable updatable : string → bool.











End Save.

(** A 778-byte image: a header that places a two-entry allocation
    table at offset 512, the table, and two files of 100 and 150 bytes.
    The name table maps [a.bin] and [b.bin] to entries 0 and 1. *)
Definition sample_rom : bytes :=
  setslice (setslice (zeros 512) 72 76 (le_encode 4 512)) 76 80
    (le_encode 4 16)
  ++ le_encode 4 528 ++ le_encode 4 628 ++ le_encode 4 628
  ++ le_encode 4 778 ++ zeros 250.

Definition sample_names (_ : bytes) (_ _ : Z) : list (string * Z) :=
  [("a.bin", 0); ("b.bin", 1)]%string.













End SaveFacts.

(** * Further properties of the code *)

(** ** Shared facts *)

Ltac rsimpl_in H :=
  repeat match type of H with
         | context [Ok ?a ≫= ?k] =>
             change (Ok a ≫= k) with (k a) in H; cbv beta iota in H
         end.

Section SliceFacts.

Import HeaderFacts.

Lemma slice_split {A} (l : list A) (a b c : Z) :
  0 ≤ a ≤ b → b ≤ c → c ≤ len l →
  slice l a b ++ slice l b c = slice l a c.
Proof.
  intros Hab Hbc Hc. rewrite !slice_inrange by lia.
  replace (Z.to_nat b) with (Z.to_nat a + Z.to_nat (b - a))%nat by lia.
  rewrite <- drop_drop, take_take_drop. f_equal. lia.
Qed.

Lemma slice_slice {A} (l : list A) (a b c d : Z) :
  0 ≤ a → a ≤ b → b ≤ len l → 0 ≤ c ≤ d → d ≤ b - a →
  slice (slice l a b) c d = slice l (a + c) (a + d).
Proof.
  intros Ha Hab Hb Hcd Hd.
  rewrite (slice_inrange (slice l a b)), (slice_inrange l a b),
    (slice_inrange l (a + c)); try lia.
  2:{ rewrite len_slice_inrange; lia. }
  replace (Z.to_nat (b - a))
    with (Z.to_nat c + Z.to_nat (b - a - c))%nat by lia.
  rewrite <- take_drop_commute, take_take, drop_drop.
  replace (a + d - (a + c)) with (d - c) by lia.
  f_equal; [lia|]. f_equal. lia.
Qed.

Lemma slice_app_l {A} (l rest : list A) (lo hi : Z) :
  0 ≤ lo → 0 ≤ hi ≤ len l → slice (l ++ rest) lo hi = slice l lo hi.
Proof.
  intros Hlo Hhi. unfold slice, clamp_index. rewrite len_app.
  pose proof (len_nonneg rest).
  destruct (Z.ltb_spec lo 0); [lia|]. destruct (Z.ltb_spec hi 0); [lia|].
  rewrite (Z.min_l hi), (Z.min_l hi) by lia.
  destruct (Z.le_gt_cases lo (len l)).
  - rewrite (Z.min_l lo), (Z.min_l lo) by lia.
    rewrite drop_app_le by (unfold len in *; lia).
    rewrite take_app_le; [done|]. rewrite length_drop. unfold len in *. lia.
  - replace (Z.to_nat (hi - Z.min lo (len l + len rest))) with 0%nat by lia.
    replace (Z.to_nat (hi - Z.min lo (len l))) with 0%nat by lia. done.
Qed.

Lemma getitem_app_l {A} (l rest : list A) (i : Z) :
  0 ≤ i < len l → getitem (l ++ rest) i = getitem l i.
Proof.
  intros Hi. destruct (getitem_inrange l i Hi) as (x & -> & Hx).
  apply getitem_lookup; [lia|]. by apply lookup_app_l_Some.
Qed.

Lemma slice_app_r {A} (pre l : list A) (lo hi : Z) :
  len pre ≤ lo → lo ≤ hi → hi ≤ len pre + len l →
  slice (pre ++ l) lo hi = slice l (lo - len pre) (hi - len pre).
Proof.
  intros Hlo Hhi Hin. pose proof (len_nonneg pre).
  rewrite !slice_inrange by (rewrite ?len_app; lia).
  replace (hi - len pre - (lo - len pre)) with (hi - lo) by lia.
  f_equal. rewrite drop_app_ge by (unfold len in *; lia).
  f_equal. unfold len in *. lia.
Qed.

(** Replacing the bytes between [a] and [b] leaves every slice before
    [a] and every slice from [b] on as it was. *)
Lemma slice_patch_before {A} (l d post : list A) (a lo hi : Z) :
  0 ≤ lo → lo ≤ hi → hi ≤ a → a ≤ len l →
  slice (take (Z.to_nat a) l ++ d ++ post) lo hi = slice l lo hi.
Proof.
  intros Hlo Hhi Ha Hl.
  assert (len (take (Z.to_nat a) l) = a) as Hlen.
  { unfold len in *. rewrite length_take. lia. }
  rewrite slice_app_l by lia.
  assert (slice l lo hi
          = slice (take (Z.to_nat a) l ++ drop (Z.to_nat a) l) lo hi) as ->
    by (by rewrite take_drop).
  by rewrite slice_app_l by lia.
Qed.

Lemma slice_patch_after {A} (l d : list A) (a b lo hi : Z) :
  0 ≤ a → a ≤ b → len d = b - a → b ≤ lo → lo ≤ hi → hi ≤ len l →
  slice (take (Z.to_nat a) l ++ d ++ drop (Z.to_nat b) l) lo hi
  = slice l lo hi.
Proof.
  intros Ha Hab Hd Hb Hlo Hhi.
  assert (len (take (Z.to_nat a) l ++ d) = b) as Hpre.
  { rewrite len_app. unfold len in *. rewrite length_take. lia. }
  assert (len (take (Z.to_nat b) l) = b) as Htake.
  { unfold len in *. rewrite length_take. lia. }
  assert (len (drop (Z.to_nat b) l) = len l - b) as Hdrop.
  { unfold len in *. rewrite length_drop. lia. }
  rewrite app_assoc, slice_app_r, Hpre by lia.
  assert (slice l lo hi
          = slice (take (Z.to_nat b) l ++ drop (Z.to_nat b) l) lo hi) as ->
    by (by rewrite take_drop).
  by rewrite slice_app_r, Htake by lia.
Qed.

End SliceFacts.

(** ** Bounds and failure modes of the codec *)

Module LZ10Bounds.
Import LZ10 LZ10Facts.

(** One pass of the encoder's inner loop emits no more bytes than it
    consumes, and a pass that does not reach the end of the data
    consumes at least one byte per flag bit. *)
Lemma compress_bits_size (data : bytes) (bits : list Z) (s s' : cstate) :
  (∀ b, b ∈ bits → 0 ≤ b < 8) → sinv data s →
  for_each bits (compress_op data (len data)) s = Ok s' →
  sinv data s' ∧
  len (output s') - len (output s) ≤ pos s' - pos s ∧
  len (output s) ≤ len (output s') ∧
  (pos s' = len data ∨ pos s + len bits ≤ pos s').
Proof.
  revert s. induction bits as [|bit bits IH]; intros s Hrange Hinv Hrun.
  { cbn [for_each] in Hrun. injection Hrun as <-.
    split; [done|]. rewrite len_nil. lia. }
  assert (0 ≤ bit < 8) as Hbit by (apply Hrange; left).
  cbn [for_each] in Hrun.
  destruct (compress_op_spec data bit s Hinv Hbit)
    as [[Hend Hop]|(Hlt & s1 & tb & Hop & Hstep)];
    rewrite Hop in Hrun; rsimpl_in Hrun.
  { injection Hrun as <-. split; [done|]. lia. }
  destruct Hstep as (Hout & Hinv1 & Hadv & Hkind).
  destruct (IH s1) as (Hinv' & Hsize & Hmono & Hend); [|done|done|].
  { intros b Hb. apply Hrange. by right. }
  split; [done|].
  assert (len tb ≤ pos s1 - pos s ∧ 0 ≤ len tb) as [Htb Htb0].
  { destruct Hkind as [(d & -> & _ & -> & _)
                      |(bl & bd & b1 & b2 & -> & Hgood & -> & _)].
    - rewrite len_singleton. lia.
    - destruct Hgood as (Hbl & _). rewrite !len_cons, len_nil. lia. }
  rewrite Hout, len_app in *. rewrite len_cons.
  pose proof (len_nonneg bits). lia.
Qed.

(** One pass of the encoder's outer loop: the flag byte plus the bytes of
    its operations. *)
Lemma compress_group_size (data : bytes) (s s' : cstate) :
  sinv data s → pos s < len data →
  compress_group data (len data) s = Ok (Continue s') →
  sinv data s' ∧ pos s < pos s' ∧
  len (output s') - len (output s) ≤ 1 + (pos s' - pos s) ∧
  len (output s) ≤ len (output s') ∧
  (pos s' = len data ∨ pos s + 8 ≤ pos s').
Proof.
  intros Hinv Hlt Hrun.
  destruct (compress_group_spec data s Hinv Hlt)
    as (s2 & body & Hrun2 & Hinv2 & _ & _ & Hadv & _).
  rewrite Hrun in Hrun2. injection Hrun2 as <-.
  split; [done|]. split; [done|].
  destruct Hinv as (Htabs & Hpos & Hfl).
  unfold compress_group in Hrun.
  destruct (append_ok (output s) 0) as (b0 & Happ & _); [lia|].
  rewrite Happ in Hrun. rsimpl_in Hrun.
  destruct (for_each (range 8) (compress_op data (len data)) _)
    as [s1| |] eqn:Hbits; [|done..]. rsimpl_in Hrun.
  apply compress_bits_size in Hbits as (Hinv1 & Hsize & Hmono & Hend).
  - cbn [output pos] in *.
    destruct (byte_of_int (flags s1)) as [fb| |]; [|done..]. rsimpl_in Hrun.
    destruct (setitem (output s1) (len (output s)) fb) as [o'| |] eqn:Hset;
      [|done..]. rsimpl_in Hrun.
    injection Hrun as <-. cbn [output pos].
    assert (len o' = len (output s1)) as ->.
    { unfold setitem in Hset.
      destruct (_ || _); [done|]. injection Hset as <-.
      unfold len. by rewrite length_insert. }
    rewrite len_app, len_singleton in *.
    change (len (range 8)) with 8 in Hend. lia.
  - intros b Hb. by apply elem_of_range in Hb.
  - repeat split; simpl; try apply Htabs; lia.
Qed.

(** The encoder's main loop adds at most one byte per input byte and one
    flag byte per eight input bytes. *)
Lemma compress_loop_size (data : bytes) (fuel : nat) (s s' : cstate) :
  sinv data s →
  while_loop fuel (λ s, Ok (pos s <? len data))
    (compress_group data (len data)) s = Ok s' →
  len (output s') - len (output s)
  ≤ (len data - pos s) + (len data - pos s + 7) / 8 ∧
  len (output s) ≤ len (output s').
Proof.
  revert s. induction fuel as [|fuel IH]; intros s Hinv Hrun;
    pose proof Hinv as (_ & Hpos & _);
    cbn [while_loop] in Hrun; rsimpl_in Hrun;
    destruct (Z.ltb_spec (pos s) (len data)) as [Hlt|Hge]; try done.
  1,3: injection Hrun as <-;
    assert (0 ≤ (len data - pos s + 7) / 8)
      by (apply Z.div_pos; lia); lia.
  destruct (compress_group data (len data) s) as [[s1|s1]| |] eqn:Hg;
    [| |done..]; rsimpl_in Hrun.
  - apply compress_group_size in Hg
      as (Hinv1 & Hadv & Hsize & Hmono & Hend); [|done..].
    destruct (IH s1 Hinv1 Hrun) as [Hrest Hmono'].
    split; [|lia].
    pose proof Hinv1 as (_ & Hpos1 & _).
    assert (1 + (len data - pos s1 + 7) / 8 ≤ (len data - pos s + 7) / 8).
    { destruct Hend as [->|Hend].
      - replace (len data - len data + 7) with 7 by lia.
        change (7 / 8) with 0.
        assert (1 * 8 ≤ len data - pos s + 7) by lia.
        apply Z.div_le_lower_bound; lia.
      - replace (len data - pos s + 7)
          with ((len data - pos s - 8 + 7) + 1 * 8) by lia.
        rewrite Z.div_add by lia.
        assert ((len data - pos s1 + 7) / 8 ≤ (len data - pos s - 8 + 7) / 8)
          by (apply Z.div_le_mono; lia).
        lia. }
    lia.
  - destruct (compress_group_spec data s Hinv Hlt) as (s2 & ? & Hg2 & _).
    congruence.
Qed.

(** X1.  The encoder returns for every input.  Its output starts with
    the tag [0x10] and the three low bytes of the input length, and is at
    most the input length plus one flag byte per eight input bytes plus
    the four header bytes; the empty input gives the bare header. *)
Theorem compress_size_bound (data : bytes) :
  ∃ h1 h2 h3 body,
    compress_lz10 data = Ok (x10 :: h1 :: h2 :: h3 :: body) ∧
    b2z h1 = len data `mod` 256 ∧
    b2z h2 = (len data / 2 ^ 8) `mod` 256 ∧
    b2z h3 = (len data / 2 ^ 16) `mod` 256 ∧
    len body ≤ len data + (len data + 7) / 8.
Proof.
  destruct (compress_lz10_shape data)
    as (h1 & h2 & h3 & body & Hc & Hh1 & Hh2 & Hh3 & _).
  exists h1, h2, h3, body. split; [done|].
  change 255 with (Z.ones 8) in *.
  rewrite Z.land_ones in Hh1, Hh2, Hh3 by lia.
  rewrite Z.shiftr_div_pow2 in Hh2, Hh3 by lia.
  change (2 ^ 8) with 256 in *. do 3 (split; [done|]).
  unfold compress_lz10 in Hc.
  destruct (append_ok [] 16) as (t & Ht & _); [lia|].
  rewrite Ht in Hc. rsimpl_in Hc.
  destruct (append_ok ([] ++ [t]) (Z.land (len data) 255))
    as (a1 & Ha1 & _); [apply land_255_range|].
  rewrite Ha1 in Hc. rsimpl_in Hc.
  destruct (append_ok (([] ++ [t]) ++ [a1])
              (Z.land (Z.shiftr (len data) 8) 255))
    as (a2 & Ha2 & _); [apply land_255_range|].
  rewrite Ha2 in Hc. rsimpl_in Hc.
  destruct (append_ok ((([] ++ [t]) ++ [a1]) ++ [a2])
              (Z.land (Z.shiftr (len data) 16) 255))
    as (a3 & Ha3 & _); [apply land_255_range|].
  rewrite Ha3 in Hc. rsimpl_in Hc.
  change (((([] ++ [t]) ++ [a1]) ++ [a2]) ++ [a3]) with [t; a1; a2; a3] in Hc.
  pose proof (len_nonneg data) as Hn.
  assert (0 ≤ (len data + 7) / 8) by (apply Z.div_pos; lia).
  destruct (Z.eqb_spec (len data) 0) as [H0|H0].
  { injection Hc as _ _ _ _ <-. rewrite len_nil. lia. }
  destruct (prefill_ok data (Z.min 4096 (len data - 2)) _ tabs_ok_init)
    as ([hd lr] & Hpre & Htabs).
  rewrite Hpre in Hc. rsimpl_in Hc.
  destruct (while_loop _ _ _ _) as [s'| |] eqn:Hloop; [|done..].
  rsimpl_in Hc. injection Hc as Hout.
  apply compress_loop_size in Hloop as [Hsize _].
  - cbn [output pos] in Hsize. rewrite Hout in Hsize.
    rewrite !len_cons, len_nil in Hsize.
    replace (len data - 0) with (len data) in Hsize by lia. lia.
  - repeat split; simpl; try apply Htabs; lia.
Qed.

(** The decoder's main loop rebuilds the data from the encoder's bytes
    whatever follows them in the buffer. *)
Lemma compress_loop_rest (data : bytes) (fuel : nat) (s : cstate) :
  sinv data s → len data - pos s ≤ Z.of_nat fuel →
  ∃ s' body,
    while_loop fuel (λ s, Ok (pos s <? len data))
      (compress_group data (len data)) s = Ok s' ∧
    output s' = output s ++ body ∧
    ∀ pre rest (fd : nat),
      len body ≤ Z.of_nat fd →
      decompress_loop (pre ++ body ++ rest) (len data) fd
        (len pre, prefix_of data (pos s))
      = Ok (len pre + len body, data).
Proof.
  revert s. induction fuel as [|fuel IH]; intros s Hinv Hfuel;
    pose proof Hinv as (_ & Hpos & _);
    cbn [while_loop]; rsimpl;
    destruct (Z.ltb_spec (pos s) (len data)) as [Hlt|Hge]; try lia.
  1,3: exists s, []; rewrite app_nil_r; split; [done|]; split; [done|];
    intros pre rest fd _; replace (pos s) with (len data) by lia;
    rewrite prefix_of_all, decompress_loop_done by lia;
    rewrite len_nil; zeq.
  destruct (compress_group_spec data s Hinv Hlt)
    as (s1 & gbody & -> & Hinv1 & Hout1 & Hlen1 & Hadv & Hdec1). rsimpl.
  destruct (IH s1 Hinv1) as (s' & body & -> & Hout' & Hdec); [lia|].
  exists s', (gbody ++ body). split; [done|].
  split; [by rewrite Hout', Hout1, <- app_assoc|].
  intros pre rest fd Hfd. rewrite len_app in Hfd.
  pose proof (len_nonneg body). pose proof (len_nonneg pre).
  pose proof (len_nonneg rest).
  destruct fd as [|fd]; [lia|].
  rewrite decompress_loop_step.
  2:{ rewrite len_prefix_of; lia. }
  2:{ rewrite !len_app. lia. }
  rewrite <- (app_assoc gbody body rest).
  rewrite Hdec1. rsimpl.
  replace (pre ++ gbody ++ body ++ rest) with ((pre ++ gbody) ++ body ++ rest)
    by (by rewrite <- app_assoc).
  replace (len pre + len gbody) with (len (pre ++ gbody)) by apply len_app.
  rewrite Hdec by lia. rewrite !len_app. zeq.
Qed.

(** X2.  Bytes that follow a complete compressed stream are ignored:
    below the 16 MiB limit, the compressed form of [b] followed by
    anything decompresses to [b]. *)
Theorem decompress_ignores_trailing_bytes (b junk : bytes) :
  len b < 2 ^ 24 →
  ∃ c, compress_lz10 b = Ok c ∧ decompress_lz10 (c ++ junk) = Ok b.
Proof.
  intros Hlen. pose proof (len_nonneg b) as Hn.
  destruct (compress_lz10_shape b)
    as (h1 & h2 & h3 & body & Hc & Hh1 & Hh2 & Hh3 & _).
  exists (x10 :: h1 :: h2 :: h3 :: body). split; [done|].
  assert (declared_size h1 h2 h3 = len b) as Hsize.
  { unfold declared_size. rewrite Hh1, Hh2, Hh3.
    apply header_length_roundtrip. lia. }
  change ((x10 :: h1 :: h2 :: h3 :: body) ++ junk)
    with (x10 :: h1 :: h2 :: h3 :: body ++ junk).
  rewrite decompress_lz10_tagged, Hsize.
  assert (decompress_loop (x10 :: h1 :: h2 :: h3 :: body ++ junk) (len b)
            (length (x10 :: h1 :: h2 :: h3 :: body ++ junk)) (4, [])
          = Ok (4 + len body, b)) as ->.
  2:{ rsimpl. rewrite slice_prefix by done. f_equal. apply prefix_of_all. }
  unfold compress_lz10 in Hc.
  destruct (append_ok [] 16) as (t & Ht & _); [lia|].
  rewrite Ht in Hc. rsimpl_in Hc.
  destruct (append_ok ([] ++ [t]) (Z.land (len b) 255))
    as (a1 & Ha1 & _); [apply land_255_range|].
  rewrite Ha1 in Hc. rsimpl_in Hc.
  destruct (append_ok (([] ++ [t]) ++ [a1])
              (Z.land (Z.shiftr (len b) 8) 255))
    as (a2 & Ha2 & _); [apply land_255_range|].
  rewrite Ha2 in Hc. rsimpl_in Hc.
  destruct (append_ok ((([] ++ [t]) ++ [a1]) ++ [a2])
              (Z.land (Z.shiftr (len b) 16) 255))
    as (a3 & Ha3 & _); [apply land_255_range|].
  rewrite Ha3 in Hc. rsimpl_in Hc.
  change (((([] ++ [t]) ++ [a1]) ++ [a2]) ++ [a3]) with [t; a1; a2; a3] in Hc.
  destruct (Z.eqb_spec (len b) 0) as [H0|H0].
  { injection Hc as _ _ _ _ <-. rewrite H0.
    rewrite decompress_loop_done by done.
    destruct b as [|b0 b']; [done|]. rewrite len_cons in H0.
    pose proof (len_nonneg b'). lia. }
  destruct (prefill_ok b (Z.min 4096 (len b - 2)) _ tabs_ok_init)
    as ([hd lr] & Hpre & Htabs).
  rewrite Hpre in Hc. rsimpl_in Hc.
  destruct (compress_loop_rest b (length b) (CState [t; a1; a2; a3] hd lr 0 0))
    as (s' & body' & Hloop & Hout & Hdec).
  { repeat split; simpl; try apply Htabs; lia. }
  { simpl. unfold len. lia. }
  rewrite Hloop in Hc. rsimpl_in Hc. injection Hc as Hc.
  cbn [output] in Hout. rewrite Hout in Hc.
  injection Hc as -> -> -> -> ->.
  apply (Hdec [x10; h1; h2; h3] junk).
  unfold len. simpl. rewrite length_app. lia.
Qed.

Lemma decompress_ignores_trailing_bytes_witness :
  len ["a"%byte; "b"%byte; "a"%byte; "b"%byte; "a"%byte; "b"%byte] < 2 ^ 24 ∧
  ∃ c, compress_lz10
         ["a"%byte; "b"%byte; "a"%byte; "b"%byte; "a"%byte; "b"%byte] = Ok c ∧
       decompress_lz10 (c ++ [x00; xff; x00])
       = Ok ["a"%byte; "b"%byte; "a"%byte; "b"%byte; "a"%byte; "b"%byte].
Proof.
  split; [reflexivity|].
  apply decompress_ignores_trailing_bytes. reflexivity.
Defined.

(** X3.  The decoder fails on exactly one kind of input: a buffer that
    starts with the tag [0x10] and is shorter than the four-byte header,
    on which it raises [IndexError].  Every other buffer, however
    malformed its body, decodes to some byte string. *)
Theorem decompress_fails_only_on_short_header (data : bytes) :
  (b2z <$> data !! 0%nat = Some 16 ∧ len data < 4 ∧
   decompress_lz10 data = Raise IndexError)
  ∨
  ((b2z <$> data !! 0%nat ≠ Some 16 ∨ 4 ≤ len data) ∧
   ∃ out, decompress_lz10 data = Ok out).
Proof.
  destruct data as [|d0 rest].
  { right. split; [by left|]. by exists []. }
  destruct (Z.eqb_spec (b2z d0) 16) as [H16|H16].
  2:{ right. split.
      - left. simpl. intros [= ?]. done.
      - exists (d0 :: rest). unfold decompress_lz10.
        by destruct (Z.eqb_spec (b2z d0) 16). }
  assert (d0 = x10) as -> by (by apply b2z_inj).
  destruct rest as [|d1 [|d2 [|d3 rest]]].
  1-3: left; split; [done|]; split; [done|reflexivity].
  right. split.
  - right. rewrite !len_cons. pose proof (len_nonneg rest). lia.
  - destruct (decompress_tagged_total d1 d2 d3 rest) as (? & raw & _ & ->).
    eauto.
Qed.

End LZ10Bounds.

(** ** Archives: alignment, nesting, failure modes *)

Module NARCExtra.
Import NARC NARCFacts.
Import LZ10Facts.

Lemma pad4_aligned (f : bytes) : len f mod 4 = 0 → pad4 f = f.
Proof.
  intros Hf. unfold pad4. rewrite land3_mod.
  replace ((- len f) mod 4) with 0.
  - change (zeros 0) with (@nil byte). by rewrite app_nil_r.
  - symmetry. apply Z.mod_divide; [lia|].
    apply Z.divide_opp_r. by apply Z.mod_divide.
Qed.

Lemma pad4_idem (f : bytes) : pad4 (pad4 f) = pad4 f.
Proof. apply pad4_aligned, len_pad4_mod. Qed.

Lemma pad4_all_aligned (files : list bytes) :
  Forall (λ f, len f mod 4 = 0) files → pad4 <$> files = files.
Proof.
  induction 1 as [|f fs Hf _ IH]; [done|].
  cbn [fmap list_fmap]. rewrite pad4_aligned by done.
  f_equal. exact IH.
Qed.

Lemma len_narc_layout (files : list bytes) :
  len (narc_layout files) = narc_size files.
Proof.
  unfold narc_layout, narc_size.
  rewrite !len_app, len_narc_header, !len_le_encode, len_entries.
  change (len magic_BTAF) with 4. change (len magic_BTNF) with 4.
  change (len magic_GMIF) with 4. change (len (zeros 0)) with 0.
  change (len (zeros 8)) with 8. lia.
Qed.

Lemma narc_size_mod (files : list bytes) : narc_size files mod 4 = 0.
Proof.
  unfold narc_size. pose proof (len_pool_mod files) as Hp.
  replace (52 + 8 * len files + len (pool files))
    with (len (pool files) + (13 + 2 * len files) * 4) by lia.
  by rewrite Z.mod_add by lia.
Qed.

Lemma entries_of_padded (o : Z) (files : list bytes) :
  entries_of o (pad4 <$> files) = entries_of o files.
Proof.
  revert o. induction files as [|f fs IH]; intros o; [done|].
  cbn [fmap list_fmap entries_of]. rewrite pad4_idem. f_equal. apply IH.
Qed.

Lemma narc_layout_padded (files : list bytes) :
  narc_layout (pad4 <$> files) = narc_layout files.
Proof.
  assert (pool (pad4 <$> files) = pool files) as Hpool.
  { unfold pool. rewrite <- list_fmap_compose. f_equal.
    apply list_fmap_ext. intros _ f _. apply pad4_idem. }
  assert (len (pad4 <$> files) = len files) as Hlen.
  { unfold len. by rewrite length_fmap. }
  unfold narc_layout, narc_header, narc_size.
  by rewrite Hpool, Hlen, entries_of_padded.
Qed.

(** X4.  When every blob length is a multiple of four the archive round
    trip is exact. *)
Theorem narc_roundtrip_aligned (files : list bytes) :
  Forall (λ f, len f mod 4 = 0) files → narc_size files < 2 ^ 32 →
  ∃ blob, build_narc files = Ok blob ∧ parse_narc blob = Ok files.
Proof.
  intros Hal Hsize. exists (narc_layout files).
  split; [by apply build_narc_layout|].
  rewrite parse_narc_layout by done. by rewrite pad4_all_aligned.
Qed.

Lemma narc_roundtrip_aligned_witness :
  ∃ blob,
    build_narc [["a"%byte; "b"%byte; "c"%byte; "d"%byte]; [];
                ["e"%byte; "f"%byte; "g"%byte; "h"%byte]] = Ok blob ∧
    parse_narc blob
    = Ok [["a"%byte; "b"%byte; "c"%byte; "d"%byte]; [];
          ["e"%byte; "f"%byte; "g"%byte; "h"%byte]].
Proof.
  apply narc_roundtrip_aligned.
  - repeat constructor.
  - by vm_compute.
Defined.

(** X5.  Archives are canonical after one pass: rebuilding from the
    parsed files gives the same archive byte for byte, so a second
    parse returns the same files. *)
Theorem narc_rebuild_is_identity (files : list bytes) :
  narc_size files < 2 ^ 32 →
  ∃ blob files',
    build_narc files = Ok blob ∧ parse_narc blob = Ok files' ∧
    build_narc files' = Ok blob.
Proof.
  intros Hsize. exists (narc_layout files), (pad4 <$> files).
  split; [by apply build_narc_layout|].
  split; [by apply parse_narc_layout|].
  rewrite <- narc_layout_padded. apply build_narc_layout.
  rewrite <- len_narc_layout, narc_layout_padded, len_narc_layout. done.
Qed.

Lemma narc_rebuild_is_identity_witness :
  ∃ blob files',
    build_narc [["a"%byte]; ["b"%byte; "c"%byte]] = Ok blob ∧
    parse_narc blob = Ok files' ∧ build_narc files' = Ok blob.
Proof. apply narc_rebuild_is_identity. by vm_compute. Defined.

(** Reading with [u16] a field written by [struct.pack('<H', v)]. *)
Lemma u16_at (blob pre post : bytes) (o v : Z) :
  blob = pre ++ le_encode 2 v ++ post → o = len pre → 0 ≤ v < 2 ^ 16 →
  u16 blob o = Ok v.
Proof.
  intros -> -> Hv. unfold u16.
  rewrite (getitem_app_r pre _ (len pre) 0) by lia.
  rewrite (getitem_app_r pre _ (len pre + 1) 1) by lia.
  cbn [le_encode app].
  rewrite (getitem_lookup _ 0 (low_byte v)) by (done || lia).
  rewrite (getitem_lookup _ 1 (low_byte (Z.shiftr v 8))) by (done || lia).
  rsimpl. f_equal.
  pose proof (le_decode_encode 2 v Hv) as Hd. cbn [le_encode le_decode] in Hd.
  by rewrite Z.shiftl_0_l, Z.lor_0_r in Hd.
Qed.

(** X6.  The fixed fields of a built archive: the magic, the total size
    at offset 8 equal to the length of the archive, header size 16 and
    section count 3, the file count at offset 24; the length is a
    multiple of four, so archives nest without padding. *)
Theorem narc_header_fields (files : list bytes) :
  narc_size files < 2 ^ 32 →
  ∃ blob,
    build_narc files = Ok blob ∧
    slice blob 0 4 = magic_NARC ∧
    u32 blob 8 = Ok (len blob) ∧
    u16 blob 12 = Ok 16 ∧ u16 blob 14 = Ok 3 ∧
    u32 blob 24 = Ok (len files) ∧
    len blob mod 4 = 0.
Proof.
  intros Hsize. exists (narc_layout files).
  pose proof (len_nonneg files). pose proof (len_nonneg (pool files)).
  assert (0 ≤ narc_size files) by (unfold narc_size; lia).
  pose proof Hsize as Hsize'. unfold narc_size in Hsize'.
  split; [by apply build_narc_layout|].
  rewrite len_narc_layout.
  set (tail1 := magic_BTAF
      ++ (le_encode 4 (12 + 8 * len files) ++ le_encode 4 (len files))
      ++ concat (pack_pair <$> entries_of 0 files) ++ zeros 0).
  set (tail2 := (magic_BTNF ++ le_encode 4 16 ++ zeros 8)
      ++ (magic_GMIF ++ le_encode 4 (8 + len (pool files)) ++ pool files)).
  assert (narc_layout files = narc_header files ++ tail1 ++ tail2) as Hl
    by done.
  split.
  { apply (slice_mid _ [] magic_NARC
             ([xfe; xff; x00; x01] ++ le_encode 4 (narc_size files)
              ++ le_encode 2 16 ++ le_encode 2 3 ++ tail1 ++ tail2));
      [|done|done].
    rewrite Hl. unfold narc_header. by rewrite <- !app_assoc. }
  split.
  { apply (u32_at _ (magic_NARC ++ [xfe; xff; x00; x01])
             (le_encode 2 16 ++ le_encode 2 3 ++ tail1 ++ tail2));
      [|done|lia].
    rewrite Hl. unfold narc_header. by rewrite <- !app_assoc. }
  split.
  { apply (u16_at _ (magic_NARC ++ [xfe; xff; x00; x01]
                     ++ le_encode 4 (narc_size files))
             (le_encode 2 3 ++ tail1 ++ tail2)); [|done|lia].
    rewrite Hl. unfold narc_header. by rewrite <- !app_assoc. }
  split.
  { apply (u16_at _ (magic_NARC ++ [xfe; xff; x00; x01]
                     ++ le_encode 4 (narc_size files) ++ le_encode 2 16)
             (tail1 ++ tail2)); [|done|lia].
    rewrite Hl. unfold narc_header. by rewrite <- !app_assoc. }
  split; [|apply narc_size_mod].
  apply (u32_at _ (narc_header files ++ magic_BTAF
                   ++ le_encode 4 (12 + 8 * len files))
           (concat (pack_pair <$> entries_of 0 files) ++ zeros 0 ++ tail2));
    [|rewrite !len_app, len_narc_header, len_le_encode;
      change (len magic_BTAF) with 4; lia|lia].
  rewrite Hl. unfold tail1. by rewrite <- !app_assoc.
Qed.

Lemma narc_header_fields_witness :
  ∃ blob,
    build_narc [["a"%byte]; []; ["b"%byte; "c"%byte]] = Ok blob ∧
    slice blob 0 4 = magic_NARC ∧
    u32 blob 8 = Ok (len blob) ∧
    u16 blob 12 = Ok 16 ∧ u16 blob 14 = Ok 3 ∧
    u32 blob 24 = Ok (len [["a"%byte]; []; ["b"%byte; "c"%byte]]) ∧
    len blob mod 4 = 0.
Proof. apply narc_header_fields. by vm_compute. Defined.

(** X7.  An archive whose files are themselves built archives parses
    back to exactly those archives. *)
Theorem narc_of_archives_roundtrip (groups : list (list bytes))
    (inner : list bytes) :
  Forall2 (λ g a, narc_size g < 2 ^ 32 ∧ build_narc g = Ok a) groups inner →
  narc_size inner < 2 ^ 32 →
  ∃ outer, build_narc inner = Ok outer ∧ parse_narc outer = Ok inner ∧
           Forall2 (λ g a, parse_narc a = Ok (pad4 <$> g)) groups inner.
Proof.
  intros Hgroups Hsize.
  assert (Forall2 (λ g a, a = narc_layout g ∧ narc_size g < 2 ^ 32)
            groups inner) as Hlay.
  { eapply Forall2_impl; [exact Hgroups|].
    intros g a [Hg Ha]. rewrite build_narc_layout in Ha by done.
    by injection Ha as <-. }
  assert (Forall (λ f, len f mod 4 = 0) inner) as Hal.
  { clear -Hlay. induction Hlay as [|g a gs as_ [-> _] _ IH]; [done|].
    constructor; [|done]. rewrite len_narc_layout. apply narc_size_mod. }
  exists (narc_layout inner). split; [by apply build_narc_layout|].
  split; [by rewrite parse_narc_layout, pad4_all_aligned|].
  eapply Forall2_impl; [exact Hlay|].
  intros g a [-> Hg]. by apply parse_narc_layout.
Qed.

Lemma narc_of_archives_roundtrip_witness :
  ∃ a1 a2 outer,
    build_narc [["a"%byte]; ["b"%byte; "c"%byte]] = Ok a1 ∧
    build_narc [] = Ok a2 ∧
    build_narc [a1; a2] = Ok outer ∧ parse_narc outer = Ok [a1; a2].
Proof.
  destruct (narc_of_archives_roundtrip
              [[["a"%byte]; ["b"%byte; "c"%byte]]; []]
              [narc_layout [["a"%byte]; ["b"%byte; "c"%byte]];
               narc_layout []])
    as (outer & Hb & Hp & _).
  - repeat constructor; by vm_compute.
  - by vm_compute.
  - exists (narc_layout [["a"%byte]; ["b"%byte; "c"%byte]]), (narc_layout []),
      outer.
    split; [by vm_compute|]. split; [by vm_compute|]. by split.
Defined.

Lemma getitem_outcome {A} (l : list A) (i : Z) :
  (∃ x, getitem l i = Ok x) ∨ getitem l i = Raise IndexError.
Proof.
  unfold getitem. destruct (_ || _); [by right|].
  destruct (l !! _); [left; eauto|by right].
Qed.

Lemma u32_outcome (b : bytes) (o : Z) :
  (∃ v, u32 b o = Ok v) ∨ u32 b o = Raise IndexError.
Proof.
  unfold u32.
  destruct (getitem_outcome b o) as [[b0 ->]| ->]; [rsimpl|by right].
  destruct (getitem_outcome b (o + 1)) as [[b1 ->]| ->]; [rsimpl|by right].
  destruct (getitem_outcome b (o + 2)) as [[b2 ->]| ->]; [rsimpl|by right].
  destruct (getitem_outcome b (o + 3)) as [[b3 ->]| ->]; [rsimpl|by right].
  left. eauto.
Qed.

Lemma parse_entries_outcome (blob : bytes) (eo : Z) (xs : list Z)
    (acc : list (Z * Z)) :
  (∃ es, for_each xs (parse_entry_step blob eo) acc = Ok es ∧
         len es = len acc + len xs)
  ∨ for_each xs (parse_entry_step blob eo) acc = Raise IndexError.
Proof.
  revert acc. induction xs as [|i xs IH]; intros acc.
  { left. exists acc. split; [done|]. rewrite len_nil. lia. }
  cbn [for_each].
  change (parse_entry_step blob eo i acc)
    with (u32 blob (eo + i * 8) ≫= λ s,
          u32 blob (eo + i * 8 + 4) ≫= λ e,
          Ok (Continue (acc ++ [(s, e)]))).
  destruct (u32_outcome blob (eo + i * 8)) as [[s ->]| ->];
    [rsimpl|by right].
  destruct (u32_outcome blob (eo + i * 8 + 4)) as [[e ->]| ->];
    [rsimpl|by right].
  destruct (IH (acc ++ [(s, e)])) as [(es & -> & Hlen)| ->]; [|by right].
  left. exists es. split; [done|].
  rewrite len_app, len_singleton in Hlen. rewrite len_cons. lia.
Qed.

Lemma u32_nonneg (b : bytes) (o v : Z) : u32 b o = Ok v → 0 ≤ v.
Proof.
  unfold u32. intros Hu.
  destruct (getitem b o) as [b0| |]; [|done..]. rsimpl_in Hu.
  destruct (getitem b (o + 1)) as [b1| |]; [|done..]. rsimpl_in Hu.
  destruct (getitem b (o + 2)) as [b2| |]; [|done..]. rsimpl_in Hu.
  destruct (getitem b (o + 3)) as [b3| |]; [|done..]. rsimpl_in Hu.
  injection Hu as <-.
  pose proof (b2z_range b0). pose proof (b2z_range b1).
  pose proof (b2z_range b2). pose proof (b2z_range b3).
  repeat (apply Z.lor_nonneg; split); try apply Z.shiftl_nonneg; lia.
Qed.

(** X8.  The only ways [parse_narc] ends: it returns as many files as
    the count field at offset 24 announces, it raises [ValueError] (a
    section magic is missing), or it raises [IndexError] (a field lies
    past the end of the buffer).  A buffer that does not start with
    [NARC], the empty buffer included, gives [ValueError]. *)
Theorem parse_narc_outcomes (blob : bytes) :
  (slice blob 0 4 ≠ magic_NARC → parse_narc blob = Raise ValueError) ∧
  ((∃ files, parse_narc blob = Ok files ∧ u32 blob 24 = Ok (len files))
   ∨ parse_narc blob = Raise ValueError
   ∨ parse_narc blob = Raise IndexError).
Proof.
  split.
  { intros Hm. unfold parse_narc, bytes_eqb.
    rewrite bool_decide_eq_false_2; [done|].
    intros Heq. apply Hm.
    apply (list_fmap_eq_inj b2z); [|exact Heq]. intros x y. apply b2z_inj. }
  unfold parse_narc.
  destruct (negb (bytes_eqb (slice blob 0 4) magic_NARC)); [by right; left|].
  cbv zeta.
  destruct (negb (bytes_eqb (slice blob 16 (16 + 4)) magic_BTAF));
    [by right; left|].
  destruct (u32_outcome blob (16 + 4)) as [[btaf_size ->]| ->];
    [rsimpl|by right; right].
  destruct (u32_outcome blob (16 + 8)) as [[count Hcount]| ->];
    [rewrite Hcount; rsimpl|by right; right].
  destruct (parse_entries_outcome blob (16 + 12) (range count) [])
    as [(es & -> & Hlen)| ->]; [rsimpl|by right; right].
  destruct (negb (bytes_eqb _ magic_BTNF)); [by right; left|].
  destruct (u32_outcome blob (16 + btaf_size + 4)) as [[fntb_size ->]| ->];
    [rsimpl|by right; right].
  destruct (negb (bytes_eqb _ magic_GMIF)); [by right; left|].
  left. eexists. split; [done|].
  change (16 + 8) with 24 in Hcount. rewrite Hcount. f_equal.
  apply u32_nonneg in Hcount.
  unfold len at 1. rewrite length_fmap. fold (len es). rewrite Hlen.
  rewrite len_nil, len_range by done. lia.
Qed.

Lemma parse_narc_outcomes_witness :
  parse_narc [] = Raise ValueError ∧
  parse_narc (magic_NARC ++ zeros 12 ++ magic_BTAF) = Raise IndexError.
Proof.
  split.
  - apply (proj1 (parse_narc_outcomes [])). discriminate.
  - reflexivity.
Defined.

End NARCExtra.

(** ** Table entries and the checksum *)

Module FormatExtra.
Import Saver ApplyFacts SaveFacts HeaderFacts.

(** Eight bytes or more always decode, and the entry encodes back to
    the first eight. *)
Lemma from_bytes_full (d : bytes) :
  8 ≤ len d →
  ∃ e, FATEntry.from_bytes d = Ok e ∧ entry_u32 e ∧
       FATEntry.to_bytes e = Ok (slice d 0 8).
Proof.
  intros Hd. unfold FATEntry.from_bytes. cbv zeta.
  rewrite len_slice_inrange by lia.
  change (8 - 0 =? 8) with true. cbn [negb].
  rewrite !slice_slice by lia.
  change (0 + 0) with 0. change (0 + 4) with 4. change (0 + 8) with 8.
  pose proof (le_decode_range (slice d 0 4)) as R1.
  pose proof (le_decode_range (slice d 4 8)) as R2.
  rewrite len_slice_inrange in R1, R2 by lia.
  eexists. split; [done|]. split; [split; simpl; lia|].
  unfold FATEntry.to_bytes. cbn [FATEntry.start_addr FATEntry.end_addr].
  rewrite !pack_le_ok by (simpl; lia). rsimpl. f_equal.
  pose proof (le_encode_decode (slice d 0 4)) as E1.
  pose proof (le_encode_decode (slice d 4 8)) as E2.
  assert (length (slice d 0 4) = 4%nat) as L1.
  { pose proof (len_slice_inrange d 0 4). unfold len in *. lia. }
  assert (length (slice d 4 8) = 4%nat) as L2.
  { pose proof (len_slice_inrange d 4 8). unfold len in *. lia. }
  rewrite L1 in E1. rewrite L2 in E2. rewrite E1, E2.
  apply slice_split; lia.
Qed.

(** X9.  [FATEntry.to_bytes] and [FATEntry.from_bytes] are inverse to
    each other between entries whose two addresses fit in 32 bits and
    eight-byte strings.  An address outside that range makes [to_bytes]
    raise [struct.error]; fewer than eight bytes make [from_bytes] raise
    it; bytes after the eighth are ignored. *)
Theorem fat_entry_codec :
  (∀ e, entry_u32 e →
        ∃ b, FATEntry.to_bytes e = Ok b ∧ len b = 8 ∧
             FATEntry.from_bytes b = Ok e) ∧
  (∀ e, ¬ entry_u32 e → FATEntry.to_bytes e = Raise StructError) ∧
  (∀ d, 8 ≤ len d →
        ∃ e, FATEntry.from_bytes d = Ok e ∧ entry_u32 e ∧
             FATEntry.to_bytes e = Ok (slice d 0 8)) ∧
  (∀ d, len d < 8 → FATEntry.from_bytes d = Raise StructError).
Proof.
  split; [|split; [|split]].
  - intros e [Hs He]. exists (entry_bytes e).
    unfold FATEntry.to_bytes.
    rewrite !pack_le_ok by (simpl; lia). rsimpl.
    split; [done|]. split; [apply len_entry_bytes|].
    by apply from_bytes_entry.
  - intros e Hne. unfold FATEntry.to_bytes, pack_le.
    change (2 ^ (8 * Z.of_nat 4)) with (2 ^ 32).
    destruct (Z.leb_spec 0 (FATEntry.start_addr e)); [|done].
    destruct (Z.ltb_spec (FATEntry.start_addr e) (2 ^ 32)); [|done].
    cbn [andb]. rsimpl.
    destruct (Z.leb_spec 0 (FATEntry.end_addr e)); [|done].
    destruct (Z.ltb_spec (FATEntry.end_addr e) (2 ^ 32)); [|done].
    exfalso. apply Hne. unfold entry_u32. lia.
  - apply from_bytes_full.
  - intros d Hd. unfold FATEntry.from_bytes. cbv zeta.
    assert (len (slice d 0 8) ≠ 8) as Hne.
    { unfold slice, clamp_index. change (0 <? 0) with false.
      change (8 <? 0) with false. cbv iota. pose proof (len_nonneg d).
      rewrite (Z.min_l 0), (Z.min_r 8) by lia. change (Z.to_nat 0) with 0%nat.
      rewrite drop_0. unfold len in *. rewrite length_take. lia. }
    by destruct (Z.eqb_spec (len (slice d 0 8)) 8).
Qed.

Lemma fat_entry_codec_witness :
  (∃ b, FATEntry.to_bytes (FATEntry.Make 528 628) = Ok b ∧ len b = 8 ∧
        FATEntry.from_bytes b = Ok (FATEntry.Make 528 628)) ∧
  FATEntry.to_bytes (FATEntry.Make 0 (2 ^ 32)) = Raise StructError ∧
  FATEntry.from_bytes [x01; x02; x03] = Raise StructError.
Proof.
  destruct fat_entry_codec as (Henc & Hbig & _ & Hshort).
  split; [|split].
  - apply Henc. split; by vm_compute.
  - apply Hbig. intros [_ [_ H]]. by vm_compute in H.
  - apply Hshort. by vm_compute.
Defined.

(** The checksum as it is defined: CRC-16 with the reflected polynomial
    [0xA001] and initial value [0xFFFF], one bit at a time. *)
Definition crc16_shift (c : Z) : Z :=
  if Z.odd c then Z.lxor (Z.shiftr c 1) 40961 else Z.shiftr c 1.

Definition crc16_byte (c : Z) : Z := Nat.iter 8 crc16_shift c.

Definition crc16_bitwise (data : bytes) : Z :=
  fold_left (λ c b, crc16_byte (Z.lxor c (b2z b))) data 65535.

Definition crc16_table_check (i : Z) : bool :=
  match CRC16_TABLE !! Z.to_nat i with
  | Some t => (crc16_byte i =? t) && (0 <=? t) && (t <? 65536)
  | None => false
  end.

Lemma crc16_table_entry (i : Z) :
  0 ≤ i < 256 →
  CRC16_TABLE !! Z.to_nat i = Some (crc16_byte i) ∧
  0 ≤ crc16_byte i < 65536.
Proof.
  intros Hi.
  assert (forallb crc16_table_check (range 256) = true) as H
    by (vm_compute; reflexivity).
  pose proof (range_forallb _ _ H i Hi) as Hc. unfold crc16_table_check in Hc.
  destruct (CRC16_TABLE !! _) as [t|]; [|done].
  apply andb_true_iff in Hc as [Hc H3]. apply andb_true_iff in Hc as [H1 H2].
  apply Z.eqb_eq in H1 as ->. split; [done|]. lia.
Qed.

(** The shift register is linear over exclusive or. *)
Lemma crc16_shift_lxor (a b : Z) :
  crc16_shift (Z.lxor a b) = Z.lxor (crc16_shift a) (crc16_shift b).
Proof.
  unfold crc16_shift.
  rewrite <- !Z.bit0_odd, Z.lxor_spec, Z.shiftr_lxor.
  destruct (Z.testbit a 0), (Z.testbit b 0); cbn [xorb].
  - rewrite Z.lxor_assoc, (Z.lxor_comm 40961), Z.lxor_assoc.
    by rewrite Z.lxor_nilpotent, Z.lxor_0_r.
  - rewrite !Z.lxor_assoc. f_equal. apply Z.lxor_comm.
  - by rewrite Z.lxor_assoc.
  - done.
Qed.

Lemma crc16_iter_lxor (k : nat) (a b : Z) :
  Nat.iter k crc16_shift (Z.lxor a b)
  = Z.lxor (Nat.iter k crc16_shift a) (Nat.iter k crc16_shift b).
Proof.
  induction k as [|k IH]; [done|].
  by rewrite !Nat.iter_succ, IH, crc16_shift_lxor.
Qed.

Lemma crc16_iter_shiftl (k : nat) (y : Z) :
  Nat.iter k crc16_shift (Z.shiftl y (Z.of_nat k)) = y.
Proof.
  revert y. induction k as [|k IH]; intros y.
  { by rewrite Z.shiftl_0_r. }
  rewrite Nat.iter_succ_r. unfold crc16_shift at 2.
  rewrite <- Z.bit0_odd, Z.shiftl_spec_low by lia.
  rewrite Z.shiftr_shiftl_l by lia.
  replace (Z.of_nat (S k) - 1) with (Z.of_nat k) by lia. apply IH.
Qed.

Lemma split_high_low (x : Z) :
  x = Z.lxor (Z.shiftl (Z.shiftr x 8) 8) (Z.land x 255).
Proof.
  apply Z.bits_inj'. intros n Hn.
  rewrite Z.lxor_spec, Z.land_spec. change 255 with (Z.ones 8).
  destruct (Z.lt_ge_cases n 8).
  - rewrite Z.shiftl_spec_low, Z.ones_spec_low by lia.
    by rewrite andb_true_r.
  - rewrite Z.shiftl_spec, Z.shiftr_spec, Z.ones_spec_high by lia.
    rewrite andb_false_r, xorb_false_r. f_equal. lia.
Qed.

Lemma lxor_u16 (a b : Z) :
  0 ≤ a < 65536 → 0 ≤ b < 65536 → 0 ≤ Z.lxor a b < 65536.
Proof.
  intros Ha Hb. split; [apply Z.lxor_nonneg; lia|].
  destruct (Z.eq_dec (Z.lxor a b) 0) as [->|Hne]; [lia|].
  assert (0 ≤ Z.lxor a b) by (apply Z.lxor_nonneg; lia).
  change 65536 with (2 ^ 16). apply Z.log2_lt_pow2; [lia|].
  pose proof (Z.log2_lxor a b) as Hl.
  assert (Z.log2 a < 16).
  { destruct (Z.eq_dec a 0) as [->|]; [done|]. apply Z.log2_lt_pow2; lia. }
  assert (Z.log2 b < 16).
  { destruct (Z.eq_dec b 0) as [->|]; [done|]. apply Z.log2_lt_pow2; lia. }
  lia.
Qed.

Lemma shiftr8_u16 (x : Z) : 0 ≤ x < 65536 → 0 ≤ Z.shiftr x 8 < 256.
Proof.
  intros Hx. rewrite Z.shiftr_div_pow2 by lia. change (2 ^ 8) with 256.
  split; [apply Z.div_pos; lia|]. apply Z.div_lt_upper_bound; lia.
Qed.

(** One table step is eight shifts. *)
Lemma crc16_table_ok (x : Z) :
  0 ≤ x < 65536 →
  ∃ t, CRC16_TABLE !! Z.to_nat (Z.land x 255) = Some t ∧
       crc16_byte x = Z.lxor (Z.shiftr x 8) t ∧ 0 ≤ crc16_byte x < 65536.
Proof.
  intros Hx.
  destruct (crc16_table_entry (Z.land x 255)) as [Ht Hr];
    [apply land_255_range|].
  exists (crc16_byte (Z.land x 255)). split; [done|].
  assert (crc16_byte x
          = Z.lxor (Z.shiftr x 8) (crc16_byte (Z.land x 255))) as Heq.
  { rewrite (split_high_low x) at 1. unfold crc16_byte.
    rewrite crc16_iter_lxor. f_equal. apply (crc16_iter_shiftl 8). }
  split; [done|]. rewrite Heq.
  pose proof (shiftr8_u16 x Hx). apply lxor_u16; lia.
Qed.

Lemma crc_step_bitwise (b : byte) (c : Z) :
  0 ≤ c < 65536 →
  crc_step b c = Ok (Continue (crc16_byte (Z.lxor c (b2z b)))) ∧
  0 ≤ crc16_byte (Z.lxor c (b2z b)) < 65536.
Proof.
  intros Hc. pose proof (b2z_range b) as Hb.
  destruct (crc16_table_ok (Z.lxor c (b2z b))) as (t & Ht & Heq & Hr);
    [apply lxor_u16; lia|].
  split; [|done]. unfold crc_step.
  rewrite (getitem_lookup _ _ t); [|apply land_255_range|done]. rsimpl.
  rewrite Heq. do 3 f_equal.
  rewrite Z.shiftr_lxor.
  assert (Z.shiftr (b2z b) 8 = 0) as ->.
  { rewrite Z.shiftr_div_pow2 by lia. apply Z.div_small.
    change (2 ^ 8) with 256. lia. }
  rewrite Z.lxor_0_r. change 255 with (Z.ones 8).
  rewrite Z.land_ones by lia. apply Z.mod_small.
  change (2 ^ 8) with 256. by apply shiftr8_u16.
Qed.

Lemma crc_loop_bitwise (data : bytes) (c : Z) :
  0 ≤ c < 65536 →
  let r := fold_left (λ c b, crc16_byte (Z.lxor c (b2z b))) data c in
  for_each data crc_step c = Ok r ∧ 0 ≤ r < 65536.
Proof.
  revert c. induction data as [|b data IH]; intros c Hc; [done|].
  cbn [for_each fold_left].
  destruct (crc_step_bitwise b c Hc) as [-> Hr]. rsimpl. by apply IH.
Qed.

(** X10.  [calculate_crc16] never fails and computes the standard
    CRC-16 of its input (reflected polynomial [0xA001], initial value
    [0xFFFF]): the 256-entry table agrees with the bit-by-bit
    definition, and the result is a 16-bit value. *)
Theorem calculate_crc16_is_crc16 (data : bytes) :
  calculate_crc16 data = Ok (crc16_bitwise data) ∧
  0 ≤ crc16_bitwise data < 65536 ∧
  ∀ i, 0 ≤ i < 256 → CRC16_TABLE !! Z.to_nat i = Some (crc16_byte i).
Proof.
  destruct (crc_loop_bitwise data 65535) as [Hrun Hr]; [lia|].
  split; [|split; [done|]].
  - unfold calculate_crc16. rewrite Hrun. rsimpl. f_equal.
    change 65535 with (Z.ones 16) at 2. rewrite Z.land_ones by lia.
    apply Z.mod_small. change (2 ^ 16) with 65536. exact Hr.
  - intros i Hi. by apply crc16_table_entry.
Qed.

End FormatExtra.

(** ** The header as a sequence of fields *)

Module HeaderLayout.
Import Saver NARCFacts ApplyFacts SaveFacts HeaderFacts.

(** The fields of a header in file order, each in its encoded form, and
    the width of each. *)
Definition segments (h : NDSHeader.t) : list bytes :=
  [NDSHeader.game_title h;
   NDSHeader.game_code h;
   NDSHeader.maker_code h;
   [low_byte (NDSHeader.unit_code h)];
   [low_byte (NDSHeader.device_type h)];
   [low_byte (NDSHeader.device_size h)];
   NDSHeader.reserved1 h;
   [low_byte (NDSHeader.rom_version h)];
   [low_byte (NDSHeader.flags h)];
   le_encode 4 (NDSHeader.arm9_rom_addr h);
   le_encode 4 (NDSHeader.arm9_entry_addr h);
   le_encode 4 (NDSHeader.arm9_ram_addr h);
   le_encode 4 (NDSHeader.arm9_size h);
   le_encode 4 (NDSHeader.arm7_rom_addr h);
   le_encode 4 (NDSHeader.arm7_entry_addr h);
   le_encode 4 (NDSHeader.arm7_ram_addr h);
   le_encode 4 (NDSHeader.arm7_size h);
   le_encode 4 (NDSHeader.filename_table_addr h);
   le_encode 4 (NDSHeader.filename_size h);
   le_encode 4 (NDSHeader.fat_addr h);
   le_encode 4 (NDSHeader.fat_size h);
   le_encode 4 (NDSHeader.arm9_overlay_addr h);
   le_encode 4 (NDSHeader.arm9_overlay_size h);
   le_encode 4 (NDSHeader.arm7_overlay_addr h);
   le_encode 4 (NDSHeader.arm7_overlay_size h);
   le_encode 4 (NDSHeader.normal_commands_settings h);
   le_encode 4 (NDSHeader.key1_commands_settings h);
   le_encode 4 (NDSHeader.icon_title_addr h);
   le_encode 2 (NDSHeader.secure_area_crc16 h);
   le_encode 2 (NDSHeader.secure_area_loading_timeout h);
   le_encode 4 (NDSHeader.arm9_autoload_list_ram_addr h);
   le_encode 4 (NDSHeader.arm7_autoload_list_ram_addr h);
   le_encode 8 (NDSHeader.secure_area_disable h);
   le_encode 4 (NDSHeader.rom_size h);
   le_encode 4 (NDSHeader.header_size h);
   NDSHeader.reserved2 h;
   NDSHeader.nintendo_logo h;
   le_encode 2 (NDSHeader.nintendo_logo_crc h);
   le_encode 2 (NDSHeader.header_crc16 h);
   le_encode 4 (NDSHeader.debug_rom_addr h);
   le_encode 4 (NDSHeader.debug_size h);
   le_encode 4 (NDSHeader.debug_ram_addr h);
   NDSHeader.reserved3 h;
   NDSHeader.reserved4 h].

Definition widths : list Z :=
  [12; 4; 2; 1; 1; 1; 9; 1; 1; 4; 4; 4; 4; 4; 4; 4; 4; 4; 4; 4; 4; 4;
   4; 4; 4; 4; 4; 4; 2; 2; 4; 4; 8; 4; 4; 56; 156; 2; 2; 4; 4; 4; 4;
   144].

Definition encoded (h : NDSHeader.t) : bytes := concat (segments h).

Definition sumZ (l : list Z) : Z := foldr Z.add 0 l.

Lemma len_concat (segs : list bytes) :
  len (concat segs) = sumZ (len <$> segs).
Proof.
  induction segs as [|s segs IH]; [done|].
  cbn [concat fmap list_fmap sumZ foldr]. rewrite len_app. unfold sumZ in IH.
  by rewrite IH.
Qed.

Lemma concat_split (segs : list bytes) (i : nat) (seg : bytes) :
  segs !! i = Some seg →
  concat segs = concat (take i segs) ++ seg ++ concat (drop (S i) segs).
Proof.
  intros Hi. rewrite <- (take_drop_middle segs i seg Hi) at 1.
  by rewrite concat_app.
Qed.

(** The [i]-th field occupies the bytes between the running sums of the
    widths. *)
Lemma slice_seg (segs : list bytes) (ws : list Z) (i : nat) (seg : bytes)
    (o o' : Z) :
  len <$> segs = ws → segs !! i = Some seg →
  o = sumZ (take i ws) → o' = sumZ (take (S i) ws) →
  slice (concat segs) o o' = seg.
Proof.
  intros Hws Hi -> ->.
  apply (slice_mid _ (concat (take i segs)) seg (concat (drop (S i) segs))).
  - by apply concat_split.
  - by rewrite len_concat, <- Hws, fmap_take.
  - rewrite <- Hws, <- !fmap_take, (take_S_r _ _ _ Hi), fmap_app.
    unfold sumZ. rewrite foldr_app. cbn [fmap list_fmap foldr].
    generalize (len <$> take i segs). intros l.
    induction l as [|x l IH]; cbn [foldr]; lia.
Qed.

Lemma getitem_seg (segs : list bytes) (ws : list Z) (i : nat) (x : byte)
    (o : Z) :
  len <$> segs = ws → segs !! i = Some [x] → o = sumZ (take i ws) →
  getitem (concat segs) o = Ok x.
Proof.
  intros Hws Hi ->. rewrite (concat_split segs i [x] Hi).
  replace (sumZ (take i ws)) with (len (concat (take i segs)))
    by (by rewrite len_concat, <- Hws, fmap_take).
  apply getitem_app_mid.
Qed.

Lemma b2z_low_byte_small (v : Z) : 0 ≤ v < 256 → b2z (low_byte v) = v.
Proof.
  intros Hv. rewrite b2z_low_byte. change 255 with (Z.ones 8).
  rewrite Z.land_ones by lia. by apply Z.mod_small.
Qed.

Lemma segments_widths (h : NDSHeader.t) :
  header_wf h = true → len <$> segments h = widths.
Proof.
  intros Hwf. unfold header_wf in Hwf. bool_facts.
  unfold segments, widths. cbn [fmap list_fmap].
  rewrite !len_le_encode.
  repeat match goal with H : len _ = _ |- _ => rewrite H; clear H end.
  done.
Qed.

Lemma len_encoded (h : NDSHeader.t) :
  header_wf h = true → len (encoded h) = 512.
Proof.
  intros Hwf. unfold encoded. by rewrite len_concat, segments_widths.
Qed.

(** Locate the field that starts at a given offset. *)
Ltac field_at Hws n :=
  lazymatch n with
  | 44%nat => fail "no field at this offset"
  | _ =>
      first [ apply (slice_seg _ widths n _ _ _ Hws eq_refl eq_refl eq_refl)
            | field_at Hws (S n) ]
  end.

Ltac field_value Hws :=
  lazymatch goal with
  | |- slice _ _ _ = _ => field_at Hws 0%nat
  | |- le_decode (slice ?b ?o ?o') = ?v =>
      let k := eval vm_compute in (Z.to_nat (o' - o)) in
      transitivity (le_decode (le_encode k v));
      [f_equal; field_at Hws 0%nat
      |apply le_decode_encode; simpl; lia]
  | |- b2z (low_byte _) = _ => apply b2z_low_byte_small; lia
  end.

(** Parsing the encoded form gives the header back, field by field. *)
Lemma parsed_encoded (h : NDSHeader.t) :
  header_wf h = true →
  parsed (encoded h) (low_byte (NDSHeader.unit_code h))
    (low_byte (NDSHeader.device_type h)) (low_byte (NDSHeader.device_size h))
    (low_byte (NDSHeader.rom_version h)) (low_byte (NDSHeader.flags h))
  = h.
Proof.
  intros Hwf. pose proof (segments_widths h Hwf) as Hws.
  unfold parsed, encoded. destruct h. header_projections.
  unfold header_wf in Hwf.
  cbn [NDSHeader.game_title NDSHeader.game_code NDSHeader.maker_code
       NDSHeader.unit_code NDSHeader.device_type NDSHeader.device_size
       NDSHeader.reserved1 NDSHeader.rom_version NDSHeader.flags
       NDSHeader.arm9_rom_addr NDSHeader.arm9_entry_addr
       NDSHeader.arm9_ram_addr NDSHeader.arm9_size
       NDSHeader.arm7_rom_addr NDSHeader.arm7_entry_addr
       NDSHeader.arm7_ram_addr NDSHeader.arm7_size
       NDSHeader.filename_table_addr NDSHeader.filename_size
       NDSHeader.fat_addr NDSHeader.fat_size
       NDSHeader.arm9_overlay_addr NDSHeader.arm9_overlay_size
       NDSHeader.arm7_overlay_addr NDSHeader.arm7_overlay_size
       NDSHeader.normal_commands_settings
       NDSHeader.key1_commands_settings NDSHeader.icon_title_addr
       NDSHeader.secure_area_crc16
       NDSHeader.secure_area_loading_timeout
       NDSHeader.arm9_autoload_list_ram_addr
       NDSHeader.arm7_autoload_list_ram_addr
       NDSHeader.secure_area_disable NDSHeader.rom_size
       NDSHeader.header_size NDSHeader.reserved2
       NDSHeader.nintendo_logo NDSHeader.nintendo_logo_crc
       NDSHeader.header_crc16 NDSHeader.debug_rom_addr
       NDSHeader.debug_size NDSHeader.debug_ram_addr
       NDSHeader.reserved3 NDSHeader.reserved4] in Hwf.
  bool_facts.
  f_equal; field_value Hws.
Qed.

Lemma to_bytes_encoded (h : NDSHeader.t) :
  header_wf h = true → NDSHeader.to_bytes h = Ok (encoded h).
Proof.
  intros Hwf. pose proof (segments_widths h Hwf) as Hws.
  pose proof (len_encoded h Hwf) as Hlen.
  pose proof (to_bytes_parsed (encoded h) (low_byte (NDSHeader.unit_code h))
    (low_byte (NDSHeader.device_type h)) (low_byte (NDSHeader.device_size h))
    (low_byte (NDSHeader.rom_version h)) (low_byte (NDSHeader.flags h)))
    as Ht.
  rewrite (parsed_encoded h Hwf) in Ht. rewrite Ht.
  - f_equal. rewrite LZ10Facts.slice_prefix by lia.
    apply take_ge. unfold len in Hlen. lia.
  - lia.
  - by apply (getitem_seg _ widths 3 _ _ Hws).
  - by apply (getitem_seg _ widths 4 _ _ Hws).
  - by apply (getitem_seg _ widths 5 _ _ Hws).
  - by apply (getitem_seg _ widths 7 _ _ Hws).
  - by apply (getitem_seg _ widths 8 _ _ Hws).
Qed.

Lemma from_bytes_encoded (h : NDSHeader.t) :
  header_wf h = true → NDSHeader.from_bytes (encoded h) = Ok h.
Proof.
  intros Hwf. pose proof (segments_widths h Hwf) as Hws.
  pose proof (len_encoded h Hwf) as Hlen.
  destruct (from_bytes_parsed (encoded h))
    as (x18 & x19 & x20 & x30 & x31 & H18 & H19 & H20 & H30 & H31 & ->);
    [lia|].
  unfold encoded in H18, H19, H20, H30, H31.
  rewrite (getitem_seg _ widths 3 _ 18 Hws eq_refl eq_refl) in H18.
  rewrite (getitem_seg _ widths 4 _ 19 Hws eq_refl eq_refl) in H19.
  rewrite (getitem_seg _ widths 5 _ 20 Hws eq_refl eq_refl) in H20.
  rewrite (getitem_seg _ widths 7 _ 30 Hws eq_refl eq_refl) in H30.
  rewrite (getitem_seg _ widths 8 _ 31 Hws eq_refl eq_refl) in H31.
  injection H18 as <-. injection H19 as <-. injection H20 as <-.
  injection H30 as <-. injection H31 as <-.
  by rewrite parsed_encoded.
Qed.

(** X11.  Serialising a header whose fields fit their formats and parsing
    the result gives the same header back: [to_bytes] returns exactly
    512 bytes and [from_bytes] inverts it. *)
Theorem header_encode_decode (h : NDSHeader.t) :
  header_wf h = true →
  ∃ b, NDSHeader.to_bytes h = Ok b ∧ len b = 512 ∧
       NDSHeader.from_bytes b = Ok h.
Proof.
  intros Hwf. exists (encoded h).
  split; [by apply to_bytes_encoded|].
  split; [by apply len_encoded|by apply from_bytes_encoded].
Qed.

(** The header the dataclass constructs by default. *)
Definition default_header : NDSHeader.t :=
  NDSHeader.Make (zeros 12) (zeros 4) (zeros 2) 0 0 0 (zeros 9) 0 0
    0 0 0 0 0 0 0 0 0 0 0 0 0 0 0 0 0 0 0 0 0 0 0 0 0 0
    (zeros 56) (zeros 156) 0 0 0 0 0 (zeros 4) (zeros 144).

Lemma header_encode_decode_witness :
  header_wf (set_rom_size default_header 1024) = true ∧
  ∃ b, NDSHeader.to_bytes (set_rom_size default_header 1024) = Ok b ∧
       len b = 512 ∧
       NDSHeader.from_bytes b = Ok (set_rom_size default_header 1024).
Proof.
  split; [reflexivity|]. apply header_encode_decode. reflexivity.
Defined.

(** Only the first 512 bytes matter to [from_bytes]. *)
Lemma from_bytes_prefix (b rest : bytes) :
  len b = 512 → NDSHeader.from_bytes (b ++ rest) = NDSHeader.from_bytes b.
Proof.
  intros Hb. pose proof (len_nonneg rest).
  destruct (from_bytes_parsed b)
    as (x18 & x19 & x20 & x30 & x31 & H18 & H19 & H20 & H30 & H31 & ->);
    [lia|].
  destruct (from_bytes_parsed (b ++ rest))
    as (y18 & y19 & y20 & y30 & y31 & G18 & G19 & G20 & G30 & G31 & ->);
    [rewrite len_app; lia|].
  rewrite getitem_app_l in G18, G19, G20, G30, G31 by lia.
  assert (y18 = x18) as -> by congruence.
  assert (y19 = x19) as -> by congruence.
  assert (y20 = x20) as -> by congruence.
  assert (y30 = x30) as -> by congruence.
  assert (y31 = x31) as -> by congruence.
  unfold parsed. by rewrite !slice_app_l by lia.
Qed.

(** The fields before the checksum make up the first 350 bytes. *)
Lemma checksummed_part (h : NDSHeader.t) :
  header_wf h = true →
  slice (encoded h) 0 350 = concat (take 38 (segments h)).
Proof.
  intros Hwf. pose proof (segments_widths h Hwf) as Hws.
  apply (slice_mid _ [] _ (concat (drop 38 (segments h)))); [|done|].
  - unfold encoded. by rewrite <- concat_app, take_drop.
  - rewrite len_concat, fmap_take, Hws. reflexivity.
Qed.

(** X12.  After [_update_header] on a ROM of at least 512 bytes, with a
    header whose fields fit their formats, the file has the same length
    and the same contents past the header; its first 512 bytes parse to
    the session's header, whose size field is the length of the file and
    whose checksum field is the CRC-16 of the file's first 350 bytes. *)
Theorem update_header_consistent (rom : bytes) (h : NDSHeader.t) :
  header_wf h = true → 512 ≤ len rom < 2 ^ 32 →
  ∃ h' rom',
    _update_header rom h = (true, h', rom') ∧
    len rom' = len rom ∧ drop 512 rom' = drop 512 rom ∧
    NDSHeader.from_bytes rom' = Ok h' ∧
    NDSHeader.rom_size h' = len rom' ∧
    calculate_crc16 (slice rom' 0 350) = Ok (NDSHeader.header_crc16 h').
Proof.
  intros Hwf Hrom. unfold _update_header. cbv zeta.
  assert (header_wf (set_rom_size h (len rom)) = true) as Hwf1
    by (apply set_rom_size_wf; [done|lia]).
  unfold update_crc. rewrite (to_bytes_encoded _ Hwf1). rsimpl.
  destruct (calculate_crc16_ok (slice (encoded (set_rom_size h (len rom)))
                                  0 350)) as (c & Hc & Hcr).
  rewrite Hc. rsimpl.
  match goal with
  | |- context [NDSHeader.to_bytes ?x] => set (h2 := x)
  end.
  assert (header_wf h2 = true) as Hwf2.
  { destruct (update_crc_ok _ Hwf1) as (h2' & Hu & Hwf2 & _).
    unfold update_crc in Hu. rewrite (to_bytes_encoded _ Hwf1) in Hu.
    rsimpl_in Hu. rewrite Hc in Hu. rsimpl_in Hu. by injection Hu as <-. }
  rewrite (to_bytes_encoded _ Hwf2). rsimpl.
  pose proof (len_encoded h2 Hwf2) as Hlen2.
  unfold file_write. change (0 <? 0) with false. cbv iota.
  rewrite bool_decide_eq_false_2.
  2:{ intros Heq. rewrite Heq in Hlen2. done. }
  assert (Z.to_nat 0 = 0%nat) as -> by done. rewrite take_0, app_nil_l.
  rewrite Z.add_0_l, Hlen2.
  exists h2, (encoded h2 ++ drop (Z.to_nat 512) rom).
  split; [done|].
  assert (len (encoded h2 ++ drop (Z.to_nat 512) rom) = len rom) as Hl.
  { rewrite len_app, Hlen2. unfold len. rewrite length_drop.
    unfold len in Hrom. lia. }
  split; [done|]. split.
  { rewrite drop_app_length'; [done|]. unfold len in Hlen2. lia. }
  split; [by rewrite from_bytes_prefix, from_bytes_encoded|].
  split; [by rewrite Hl|].
  rewrite slice_app_l by lia.
  rewrite (checksummed_part _ Hwf2).
  rewrite (checksummed_part _ Hwf1) in Hc. exact Hc.
Qed.

Lemma update_header_consistent_witness :
  ∃ h' rom',
    _update_header (zeros 600) default_header = (true, h', rom') ∧
    len rom' = len (zeros 600) ∧ drop 512 rom' = drop 512 (zeros 600) ∧
    NDSHeader.from_bytes rom' = Ok h' ∧
    NDSHeader.rom_size h' = len rom' ∧
    calculate_crc16 (slice rom' 0 350) = Ok (NDSHeader.header_crc16 h').
Proof. apply update_header_consistent; [reflexivity|by vm_compute]. Defined.

End HeaderLayout.

(** ** Reading the allocation table *)

Module TableLoad.
Import Saver SaverMore ApplyFacts SaveFacts HeaderFacts FormatExtra
  HeaderLayout.

Lemma load_fat_step_short (raw : bytes) (i : Z) (acc : list FATEntry.t) :
  len raw < i + 8 → load_fat_step raw i acc = Ok (Continue acc).
Proof.
  intros Hi. unfold load_fat_step.
  by destruct (Z.leb_spec (i + 8) (len raw)); [lia|].
Qed.

(** The loop of [_load_fat] over the offsets [8 * k, 8 * (k + 1), ...]:
    one entry for every offset with eight bytes left, nothing for a
    shorter tail. *)
Lemma load_loop_entries (raw : bytes) (n k : nat) (acc : list FATEntry.t) :
  ∃ es,
    for_each ((λ i, 0 + 8 * Z.of_nat i) <$> seq k n) (load_fat_step raw) acc
    = Ok (acc ++ es) ∧
    length es = (n `min` (Z.to_nat (len raw / 8) - k))%nat ∧
    ∀ (j : nat) e,
      es !! j = Some e →
      FATEntry.from_bytes
        (slice raw (8 * Z.of_nat (k + j)) (8 * Z.of_nat (k + j) + 8))
      = Ok e.
Proof.
  pose proof (len_nonneg raw) as Hraw.
  assert (0 ≤ len raw / 8) as Hq by (apply Z.div_pos; lia).
  pose proof (Z.mul_div_le (len raw) 8) as Hq1.
  pose proof (Z.mul_succ_div_gt (len raw) 8) as Hq2.
  revert k acc. induction n as [|n IH]; intros k acc.
  { exists []. rewrite app_nil_r. split; [done|]. split; [done|]. done. }
  cbn [seq fmap list_fmap for_each].
  destruct (Z.le_gt_cases (0 + 8 * Z.of_nat k + 8) (len raw))
    as [Hfull|Hshort].
  - destruct (from_bytes_full
                (slice raw (0 + 8 * Z.of_nat k) (0 + 8 * Z.of_nat k + 8)))
      as (e & He & _).
    { rewrite len_slice_inrange; lia. }
    rewrite (load_fat_step_eq raw _ e) by done. rsimpl.
    destruct (IH (S k) (acc ++ [e])) as (es & -> & Hlen & Hes).
    exists (e :: es). split; [by rewrite <- app_assoc|].
    split.
    + cbn [length]. rewrite Hlen.
      assert (Z.of_nat k < len raw / 8) by lia. lia.
    + intros [|j] e' Hj.
      * injection Hj as <-. rewrite Nat.add_0_r. exact He.
      * replace (k + S j)%nat with (S k + j)%nat by lia. by apply Hes.
  - rewrite load_fat_step_short by done. rsimpl.
    destruct (IH (S k) acc) as (es & -> & Hlen & Hes).
    assert (len raw / 8 ≤ Z.of_nat k) by lia.
    assert (es = []) as ->.
    { destruct es; [done|]. cbn [length] in Hlen. lia. }
    exists []. split; [done|]. split; [|done]. cbn [length]. lia.
Qed.

(** X13.  When the table region [fat_addr, fat_addr + fat_size) lies
    inside the ROM, [_load_fat] returns [fat_entry_count] entries, the
    [j]-th decoded from the eight bytes at [fat_addr + 8 * j]; up to
    seven bytes left over at the end of the region are ignored.  When
    the table address is at or past the end of the ROM the table is
    empty, not an error. *)
Theorem load_fat_entries (rom : bytes) (h : NDSHeader.t) :
  0 ≤ NDSHeader.fat_addr h → 0 ≤ NDSHeader.fat_size h →
  (NDSHeader.fat_addr h + NDSHeader.fat_size h ≤ len rom →
   ∃ fat,
     _load_fat rom h = Some fat ∧ len fat = fat_entry_count h ∧
     ∀ (j : nat) e,
       fat !! j = Some e →
       FATEntry.from_bytes
         (slice rom (NDSHeader.fat_addr h + 8 * Z.of_nat j)
            (NDSHeader.fat_addr h + 8 * Z.of_nat j + 8))
       = Ok e) ∧
  (len rom ≤ NDSHeader.fat_addr h → _load_fat rom h = Some []).
Proof.
  intros Haddr Hsize. set (a := NDSHeader.fat_addr h) in *.
  set (n := NDSHeader.fat_size h) in *. pose proof (len_nonneg rom).
  split.
  - intros Hin. unfold _load_fat, file_read. fold a n.
    destruct (Z.ltb_spec a 0); [lia|]. destruct (Z.ltb_spec n 0); [lia|].
    rsimpl. set (raw := slice rom a (a + n)).
    assert (len raw = n) as Hraw
      by (unfold raw; rewrite len_slice_inrange; lia).
    unfold range_step.
    destruct (load_loop_entries raw
                (Z.to_nat ((len raw - 0 + 8 - 1) / 8)) 0 [])
      as (es & -> & Hlen & Hes).
    exists es. split; [done|].
    assert (0 ≤ n / 8) by (apply Z.div_pos; lia).
    split.
    + unfold fat_entry_count, len. fold n. rewrite Hlen, Hraw.
      assert (n / 8 ≤ (n - 0 + 8 - 1) / 8) by (apply Z.div_le_mono; lia).
      lia.
    + intros j e Hj. specialize (Hes j e Hj). cbn [Nat.add] in Hes.
      apply lookup_lt_Some in Hj. rewrite Hlen, Hraw in Hj.
      pose proof (Z.mul_div_le n 8).
      unfold raw in Hes. rewrite slice_slice in Hes by lia.
      replace (a + 8 * Z.of_nat j + 8) with (a + (8 * Z.of_nat j + 8))
        by lia.
      exact Hes.
  - intros Hpast. unfold _load_fat, file_read. fold a n.
    destruct (Z.ltb_spec a 0); [lia|]. destruct (Z.ltb_spec n 0); [lia|].
    rsimpl.
    assert (slice rom a (a + n) = []) as ->; [|done].
    unfold slice, clamp_index.
    destruct (Z.ltb_spec a 0); [lia|]. destruct (Z.ltb_spec (a + n) 0); [lia|].
    rewrite !Z.min_r by lia. by rewrite Z.sub_diag.
Qed.

(** The header of the sample ROM: its table is at offset 512 and holds
    two entries. *)
Definition sample_header : NDSHeader.t :=
  match NDSHeader.from_bytes sample_rom with
  | Ok h => h
  | _ => default_header
  end.

Lemma load_fat_entries_witness :
  _load_fat sample_rom sample_header
  = Some [FATEntry.Make 528 628; FATEntry.Make 628 778] ∧
  fat_entry_count sample_header = 2 ∧
  _load_fat (zeros 512) sample_header = Some [].
Proof.
  destruct (load_fat_entries sample_rom sample_header) as [Hin _];
    [by vm_compute..|].
  destruct Hin as (fat & Hrun & Hlen & _); [by vm_compute|].
  split; [|split].
  - rewrite Hrun. by vm_compute.
  - reflexivity.
  - apply (proj2 (load_fat_entries (zeros 512) sample_header
                    ltac:(by vm_compute) ltac:(by vm_compute))).
    by vm_compute.
Defined.

End TableLoad.

(** ** What a patch does to the bytes of the file *)

Module PatchBytes.
Import Saver ApplyFacts SaveFacts NARCFacts.

Lemma file_write_inside (c : bytes) (pos : Z) (data : bytes) :
  0 ≤ pos → pos + len data ≤ len c →
  file_write c pos data
  = Ok (take (Z.to_nat pos) c ++ data ++ drop (Z.to_nat (pos + len data)) c).
Proof.
  intros Hpos Hin. unfold file_write. pose proof (len_nonneg data).
  destruct (Z.ltb_spec pos 0); [lia|]. case_bool_decide as Hd.
  - subst data. change (len []) with 0. rewrite Z.add_0_r.
    by rewrite app_nil_l, take_drop.
  - f_equal. f_equal. rewrite take_app_le; [done|]. unfold len in *. lia.
Qed.

Lemma file_write_at_end (c data : bytes) :
  file_write c (len c) data = Ok (c ++ data).
Proof.
  unfold file_write. pose proof (len_nonneg c). pose proof (len_nonneg data).
  destruct (Z.ltb_spec (len c) 0); [lia|]. case_bool_decide as Hd.
  - subst data. by rewrite app_nil_r.
  - f_equal. rewrite Z.sub_diag. change (zeros 0) with (@nil byte).
    rewrite app_nil_r. unfold len. rewrite Nat2Z.id, firstn_all.
    rewrite drop_ge; [by rewrite app_nil_r|]. lia.
Qed.

(** The table entry of a record is inside the file. *)
Definition in_file (rom : bytes) (e : FATEntry.t) : Prop :=
  0 ≤ FATEntry.start_addr e ∧ FATEntry.end_addr e ≤ len rom.

(** One applied modification, byte for byte. *)
Lemma apply_step_bytes_spec (m : ModificationRecord.t) (s : astate)
    (old : FATEntry.t) :
  let idx := ModificationRecord.fat_index m in
  let data := ModificationRecord.new_data m in
  let rom := rom_file s in
  0 ≤ idx → modified_fat s !! Z.to_nat idx = Some old →
  in_file rom old → current_rom_end s = len rom →
  ∃ e' rom',
    apply_step m s
    = Ok (Continue (AState (<[Z.to_nat idx := e']> (modified_fat s))
                      (len rom') rom')) ∧
    slice rom' (FATEntry.start_addr e') (FATEntry.end_addr e') = data ∧
    in_file rom' e' ∧ len rom ≤ len rom' ∧
    if len data <=? FATEntry.size old then
      e' = FATEntry.Make (FATEntry.start_addr old)
             (FATEntry.start_addr old + len data) ∧
      rom' = take (Z.to_nat (FATEntry.start_addr old)) rom ++ data
             ++ drop (Z.to_nat (FATEntry.start_addr old + len data)) rom
    else
      let A := _align4 (len rom) in
      e' = FATEntry.Make A (A + len data) ∧
      rom' = rom ++ replicate (Z.to_nat (A - len rom)) xff ++ data.
Proof.
  intros idx data rom Hidx Hold [Hstart Hend] Hcur.
  apply lookup_lt_Some in Hold as Hlt.
  pose proof (len_nonneg data) as Hsz. pose proof (len_nonneg rom) as Hrom.
  unfold apply_step. fold idx.
  destruct (Z.ltb_spec idx 0); [lia|].
  destruct (Z.leb_spec (len (modified_fat s)) idx);
    [unfold len in *; lia|]. cbn [orb].
  rewrite (getitem_lookup _ _ old) by done. rsimpl.
  unfold ModificationRecord.size. fold data rom.
  rewrite Hcur. unfold FATEntry.size in *.
  destruct (Z.leb_spec (len data) (FATEntry.end_addr old
                                   - FATEntry.start_addr old)) as [Hfit|Hbig].
  - rewrite file_write_inside by lia. rsimpl.
    rewrite setitem_inrange by (unfold len; lia). rsimpl.
    set (rom' := take _ rom ++ data ++ drop _ rom).
    assert (len rom' = len rom) as Hlen.
    { unfold rom', len in *.
      rewrite !length_app, length_take, length_drop. lia. }
    exists (FATEntry.Make (FATEntry.start_addr old)
              (FATEntry.start_addr old + len data)), rom'.
    rewrite Hlen. split; [done|].
    cbn [FATEntry.start_addr FATEntry.end_addr].
    split.
    { apply (slice_mid _ (take (Z.to_nat (FATEntry.start_addr old)) rom)
               data (drop (Z.to_nat (FATEntry.start_addr old + len data)) rom));
        [done| |done].
      unfold len in *. rewrite length_take. lia. }
    split; [split; simpl; lia|]. split; [lia|done].
  - destruct (_align4_spec (len rom)) as (Hal & _).
    set (A := _align4 (len rom)) in *.
    set (pad := replicate (Z.to_nat (A - len rom)) xff).
    assert (len pad = A - len rom) as Hpad.
    { unfold pad. unfold len at 1. rewrite length_replicate. lia. }
    assert ((if len rom <? A then file_write rom (len rom) pad else Ok rom)
            = Ok (rom ++ pad)) as ->.
    { destruct (Z.ltb_spec (len rom) A); [apply file_write_at_end|].
      assert (pad = []) as ->; [|by rewrite app_nil_r].
      unfold pad. by replace (Z.to_nat (A - len rom)) with 0%nat by lia. }
    rsimpl.
    assert (file_write (rom ++ pad) A data = Ok ((rom ++ pad) ++ data)) as ->.
    { replace A with (len (rom ++ pad)) by (rewrite len_app; lia).
      apply file_write_at_end. }
    rsimpl.
    rewrite setitem_inrange by (unfold len; lia). rsimpl.
    exists (FATEntry.Make A (A + len data)), ((rom ++ pad) ++ data).
    assert (len ((rom ++ pad) ++ data) = A + len data) as Hlen
      by (rewrite !len_app; lia).
    rewrite Hlen. split; [done|].
    cbn [FATEntry.start_addr FATEntry.end_addr].
    split.
    { apply (slice_mid _ (rom ++ pad) data []);
        [by rewrite app_nil_r|rewrite len_app; lia|done]. }
    split; [split; simpl; lia|]. split; [lia|].
    split; [done|]. by rewrite <- app_assoc.
Qed.

(** X14.  What one applied modification does to the file.  A payload
    that fits is written over the start of the old range: the file keeps
    its length and every byte outside the written range.  A larger
    payload is appended: the original bytes stay, [0xFF] bytes fill up
    to the next multiple of four, and the payload follows.  Either way
    the new table entry names exactly the payload. *)
Theorem apply_step_bytes (m : ModificationRecord.t) (s : astate)
    (old : FATEntry.t) :
  let idx := ModificationRecord.fat_index m in
  let data := ModificationRecord.new_data m in
  let rom := rom_file s in
  0 ≤ idx → modified_fat s !! Z.to_nat idx = Some old →
  in_file rom old → current_rom_end s = len rom →
  ∃ e' rom',
    apply_step m s
    = Ok (Continue (AState (<[Z.to_nat idx := e']> (modified_fat s))
                      (len rom') rom')) ∧
    slice rom' (FATEntry.start_addr e') (FATEntry.end_addr e') = data ∧
    in_file rom' e' ∧ len rom ≤ len rom' ∧
    if len data <=? FATEntry.size old then
      e' = FATEntry.Make (FATEntry.start_addr old)
             (FATEntry.start_addr old + len data) ∧
      rom' = take (Z.to_nat (FATEntry.start_addr old)) rom ++ data
             ++ drop (Z.to_nat (FATEntry.start_addr old + len data)) rom
    else
      let A := _align4 (len rom) in
      e' = FATEntry.Make A (A + len data) ∧
      rom' = rom ++ replicate (Z.to_nat (A - len rom)) xff ++ data.
Proof. apply apply_step_bytes_spec. Qed.

(** A 1001-byte file with two entries, patched at entry 1 with a
    payload that does not fit: the end 1001 is padded to 1004. *)
Definition odd_state : astate :=
  AState [FATEntry.Make 0 100; FATEntry.Make 100 250] 1001 (zeros 1001).

Lemma apply_step_bytes_witness :
  ∃ e' rom',
    apply_step sample_grow odd_state
    = Ok (Continue (AState (<[1%nat := e']> (modified_fat odd_state))
                      (len rom') rom')) ∧
    e' = FATEntry.Make 1004 1304 ∧
    rom' = zeros 1001 ++ [xff; xff; xff] ++ replicate 300 x42.
Proof.
  destruct (apply_step_bytes sample_grow odd_state (FATEntry.Make 100 250))
    as (e' & rom' & Hrun & _ & _ & _ & Hform).
  - by vm_compute.
  - reflexivity.
  - split; by vm_compute.
  - reflexivity.
  - exists e', rom'. split; [exact Hrun|].
    change (len (ModificationRecord.new_data sample_grow)
            <=? FATEntry.size (FATEntry.Make 100 250)) with false in Hform.
    exact Hform.
Defined.

(** An entry is a range of the file; the entries of a table do not
    overlap; the contents of a table are the byte strings its entries
    name. *)
Definition entry_ok (rom : bytes) (e : FATEntry.t) : Prop :=
  0 ≤ FATEntry.start_addr e ≤ FATEntry.end_addr e ∧
  FATEntry.end_addr e ≤ len rom.

Definition disjoint_entries (fat : list FATEntry.t) : Prop :=
  ∀ (i j : nat) ei ej,
    i ≠ j → fat !! i = Some ei → fat !! j = Some ej →
    FATEntry.end_addr ei ≤ FATEntry.start_addr ej ∨
    FATEntry.end_addr ej ≤ FATEntry.start_addr ei.

Definition contents (rom : bytes) (fat : list FATEntry.t) : list bytes :=
  (λ e, slice rom (FATEntry.start_addr e) (FATEntry.end_addr e)) <$> fat.

(** What one modification should do to the contents: replace the file
    at its index, or nothing when the index is outside the table. *)
Definition patch_contents (c : list bytes) (m : ModificationRecord.t)
  : list bytes :=
  let idx := ModificationRecord.fat_index m in
  if (idx <? 0) || (len c <=? idx) then c
  else <[Z.to_nat idx := ModificationRecord.new_data m]> c.

Definition patch_inv (s : astate) : Prop :=
  current_rom_end s = len (rom_file s) ∧
  Forall (entry_ok (rom_file s)) (modified_fat s) ∧
  disjoint_entries (modified_fat s).

Lemma apply_step_contents (m : ModificationRecord.t) (s : astate) :
  patch_inv s →
  ∃ s',
    apply_step m s = Ok (Continue s') ∧ patch_inv s' ∧
    contents (rom_file s') (modified_fat s')
    = patch_contents (contents (rom_file s) (modified_fat s)) m ∧
    length (modified_fat s') = length (modified_fat s).
Proof.
  intros (Hcur & Hok & Hdis).
  set (idx := ModificationRecord.fat_index m).
  assert (len (contents (rom_file s) (modified_fat s))
          = len (modified_fat s)) as Hclen
    by (unfold contents, len; by rewrite length_fmap).
  unfold patch_contents. fold idx. rewrite Hclen.
  destruct ((idx <? 0) || (len (modified_fat s) <=? idx)) eqn:Hout.
  { exists s. unfold apply_step. fold idx. by rewrite Hout. }
  apply orb_false_iff in Hout as [H0 H1].
  apply Z.ltb_ge in H0. apply Z.leb_gt in H1.
  destruct (lookup_lt_is_Some_2 (modified_fat s) (Z.to_nat idx))
    as [old Hold]; [unfold len in H1; lia|].
  pose proof (proj1 (Forall_lookup _ _) Hok _ _ Hold) as [Hold1 Hold2].
  destruct (apply_step_bytes_spec m s old)
    as (e' & rom' & -> & Hread & [Hin1 Hin2] & Hgrow & Hform);
    [done|done|split; lia|done|].
  fold idx in Hform |- *.
  set (data := ModificationRecord.new_data m) in *.
  set (rom := rom_file s) in *. pose proof (len_nonneg data) as Hsz.
  eexists. split; [done|]. cbn [modified_fat rom_file current_rom_end].
  assert (entry_ok rom' e' ∧
          ∀ (j : nat) ej,
            j ≠ Z.to_nat idx → modified_fat s !! j = Some ej →
            (FATEntry.end_addr e' ≤ FATEntry.start_addr ej ∨
             FATEntry.end_addr ej ≤ FATEntry.start_addr e') ∧
            slice rom' (FATEntry.start_addr ej) (FATEntry.end_addr ej)
            = slice rom (FATEntry.start_addr ej) (FATEntry.end_addr ej))
    as [Hnew Hother].
  { unfold FATEntry.size in Hform.
    destruct (Z.leb_spec (len data)
                (FATEntry.end_addr old - FATEntry.start_addr old)).
    - destruct Hform as [-> ->]. unfold entry_ok.
      cbn [FATEntry.start_addr FATEntry.end_addr] in *.
      split; [lia|].
      intros j ej Hj Hej.
      pose proof (proj1 (Forall_lookup _ _) Hok _ _ Hej) as [Hej1 Hej2].
      destruct (Hdis _ _ _ _ Hj Hej Hold) as [Hbefore|Hafter].
      + split; [lia|]. apply slice_patch_before; lia.
      + split; [lia|]. apply slice_patch_after; lia.
    - destruct (_align4_spec (len rom)) as (Hal & _).
      destruct Hform as [-> ->]. unfold entry_ok.
      cbn [FATEntry.start_addr FATEntry.end_addr] in *.
      split; [lia|].
      intros j ej Hj Hej.
      pose proof (proj1 (Forall_lookup _ _) Hok _ _ Hej) as [Hej1 Hej2].
      split; [lia|]. apply slice_app_l; lia. }
  split; [|split].
  - unfold patch_inv. cbn [modified_fat rom_file current_rom_end].
    split; [done|]. split.
    + apply Forall_insert; [|done].
      eapply Forall_impl; [exact Hok|].
      intros e [He1 He2]. split; [done|]. lia.
    + intros i j ei ej Hij Hi Hj.
      destruct (decide (i = Z.to_nat idx)) as [->|Hi'];
        destruct (decide (j = Z.to_nat idx)) as [->|Hj']; [done| | |].
      * rewrite list_lookup_insert_eq in Hi by (by eapply lookup_lt_Some).
        rewrite list_lookup_insert_ne in Hj by done.
        injection Hi as <-. by apply (Hother j).
      * rewrite list_lookup_insert_eq in Hj by (by eapply lookup_lt_Some).
        rewrite list_lookup_insert_ne in Hi by done.
        injection Hj as <-. destruct (Hother i ei) as [[?|?] _]; auto.
      * rewrite list_lookup_insert_ne in Hi, Hj by done.
        by apply (Hdis i j).
  - unfold contents. apply list_eq. intros i.
    rewrite list_fmap_insert. cbn beta. rewrite Hread.
    destruct (decide (i = Z.to_nat idx)) as [->|Hi].
    + rewrite !list_lookup_insert_eq; [done| |];
        rewrite length_fmap; by eapply lookup_lt_Some.
    + rewrite !list_lookup_insert_ne by done.
      rewrite !list_lookup_fmap.
      destruct (modified_fat s !! i) as [ei|] eqn:Hei; [|done].
      cbn [fmap option_fmap option_map]. f_equal. by apply (Hother i).
  - by rewrite length_insert.
Qed.

Lemma apply_loop_contents (mods : list ModificationRecord.t) (s : astate) :
  patch_inv s →
  ∃ s',
    for_each_try mods apply_step s = (s', Ok ()) ∧ patch_inv s' ∧
    contents (rom_file s') (modified_fat s')
    = foldl patch_contents (contents (rom_file s) (modified_fat s)) mods.
Proof.
  revert s. induction mods as [|m mods IH]; intros s Hinv.
  { by exists s. }
  cbn [for_each_try foldl].
  destruct (apply_step_contents m s Hinv) as (s1 & -> & Hinv1 & Hc1 & _).
  destruct (IH s1 Hinv1) as (s' & -> & Hinv' & Hc').
  exists s'. split; [done|]. split; [done|]. by rewrite Hc', Hc1.
Qed.

(** X15.  Correctness of the patch loop.  On a table whose entries are
    non-overlapping ranges of the ROM, [_apply_modifications] succeeds,
    and the file contents named by the resulting table are the original
    contents with each modification's data put at its index, in order:
    a record whose index is outside the table changes nothing, and no
    file other than the one a record names is disturbed.  The resulting
    entries are again non-overlapping ranges of the resulting file. *)
Theorem apply_modifications_contents (rom : bytes) (fat : list FATEntry.t)
    (mods : list ModificationRecord.t) :
  Forall (entry_ok rom) fat → disjoint_entries fat →
  ∃ fat' rom',
    _apply_modifications rom fat mods = (Some fat', rom') ∧
    contents rom' fat' = foldl patch_contents (contents rom fat) mods ∧
    Forall (entry_ok rom') fat' ∧ disjoint_entries fat'.
Proof.
  intros Hok Hdis. unfold _apply_modifications.
  destruct (apply_loop_contents mods (AState fat (len rom) rom))
    as (s' & -> & (_ & Hok' & Hdis') & Hc); [by split|].
  by exists (modified_fat s'), (rom_file s').
Qed.

Lemma sample_fat_disjoint : disjoint_entries sample_fat.
Proof.
  intros i j ei ej Hij Hi Hj. unfold sample_fat in *.
  destruct i as [|[|i]], j as [|[|j]]; try done;
    cbn in Hi, Hj; simplify_eq; cbn; lia.
Qed.

Lemma apply_modifications_contents_witness :
  ∃ fat' rom',
    _apply_modifications (zeros 778) sample_fat sample_mods
    = (Some fat', rom') ∧
    contents rom' fat' = [zeros 100; replicate 300 x42] ∧
    Forall (entry_ok rom') fat' ∧ disjoint_entries fat'.
Proof.
  destruct (apply_modifications_contents (zeros 778) sample_fat sample_mods)
    as (fat' & rom' & Hrun & Hc & Hok & Hdis).
  - repeat constructor; by vm_compute.
  - exact sample_fat_disjoint.
  - exists fat', rom'. split; [exact Hrun|]. split; [|by split].
    rewrite Hc. by vm_compute.
Defined.

End PatchBytes.

(** ** The file a successful save leaves behind *)

Module SaveOutput.
Import Saver ApplyFacts SaveFacts HeaderLayout.


Section Output.

Variable path_name : string → string.
Variable fnt_parse : bytes → Z → Z → list (string * Z).
Variable resolve_fat_index : list (string * Z) → option string → string → Z.
Variable creatable : string → bool.
Variable updatable : string → bool.


End Output.


End SaveOutput.

(** ** The tracker's other methods *)

Module TrackerMore.
Import Saver Tracker TrackerFacts.

Section DictDel.
Context {V : Type}.
Implicit Types (d : list (string * V)) (k : string) (v : V).

Lemma dict_get_del_eq d k : dict_get (dict_del d k) k = None.
Proof.
  induction d as [|[k' v'] d IH]; simpl; [done|].
  case_bool_decide as Hk; simpl; [done|].
  by rewrite bool_decide_eq_false_2.
Qed.

Lemma dict_get_del_ne d k k' :
  k' ≠ k → dict_get (dict_del d k) k' = dict_get d k'.
Proof.
  intros Hne. induction d as [|[k0 v0] d IH]; simpl; [done|].
  case_bool_decide as Hk; simpl.
  - subst k0. by rewrite bool_decide_eq_false_2.
  - case_bool_decide; [done|apply IH].
Qed.

Lemma dict_del_absent d k : dict_get d k = None → dict_del d k = d.
Proof.
  induction d as [|[k' v'] d IH]; simpl; [done|].
  case_bool_decide; [done|]. intros Hd. by rewrite IH.
Qed.

Lemma dict_del_set_fresh d k v :
  dict_get d k = None → dict_del (dict_set d k v) k = d.
Proof.
  induction d as [|[k' v'] d IH]; simpl.
  - by rewrite bool_decide_eq_true_2.
  - case_bool_decide as Hk; [done|]. intros Hd. simpl.
    rewrite bool_decide_eq_false_2 by done. by rewrite IH.
Qed.

(** In a dictionary, where keys are unique, deleting a present key
    removes one item. *)
Lemma length_dict_del d k v :
  NoDup d.*1 → dict_get d k = Some v →
  S (length (dict_del d k)) = length d.
Proof.
  induction d as [|[k' v'] d IH]; simpl; [done|].
  intros Hnd. apply NoDup_cons in Hnd as [Hfresh Hnd].
  case_bool_decide as Hk.
  - subst k'. intros _. rewrite dict_del_absent; [done|].
    destruct (dict_get d k) as [x|] eqn:Hx; [|done].
    exfalso. apply Hfresh. clear -Hx.
    induction d as [|[k1 v1] d IH]; simpl in *; [done|].
    case_bool_decide; [subst; left|right; by apply IH].
  - intros Hg. simpl. f_equal. by apply IH.
Qed.

Lemma dict_set_NoDup d k v : NoDup d.*1 → NoDup (dict_set d k v).*1.
Proof.
  induction d as [|[k' v'] d IH]; simpl.
  - intros _. apply NoDup_singleton.
  - intros Hnd. apply NoDup_cons in Hnd as [Hfresh Hnd].
    case_bool_decide as Hk; simpl.
    + subst k'. by apply NoDup_cons.
    + apply NoDup_cons. split; [|by apply IH].
      intros Hin. apply Hfresh. clear -Hin Hk.
      induction d as [|[k1 v1] d IH]; simpl in *.
      * apply list_elem_of_singleton in Hin. congruence.
      * case_bool_decide; simpl in *.
        -- apply elem_of_cons in Hin as [->|Hin]; [done|by right].
        -- apply elem_of_cons in Hin as [->|Hin]; [by left|right; auto].
Qed.

End DictDel.

(** X17.  [remove] on a path that is not registered returns [False] and
    changes nothing.  On a registered path it returns [True], the path
    is no longer registered, every other registration is untouched, and
    the count drops by one.  Removing a path right after registering it
    for the first time restores the tracker. *)
Theorem remove_outcome (resolve_path : string → string)
    (mods : list (string * ModificationRecord.t)) (file_path : string) :
  let key := resolve_path file_path in
  let r := remove resolve_path mods file_path in
  (dict_get mods key = None → r = (false, mods)) ∧
  (is_Some (dict_get mods key) →
   r.1 = true ∧ dict_get r.2 key = None ∧
   (∀ k, k ≠ key → dict_get r.2 k = dict_get mods k) ∧
   (NoDup mods.*1 → count r.2 = count mods - 1)) ∧
  (∀ data mod_type now,
      data ≠ [] → dict_get mods key = None →
      remove resolve_path
        (register resolve_path mods file_path data mod_type now).2 file_path
      = (true, mods)).
Proof.
  intros key r. unfold r, remove. fold key.
  split; [by intros ->|]. split.
  - intros [v Hv]. rewrite Hv. cbn [fst snd].
    split; [done|]. split; [apply dict_get_del_eq|].
    split; [intros k Hk; by apply dict_get_del_ne|].
    intros Hnd. unfold count, len.
    rewrite <- (length_dict_del mods key v Hnd Hv). lia.
  - intros data mod_type now Hdata Hfresh. unfold register. fold key.
    rewrite bool_decide_eq_false_2 by done. cbn [snd].
    rewrite dict_get_set_eq. by rewrite dict_del_set_fresh.
Qed.

Lemma remove_outcome_witness :
  remove sample_resolve sample_mods "b.bin" = (false, sample_mods) ∧
  remove sample_resolve sample_mods "a.bin" = (true, []) ∧
  remove sample_resolve
    (register sample_resolve sample_mods "b.bin" [x07] "direct" 9).2 "b.bin"
  = (true, sample_mods).
Proof.
  split; [|split].
  - apply (proj1 (remove_outcome sample_resolve sample_mods "b.bin")).
    reflexivity.
  - reflexivity.
  - apply (proj2 (proj2 (remove_outcome sample_resolve sample_mods "b.bin")));
      [discriminate|reflexivity].
Defined.

Section Summary.

Variable path_name : string → string.
Variable strftime : Z → string.

Definition tally (t : string) (ms : list ModificationRecord.t) : Z :=
  foldl Z.add 0
    ((λ _, 1) <$> filter (λ m, ModificationRecord.mod_type m = t) ms).

Lemma foldl_add_shift (l : list Z) (a : Z) :
  foldl Z.add a l = a + foldl Z.add 0 l.
Proof.
  revert a. induction l as [|x l IH]; intros a; simpl; [lia|].
  rewrite (IH (a + x)), (IH (0 + x)). lia.
Qed.

Lemma tally_cons (t : string) (m : ModificationRecord.t)
    (ms : list ModificationRecord.t) :
  tally t (m :: ms)
  = (if bool_decide (ModificationRecord.mod_type m = t) then 1 else 0)
    + tally t ms.
Proof.
  unfold tally. rewrite filter_cons.
  destruct (decide (ModificationRecord.mod_type m = t)) as [Ht|Ht].
  - rewrite bool_decide_eq_true_2 by done. cbn [fmap list_fmap foldl].
    apply foldl_add_shift.
  - by rewrite bool_decide_eq_false_2 by done.
Qed.

Lemma tally_nonneg (t : string) (ms : list ModificationRecord.t) :
  0 ≤ tally t ms.
Proof.
  induction ms as [|m ms IH]; [done|]. rewrite tally_cons.
  case_bool_decide; lia.
Qed.

(** The three accumulators of [get_summary] after the records [ms]. *)
Lemma summary_loop (ms : list ModificationRecord.t)
    (bt : list (string * Z)) (ts : Z) (fs : list file_info) :
  ∃ bt' fs',
    foldl (summary_step path_name strftime) (bt, ts, fs) ms
    = (bt', ts + foldr (λ m a, ModificationRecord.size m + a) 0 ms, fs') ∧
    (∀ t, default 0 (dict_get bt' t)
          = default 0 (dict_get bt t) + tally t ms) ∧
    (∀ t, is_Some (dict_get bt' t)
          ↔ is_Some (dict_get bt t)
            ∨ ∃ m, m ∈ ms ∧ ModificationRecord.mod_type m = t) ∧
    length fs' = (length fs + length ms)%nat.
Proof.
  revert bt ts fs. induction ms as [|m ms IH]; intros bt ts fs.
  { exists bt, fs. cbn [foldl foldr length].
    split; [f_equal; f_equal; lia|]. split; [intros t; unfold tally; simpl; lia|].
    split; [|lia]. intros t. split; [by left|].
    intros [?|(m & Hm & _)]; [done|]. by apply elem_of_nil in Hm. }
  cbn [foldl]. unfold summary_step at 2.
  destruct (IH (dict_set bt (ModificationRecord.mod_type m)
                  (default 0 (dict_get bt (ModificationRecord.mod_type m))
                   + 1))
              (ts + ModificationRecord.size m)
              (fs ++ [FileInfo (path_name (ModificationRecord.file_path m))
                        (ModificationRecord.file_path m)
                        (ModificationRecord.mod_type m) (label m)
                        (ModificationRecord.size m)
                        (strftime (ModificationRecord.timestamp m))
                        (ModificationRecord.resolved m)
                        (ModificationRecord.fat_index m)]))
    as (bt' & fs' & -> & Hbt & Hkeys & Hfs).
  exists bt', fs'. split; [cbn [foldr]; f_equal; f_equal; lia|].
  split; [|split].
  - intros t. rewrite Hbt, tally_cons.
    destruct (decide (ModificationRecord.mod_type m = t)) as [<-|Hne].
    + rewrite dict_get_set_eq, bool_decide_eq_true_2 by done.
      cbn [default from_option]. unfold id. lia.
    + rewrite dict_get_set_ne, bool_decide_eq_false_2 by done. lia.
  - intros t. rewrite Hkeys.
    destruct (decide (ModificationRecord.mod_type m = t)) as [<-|Hne].
    + rewrite dict_get_set_eq. split; [|eauto].
      intros _. right. exists m. split; [left|done].
    + rewrite dict_get_set_ne by done. split.
      * intros [?|(m' & Hm' & Ht)]; [by left|].
        right. exists m'. split; [by right|done].
      * intros [?|(m' & Hm' & Ht)]; [by left|].
        apply elem_of_cons in Hm' as [->|Hm']; [done|]. right. eauto.
  - rewrite Hfs, length_app. cbn [length]. lia.
Qed.

(** X18.  The summary agrees with the tracker's other counters: the
    total is the number of records, the list has one item per record,
    the total size is the sum of the payload sizes, and for every type
    the entry of [by_type] is what [count_by_type] returns, a type being
    listed exactly when some record has it. *)
Theorem get_summary_consistent
    (mods : list (string * ModificationRecord.t)) :
  let s := get_summary path_name strftime mods in
  total_count s = count mods ∧
  len (summary_files s) = count mods ∧
  total_size s
  = foldr (λ m a, ModificationRecord.size m + a) 0 (get_all mods) ∧
  (∀ t, default 0 (dict_get (by_type s) t) = count_by_type mods t) ∧
  (∀ t, is_Some (dict_get (by_type s) t) ↔ 0 < count_by_type mods t) ∧
  (∀ t, count_by_type mods t = len (get_by_type mods t)).
Proof.
  unfold get_summary. cbv zeta.
  destruct (summary_loop (get_all mods) [] 0 [])
    as (bt & fs & -> & Hbt & Hkeys & Hfs).
  cbn [total_count summary_files total_size by_type].
  assert (len (get_all mods) = count mods) as Hcount
    by (unfold get_all, count, len; by rewrite length_fmap).
  split; [done|].
  split; [unfold len in *; rewrite Hfs; cbn [length]; lia|].
  split; [lia|].
  assert (∀ t ms, tally t ms
                  = len (filter (λ m, ModificationRecord.mod_type m = t) ms))
    as Htally.
  { intros t ms. induction ms as [|m ms IH]; [done|].
    rewrite tally_cons, filter_cons.
    destruct (decide (ModificationRecord.mod_type m = t)).
    - rewrite bool_decide_eq_true_2, len_cons by done. lia.
    - rewrite bool_decide_eq_false_2 by done. lia. }
  split; [intros t; rewrite Hbt; cbn [dict_get default]; reflexivity|].
  split; [|intros t; apply Htally].
  intros t. rewrite Hkeys.
  change (count_by_type mods t) with (tally t (get_all mods)). split.
  - intros [[? [=]]|(m & Hm & Ht)]. rewrite Htally.
    assert (m ∈ filter (λ m, ModificationRecord.mod_type m = t)
                  (get_all mods)) as Hin by (by apply list_elem_of_filter).
    destruct (filter _ _) as [|x l]; [by apply elem_of_nil in Hin|].
    rewrite len_cons. pose proof (len_nonneg l). lia.
  - intros Hpos. right. rewrite Htally in Hpos.
    destruct (filter _ _) as [|m l] eqn:Hf; [done|].
    assert (m ∈ filter (λ m, ModificationRecord.mod_type m = t)
                  (get_all mods)) as Hin by (rewrite Hf; left).
    apply list_elem_of_filter in Hin as [Ht Hin]. by exists m.
Qed.

End Summary.

(** X19.  [register_map_files] answers [True] exactly when both files can
    be read and are not empty.  It is not all-or-nothing: when only one
    of the two can be registered the answer is [False] and that one
    stays registered. *)
Theorem register_map_files_outcome (resolve_path : string → string)
    (fs : gmap string bytes) (mods : list (string * ModificationRecord.t))
    (dat_path tex_path mod_type : string) (now1 now2 : Z) :
  let usable p := ∃ d, fs !! p = Some d ∧ d ≠ [] in
  let r :=
    register_map_files resolve_path fs mods dat_path tex_path mod_type
      now1 now2 in
  (r.1 = true ↔ usable dat_path ∧ usable tex_path) ∧
  (¬ usable dat_path → ¬ usable tex_path → r = (false, mods)) ∧
  (∀ d, fs !! dat_path = Some d → d ≠ [] → ¬ usable tex_path →
        r.1 = false ∧
        dict_get r.2 (resolve_path dat_path)
        = Some (ModificationRecord.Make (resolve_path dat_path) d mod_type
                  now1 (-1))) ∧
  (∀ t, fs !! tex_path = Some t → t ≠ [] → ¬ usable dat_path →
        r.1 = false ∧
        dict_get r.2 (resolve_path tex_path)
        = Some (ModificationRecord.Make (resolve_path tex_path) t mod_type
                  now2 (-1))).
Proof.
  intros usable r.
  assert (∀ ms p now,
            (usable p ∧ ∃ d, fs !! p = Some d ∧ d ≠ [] ∧
               register_from_disk resolve_path fs ms p mod_type now
               = (true, dict_set ms (resolve_path p)
                          (ModificationRecord.Make (resolve_path p) d
                             mod_type now (-1))))
            ∨ (¬ usable p ∧
               register_from_disk resolve_path fs ms p mod_type now
               = (false, ms))) as Hone.
  { intros ms p now. unfold register_from_disk, register, usable.
    destruct (fs !! p) as [d|] eqn:Hp.
    - case_bool_decide as Hd.
      + right. split; [|done]. intros (d' & [= <-] & Hne). done.
      + left. split; [eauto|]. exists d. done.
    - right. split; [|done]. by intros (d' & [=] & _). }
  unfold r, register_map_files.
  destruct (Hone mods dat_path now1)
    as [(Hu1 & d1 & Hd1 & Hne1 & ->)|(Hn1 & ->)];
    match goal with
    | |- context [register_from_disk _ _ ?ms tex_path _ _] =>
        destruct (Hone ms tex_path now2)
          as [(Hu2 & d2 & Hd2 & Hne2 & ->)|(Hn2 & ->)]
    end; cbn [fst snd andb].
  - split; [done|]. split; [done|]. split; [by intros|by intros].
  - split; [split; [done|tauto]|]. split; [done|]. split.
    + intros d Hd _ _. split; [done|].
      rewrite Hd in Hd1. injection Hd1 as <-. apply dict_get_set_eq.
    + intros t Ht Hne. exfalso. apply Hn2. by exists t.
  - split; [split; [done|tauto]|]. split; [done|]. split.
    + intros d Hd Hne. exfalso. apply Hn1. by exists d.
    + intros t Ht _ _. split; [done|].
      rewrite Ht in Hd2. injection Hd2 as <-. apply dict_get_set_eq.
  - split; [split; [done|tauto]|]. split; [done|]. split.
    + intros d Hd Hne. exfalso. apply Hn1. by exists d.
    + intros t Ht Hne. exfalso. apply Hn2. by exists t.
Qed.

Lemma register_map_files_outcome_witness :
  let r :=
    register_map_files sample_resolve {["m.dat"%string := [x01; x02]]} []
      "m.dat" "m.tex" "map_modification" 3 4 in
  r.1 = false ∧
  dict_get r.2 "/roms/m.dat"
  = Some (ModificationRecord.Make "/roms/m.dat" [x01; x02]
            "map_modification" 3 (-1)).
Proof.
  apply (proj1 (proj2 (proj2 (register_map_files_outcome sample_resolve
           {["m.dat"%string := [x01; x02]]} [] "m.dat" "m.tex"
           "map_modification" 3 4)))).
  - reflexivity.
  - discriminate.
  - intros (d & Hd & _). by vm_compute in Hd.
Defined.

End TrackerMore.

(** ** The session's life cycle *)

Module SessionFacts.
Import Saver ROMSaver HeaderFacts.

Lemma load_header_outcome (w : world) (p : string) :
  (∃ c h, files w !! p = Some c ∧ 512 ≤ len c ∧
          NDSHeader.from_bytes (slice c 0 512) = Ok h ∧
          load_header w p = (true, with_header w h))
  ∨ (¬ (∃ c, files w !! p = Some c ∧ 512 ≤ len c) ∧
     load_header w p = (false, w)).
Proof.
  unfold load_header. destruct (files w !! p) as [c|] eqn:Hc.
  2:{ right. split; [|done]. by intros (c & [=] & _). }
  unfold file_read. change (0 <? 0) with false.
  change (512 <? 0) with false. cbv iota. rsimpl.
  change (0 + 512) with 512. pose proof (len_nonneg c).
  destruct (Z.le_gt_cases 512 (len c)) as [Hbig|Hsmall].
  - left. destruct (from_bytes_parsed (slice c 0 512))
      as (x18 & x19 & x20 & x30 & x31 & _ & _ & _ & _ & _ & Hp).
    { rewrite len_slice_inrange; lia. }
    rewrite Hp. eauto 10.
  - right. split; [intros (c' & [= <-] & Hc'); lia|].
    unfold NDSHeader.from_bytes.
    assert (len (slice c 0 512) < 512) as Hl.
    { rewrite LZ10Facts.slice_prefix by lia. unfold len in *.
      rewrite length_take. lia. }
    by destruct (Z.ltb_spec (len (slice c 0 512)) 512); [|lia].
Qed.

(** X20.  [initialize] answers [True] exactly when the ROM file exists
    and has at least 512 bytes.  Then the session is initialised with
    the header parsed from the first 512 bytes and the file index built
    from the whole file.  Otherwise the answer is [False]; the ROM path
    has been replaced all the same, while the header is the one the
    session had before.  In both cases the registered modifications and
    the files are untouched. *)
Theorem initialize_outcome (fnt_parse : bytes → Z → Z → list (string * Z))
    (w : world) (p : string) :
  let r := initialize fnt_parse w p in
  (r.1 = true ↔ ∃ c, files w !! p = Some c ∧ 512 ≤ len c) ∧
  original_rom_path r.2 = Some p ∧ _mods r.2 = _mods w ∧
  files r.2 = files w ∧
  (r.1 = true →
   ∃ c h, files w !! p = Some c ∧
          NDSHeader.from_bytes (slice c 0 512) = Ok h ∧
          header r.2 = Some h ∧ is_initialized r.2 = true ∧
          _fat_index_map_built r.2 = true ∧
          _fat_index_map r.2
          = fnt_parse c (NDSHeader.filename_table_addr h)
              (NDSHeader.filename_size h)) ∧
  (r.1 = false →
   header r.2 = header w ∧ _fat_index_map_built r.2 = false ∧
   is_initialized r.2 = bool_decide (is_Some (header w))).
Proof.
  intros r. unfold r, initialize. cbv zeta.
  destruct (load_header_outcome (set_rom_path w p) p)
    as [(c & h & Hc & Hbig & Hparse & ->)|(Hno & ->)]; cbn [negb].
  - cbn [files set_rom_path] in Hc.
    unfold build_file_index.
    cbn [header with_header set_rom_path files original_rom_path _mods].
    rewrite Hc. cbn [fst snd files header original_rom_path _mods
                     _fat_index_map _fat_index_map_built].
    split; [split; [eauto|done]|]. do 3 (split; [done|]).
    split; [|done]. intros _. exists c, h.
    split; [done|]. split; [done|]. split; [done|].
    split; [|done]. unfold is_initialized.
    cbn [original_rom_path header]. by rewrite !bool_decide_eq_true_2 by eauto.
  - cbn [fst snd files header original_rom_path _mods set_rom_path
         _fat_index_map_built] in *.
    split; [split; [done|intros H; by destruct Hno]|].
    do 3 (split; [done|]). split; [done|]. intros _.
    split; [done|]. split; [done|]. unfold is_initialized.
    cbn [original_rom_path header]. by rewrite bool_decide_eq_true_2 by eauto.
Qed.

Lemma initialize_outcome_witness :
  let w := World {["rom.nds"%string := SaveFacts.sample_rom]} [] None None
             [] false in
  (initialize SaveFacts.sample_names w "rom.nds").1 = true ∧
  (initialize SaveFacts.sample_names w "gone.nds").1 = false ∧
  original_rom_path (initialize SaveFacts.sample_names w "gone.nds").2
  = Some "gone.nds"%string.
Proof.
  intros w. split; [|split].
  - apply (proj1 (initialize_outcome SaveFacts.sample_names w "rom.nds")).
    exists SaveFacts.sample_rom. split; [reflexivity|by vm_compute].
  - reflexivity.
  - apply (initialize_outcome SaveFacts.sample_names w "gone.nds").
Defined.

End SessionFacts.

(** ** Texture rules *)

Module TxifFacts.
Import ImportTileset HeaderFacts NARCFacts.

Lemma create_txif_rule_ok (texture_id rule_type u1 u2 : Z) :
  0 ≤ texture_id < 2 ^ 16 → 0 ≤ rule_type < 2 ^ 16 →
  0 ≤ u1 < 2 ^ 16 → 0 ≤ u2 < 2 ^ 16 →
  create_txif_rule texture_id rule_type u1 u2
  = Ok (le_encode 2 rule_type ++ le_encode 2 texture_id
        ++ le_encode 2 u1 ++ le_encode 2 u2).
Proof.
  intros Ht Hr H1 H2. unfold create_txif_rule, pack_into_le.
  rewrite !pack_le_ok by (simpl; lia). rsimpl. cbv zeta.
  cbn [le_encode]. reflexivity.
Qed.

Lemma create_txif_rule_range (texture_id rule_type : Z) :
  ¬ (0 ≤ texture_id < 2 ^ 16 ∧ 0 ≤ rule_type < 2 ^ 16) →
  create_txif_rule texture_id rule_type 0 0 = Raise StructError.
Proof.
  intros Hbad. unfold create_txif_rule, pack_into_le, pack_le.
  change (2 ^ (8 * Z.of_nat 2)) with (2 ^ 16).
  destruct (Z.leb_spec 0 rule_type); [|done].
  destruct (Z.ltb_spec rule_type (2 ^ 16)); [|done].
  cbn [andb]. rsimpl. change (len (zeros 8)) with 8.
  change ((0 <=? 0) && (0 + Z.of_nat 2 <=? 8)) with true. cbv iota. rsimpl.
  destruct (Z.leb_spec 0 texture_id); [|done].
  destruct (Z.ltb_spec texture_id (2 ^ 16)); [|done].
  exfalso. apply Hbad. lia.
Qed.

(** X21.  [add_txif_rule] on a section [TXIF], count, flag, rules: the
    count is incremented, the flag and the existing rules are kept, and
    the 8-byte rule (type, texture id, 0, 0) is appended, so the section
    grows by eight bytes.  A count of 65535 cannot be incremented and
    raises [struct.error], as does a texture id or rule type outside 16
    bits; a section shorter than eight bytes or with another magic
    raises [ValueError]. *)
Theorem add_txif_rule_outcome (count flag : Z) (rules : bytes)
    (texture_id rule_type : Z) :
  0 ≤ count < 2 ^ 16 → 0 ≤ flag < 2 ^ 16 →
  let txif := magic_TXIF ++ le_encode 2 count ++ le_encode 2 flag ++ rules in
  (count < 65535 → 0 ≤ texture_id < 2 ^ 16 → 0 ≤ rule_type < 2 ^ 16 →
   add_txif_rule txif texture_id rule_type
   = Ok (magic_TXIF ++ le_encode 2 (count + 1) ++ le_encode 2 flag ++ rules
         ++ le_encode 2 rule_type ++ le_encode 2 texture_id
         ++ [x00; x00; x00; x00])) ∧
  (count = 65535 → 0 ≤ texture_id < 2 ^ 16 → 0 ≤ rule_type < 2 ^ 16 →
   add_txif_rule txif texture_id rule_type = Raise StructError) ∧
  (¬ (0 ≤ texture_id < 2 ^ 16 ∧ 0 ≤ rule_type < 2 ^ 16) →
   add_txif_rule txif texture_id rule_type = Raise StructError) ∧
  (∀ short, len short < 8 →
            add_txif_rule short texture_id rule_type = Raise ValueError) ∧
  (∀ other, slice other 0 4 ≠ magic_TXIF →
            add_txif_rule other texture_id rule_type = Raise ValueError).
Proof.
  intros Hcount Hflag txif.
  assert (len txif = 8 + len rules) as Hlen.
  { unfold txif. rewrite !len_app, !len_le_encode.
    change (len magic_TXIF) with 4. lia. }
  pose proof (len_nonneg rules) as Hrules.
  assert (add_txif_rule txif texture_id rule_type
          = new_rule ← create_txif_rule texture_id rule_type 0 0;
            count_b ← pack_le 2 (count + 1);
            Ok (magic_TXIF ++ count_b ++ le_encode 2 flag ++ rules
                ++ new_rule)) as Hrun.
  { unfold add_txif_rule.
    rewrite bool_decide_eq_false_2 by (intros Heq; by rewrite Heq in Hlen).
    destruct (Z.ltb_spec (len txif) 8); [lia|]. cbn [orb]. cbv zeta.
    assert (slice txif 0 4 = magic_TXIF) as ->
      by (by apply (slice_mid txif [] magic_TXIF
                      (le_encode 2 count ++ le_encode 2 flag ++ rules))).
    rewrite bytes_eqb_refl. cbn [negb].
    assert (slice txif 4 6 = le_encode 2 count) as ->
      by (by apply (slice_mid txif magic_TXIF (le_encode 2 count)
                      (le_encode 2 flag ++ rules))).
    assert (slice txif 6 8 = le_encode 2 flag) as ->.
    { apply (slice_mid txif (magic_TXIF ++ le_encode 2 count)
               (le_encode 2 flag) rules); [|done|done].
      unfold txif. by rewrite <- !app_assoc. }
    unfold unpack_u16. rewrite !len_le_encode.
    change (Z.of_nat 2 =? 2) with true. cbv iota. rsimpl.
    rewrite !le_decode_encode by (simpl; lia).
    destruct (create_txif_rule texture_id rule_type 0 0) as [r| |]; [|done..].
    rsimpl. destruct (pack_le 2 (count + 1)) as [c| |]; [|done..]. rsimpl.
    rewrite (pack_le_ok 2 flag) by (simpl; lia). rsimpl.
    change (drop 8 txif) with rules. cbn [app].
    by rewrite <- !app_assoc. }
  split; [|split; [|split; [|split]]].
  - intros Hc Ht Hr. rewrite Hrun, create_txif_rule_ok by (simpl; lia).
    rsimpl. rewrite pack_le_ok by (simpl; lia). rsimpl.
    reflexivity.
  - intros -> Ht Hr. rewrite Hrun, create_txif_rule_ok by (simpl; lia).
    by rsimpl.
  - intros Hbad. by rewrite Hrun, create_txif_rule_range.
  - intros short Hshort. unfold add_txif_rule.
    destruct (Z.ltb_spec (len short) 8); [|lia].
    by rewrite orb_true_r.
  - intros other Hother. unfold add_txif_rule.
    destruct (_ || _); [done|]. cbv zeta.
    unfold NARC.bytes_eqb. rewrite bool_decide_eq_false_2; [done|].
    intros Heq. apply Hother.
    apply (list_fmap_eq_inj b2z); [|exact Heq]. intros x y. apply b2z_inj.
Qed.

Lemma add_txif_rule_outcome_witness :
  add_txif_rule (magic_TXIF ++ [x02; x00; x01; x00] ++ zeros 16) 7 1
  = Ok (magic_TXIF ++ [x03; x00; x01; x00] ++ zeros 16
        ++ [x01; x00; x07; x00; x00; x00; x00; x00]) ∧
  add_txif_rule (magic_TXIF ++ [xff; xff; x00; x00]) 7 1 = Raise StructError.
Proof.
  split.
  - apply (proj1 (add_txif_rule_outcome 2 1 (zeros 16) 7 1
                    ltac:(lia) ltac:(lia))); lia.
  - apply (proj1 (proj2 (add_txif_rule_outcome 65535 0 [] 7 1
                           ltac:(lia) ltac:(lia)))); lia.
Defined.

End TxifFacts.

(** ** Textures: [load/texparser.py] and the rebuilding of a TEX file *)

Module TexFacts.
Import LZ10 NARC TexParser ImportTileset.
Import LZ10Facts NARCFacts NARCExtra.

Lemma bytes_eqb_true (a b : bytes) : bytes_eqb a b = true → a = b.
Proof.
  unfold bytes_eqb. intros H%bool_decide_eq_true.
  revert b H. induction a as [|x a IH]; intros [|y b] H; try done.
  cbn [fmap list_fmap] in H. injection H as Hx Hab.
  f_equal; [by apply b2z_inj|by apply IH].
Qed.

Lemma first_match_Some {A} (p : A → bool) (xs : list A) (x : A) :
  first_match p xs = Some x → x ∈ xs ∧ p x = true.
Proof.
  induction xs as [|y xs IH]; [done|]. cbn [first_match].
  destruct (p y) eqn:Hy.
  - intros [= ->]. split; [left|done].
  - intros H. destruct (IH H). split; [by right|done].
Qed.

Lemma first_match_found {A} (p : A → bool) (xs : list A) (x : A) :
  x ∈ xs → p x = true → ∃ y, first_match p xs = Some y.
Proof.
  induction xs as [|y xs IH]; [by intros ?%elem_of_nil|].
  intros [->|Hx]%elem_of_cons Hp; cbn [first_match].
  - rewrite Hp. eauto.
  - destruct (p y); eauto.
Qed.

Lemma range2_empty (a b : Z) : b ≤ a → range2 a b = [].
Proof. intros H. unfold range2. by replace (Z.to_nat (b - a)) with 0%nat by lia. Qed.

Lemma range2_snoc (a : Z) : 0 ≤ a → range2 0 (a + 1) = range2 0 a ++ [a].
Proof.
  intros Ha. unfold range2.
  replace (Z.to_nat (a + 1 - 0)) with (S (Z.to_nat (a - 0))) by lia.
  rewrite seq_S, fmap_app. cbn [fmap list_fmap]. repeat f_equal. lia.
Qed.

Lemma slice_head4 (b0 b1 b2 b3 : byte) (rest : bytes) :
  slice (b0 :: b1 :: b2 :: b3 :: rest) 0 4 = [b0; b1; b2; b3].
Proof.
  change (b0 :: b1 :: b2 :: b3 :: rest) with ([b0; b1; b2; b3] ++ rest).
  rewrite slice_app_l by (by vm_compute). done.
Qed.

Lemma four_bytes (data : bytes) :
  4 ≤ len data → ∃ b0 b1 b2 b3 rest, data = b0 :: b1 :: b2 :: b3 :: rest.
Proof.
  destruct data as [|b0 [|b1 [|b2 [|b3 rest]]]]; unfold len; simpl;
    try lia.
  eauto 6.
Qed.

(** What a positive answer of [detect_magic] says about the four bytes. *)
Lemma detect_magic_cases (magics : list (bytes * string))
    (b0 b1 b2 b3 : byte) (rest : bytes) :
  (detect_magic magics (b0 :: b1 :: b2 :: b3 :: rest)).1 = true →
  ∃ m, m ∈ magics ∧
       ([b0; b1; b2; b3] = m.1 ∨ [b3; b2; b1; b0] = m.1
        ∨ [b0; b1; b2] = slice m.1 0 3 ∨ [b1; b2; b3] = slice m.1 1 4).
Proof.
  unfold detect_magic.
  assert (bool_decide (b0 :: b1 :: b2 :: b3 :: rest = [])
          || (len (b0 :: b1 :: b2 :: b3 :: rest) <? 4) = false) as ->.
  { rewrite bool_decide_eq_false_2 by done. cbn [orb].
    apply Z.ltb_ge. unfold len. simpl. lia. }
  rewrite slice_head4. cbv zeta.
  destruct (first_match _ magics) as [[mb name]|] eqn:H1.
  { intros _. apply first_match_Some in H1 as [Hin Hp].
    exists (mb, name). split; [done|]. left. by apply bytes_eqb_true. }
  change (reverse [b0; b1; b2; b3]) with [b3; b2; b1; b0].
  destruct (first_match (λ m, bytes_eqb [b3; b2; b1; b0] m.1) magics)
    as [[mb name]|] eqn:H2.
  { intros _. apply first_match_Some in H2 as [Hin Hp].
    exists (mb, name). split; [done|]. right. left. by apply bytes_eqb_true. }
  destruct (first_match (λ m, _ || _) magics) as [[mb name]|] eqn:H3;
    [|by cbn].
  intros _. apply first_match_Some in H3 as [Hin Hp].
  exists (mb, name). split; [done|].
  change (slice [b0; b1; b2; b3] 0 3) with [b0; b1; b2] in Hp.
  change (slice [b0; b1; b2; b3] 1 4) with [b1; b2; b3] in Hp.
  apply orb_true_iff in Hp as [Hp|Hp]; apply bytes_eqb_true in Hp; auto.
Qed.

(** The two middle bytes of anything detected as graphics, and as palette. *)
Definition graphics_middles : list (byte * byte) :=
  [("G", "C"); ("C", "G"); ("C", "B"); ("C", "E"); ("N", "A");
   ("B", "C"); ("E", "C"); ("A", "N")]%byte.

Definition palette_middles : list (byte * byte) :=
  [("L", "C"); ("C", "L"); ("T", "F"); ("F", "T")]%byte.

Lemma graphics_middle (b0 b1 b2 b3 : byte) (rest : bytes) :
  (detect_graphics_magic (b0 :: b1 :: b2 :: b3 :: rest)).1 = true →
  (b1, b2) ∈ graphics_middles.
Proof.
  intros (m & Hm & Hc)%detect_magic_cases.
  unfold graphics_magics in Hm.
  repeat (apply elem_of_cons in Hm as [->|Hm]);
    [..|by apply elem_of_nil in Hm];
    destruct Hc as [Hc|[Hc|[Hc|Hc]]]; vm_compute in Hc;
    injection Hc as; subst; unfold graphics_middles;
    repeat first [by left | right].
Qed.

Lemma palette_middle (b0 b1 b2 b3 : byte) (rest : bytes) :
  (detect_palette_magic (b0 :: b1 :: b2 :: b3 :: rest)).1 = true →
  (b1, b2) ∈ palette_middles.
Proof.
  intros (m & Hm & Hc)%detect_magic_cases.
  unfold palette_magics in Hm.
  repeat (apply elem_of_cons in Hm as [->|Hm]);
    [..|by apply elem_of_nil in Hm];
    destruct Hc as [Hc|[Hc|[Hc|Hc]]]; vm_compute in Hc;
    injection Hc as; subst; unfold palette_middles;
    repeat first [by left | right].
Qed.

(** X22.  No data is detected both as graphics and as palette: the two
    detectors, with their exact, reversed and three-byte matches, never
    both answer yes. *)
Theorem detect_graphics_palette_disjoint (data : bytes) :
  (detect_graphics_magic data).1 && (detect_palette_magic data).1 = false.
Proof.
  destruct (detect_graphics_magic data).1 eqn:Hg; [|done].
  destruct (detect_palette_magic data).1 eqn:Hp; [|done].
  exfalso.
  destruct (Z.lt_ge_cases (len data) 4) as [Hshort|Hlen].
  { unfold detect_graphics_magic, detect_magic in Hg.
    apply Z.ltb_lt in Hshort. rewrite Hshort, orb_true_r in Hg. done. }
  destruct (four_bytes data Hlen) as (b0 & b1 & b2 & b3 & rest & ->).
  apply graphics_middle in Hg. apply palette_middle in Hp.
  unfold graphics_middles in Hg. unfold palette_middles in Hp.
  repeat (apply elem_of_cons in Hg as [Hg|Hg]);
    [..|by apply elem_of_nil in Hg];
    injection Hg as -> ->;
    repeat (apply elem_of_cons in Hp as [Hp|Hp]);
    solve [discriminate Hp | by apply elem_of_nil in Hp].
Qed.

End TexFacts.

(** ** Rebuilding a TEX file and reading it back *)

Module TexRoundTrip.
Import LZ10 NARC TexParser ImportTileset.
Import LZ10Facts NARCFacts NARCExtra TexFacts.

Lemma decompress_compress (b : bytes) :
  len b < 2 ^ 24 →
  ∃ c, compress_lz10 b = Ok c ∧ decompress_lz10 c = Ok b.
Proof.
  intros Hlen.
  destruct (compress_lz10_shape b)
    as (h1 & h2 & h3 & body & Hc & Hh1 & Hh2 & Hh3 & Hdec).
  exists (x10 :: h1 :: h2 :: h3 :: body). split; [done|].
  rewrite decompress_lz10_tagged.
  assert (declared_size h1 h2 h3 = len b) as ->.
  { unfold declared_size. rewrite Hh1, Hh2, Hh3.
    apply header_length_roundtrip. pose proof (len_nonneg b). lia. }
  rewrite Hdec.
  - rsimpl. rewrite slice_prefix by apply len_nonneg.
    f_equal. apply prefix_of_all.
  - unfold len. simpl. lia.
Qed.

Lemma truthy_Some (b : bytes) : 0 < len b → truthy (Some b) = true.
Proof. destruct b; [unfold len; simpl; lia|done]. Qed.

Lemma nonempty (b : bytes) : 0 < len b → bool_decide (b = []) = false.
Proof.
  intros H. apply bool_decide_eq_false_2. intros ->. unfold len in H.
  simpl in H. lia.
Qed.

Lemma len_pad4_ge (g : bytes) : len g ≤ len (pad4 g).
Proof.
  unfold pad4. cbv zeta. rewrite len_app.
  pose proof (len_nonneg (zeros (Z.land (- len g) 3))). lia.
Qed.

Lemma detect_magic_app (magics : list (bytes * string)) (g z : bytes) :
  4 ≤ len g → detect_magic magics (g ++ z) = detect_magic magics g.
Proof.
  intros Hg. unfold detect_magic.
  pose proof (len_nonneg z).
  rewrite !nonempty by (rewrite ?len_app; lia). cbn [orb].
  assert ((len (g ++ z) <? 4) = false) as ->
    by (apply Z.ltb_ge; rewrite len_app; lia).
  assert ((len g <? 4) = false) as -> by (apply Z.ltb_ge; lia).
  by rewrite slice_app_l by lia.
Qed.

(** What [try_parse] accepts it still accepts after padding. *)
Lemma try_parse_pad4 (magics : list (bytes * string)) (sections : list bytes)
    (g : bytes) :
  try_parse magics sections g = Some g →
  32 ≤ len g ∧ try_parse magics sections (pad4 g) = Some (pad4 g).
Proof.
  unfold try_parse.
  destruct (bool_decide (g = []) || (len g <? 32)) eqn:Hsmall; [done|].
  apply orb_false_iff in Hsmall as [_ Hlen%Z.ltb_ge].
  intros Hg. split; [done|].
  pose proof (len_pad4_ge g) as Hpad.
  rewrite nonempty by lia. cbn [orb].
  assert ((len (pad4 g) <? 32) = false) as -> by (apply Z.ltb_ge; lia).
  unfold pad4 at 1. cbv zeta. rewrite detect_magic_app by lia.
  destruct (detect_magic magics g).1; [done|].
  destruct (existsb _ (range2 0 (Z.min (len g - 4) 64))) eqn:Hex; [|done].
  apply existsb_exists in Hex as (o & Ho & Hsec).
  apply list_elem_of_In, elem_of_range2 in Ho.
  assert (existsb
            (λ offset,
               existsb (bytes_eqb (slice (pad4 g) offset (offset + 4)))
                 sections)
            (range2 0 (Z.min (len (pad4 g) - 4) 64)) = true) as ->; [|done].
  apply existsb_exists. exists o. split.
  - apply list_elem_of_In, elem_of_range2. lia.
  - unfold pad4. cbv zeta. by rewrite slice_app_l by lia.
Qed.

Lemma classify_step_graphics (a : bytes) (rlcn : option bytes) :
  try_parse_as_graphics a = Some a → 32 ≤ len a →
  classify_step a (None, rlcn) = Ok (Continue (Some a, rlcn)).
Proof.
  intros Ha Hla. unfold classify_step.
  rewrite nonempty by lia.
  assert ((len a <? 4) = false) as -> by (apply Z.ltb_ge; lia).
  cbn [orb truthy negb andb]. by rewrite Ha, truthy_Some by lia.
Qed.

Lemma classify_step_palette (g b : bytes) :
  0 < len g → try_parse_as_palette b = Some b → 32 ≤ len b →
  classify_step b (Some g, None) = Ok (Continue (Some g, Some b)).
Proof.
  intros Hg Hb Hlb. unfold classify_step.
  rewrite nonempty by lia.
  assert ((len b <? 4) = false) as -> by (apply Z.ltb_ge; lia).
  cbn [orb]. rewrite truthy_Some by lia. cbn [truthy negb andb].
  by rewrite Hb, truthy_Some by lia.
Qed.

(** A graphics file followed by a palette file is classified as such. *)
Lemma classify_pair (a b : bytes) :
  try_parse_as_graphics a = Some a → 32 ≤ len a →
  try_parse_as_palette b = Some b → 32 ≤ len b →
  classify_tileset_data [a; b] = Ok (Some a, Some b).
Proof.
  intros Ha Hla Hb Hlb.
  unfold classify_tileset_data. cbn [for_each].
  rewrite classify_step_graphics by done. rsimpl.
  rewrite classify_step_palette by (done || lia). rsimpl.
  cbn [fst snd]. by rewrite !truthy_Some by lia.
Qed.

(** A tileset with both parts present and not empty; the others are
    skipped by [build_tex_file]. *)
Definition complete (ts : tileset) : bool :=
  truthy (RGCN ts) && truthy (RLCN ts).

(** Both parts are accepted by the classifier of [texparser.py]. *)
Definition accepted (ts : tileset) : Prop :=
  ∃ g p, RGCN ts = Some g ∧ RLCN ts = Some p ∧
         try_parse_as_graphics g = Some g ∧ try_parse_as_palette p = Some p.

Definition pair_of (ts : tileset) : list bytes :=
  [default [] (RGCN ts); default [] (RLCN ts)].

(** The size of the rebuilt file: 56 bytes, and per tileset 76 bytes and
    the two parts padded to a multiple of four. *)
Definition tex_size (kept : list tileset) : Z :=
  56 + foldr (λ ts n,
                76 + len (pad4 (default [] (RGCN ts)))
                + len (pad4 (default [] (RLCN ts))) + n) 0 kept.

(** The tileset read back at position [i]. *)
Definition reparsed (i : Z) (ts : tileset) : tileset :=
  let g := pad4 <$> RGCN ts in
  let p := pad4 <$> RLCN ts in
  Tileset i g p g p None None.

Lemma narc_size_pair (g p : bytes) :
  narc_size [g; p] = 68 + len (pad4 g) + len (pad4 p).
Proof.
  unfold narc_size, pool. cbn [fmap list_fmap concat].
  rewrite !len_app, !len_cons, (@len_nil bytes), (@len_nil byte). lia.
Qed.

Lemma tex_size_nonneg (kept : list tileset) :
  56 ≤ tex_size kept.
Proof.
  unfold tex_size. induction kept as [|ts kept IH]; cbn [foldr]; [lia|].
  pose proof (len_nonneg (pad4 (default [] (RGCN ts)))).
  pose proof (len_nonneg (pad4 (default [] (RLCN ts)))). lia.
Qed.

Lemma tex_size_cons (ts : tileset) (kept : list tileset) :
  tex_size (ts :: kept) = 8 + narc_size (pair_of ts) + tex_size kept.
Proof. unfold tex_size, pair_of. cbn [foldr]. rewrite narc_size_pair. lia. Qed.

Lemma narcs_aligned (kept : list tileset) :
  Forall (λ f, len f mod 4 = 0) (narc_layout ∘ pair_of <$> kept).
Proof.
  induction kept as [|ts kept IH]; [constructor|].
  constructor; [|done]. change (len (narc_layout (pair_of ts)) mod 4 = 0).
  rewrite len_narc_layout. apply narc_size_mod.
Qed.

Lemma narc_size_narcs (kept : list tileset) :
  4 + narc_size (narc_layout ∘ pair_of <$> kept) = tex_size kept.
Proof.
  unfold narc_size, pool.
  rewrite (pad4_all_aligned _ (narcs_aligned kept)).
  induction kept as [|ts kept IH]; [done|].
  rewrite tex_size_cons, <- IH. cbn [fmap list_fmap concat].
  change ((narc_layout ∘ pair_of) ts) with (narc_layout (pair_of ts)).
  rewrite !len_app, !len_cons, len_narc_layout. lia.
Qed.

Lemma build_tex_step_eq (ts : tileset) (acc : list bytes) :
  build_tex_step ts acc
  = if complete ts
    then inner_narc ← build_narc (pair_of ts);
         Ok (Continue (acc ++ [inner_narc]))
    else Ok (Continue acc).
Proof.
  unfold build_tex_step, complete, pair_of. cbv zeta.
  by destruct (truthy (RGCN ts)), (truthy (RLCN ts)).
Qed.

Lemma build_loop (tilesets : list tileset) (acc : list bytes) :
  Forall (λ ts, narc_size (pair_of ts) < 2 ^ 32)
    (List.filter complete tilesets) →
  for_each tilesets build_tex_step acc
  = Ok (acc ++ (narc_layout ∘ pair_of <$> List.filter complete tilesets)).
Proof.
  revert acc. induction tilesets as [|ts tilesets IH]; intros acc Hsz.
  { cbn. by rewrite app_nil_r. }
  cbn [for_each List.filter] in *. rewrite build_tex_step_eq.
  destruct (complete ts).
  - apply Forall_cons in Hsz as [Hts Hsz].
    rewrite build_narc_layout by done. rsimpl.
    rewrite IH by done. cbn [fmap list_fmap]. by rewrite <- app_assoc.
  - rsimpl. by apply IH.
Qed.

Lemma narc_layout_magic (files : list bytes) :
  narc_size files < 2 ^ 32 →
  bytes_eqb (slice (narc_layout files) 0 4) magic_NARC = true.
Proof.
  intros Hsz. pose proof (parse_narc_layout files Hsz) as Hp.
  unfold parse_narc in Hp.
  by destruct (bytes_eqb (slice (narc_layout files) 0 4) magic_NARC).
Qed.

Lemma tileset_step_narc (i : Z) (ts : tileset) (acc : list tileset) :
  accepted ts → narc_size (pair_of ts) < 2 ^ 32 →
  tileset_step (i, narc_layout (pair_of ts)) acc
  = Ok (Continue (acc ++ [reparsed i ts])).
Proof.
  intros (g & p & Hg & Hp & Hag & Hap) Hsz.
  unfold pair_of in *. unfold reparsed. rewrite Hg, Hp in *.
  cbn [default from_option fmap option_fmap option_map] in *. unfold id in *.
  apply try_parse_pad4 in Hag as [Hlg Hag].
  apply try_parse_pad4 in Hap as [Hlp Hap].
  pose proof (len_pad4_ge g). pose proof (len_pad4_ge p).
  unfold tileset_step.
  rewrite nonempty.
  2:{ rewrite len_narc_layout. rewrite narc_size_pair. lia. }
  unfold inner_files_of. rewrite narc_layout_magic by done.
  unfold parse_narc_or_single. rewrite parse_narc_layout by done. rsimpl.
  cbn [fmap list_fmap].
  rewrite classify_pair by (done || lia). rsimpl.
  by rewrite !truthy_Some by lia.
Qed.

Lemma tileset_loop (kept : list tileset) (a : Z) (acc : list tileset) :
  Forall accepted kept →
  Forall (λ ts, narc_size (pair_of ts) < 2 ^ 32) kept →
  for_each (zip (range2 a (a + len kept)) (narc_layout ∘ pair_of <$> kept))
    tileset_step acc
  = Ok (acc ++ zip_with reparsed (range2 a (a + len kept)) kept).
Proof.
  revert a acc. induction kept as [|ts kept IH]; intros a acc Hacc Hsz.
  { cbn. rewrite len_nil, Z.add_0_r, range2_nil. cbn. by rewrite app_nil_r. }
  apply Forall_cons in Hacc as [Hts Hacc].
  apply Forall_cons in Hsz as [Hs Hsz].
  pose proof (len_nonneg kept).
  rewrite len_cons, range2_cons by lia.
  replace (a + (1 + len kept)) with (a + 1 + len kept) by lia.
  cbn [fmap list_fmap zip zip_with for_each].
  change ((narc_layout ∘ pair_of) ts) with (narc_layout (pair_of ts)).
  rewrite tileset_step_narc by done. rsimpl.
  fold (zip (range2 (a + 1) (a + 1 + len kept))
          (narc_layout ∘ pair_of <$> kept)).
  rewrite IH by done. by rewrite <- app_assoc.
Qed.

Lemma sizes_ok (kept : list tileset) (B : Z) :
  tex_size kept < B → Forall (λ ts, narc_size (pair_of ts) < B) kept.
Proof.
  induction kept as [|ts kept IH]; [constructor|].
  rewrite tex_size_cons. intros H.
  pose proof (tex_size_nonneg kept).
  assert (0 ≤ narc_size (pair_of ts)).
  { unfold pair_of. rewrite narc_size_pair.
    pose proof (len_nonneg (pad4 (default [] (RGCN ts)))).
    pose proof (len_nonneg (pad4 (default [] (RLCN ts)))). lia. }
  constructor; [lia|]. apply IH. lia.
Qed.

Lemma len_zip_range {A} (f : Z → A → A) (l : list A) :
  len (zip_with f (range (len l)) l) = len l.
Proof.
  unfold len at 1. rewrite length_zip_with. unfold range.
  rewrite length_range2. unfold len. lia.
Qed.

Lemma tex_roundtrip_kept (T : tex_result) (fs : gmap string bytes)
    (path : string) :
  Forall accepted (List.filter complete (tilesets T)) →
  tex_size (List.filter complete (tilesets T)) < 2 ^ 24 →
  ∃ tex c,
    build_tex_file T = Ok tex ∧
    len tex = tex_size (List.filter complete (tilesets T)) ∧
    compress_lz10 tex = Ok c ∧
    parse_tex_map (<[path := c]> fs) path
    = TexResult
        (zip_with reparsed
           (range (len (List.filter complete (tilesets T))))
           (List.filter complete (tilesets T)))
        (len (List.filter complete (tilesets T))) None.
Proof.
  set (kept := List.filter complete (tilesets T)). intros Hacc Hsize.
  set (inner := narc_layout ∘ pair_of <$> kept).
  pose proof (narc_size_narcs kept) as Hinner. fold inner in Hinner.
  assert (Forall (λ ts, narc_size (pair_of ts) < 2 ^ 32) kept) as Hsz.
  { apply sizes_ok. lia. }
  set (tex := ["T"; "E"; "X"; x00]%byte ++ narc_layout inner).
  assert (len tex = tex_size kept) as Hlen.
  { unfold tex. rewrite len_app, len_narc_layout. rewrite <- Hinner. done. }
  destruct (decompress_compress tex) as (c & Hc & Hd); [lia|].
  exists tex, c. split; [|split; [done|split; [done|]]].
  { unfold build_tex_file. cbv zeta. fold kept in Hsz.
    rewrite build_loop by done. rsimpl. rewrite app_nil_l. fold kept inner.
    rewrite build_narc_layout by lia. done. }
  unfold parse_tex_map. rewrite lookup_insert_eq.
  unfold parse_tex_body. rewrite Hd. rsimpl.
  assert (slice tex 0 4 = ["T"; "E"; "X"; x00]%byte) as ->.
  { unfold tex. rewrite slice_app_l by (by vm_compute). done. }
  change (existsb (bytes_eqb ["T"; "E"; "X"; x00]%byte) tex_prefixes)
    with true.
  cbv iota zeta. change (drop 4 tex) with (narc_layout inner).
  unfold parse_narc_or_single. rewrite parse_narc_layout by lia.
  rewrite (pad4_all_aligned inner (narcs_aligned kept)). rsimpl.
  assert (len inner = len kept) as ->.
  { unfold inner, len. by rewrite length_fmap. }
  unfold range at 1.
  replace (len kept) with (0 + len kept) at 1 by lia.
  unfold inner. rewrite tileset_loop by done. rewrite app_nil_l.
  rewrite Z.add_0_l. fold (range (len kept)).
  by rewrite len_zip_range.
Qed.

(** X23.  Rebuilding and reading back.  [build_tex_file] keeps the tilesets
    that have both parts, in order; when the classifier accepts their
    parts and the rebuilt file stays under 16 MiB, compressing it and
    parsing the result gives exactly those tilesets, numbered from 0,
    each part padded with zero bytes to a multiple of four, without any
    error or warning. *)
Theorem tex_roundtrip (T : tex_result) (fs : gmap string bytes)
    (path : string) :
  Forall accepted (List.filter complete (tilesets T)) →
  tex_size (List.filter complete (tilesets T)) < 2 ^ 24 →
  ∃ tex c,
    build_tex_file T = Ok tex ∧
    len tex = tex_size (List.filter complete (tilesets T)) ∧
    compress_lz10 tex = Ok c ∧
    parse_tex_map (<[path := c]> fs) path
    = TexResult
        (zip_with reparsed
           (range (len (List.filter complete (tilesets T))))
           (List.filter complete (tilesets T)))
        (len (List.filter complete (tilesets T))) None.
Proof. apply tex_roundtrip_kept. Qed.

Definition sample_graphics : bytes :=
  ["R"; "G"; "C"; "N"]%byte ++ replicate 29 x01.

Definition sample_palette : bytes :=
  ["R"; "L"; "C"; "N"]%byte ++ replicate 28 x02.

Definition sample_tex : tex_result :=
  TexResult
    [Tileset 0 (Some sample_graphics) None (Some sample_graphics) None None
       (Some "Palette data (RLCN) missing"%string);
     Tileset 1 (Some sample_graphics) (Some sample_palette)
       (Some sample_graphics) (Some sample_palette) None None]
    2 None.

Lemma tex_roundtrip_witness :
  ∃ tex c,
    build_tex_file sample_tex = Ok tex ∧
    len tex = 200 ∧
    compress_lz10 tex = Ok c ∧
    parse_tex_map (<[ "map.tex"%string := c ]> ∅) "map.tex"%string
    = TexResult
        [Tileset 0 (Some (sample_graphics ++ [x00; x00; x00]))
           (Some sample_palette)
           (Some (sample_graphics ++ [x00; x00; x00]))
           (Some sample_palette) None None]
        1 None.
Proof.
  apply (tex_roundtrip sample_tex ∅ "map.tex"%string).
  - repeat constructor. exists sample_graphics, sample_palette.
    by vm_compute.
  - by vm_compute.
Defined.

Lemma filter_split {A} (f : A → bool) (l : list A) :
  len (List.filter f l) + len (List.filter (negb ∘ f) l) = len l.
Proof.
  induction l as [|x l IH]; [done|]. cbn [List.filter compose].
  destruct (f x); cbn [negb]; rewrite !len_cons; lia.
Qed.

Lemma filter_snoc {A} (f : A → bool) (l : list A) (x : A) :
  f x = true → List.filter f (l ++ [x]) = List.filter f l ++ [x].
Proof. intros Hx. rewrite List.filter_app. cbn. by rewrite Hx. Qed.

Lemma zip_range_snoc {A B} (f : Z → A → B) (l : list A) (x : A) :
  zip_with f (range (len (l ++ [x]))) (l ++ [x])
  = zip_with f (range (len l)) l ++ [f (len l) x].
Proof.
  rewrite len_app, len_singleton. unfold range.
  rewrite range2_snoc by apply len_nonneg.
  rewrite zip_with_app; [done|].
  rewrite length_range2. unfold len. lia.
Qed.

(** X24.  Where an imported tileset ends up.  Take a dictionary whose
    count is the length of its list and whose complete tilesets are
    accepted by the classifier, and two new files the classifier accepts
    as graphics and as palette, the rebuilt file staying under 16 MiB.
    After [add_tileset_to_tex], [build_tex_file], compression and
    [parse_tex_map], the tilesets read back are the complete ones
    followed by the new one, and the index of the new one is the texture
    id [determine_next_texture_id] gave it minus the number of tilesets
    that lacked a part and were skipped. *)
Theorem imported_tileset_index (T : tex_result) (g p : bytes)
    (fs : gmap string bytes) (path : string) :
  tileset_count T = len (tilesets T) →
  Forall accepted (List.filter complete (tilesets T)) →
  try_parse_as_graphics g = Some g →
  try_parse_as_palette p = Some p →
  tex_size (List.filter complete (tilesets (add_tileset_to_tex T g p)))
  < 2 ^ 24 →
  ∃ tex c,
    build_tex_file (add_tileset_to_tex T g p) = Ok tex ∧
    compress_lz10 tex = Ok c ∧
    tilesets (parse_tex_map (<[path := c]> fs) path)
    = zip_with reparsed
        (range (len (List.filter complete (tilesets T))))
        (List.filter complete (tilesets T))
      ++ [Tileset
            (determine_next_texture_id T
             - len (List.filter (negb ∘ complete) (tilesets T)))
            (Some (pad4 g)) (Some (pad4 p)) (Some (pad4 g)) (Some (pad4 p))
            None None].
Proof.
  intros Hcount Hacc Hg Hp Hsize.
  pose proof (try_parse_pad4 _ _ _ Hg) as [Hlg _].
  pose proof (try_parse_pad4 _ _ _ Hp) as [Hlp _].
  set (new := Tileset (len (tilesets T)) (Some g) (Some p) (Some g) (Some p)
                None None).
  assert (complete new = true) as Hnew.
  { unfold complete, new. cbn [RGCN RLCN].
    by rewrite !truthy_Some by lia. }
  assert (List.filter complete (tilesets (add_tileset_to_tex T g p))
          = List.filter complete (tilesets T) ++ [new]) as Hkept.
  { unfold add_tileset_to_tex. cbn [tilesets]. by apply filter_snoc. }
  destruct (tex_roundtrip_kept (add_tileset_to_tex T g p) fs path)
    as (tex & c & Hb & _ & Hc & Hparse); [|done|].
  { rewrite Hkept. apply Forall_app. split; [done|].
    constructor; [|constructor]. by exists g, p. }
  exists tex, c. split; [done|]. split; [done|].
  rewrite Hparse. cbn [tilesets]. rewrite Hkept, zip_range_snoc.
  f_equal. unfold reparsed, new, determine_next_texture_id.
  cbn [RGCN RLCN fmap option_fmap option_map]. repeat f_equal.
  rewrite Hcount. pose proof (filter_split complete (tilesets T)). lia.
Qed.

Lemma imported_tileset_index_witness :
  ∃ tex c,
    build_tex_file
      (add_tileset_to_tex sample_tex sample_graphics sample_palette) = Ok tex ∧
    compress_lz10 tex = Ok c ∧
    tilesets (parse_tex_map (<[ "map.tex"%string := c ]> ∅) "map.tex"%string)
    = [Tileset 0 (Some (sample_graphics ++ [x00; x00; x00]))
         (Some sample_palette)
         (Some (sample_graphics ++ [x00; x00; x00]))
         (Some sample_palette) None None;
       Tileset 1 (Some (sample_graphics ++ [x00; x00; x00]))
         (Some sample_palette)
         (Some (sample_graphics ++ [x00; x00; x00]))
         (Some sample_palette) None None].
Proof.
  apply (imported_tileset_index sample_tex sample_graphics sample_palette ∅
           "map.tex"%string).
  - by vm_compute.
  - repeat constructor. exists sample_graphics, sample_palette.
    by vm_compute.
  - by vm_compute.
  - by vm_compute.
  - by vm_compute.
Defined.

End TexRoundTrip.

(** ** What every result of [parse_tex_map] looks like *)

Module TexShape.
Import LZ10 NARC TexParser.
Import NARCFacts TexFacts TexRoundTrip.

(** An optional part that is absent, or present and not empty. *)
Definition part_ok (o : option bytes) : Prop :=
  o = None ∨ truthy o = true.

(** An entry of the ['tilesets'] list as the parser builds it. *)
Definition entry_ok (ts : tileset) : Prop :=
  NCGR ts = RGCN ts ∧ NCLR ts = RLCN ts ∧
  part_ok (RGCN ts) ∧ part_ok (RLCN ts) ∧
  (error ts ≠ None ↔ RGCN ts = None ∧ RLCN ts = None) ∧
  (warning ts ≠ None ↔ (RGCN ts = None ∧ RLCN ts ≠ None)
                       ∨ (RGCN ts ≠ None ∧ RLCN ts = None)).

Lemma try_parse_part (magics : list (bytes * string)) (sections : list bytes)
    (data : bytes) :
  part_ok (try_parse magics sections data).
Proof.
  unfold try_parse, part_ok.
  destruct (bool_decide (data = []) || (len data <? 32)) eqn:Hs; [by left|].
  apply orb_false_iff in Hs as [_ Hlen%Z.ltb_ge].
  destruct (detect_magic magics data).1; [right; apply truthy_Some; lia|].
  destruct (existsb _ _); [right; apply truthy_Some; lia|by left].
Qed.

Lemma classify_step_ok (bf : bytes) (s : option bytes * option bytes) :
  part_ok s.1 ∧ part_ok s.2 →
  ∃ r, classify_step bf s = Ok r
       ∧ part_ok (ctl_state r).1 ∧ part_ok (ctl_state r).2.
Proof.
  destruct s as [rgcn rlcn]. cbn [fst snd]. intros [Hg Hl].
  unfold classify_step.
  destruct (bool_decide (bf = []) || (len bf <? 4)); [by eexists|].
  pose proof (try_parse_part graphics_magics graphics_sections bf) as Hpg.
  pose proof (try_parse_part palette_magics palette_sections bf) as Hpl.
  fold (try_parse_as_graphics bf) in Hpg.
  fold (try_parse_as_palette bf) in Hpl.
  destruct (negb (truthy rgcn)).
  - destruct (truthy (try_parse_as_graphics bf)) eqn:Htg; cbn [andb].
    + eexists. split; [done|]. cbn. split; [by right|done].
    + destruct (negb (truthy rlcn)).
      * destruct (truthy (try_parse_as_palette bf)) eqn:Htl; cbn [andb].
        -- eexists. split; [done|]. cbn. split; [done|by right].
        -- destruct (truthy rgcn && truthy rlcn); by eexists.
      * cbn [andb]. destruct (truthy rgcn && truthy rlcn); by eexists.
  - cbn [andb]. destruct (negb (truthy rlcn)).
    + destruct (truthy (try_parse_as_palette bf)) eqn:Htl; cbn [andb].
      * eexists. split; [done|]. cbn. split; [done|by right].
      * destruct (truthy rgcn && truthy rlcn); by eexists.
    + cbn [andb]. destruct (truthy rgcn && truthy rlcn); by eexists.
Qed.

Lemma fallback_step_ok (bf : bytes) (s : option bytes * option bytes) :
  part_ok s.1 ∧ part_ok s.2 →
  ∃ r, fallback_step bf s = Ok r
       ∧ part_ok (ctl_state r).1 ∧ part_ok (ctl_state r).2.
Proof.
  destruct s as [rgcn rlcn]. cbn [fst snd]. intros [Hg Hl].
  unfold fallback_step.
  destruct (bool_decide (bf = [])) eqn:Hbf; [by eexists|].
  apply bool_decide_eq_false in Hbf.
  assert (truthy (Some bf) = true) as Ht by (by destruct bf).
  destruct (negb (truthy rgcn) && (1024 <=? len bf)).
  { eexists. split; [done|]. cbn. split; [by right|done]. }
  destruct (negb (truthy rlcn) && (len bf <? 1024)).
  { eexists. split; [done|]. cbn. split; [done|by right]. }
  by eexists.
Qed.

(** [classify_tileset_data] always returns, and never an empty part. *)
Lemma classify_ok (inner_files : list bytes) :
  ∃ rgcn rlcn, classify_tileset_data inner_files = Ok (rgcn, rlcn)
               ∧ part_ok rgcn ∧ part_ok rlcn.
Proof.
  unfold classify_tileset_data.
  destruct (for_each_inv (λ s, part_ok s.1 ∧ part_ok s.2) inner_files
              classify_step (None, None)) as (s & -> & Hs).
  { split; by left. }
  { intros bf s _. apply classify_step_ok. }
  rsimpl. destruct (negb (truthy s.1) || negb (truthy s.2)).
  - destruct (for_each_inv (λ s, part_ok s.1 ∧ part_ok s.2) inner_files
                fallback_step s) as ([g l] & -> & Hg & Hl); [done| |eauto].
    intros bf s' _. apply fallback_step_ok.
  - destruct s as [g l]. destruct Hs. eauto.
Qed.

Lemma part_ok_truthy (o : option bytes) :
  part_ok o → truthy o = false → o = None.
Proof. intros [->|Ht] Hf; [done|congruence]. Qed.

Lemma truthy_not_None (o : option bytes) : truthy o = true → o ≠ None.
Proof. by destruct o. Qed.

(** One pass of the tileset loop appends one entry, numbered [i], or
    raises. *)
Lemma tileset_step_ok (i : Z) (ts_blob : bytes) (acc r : list tileset) :
  tileset_step (i, ts_blob) acc = Ok (Continue r) →
  ∃ e, r = acc ++ [e] ∧ index e = i ∧ entry_ok e.
Proof.
  unfold tileset_step.
  destruct (bool_decide (ts_blob = [])).
  { intros [= <-]. eexists. split; [done|]. split; [done|].
    unfold entry_ok, part_ok. cbn.
    split; [done|]. split; [done|]. split; [by left|]. split; [by left|].
    split; [by split|]. split; [done|]. by intros [[_ ?]|[? _]]. }
  destruct (inner_files_of ts_blob) as [inner_files|e|]; [rsimpl|done|done].
  destruct (classify_ok inner_files) as (rgcn & rlcn & -> & Hg & Hl). rsimpl.
  intros [= <-]. eexists. split; [done|].
  destruct (truthy rgcn) eqn:Htg, (truthy rlcn) eqn:Htl; cbn [negb andb];
    (split; [done|]); unfold entry_ok; cbn;
    (split; [done|]); (split; [done|]); (split; [done|]); (split; [done|]);
    try (apply truthy_not_None in Htg); try (apply truthy_not_None in Htl);
    try (apply part_ok_truthy in Htg; [subst rgcn|done]);
    try (apply part_ok_truthy in Htl; [subst rlcn|done]);
    (split; split); try done; try tauto; try (by intros [? ?]).
Qed.

Lemma tileset_step_continues (item : Z * bytes) (acc r : list tileset) :
  tileset_step item acc = Ok (Break r) → False.
Proof.
  destruct item as [i ts_blob]. unfold tileset_step.
  destruct (bool_decide (ts_blob = [])); [done|].
  destruct (inner_files_of ts_blob) as [inner_files|e|]; [rsimpl|done|done].
  destruct (classify_ok inner_files) as (rgcn & rlcn & -> & _). rsimpl. done.
Qed.

Lemma tileset_loop_ok (xs : list bytes) (b : Z) (acc r : list tileset) :
  for_each (zip (range2 (len acc) b) xs) tileset_step acc = Ok r →
  index <$> acc = range2 0 (len acc) → Forall entry_ok acc →
  index <$> r = range2 0 (len r) ∧ Forall entry_ok r.
Proof.
  revert acc. induction xs as [|x xs IH]; intros acc Hrun Hidx Hacc.
  { rewrite zip_with_nil_r in Hrun. by injection Hrun as <-. }
  destruct (Z.le_gt_cases b (len acc)) as [Hle|Hlt].
  { rewrite range2_empty in Hrun by done. by injection Hrun as <-. }
  rewrite range2_cons in Hrun by lia. cbn [zip zip_with for_each] in Hrun.
  destruct (tileset_step (len acc, x) acc) as [[acc'|acc']|e|] eqn:Hstep;
    [rsimpl_in Hrun|by apply tileset_step_continues in Hstep|done|done].
  apply tileset_step_ok in Hstep as (e & -> & Hi & He).
  assert (len (acc ++ [e]) = len acc + 1) as Hlen
    by (rewrite len_app, len_singleton; lia).
  apply (IH (acc ++ [e])).
  - by rewrite Hlen.
  - rewrite Hlen, range2_snoc by apply len_nonneg.
    rewrite fmap_app, Hidx. cbn [fmap list_fmap]. by rewrite Hi.
  - apply Forall_app. split; [done|]. by constructor.
Qed.

(** X25.  Whatever the file, [parse_tex_map] returns a dictionary whose
    ['tileset_count'] is the length of ['tilesets'], empty when the
    ['error'] key is set, whose entries are numbered 0, 1, 2, ... in
    order, and where each entry repeats its two parts under both names,
    never holds an empty part, carries ['error'] exactly when both parts
    are missing and ['warning'] exactly when one of them is. *)
Theorem parse_tex_map_shape (fs : gmap string bytes) (tex_path : string) :
  tileset_count (parse_tex_map fs tex_path)
  = len (tilesets (parse_tex_map fs tex_path))
  ∧ (failure (parse_tex_map fs tex_path) ≠ None →
     tilesets (parse_tex_map fs tex_path) = [])
  ∧ index <$> tilesets (parse_tex_map fs tex_path)
    = range (len (tilesets (parse_tex_map fs tex_path)))
  ∧ Forall entry_ok (tilesets (parse_tex_map fs tex_path)).
Proof.
  unfold parse_tex_map.
  destruct (fs !! tex_path) as [raw|]; [|by cbn].
  destruct (parse_tex_body raw) as [ts|e|] eqn:Hbody; [|by cbn|by cbn].
  cbn [tileset_count tilesets failure].
  split; [done|]. split; [done|].
  unfold parse_tex_body in Hbody.
  destruct (decompress_lz10 raw) as [dec|e|]; [rsimpl_in Hbody|done|done].
  cbv zeta in Hbody.
  destruct (parse_narc_or_single _) as [outer|e|];
    [rsimpl_in Hbody|done|done].
  apply (tileset_loop_ok outer (len outer) []); [done|done|constructor].
Qed.

End TexShape.

(** ** Rebuilding a DAT file and reading it back *)

Module DatRoundTrip.
Import LZ10 NARC TexParser DatParser ImportTileset.
Import NARCFacts NARCExtra TexFacts TexRoundTrip.

(** The sections [build_dat_file] packs, in order. *)
Definition opt_list (o : option bytes) : list bytes :=
  if truthy o then [default [] o] else [].

Definition lyr_list (layers : list layer) : list bytes :=
  if bool_decide (layers = []) then []
  else [magic_LYR ++ narc_layout (layer_data <$> layers)].

Definition sections_of (D : dat_result) : list bytes :=
  ((opt_list (mpif D) ++ opt_list (txif D)) ++ lyr_list (layers D))
  ++ opt_list (cta D).

(** A section that is absent or empty, or starts with its magic. *)
Definition section_ok (magic : bytes) (o : option bytes) : Prop :=
  ∀ b, o = Some b → b ≠ [] → slice b 0 4 = magic.

(** A section as it is read back: padded, and absent if it was empty. *)
Definition kept (o : option bytes) : option bytes :=
  if truthy o then pad4 <$> o else None.

Lemma len_pool_app (a b : list bytes) :
  len (pool (a ++ b)) = len (pool a) + len (pool b).
Proof. unfold pool. by rewrite fmap_app, concat_app, len_app. Qed.

Lemma len_pool_nonneg (a : list bytes) : 0 ≤ len (pool a).
Proof. apply len_nonneg. Qed.

Lemma slice_len4 (b magic : bytes) :
  slice b 0 4 = magic → len magic = 4 → 4 ≤ len b.
Proof.
  intros <-. unfold slice, clamp_index, len. cbn [Z.ltb Z.compare].
  rewrite length_take, length_drop. lia.
Qed.

Lemma slice_pad4 (b : bytes) :
  4 ≤ len b → slice (pad4 b) 0 4 = slice b 0 4.
Proof. intros H. unfold pad4. cbv zeta. by rewrite slice_app_l by lia. Qed.

Lemma step_mpif (m : bytes) (s : option bytes * option bytes * option bytes
                                 * option bytes) :
  slice m 0 4 = magic_MPIF →
  section_step s (pad4 m) = (Some (pad4 m), s.1.1.2, s.1.2, s.2).
Proof.
  intros Hm. destruct s as [[[a b] c] d]. unfold section_step.
  rewrite slice_pad4 by (by eapply slice_len4). by rewrite Hm.
Qed.

Lemma step_txif (m : bytes) (s : option bytes * option bytes * option bytes
                                 * option bytes) :
  slice m 0 4 = DatParser.magic_TXIF →
  section_step s (pad4 m) = (s.1.1.1, Some (pad4 m), s.1.2, s.2).
Proof.
  intros Hm. destruct s as [[[a b] c] d]. unfold section_step.
  rewrite slice_pad4 by (by eapply slice_len4). by rewrite Hm.
Qed.

Lemma step_cta (m : bytes) (s : option bytes * option bytes * option bytes
                                * option bytes) :
  slice m 0 4 = magic_CTA →
  section_step s (pad4 m) = (s.1.1.1, s.1.1.2, s.1.2, Some (pad4 m)).
Proof.
  intros Hm. destruct s as [[[a b] c] d]. unfold section_step.
  rewrite slice_pad4 by (by eapply slice_len4). by rewrite Hm.
Qed.

Lemma step_lyr (rest : bytes) (s : option bytes * option bytes * option bytes
                                   * option bytes) :
  section_step s (magic_LYR ++ rest)
  = (s.1.1.1, s.1.1.2, Some (magic_LYR ++ rest), s.2).
Proof.
  destruct s as [[[a b] c] d]. unfold section_step.
  by rewrite slice_app_l by (by vm_compute).
Qed.

Lemma bytes_eqb_false (a b : bytes) : a ≠ b → bytes_eqb a b = false.
Proof.
  intros H. destruct (bytes_eqb a b) eqn:E; [|done].
  by apply bytes_eqb_true in E.
Qed.

Lemma not_narc_pad4 (d : bytes) :
  slice d 0 4 ≠ magic_NARC →
  bytes_eqb (slice (pad4 d) 0 4) magic_NARC = false.
Proof.
  intros Hd. destruct (Z.lt_ge_cases (len d) 4) as [Hshort|Hlong].
  - apply bytes_eqb_false.
    destruct d as [|a [|b [|c [|e d]]]];
      [| | | |unfold len in Hshort; simpl in Hshort; lia];
      by vm_compute.
  - rewrite slice_pad4 by done. by apply bytes_eqb_false.
Qed.

Lemma candidate_step_plain (d : bytes) (acc : list bytes) :
  slice d 0 4 ≠ magic_NARC →
  candidate_step (pad4 d) acc = Ok (Continue (acc ++ [pad4 d])).
Proof. intros Hd. unfold candidate_step. by rewrite not_narc_pad4. Qed.

Lemma candidate_loop (ld acc : list bytes) :
  Forall (λ d, slice d 0 4 ≠ magic_NARC) ld →
  for_each (pad4 <$> ld) candidate_step acc = Ok (acc ++ (pad4 <$> ld)).
Proof.
  revert acc. induction ld as [|d ld IH]; intros acc Hld.
  { cbn. by rewrite app_nil_r. }
  apply Forall_cons in Hld as [Hd Hld].
  cbn [fmap list_fmap for_each]. rewrite candidate_step_plain by done. rsimpl.
  rewrite IH by done. by rewrite <- app_assoc.
Qed.

Lemma opt_list_found (magic : bytes) (o : option bytes)
    (s : option bytes * option bytes * option bytes * option bytes)
    (put : option bytes → option bytes * option bytes * option bytes
                          * option bytes) :
  section_ok magic o → put None = s →
  (∀ m, slice m 0 4 = magic → section_step s (pad4 m) = put (Some (pad4 m))) →
  foldl section_step s (pad4 <$> opt_list o) = put (kept o).
Proof.
  intros Hok Hnone Hstep. unfold opt_list, kept.
  destruct o as [[|x b]|]; cbn [truthy]; [done| |done].
  cbn [default from_option fmap list_fmap foldl option_fmap option_map].
  unfold id. apply Hstep. by apply Hok.
Qed.

Lemma lyr_section_aligned (ld : list bytes) :
  pad4 (magic_LYR ++ narc_layout ld) = magic_LYR ++ narc_layout ld.
Proof.
  apply pad4_aligned. rewrite len_app, len_narc_layout.
  change (len magic_LYR) with 4.
  pose proof (narc_size_mod ld) as H.
  rewrite Z.add_comm, <- Z.add_mod_idemp_l, H by lia. done.
Qed.

(** The variables of [parse_dat_map] after its first loop. *)
Lemma sections_found (D : dat_result) :
  section_ok magic_MPIF (mpif D) →
  section_ok DatParser.magic_TXIF (txif D) →
  section_ok magic_CTA (cta D) →
  foldl section_step (None, None, None, None) (pad4 <$> sections_of D)
  = (kept (mpif D), kept (txif D),
     if bool_decide (layers D = []) then None
     else Some (magic_LYR ++ narc_layout (layer_data <$> layers D)),
     kept (cta D)).
Proof.
  intros Hm Ht Hc. unfold sections_of.
  rewrite !fmap_app, !foldl_app.
  rewrite (opt_list_found magic_MPIF (mpif D) _ (λ o, (o, None, None, None)))
    by (done || intros m Hmm; by rewrite step_mpif).
  rewrite (opt_list_found DatParser.magic_TXIF (txif D) _
             (λ o, (kept (mpif D), o, None, None)))
    by (done || intros m Hmm; by rewrite step_txif).
  unfold lyr_list. destruct (bool_decide (layers D = [])).
  - cbn [fmap list_fmap foldl].
    by rewrite (opt_list_found magic_CTA (cta D) _
                  (λ o, (kept (mpif D), kept (txif D), None, o)))
      by (done || intros m Hmm; by rewrite step_cta).
  - cbn [fmap list_fmap foldl]. rewrite lyr_section_aligned, step_lyr.
    cbn [fst snd].
    by rewrite (opt_list_found magic_CTA (cta D) _
                  (λ o, (kept (mpif D), kept (txif D),
                         Some (magic_LYR
                               ++ narc_layout (layer_data <$> layers D)),
                         o)))
      by (done || intros m Hmm; by rewrite step_cta).
Qed.

Lemma lyr_inner_size (ld pre post : list bytes) (B : Z) :
  narc_size ((pre ++ [magic_LYR ++ narc_layout ld]) ++ post) < B →
  narc_size ld < B.
Proof.
  assert (len (pool [magic_LYR ++ narc_layout ld]) = 4 + narc_size ld) as Hl.
  { unfold pool. cbn [fmap list_fmap concat].
    rewrite app_nil_r, lyr_section_aligned, len_app, len_narc_layout. done. }
  pose proof (len_pool_nonneg pre). pose proof (len_pool_nonneg post).
  pose proof (len_nonneg ((pre ++ [magic_LYR ++ narc_layout ld]) ++ post)).
  unfold narc_size at 1. rewrite !len_pool_app, Hl. lia.
Qed.

Lemma build_dat_file_layout (D : dat_result) :
  narc_size (sections_of D) < 2 ^ 32 →
  build_dat_file D = Ok (narc_layout (sections_of D)).
Proof.
  intros Hsize. unfold build_dat_file. cbv zeta.
  unfold sections_of, lyr_list in *.
  destruct (bool_decide (layers D = [])).
  - rsimpl. unfold opt_list in *.
    destruct (truthy (mpif D)), (truthy (txif D)), (truthy (cta D));
      cbn [app] in *; by rewrite build_narc_layout.
  - rewrite build_narc_layout by (by eapply lyr_inner_size). rsimpl.
    change ["L"; "Y"; "R"; x00]%byte with magic_LYR. unfold opt_list in *.
    destruct (truthy (mpif D)), (truthy (txif D)), (truthy (cta D));
      cbn [app] in *; by rewrite build_narc_layout.
Qed.

Section RoundTrip.

Variable format_02X : Z → string.

Lemma layers_of_lyr (layers : list layer) :
  Forall (λ l, slice (layer_data l) 0 4 ≠ magic_NARC) layers →
  (bool_decide (layers = []) = false →
   narc_size (layer_data <$> layers) < 2 ^ 32) →
  layers_of format_02X
    (if bool_decide (layers = []) then None
     else Some (magic_LYR ++ narc_layout (layer_data <$> layers)))
  = Ok ((λ l, layer_of format_02X (pad4 (layer_data l))) <$> layers).
Proof.
  intros Hplain Hsize. unfold layers_of.
  destruct (bool_decide (layers = [])) eqn:Hl.
  { apply bool_decide_eq_true in Hl as ->. done. }
  change (truthy (Some (magic_LYR ++ narc_layout (layer_data <$> layers))))
    with true.
  cbv iota zeta. cbn [default from_option]. unfold id.
  rewrite slice_app_l by (by vm_compute).
  change (bytes_eqb (slice magic_LYR 0 4) magic_LYR) with true. cbv iota.
  change (drop 4 (magic_LYR ++ narc_layout (layer_data <$> layers)))
    with (narc_layout (layer_data <$> layers)).
  rewrite parse_narc_layout by auto. rsimpl.
  rewrite candidate_loop by (by apply Forall_fmap). rsimpl.
  rewrite app_nil_l, <- !list_fmap_compose. done.
Qed.

(** X26.  Rebuilding and reading back a DAT file.  When the sections that
    are present start with their magic, no layer starts with [NARC] and
    the archive stays under 16 MiB, [build_dat_file], compression and
    [parse_dat_map] give back every section and every layer, in order,
    padded with zero bytes to a multiple of four; an empty section comes
    back as absent, and each layer's type and name are read again from
    its padded data. *)
Theorem dat_roundtrip (D : dat_result) (fs : gmap string bytes)
    (path : string) :
  section_ok magic_MPIF (mpif D) →
  section_ok DatParser.magic_TXIF (txif D) →
  section_ok magic_CTA (cta D) →
  Forall (λ l, slice (layer_data l) 0 4 ≠ magic_NARC) (layers D) →
  narc_size (sections_of D) < 2 ^ 24 →
  ∃ main c,
    build_dat_file D = Ok main ∧
    len main = narc_size (sections_of D) ∧
    compress_lz10 main = Ok c ∧
    parse_dat_map format_02X (<[path := c]> fs) path
    = Ok (DatResult (kept (mpif D)) (kept (txif D))
            ((λ l, layer_of format_02X (pad4 (layer_data l))) <$> layers D)
            (kept (cta D))).
Proof.
  intros Hm Ht Hc Hplain Hsize.
  destruct (decompress_compress (narc_layout (sections_of D)))
    as (c & Hcomp & Hdec); [by rewrite len_narc_layout|].
  exists (narc_layout (sections_of D)), c.
  split; [apply build_dat_file_layout; lia|].
  split; [apply len_narc_layout|]. split; [done|].
  unfold parse_dat_map, open_read. rewrite lookup_insert_eq. rsimpl.
  rewrite Hdec. rsimpl. rewrite parse_narc_layout by lia. rsimpl.
  rewrite sections_found by done.
  rewrite layers_of_lyr; [done|done|].
  intros Hl. unfold sections_of, lyr_list in Hsize. rewrite Hl in Hsize.
  apply lyr_inner_size in Hsize. lia.
Qed.

End RoundTrip.

Definition sample_dat : dat_result :=
  DatResult
    (Some (magic_MPIF ++ [x01; x02]))
    (Some [])
    [Layer 1 "0X01 LAYER" [x01; x00; x00; x00; x07];
     Layer (-1) "UNKNOWN_-1" [x09]]
    None.

Lemma dat_roundtrip_witness :
  ∃ main c,
    build_dat_file sample_dat = Ok main ∧
    len main = 160 ∧
    compress_lz10 main = Ok c ∧
    parse_dat_map (λ _, "??"%string) (<[ "map.dat"%string := c ]> ∅)
      "map.dat"%string
    = Ok (DatResult
            (Some (magic_MPIF ++ [x01; x02; x00; x00]))
            None
            [Layer 1 "0X01 LAYER" [x01; x00; x00; x00; x07; x00; x00; x00];
             Layer 9 "0X09 LAYER" [x09; x00; x00; x00]]
            None).
Proof.
  apply (dat_roundtrip (λ _, "??"%string) sample_dat ∅ "map.dat"%string).
  - intros b [= <-] _. by vm_compute.
  - intros b [= <-] Hb. done.
  - intros b [=].
  - repeat constructor; by vm_compute.
  - by vm_compute.
Defined.

End DatRoundTrip.

(** ** Validation before an import and classification after it *)

Module ValidateFacts.
Import NARC TexParser ImportTileset.
Import NARCFacts TexFacts TexRoundTrip.

Lemma detect_magic_intro (magics : list (bytes * string))
    (b0 b1 b2 b3 : byte) (rest : bytes) (m : bytes * string) :
  m ∈ magics →
  bytes_eqb [b0; b1; b2; b3] m.1 = true
  ∨ bytes_eqb [b3; b2; b1; b0] m.1 = true
  ∨ bytes_eqb [b0; b1; b2] (slice m.1 0 3) = true →
  (detect_magic magics (b0 :: b1 :: b2 :: b3 :: rest)).1 = true.
Proof.
  intros Hm Hcase. unfold detect_magic.
  assert (bool_decide (b0 :: b1 :: b2 :: b3 :: rest = [])
          || (len (b0 :: b1 :: b2 :: b3 :: rest) <? 4) = false) as ->.
  { rewrite bool_decide_eq_false_2 by done. cbn [orb].
    apply Z.ltb_ge. unfold len. simpl. lia. }
  rewrite slice_head4. cbv zeta.
  change (reverse [b0; b1; b2; b3]) with [b3; b2; b1; b0].
  change (slice [b0; b1; b2; b3] 0 3) with [b0; b1; b2].
  destruct (first_match (λ m, bytes_eqb [b0; b1; b2; b3] m.1) magics)
    as [[mb name]|] eqn:H1; [done|].
  destruct (first_match (λ m, bytes_eqb [b3; b2; b1; b0] m.1) magics)
    as [[mb name]|] eqn:H2; [done|].
  destruct (first_match (λ m, _ || _) magics) as [[mb name]|] eqn:H3; [done|].
  exfalso. destruct Hcase as [Hc|[Hc|Hc]].
  - destruct (first_match_found (λ m, bytes_eqb [b0; b1; b2; b3] m.1)
                magics m Hm Hc) as [y Hy]. congruence.
  - destruct (first_match_found (λ m, bytes_eqb [b3; b2; b1; b0] m.1)
                magics m Hm Hc) as [y Hy]. congruence.
  - destruct (first_match_found
                (λ m, bytes_eqb [b0; b1; b2] (slice m.1 0 3)
                      || bytes_eqb (slice [b0; b1; b2; b3] 1 4)
                           (slice m.1 1 4)) magics m Hm) as [y Hy];
      [by rewrite Hc|congruence].
Qed.

Lemma graphics_magics_known (m : bytes * string) :
  m ∈ ImportTileset.graphics_magics → m ∈ TexParser.graphics_magics.
Proof.
  unfold ImportTileset.graphics_magics, TexParser.graphics_magics.
  intros H. repeat (apply elem_of_cons in H as [->|H]);
    [..|by apply elem_of_nil in H]; repeat first [by left | right].
Qed.

Lemma palette_magics_known (m : bytes * string) :
  m ∈ ImportTileset.palette_magics → m ∈ TexParser.palette_magics.
Proof. done. Qed.

Lemma scan_sections_result (data : bytes) (offsets : list Z)
    (r : string * string) :
  scan_sections data offsets = Some r →
  r = ("RGCN", "RGCN_BY_SECTION")%string
  ∨ r = ("RLCN", "RLCN_BY_SECTION")%string.
Proof.
  induction offsets as [|o offsets IH]; [done|]. cbn [scan_sections].
  destruct (existsb _ _); [intros [= <-]; by left|].
  destruct (existsb _ _); [intros [= <-]; by right|]. done.
Qed.

Section Validate.

Variable hex_upper : bytes → string.
Variable str_int : Z → string.

(** What [detect_file_type] calls graphics by its magic, the detector of
    [texparser.py] detects as graphics as well; the same for palettes. *)
Lemma detect_file_type_detected (data : bytes) (fmt : string) :
  (detect_file_type hex_upper data = ("RGCN"%string, fmt) →
   fmt ≠ "RGCN_BY_SECTION"%string →
   (detect_graphics_magic data).1 = true)
  ∧ (detect_file_type hex_upper data = ("RLCN"%string, fmt) →
     fmt ≠ "RLCN_BY_SECTION"%string →
     (detect_palette_magic data).1 = true).
Proof.
  unfold detect_file_type.
  destruct (bool_decide (data = []) || (len data <? 4)) eqn:Hs; [done|].
  apply orb_false_iff in Hs as [_ Hlen%Z.ltb_ge].
  destruct (four_bytes data Hlen) as (b0 & b1 & b2 & b3 & rest & ->).
  rewrite slice_head4. cbv zeta.
  change (reverse [b0; b1; b2; b3]) with [b3; b2; b1; b0].
  change (slice [b0; b1; b2; b3] 0 3) with [b0; b1; b2].
  destruct (first_match _ ImportTileset.graphics_magics)
    as [[mb name]|] eqn:H1.
  { apply first_match_Some in H1 as [Hin Hp]. split; [|done]. intros _ _.
    eapply detect_magic_intro; [by apply graphics_magics_known|by left]. }
  destruct (first_match (λ m, bytes_eqb [b0; b1; b2; b3] m.1)
              ImportTileset.palette_magics) as [[mb name]|] eqn:H2.
  { apply first_match_Some in H2 as [Hin Hp]. split; [done|]. intros _ _.
    eapply detect_magic_intro; [by apply palette_magics_known|by left]. }
  destruct (first_match (λ m, bytes_eqb [b3; b2; b1; b0] m.1)
              ImportTileset.graphics_magics) as [[mb name]|] eqn:H3.
  { apply first_match_Some in H3 as [Hin Hp]. split; [|done]. intros _ _.
    eapply detect_magic_intro; [by apply graphics_magics_known|].
    right. by left. }
  destruct (first_match (λ m, bytes_eqb [b3; b2; b1; b0] m.1)
              ImportTileset.palette_magics) as [[mb name]|] eqn:H4.
  { apply first_match_Some in H4 as [Hin Hp]. split; [done|]. intros _ _.
    eapply detect_magic_intro; [by apply palette_magics_known|].
    right. by left. }
  destruct (first_match (λ m, bytes_eqb [b0; b1; b2] (slice m.1 0 3))
              ImportTileset.graphics_magics) as [[mb name]|] eqn:H5.
  { apply first_match_Some in H5 as [Hin Hp]. split; [|done]. intros _ _.
    eapply detect_magic_intro; [by apply graphics_magics_known|].
    right. by right. }
  destruct (first_match (λ m, bytes_eqb [b0; b1; b2] (slice m.1 0 3))
              ImportTileset.palette_magics) as [[mb name]|] eqn:H6.
  { apply first_match_Some in H6 as [Hin Hp]. split; [done|]. intros _ _.
    eapply detect_magic_intro; [by apply palette_magics_known|].
    right. by right. }
  destruct (scan_sections _ _) as [r|] eqn:Hscan; [|done].
  apply scan_sections_result in Hscan as [->| ->];
    split; intros [= <-] Hf; done.
Qed.

Lemma try_parse_detected (magics : list (bytes * string))
    (sections : list bytes) (data : bytes) :
  32 ≤ len data → (detect_magic magics data).1 = true →
  try_parse magics sections data = Some data.
Proof.
  intros Hlen Hd. unfold try_parse.
  rewrite nonempty by lia.
  assert ((len data <? 32) = false) as -> by (apply Z.ltb_ge; lia).
  cbn [orb]. by rewrite Hd.
Qed.

Lemma validate_accepts (g p : bytes) (msg : string) :
  validate_tileset_files hex_upper str_int g p = (true, msg) →
  (detect_file_type hex_upper g).1 = "RGCN"%string ∧ 32 ≤ len g ∧
  (detect_file_type hex_upper p).1 = "RLCN"%string ∧ 32 ≤ len p.
Proof.
  unfold validate_tileset_files.
  destruct (detect_file_type hex_upper g) as [gt gf].
  destruct (detect_file_type hex_upper p) as [pt pf]. cbn [fst].
  destruct (String.eqb_spec gt "RGCN"), (Z.ltb_spec (len g) 32),
    (String.eqb_spec pt "RLCN"), (Z.ltb_spec (len p) 32);
    cbn [negb app]; try (by rewrite bool_decide_eq_false_2).
  done.
Qed.

(** X27.  A pair of files that [validate_tileset_files] accepts, each
    recognised by its first bytes rather than by a section found further
    on, is accepted by the classifier of [texparser.py]: the pair, as it
    comes out of an archive, is classified as graphics and palette. *)
Theorem validated_pair_classified (g p : bytes) (msg : string) :
  validate_tileset_files hex_upper str_int g p = (true, msg) →
  (detect_file_type hex_upper g).2 ≠ "RGCN_BY_SECTION"%string →
  (detect_file_type hex_upper p).2 ≠ "RLCN_BY_SECTION"%string →
  try_parse_as_graphics g = Some g ∧ try_parse_as_palette p = Some p ∧
  classify_tileset_data [pad4 g; pad4 p] = Ok (Some (pad4 g), Some (pad4 p)).
Proof.
  intros (Hgt & Hlg & Hpt & Hlp)%validate_accepts Hgf Hpf.
  destruct (detect_file_type hex_upper g) as [gt gf] eqn:Hg.
  destruct (detect_file_type hex_upper p) as [pt pf] eqn:Hp.
  cbn [fst snd] in *. subst gt pt.
  apply (detect_file_type_detected g gf) in Hg; [|done].
  apply (detect_file_type_detected p pf) in Hp; [|done].
  assert (try_parse_as_graphics g = Some g) as Hag
    by (by apply try_parse_detected).
  assert (try_parse_as_palette p = Some p) as Hap
    by (by apply try_parse_detected).
  split; [done|]. split; [done|].
  apply try_parse_pad4 in Hag as [_ Hag]. apply try_parse_pad4 in Hap as [_ Hap].
  pose proof (len_pad4_ge g). pose proof (len_pad4_ge p).
  apply classify_pair; done || lia.
Qed.

(** The condition on sections is needed: a file whose only mark is a
    section at offset 64 passes the validation and is not recognised by
    [try_parse_as_graphics], which looks at the first 64 offsets only. *)
Lemma section_beyond_64 :
  ∃ g, detect_file_type hex_upper g = ("RGCN", "RGCN_BY_SECTION")%string ∧
       32 ≤ len g ∧ try_parse_as_graphics g = None.
Proof.
  exists (replicate 64 x00 ++ ["R"; "A"; "H"; "C"; x00; x00; x00; x00]%byte).
  by vm_compute.
Qed.

End Validate.

Lemma validated_pair_classified_witness :
  try_parse_as_graphics sample_graphics = Some sample_graphics ∧
  try_parse_as_palette sample_palette = Some sample_palette ∧
  classify_tileset_data [pad4 sample_graphics; pad4 sample_palette]
  = Ok (Some (pad4 sample_graphics), Some (pad4 sample_palette)).
Proof.
  apply (validated_pair_classified (λ _, ""%string) (λ _, ""%string)
           sample_graphics sample_palette "Valid"%string); by vm_compute.
Defined.

End ValidateFacts.
